(** * Helm bridge: hub session, cloud session, batcher, pairing

    A shallow embedding of the bridge daemon's TypeScript sources
    ([bridge/src/ha-ws-client.ts], [bridge/src/credential-store.ts],
    the cloud client and the [HelmBridge] orchestrator) and the
    properties its specification states about them; then the
    configuration loader, the mappers of the REST client, the assembly of
    a full sync, the web server's entity cache, the duplicate detector
    and the cloud's socket server, with further properties of the code.

    Conventions of the embedding.
    - A method of a class becomes a function from the object's fields to
      the new fields and the list of effects it performs, in program
      order (frames written to a socket, signals emitted, promises
      settled, timers armed).
    - A promise returned by [sendCommand] is identified by the caller that
      awaits it; settling it is an effect, and the orchestrator runs the
      awaiting continuation when it sees that effect.
    - Promises awaited several at a time (the five requests of a full
      sync, the requests of [start]) and the promise of the cloud
      connection awaited by the pairing poll continue in inputs of their
      own, which carry what the promises settled with.
    - Timers and sockets belong to the environment: the firing of a timer
      and the open, message and close events of a socket are inputs; so
      are the answers of [fetch] to the pairing poll.
    - The file system belongs to the environment: an input carries the
      verdict of the operating system on a write or a removal of the
      credential file, and a refused operation throws as in the source.
    - Texts are strings of bytes; the case mapping and the white space of
      the engine are modelled on ASCII, and the statements that depend on
      them are made for ASCII texts.
    - JSON payloads the bridge never inspects are opaque strings.
    - [new Date().toISOString()] and [crypto.randomUUID()] are inputs.

    Left out: the [error] events of the sockets, whose handlers log,
    re-emit and reject the connect promise without touching a field; the
    HTTP requests of the REST client and of [start] (the hub version they
    give is a field of the state that no input sets), the request of a
    pairing code, the local database, the routes of the web server and of
    the cloud, and the diagnostic logger. *)

From Stdlib Require Import ZArith String Ascii List Bool Lia Sorted.
From stdpp Require Import base option list gmap strings.
Import ListNotations.

Local Open Scope Z_scope.
Local Open Scope string_scope.

(** Opaque JSON text. *)
Definition json := string.

(** ** JavaScript string primitives used by the sources *)

Module JS.

(** A text of ASCII characters only.  The engine's treatment of other
    characters (the Unicode case mapping, the Unicode white space) is not
    in the sources: on such texts [toLowerCase] below and the trimming of
    the duplicate detector say nothing about the engine, and the
    statements that depend on their results are made for ASCII texts. *)
Definition ascii_char (c : ascii) : bool := Nat.ltb (nat_of_ascii c) 128.

Fixpoint ascii_text (s : string) : bool :=
  match s with
  | EmptyString => true
  | String c r => ascii_char c && ascii_text r
  end.

(** [String.prototype.toLowerCase] on ASCII text: the letters [A]..[Z]
    are mapped to [a]..[z], every other character is kept. *)
Definition lower (c : ascii) : ascii :=
  let n := nat_of_ascii c in
  if (Nat.leb 65 n && Nat.leb n 90)%bool then ascii_of_nat (n + 32) else c.

Fixpoint toLowerCase (s : string) : string :=
  match s with
  | EmptyString => EmptyString
  | String c r => String (lower c) (toLowerCase r)
  end.

(** [s.startsWith(t)]. *)
Fixpoint startsWith (s t : string) : bool :=
  match t, s with
  | EmptyString, _ => true
  | String _ _, EmptyString => false
  | String b t', String a s' => if Ascii.eqb a b then startsWith s' t' else false
  end.

(** [s.includes(t)]: [t] occurs in [s] at some position. *)
Fixpoint includes (s t : string) : bool :=
  match s with
  | EmptyString => startsWith s t
  | String _ s' => startsWith s t || includes s' t
  end.

(** Truthiness of a string: only the empty string is falsy. *)
Definition truthy (s : string) : bool :=
  match s with EmptyString => false | String _ _ => true end.

(** [x || d] on an optional string: [undefined] and [""] give [d]. *)
Definition or_default (x : option string) (d : string) : string :=
  match x with
  | Some s => if truthy s then s else d
  | None => d
  end.

End JS.

(** ** bridge/src/credential-store.ts *)

Module CredentialStore.

(** [bridgeId] and [tenantId] are optional here although the interface
    declares them as strings: the pairing poll stores [data.bridgeId!]
    and [data.tenantId!], and a non-null assertion checks nothing at run
    time.  An absent or empty [bridgeCredential] is the empty string. *)
Record StoredCredentials := {
  bridgeId : option string;
  bridgeCredential : string;
  tenantId : option string;
  pairedAt : option string;
  cloudUrl : option string;
}.

(** The store: the file at [filePath] (absent, or holding the JSON text
    of a record, kept here as the record) and the in-memory copy.  The
    operating system may refuse to write or to remove the file: [save]
    and [clear] take its verdict [disk] and give [None] where the source
    logs and rethrows.  The copy in memory is then as it was; so is the
    file after a refused removal, and nothing below is stated about the
    file after a refused write. *)
Record t := {
  filePath : string;
  file : option StoredCredentials;
  credentials : option StoredCredentials;
}.

Definition load (path : string) (f : option StoredCredentials) : t :=
  {| filePath := path; file := f; credentials := f |}.

(** [save]: the directory is made and the file written, then the copy is
    set. *)
Definition save (disk : bool) (c : StoredCredentials) (s : t) : option t :=
  if disk then Some {| filePath := filePath s; file := Some c; credentials := Some c |}
  else None.

Definition get (s : t) : option StoredCredentials := credentials s.

Definition isPaired (s : t) : bool :=
  match credentials s with
  | Some c => JS.truthy (bridgeCredential c)
  | None => false
  end.

(** [clear]: the file is removed if it exists, then the copy is nulled. *)
Definition clear (disk : bool) (s : t) : option t :=
  match file s with
  | Some _ =>
      if disk then Some {| filePath := filePath s; file := None; credentials := None |}
      else None
  | None => Some {| filePath := filePath s; file := None; credentials := None |}
  end.

End CredentialStore.

(** ** Hub state-change events ([HAState], [HAStateChangedEvent]) *)

Record HAState := {
  state : string;
  attributes : json;
  last_changed : string;
  last_updated : string;
}.

Record HAStateChangedEvent := {
  entity_id : string;
  old_state : option HAState;
  new_state : option HAState;
  context_id : option string;
}.

(** The caller awaiting the promise of a hub RPC. *)
Inductive caller :=
| AwaitCommand (cmdId : string)   (* HelmBridge.handleCloudCommand *)
| AwaitOther (tag : string).      (* getStates, getEntities, ... *)

(** ** bridge/src/ha-ws-client.ts *)

Module HAWebSocketClient.

Inductive readyState := CONNECTING | OPEN | CLOSING | CLOSED.

(** Inbound frames, by their [type]. *)
Inductive message :=
| auth_required
| auth_ok
| auth_invalid (msg : string)
| event (state_changed : option HAStateChangedEvent)
| result (id : option Z) (success : bool) (res : json) (error_message : option string)
| unknown (type : string).

(** Outbound frames. *)
Inductive frame :=
| FAuth (access_token : string)
| FSubscribeEvents (id : Z)
| FCommand (id : Z) (type : string) (data : list (string * json)).

Inductive signal :=
| disconnected
| authenticated_sig
| auth_failed (msg : string)
| state_changed (ev : HAStateChangedEvent).

Inductive effect :=
| WsNew                              (* new WebSocket(url) *)
| WsSend (f : frame)                 (* ws.send *)
| WsClose                            (* ws.close() *)
| Emit (s : signal)
| Resolve (k : caller) (v : json)
| Reject (k : caller) (err : string)
| ConnectResolve
| ConnectReject (err : string)
| SetRpcTimeout (id : Z) (k : caller) (ms : Z)
| SetReconnectTimer (ms : Z)
| ClearReconnectTimer.

Record state := {
  haToken : string;
  ws : option readyState;
  messageId : Z;
  reconnectTimer : option Z;          (* the handle; we keep its delay *)
  authenticated : bool;
  eventSubscriptionId : option Z;
  reconnectAttempts : Z;
  shouldReconnect : bool;
  pendingResponses : gmap Z caller;
}.

Definition maxReconnectAttempts : Z := 10.
Definition reconnectDelay : Z := 1000.

Definition init (token : string) : state :=
  {| haToken := token; ws := None; messageId := 1; reconnectTimer := None;
     authenticated := false; eventSubscriptionId := None;
     reconnectAttempts := 0; shouldReconnect := true;
     pendingResponses := ∅ |}.

(** [send]: writes only when the socket exists and is open. *)
Definition send (s : state) (f : frame) : list effect :=
  match ws s with
  | Some OPEN => [WsSend f]
  | _ => []
  end.

(** [connect]: a fresh socket replaces the current one. *)
Definition connect (s : state) : state * list effect :=
  ({| haToken := haToken s; ws := Some CONNECTING; messageId := messageId s;
      reconnectTimer := reconnectTimer s; authenticated := authenticated s;
      eventSubscriptionId := eventSubscriptionId s;
      reconnectAttempts := reconnectAttempts s;
      shouldReconnect := shouldReconnect s;
      pendingResponses := pendingResponses s |}, [WsNew]).

(** The socket's [open] handler. *)
Definition on_open (s : state) : state * list effect :=
  ({| haToken := haToken s; ws := Some OPEN; messageId := messageId s;
      reconnectTimer := reconnectTimer s; authenticated := authenticated s;
      eventSubscriptionId := eventSubscriptionId s;
      reconnectAttempts := 0;
      shouldReconnect := shouldReconnect s;
      pendingResponses := pendingResponses s |}, []).

Definition sendAuth (s : state) : list effect := send s (FAuth (haToken s)).

(** [subscribeToEvents]: takes the next id. *)
Definition subscribeToEvents (s : state) : state * list effect :=
  let id := messageId s in
  let s' := {| haToken := haToken s; ws := ws s; messageId := id + 1;
               reconnectTimer := reconnectTimer s; authenticated := authenticated s;
               eventSubscriptionId := Some id;
               reconnectAttempts := reconnectAttempts s;
               shouldReconnect := shouldReconnect s;
               pendingResponses := pendingResponses s |} in
  (s', send s' (FSubscribeEvents id)).

(** [handleEvent]: [None] stands for a frame without [event] or whose
    [event_type] is not [state_changed]. *)
Definition handleEvent (s : state) (ev : option HAStateChangedEvent) : list effect :=
  match ev with
  | Some e => [Emit (state_changed e)]
  | None => []
  end.

(** [handleResult]: [id && pendingResponses.has(id)]. *)
Definition handleResult (s : state) (id : option Z) (success : bool)
    (res : json) (err : option string) : state * list effect :=
  match id with
  | Some i =>
      if Z.eqb i 0 then (s, []) else
      match pendingResponses s !! i with
      | Some k =>
          ({| haToken := haToken s; ws := ws s; messageId := messageId s;
              reconnectTimer := reconnectTimer s; authenticated := authenticated s;
              eventSubscriptionId := eventSubscriptionId s;
              reconnectAttempts := reconnectAttempts s;
              shouldReconnect := shouldReconnect s;
              pendingResponses := delete i (pendingResponses s) |},
           if success then [Resolve k res]
           else [Reject k (JS.or_default err "Unknown error")])
      | None => (s, [])
      end
  | None => (s, [])
  end.

Definition handleMessage (s : state) (m : message) : state * list effect :=
  match m with
  | auth_required => (s, sendAuth s)
  | auth_ok =>
      let s1 := {| haToken := haToken s; ws := ws s; messageId := messageId s;
                   reconnectTimer := reconnectTimer s; authenticated := true;
                   eventSubscriptionId := eventSubscriptionId s;
                   reconnectAttempts := reconnectAttempts s;
                   shouldReconnect := shouldReconnect s;
                   pendingResponses := pendingResponses s |} in
      let '(s2, e2) := subscribeToEvents s1 in
      (s2, (Emit authenticated_sig :: e2 ++ [ConnectResolve])%list)
  | auth_invalid msg =>
      (s, [Emit (auth_failed msg); ConnectReject ("HA auth failed: " ++ msg)])
  | event ev => (s, handleEvent s ev)
  | result id success res err => handleResult s id success res err
  | unknown _ => (s, [])
  end.

(** [sendCommand], on behalf of caller [k]. *)
Definition sendCommand (s : state) (k : caller) (type : string)
    (data : list (string * json)) : state * list effect :=
  if negb (authenticated s) then (s, [Reject k "Not authenticated"]) else
  let id := messageId s in
  let s' := {| haToken := haToken s; ws := ws s; messageId := id + 1;
               reconnectTimer := reconnectTimer s; authenticated := authenticated s;
               eventSubscriptionId := eventSubscriptionId s;
               reconnectAttempts := reconnectAttempts s;
               shouldReconnect := shouldReconnect s;
               pendingResponses := <[id := k]> (pendingResponses s) |} in
  (s', (send s' (FCommand id type data) ++ [SetRpcTimeout id k 30000])%list).

(** The callback armed by [sendCommand] for request [id] of caller [k]. *)
Definition on_rpc_timeout (s : state) (id : Z) (k : caller) : state * list effect :=
  match pendingResponses s !! id with
  | Some _ =>
      ({| haToken := haToken s; ws := ws s; messageId := messageId s;
          reconnectTimer := reconnectTimer s; authenticated := authenticated s;
          eventSubscriptionId := eventSubscriptionId s;
          reconnectAttempts := reconnectAttempts s;
          shouldReconnect := shouldReconnect s;
          pendingResponses := delete id (pendingResponses s) |},
       [Reject k "Command timeout"])
  | None => (s, [])
  end.

Definition callService (s : state) (k : caller) (domain service : string)
    (serviceData : json) : state * list effect :=
  sendCommand s k "call_service"
    [("domain", domain); ("service", service); ("service_data", serviceData)].

(** [Math.min(reconnectDelay * Math.pow(2, n), 30000)]. *)
Definition backoff (n : Z) : Z := Z.min (reconnectDelay * 2 ^ n) 30000.

Definition scheduleReconnect (s : state) : state * list effect :=
  let e0 := match reconnectTimer s with Some _ => [ClearReconnectTimer] | None => [] end in
  if Z.leb maxReconnectAttempts (reconnectAttempts s) then (s, e0) else
  let delay := backoff (reconnectAttempts s) in
  ({| haToken := haToken s; ws := ws s; messageId := messageId s;
      reconnectTimer := Some delay; authenticated := authenticated s;
      eventSubscriptionId := eventSubscriptionId s;
      reconnectAttempts := reconnectAttempts s + 1;
      shouldReconnect := shouldReconnect s;
      pendingResponses := pendingResponses s |},
   (e0 ++ [SetReconnectTimer delay])%list).

(** The socket's [close] handler. *)
Definition on_close (s : state) : state * list effect :=
  let s1 := {| haToken := haToken s;
               ws := match ws s with Some _ => Some CLOSED | None => None end;
               messageId := messageId s;
               reconnectTimer := reconnectTimer s; authenticated := false;
               eventSubscriptionId := None;
               reconnectAttempts := reconnectAttempts s;
               shouldReconnect := shouldReconnect s;
               pendingResponses := pendingResponses s |} in
  if shouldReconnect s1 then
    let '(s2, e2) := scheduleReconnect s1 in (s2, Emit disconnected :: e2)
  else (s1, [Emit disconnected]).

(** The reconnect timer's callback: [await this.connect()]. *)
Definition on_reconnect_timer (s : state) : state * list effect := connect s.

Definition disconnect (s : state) : state * list effect :=
  let e1 := match reconnectTimer s with Some _ => [ClearReconnectTimer] | None => [] end in
  let e2 := match ws s with Some _ => [WsClose] | None => [] end in
  ({| haToken := haToken s; ws := None; messageId := messageId s;
      reconnectTimer := None; authenticated := false;
      eventSubscriptionId := eventSubscriptionId s;
      reconnectAttempts := reconnectAttempts s;
      shouldReconnect := false;
      pendingResponses := ∅ |}, (e1 ++ e2)%list).

Definition isConnected (s : state) : bool :=
  match ws s with
  | Some OPEN => authenticated s
  | _ => false
  end.

End HAWebSocketClient.

(** ** The REST client's mappers ([HARestClient]) *)

Module HARestClient.

(** The registry entries and states as the hub sends them; a field that
    may be absent or null is optional. *)
Record HAAreaRegistry := {
  area_id : string;
  a_name : string;
  a_picture : option string;
}.

Record HADeviceRegistry := {
  d_id : string;
  d_name : option string;
  name_by_user : option string;
  d_manufacturer : option string;
  d_model : option string;
  d_area_id : option string;
  d_identifiers : option (list (string * string));
  sw_version : option string;
  hw_version : option string;
  configuration_url : option string;
}.

(** The attributes of a state: [friendly_name], and the JSON text of the
    whole object. *)
Record Attributes := {
  friendly_name : option string;
  attr_json : json;
}.

Record HAStateRaw := {
  s_entity_id : string;
  s_state : string;
  s_attributes : option Attributes;
  s_last_changed : option string;
  s_last_updated : option string;
}.

Record HAEntityRegistry := {
  r_entity_id : string;
  r_device_id : option string;
  r_area_id : option string;
}.

(** The protocol's entities. *)
Record HAArea := {
  area_ident : string;
  area_name : string;
  area_picture : option string;
}.

Record HADevice := {
  dev_id : string;
  dev_name : option string;
  manufacturer : option string;
  model : option string;
  dev_areaId : option string;
  identifiers : list (string * string);
  swVersion : option string;
  hwVersion : option string;
  configurationUrl : option string;
}.

Record HAEntity := {
  entityId : string;
  domain : string;
  friendlyName : option string;
  deviceId : option string;
  areaId : option string;
  e_state : string;
  e_attributes : json;
  lastChanged : string;
  lastUpdated : string;
}.

Record HAService := {
  sv_domain : string;
  sv_services : json;
}.

(** [x || y] on optional strings: absent and empty are falsy. *)
Definition or_else (x y : option string) : option string :=
  match x with
  | Some s => if JS.truthy s then Some s else y
  | None => y
  end.

(** [s.split('.')[0]]: the part before the first dot. *)
Fixpoint before_dot (s : string) : string :=
  match s with
  | EmptyString => EmptyString
  | String c r => if Ascii.eqb c "." then EmptyString else String c (before_dot r)
  end.

Definition mapAreaToProtocol (a : HAAreaRegistry) : HAArea :=
  {| area_ident := area_id a; area_name := a_name a; area_picture := a_picture a |}.

Definition mapDeviceToProtocol (d : HADeviceRegistry) : HADevice :=
  {| dev_id := d_id d;
     dev_name := or_else (name_by_user d) (or_else (d_name d) None);
     manufacturer := d_manufacturer d;
     model := d_model d;
     dev_areaId := d_area_id d;
     identifiers := match d_identifiers d with Some l => l | None => [] end;
     swVersion := sw_version d;
     hwVersion := hw_version d;
     configurationUrl := configuration_url d |}.

(** [mapStateToProtocol]; [now] is [new Date().toISOString()]. *)
Definition mapStateToProtocol (now : string) (s : HAStateRaw)
    (registry : option HAEntityRegistry) : HAEntity :=
  {| entityId := s_entity_id s;
     domain := before_dot (s_entity_id s);
     friendlyName := match s_attributes s with
                     | Some a => friendly_name a
                     | None => None
                     end;
     deviceId := match registry with Some r => r_device_id r | None => None end;
     areaId := match registry with Some r => r_area_id r | None => None end;
     e_state := s_state s;
     e_attributes := match s_attributes s with
                     | Some a => attr_json a
                     | None => "{}"
                     end;
     lastChanged := match s_last_changed s with Some t => t | None => now end;
     lastUpdated := match s_last_updated s with Some t => t | None => now end |}.

Definition mapServiceToProtocol (d : string * option json) : HAService :=
  {| sv_domain := fst d;
     sv_services := match snd d with Some j => j | None => "{}" end |}.

End HARestClient.

(** ** The snapshot of a full sync ([HelmBridge.collectFullSync]) *)

Module FullSync.

Import HARestClient.

Record FullSyncData := {
  areas : list HAArea;
  devices : list HADevice;
  entities : list HAEntity;
  services : list HAService;
}.

(** What the five requests gave: [None] for a request that was rejected
    (its [catch] gives an empty collection) or whose result is not an
    array; the services come as the entries of an object. *)
Record raw := {
  areasRaw : option (list HAAreaRegistry);
  devicesRaw : option (list HADeviceRegistry);
  statesRaw : option (list HAStateRaw);
  servicesRaw : option (list (string * json));
  entityRegistryRaw : option (list HAEntityRegistry);
}.

Definition array {A} (x : option (list A)) : list A :=
  match x with Some l => l | None => [] end.

(** [entityList.forEach(e => this.entityRegistry.set(e.entity_id, e))]. *)
Definition register (reg : gmap string HAEntityRegistry) (l : list HAEntityRegistry)
    : gmap string HAEntityRegistry :=
  fold_left (fun m e => <[r_entity_id e := e]> m) l reg.

(** The part of [collectFullSync] that follows the five requests: the
    new entity registry, the new entity count and the snapshot. *)
Definition assemble (now : string) (reg : gmap string HAEntityRegistry) (r : raw)
    : gmap string HAEntityRegistry * Z * FullSyncData :=
  let reg' := register reg (array (entityRegistryRaw r)) in
  let areas := map mapAreaToProtocol (array (areasRaw r)) in
  let devices := map mapDeviceToProtocol (array (devicesRaw r)) in
  let entities :=
    map (fun s => mapStateToProtocol now s (reg' !! s_entity_id s))
      (array (statesRaw r)) in
  let services :=
    map (fun d => mapServiceToProtocol (fst d, Some (snd d))) (array (servicesRaw r)) in
  (reg', Z.of_nat (length entities),
   {| areas := areas; devices := devices; entities := entities;
      services := services |}).

End FullSync.

(** ** The cloud client ([CloudClient]) *)

Module CloudClient.

Import CredentialStore.

Inductive readyState := CONNECTING | OPEN | CLOSING | CLOSED.

(** The [payload] of a [ha_call_service] command, as destructured by the
    executor. *)
Record ServicePayload := {
  domain : json;
  service : json;
  serviceData : option json;
}.

Record CommandMessage := {
  cmdId : string;
  commandType : string;
  payload : option ServicePayload;     (* [None]: null or undefined *)
  requiresAck : bool;
  issuedAt : string;
  ttlMs : option Z;
}.

(** Inbound frames, by their [type]. *)
Inductive message :=
| auth_result (success : bool) (tenant : option string) (error : option string)
| command (c : CommandMessage)
| request_full_sync (reason : option string)
| request_heartbeat
| disconnect_request (reason : option string)
| unknown (type : string).

Inductive result_status := completed | failed | expired.

Record StateSnapshot := {
  s_state : string;
  s_attributes : json;
  lastChanged : string;
  lastUpdated : string;
}.

Record StateChangedEvent := {
  entityId : string;
  oldState : option StateSnapshot;
  newState : StateSnapshot;
  timestamp : string;
}.

(** Outbound frames. *)
Inductive frame :=
| authenticate (bridge credential protocolVersion : string)
| heartbeat (at_time haVersion : string) (lastEventAt : option string)
    (entityCount reconnectCount : Z)
| command_ack (cmd receivedAt : string)
| command_result (cmd : string) (status : result_status) (completedAt : string)
    (haResponse : option json) (error : option (string * string))
| state_batch (batchId batchedAt : string) (events : list StateChangedEvent)
    (isOverflow : bool)
| full_sync (syncedAt haVersion : string) (data : FullSync.FullSyncData).

Inductive signal :=
| connected
| disconnected
| authenticated_sig (tenant : option string)
| auth_failed (error : string)
| command_sig (c : CommandMessage)
| request_full_sync_sig (reason : option string).

Inductive effect :=
| WsNew
| WsSend (f : frame)
| WsClose
| Emit (s : signal)
| ConnectResolve
| ConnectReject (err : string)
| SetHeartbeat
| ClearHeartbeat
| SetReconnectTimer (ms : Z)
| ClearReconnectTimer.

Record state := {
  bridgeName : string;                 (* config.bridgeId *)
  protocol : string;                   (* config.protocolVersion *)
  ws : option readyState;
  authenticated : bool;
  tenantId : option string;
  reconnectTimer : option Z;
  heartbeatTimer : bool;
  reconnectAttempts : Z;
  shouldReconnect : bool;
  lastEventAt : option string;
  haVersion : string;
  entityCount : Z;
  reconnectCount : Z;
}.

Definition maxReconnectAttempts : Z := 10.
Definition reconnectDelay : Z := 1000.

Definition init (bridge proto : string) : state :=
  {| bridgeName := bridge; protocol := proto; ws := None; authenticated := false;
     tenantId := None; reconnectTimer := None; heartbeatTimer := false;
     reconnectAttempts := 0; shouldReconnect := true; lastEventAt := None;
     haVersion := "unknown"; entityCount := 0; reconnectCount := 0 |}.

Definition set_ws (w : option readyState) (s : state) : state :=
  {| bridgeName := bridgeName s; protocol := protocol s; ws := w;
     authenticated := authenticated s; tenantId := tenantId s;
     reconnectTimer := reconnectTimer s; heartbeatTimer := heartbeatTimer s;
     reconnectAttempts := reconnectAttempts s; shouldReconnect := shouldReconnect s;
     lastEventAt := lastEventAt s; haVersion := haVersion s;
     entityCount := entityCount s; reconnectCount := reconnectCount s |}.

Definition set_authenticated (a : bool) (s : state) : state :=
  {| bridgeName := bridgeName s; protocol := protocol s; ws := ws s;
     authenticated := a; tenantId := tenantId s;
     reconnectTimer := reconnectTimer s; heartbeatTimer := heartbeatTimer s;
     reconnectAttempts := reconnectAttempts s; shouldReconnect := shouldReconnect s;
     lastEventAt := lastEventAt s; haVersion := haVersion s;
     entityCount := entityCount s; reconnectCount := reconnectCount s |}.

Definition set_tenantId (t : option string) (s : state) : state :=
  {| bridgeName := bridgeName s; protocol := protocol s; ws := ws s;
     authenticated := authenticated s; tenantId := t;
     reconnectTimer := reconnectTimer s; heartbeatTimer := heartbeatTimer s;
     reconnectAttempts := reconnectAttempts s; shouldReconnect := shouldReconnect s;
     lastEventAt := lastEventAt s; haVersion := haVersion s;
     entityCount := entityCount s; reconnectCount := reconnectCount s |}.

Definition set_reconnectTimer (t : option Z) (s : state) : state :=
  {| bridgeName := bridgeName s; protocol := protocol s; ws := ws s;
     authenticated := authenticated s; tenantId := tenantId s;
     reconnectTimer := t; heartbeatTimer := heartbeatTimer s;
     reconnectAttempts := reconnectAttempts s; shouldReconnect := shouldReconnect s;
     lastEventAt := lastEventAt s; haVersion := haVersion s;
     entityCount := entityCount s; reconnectCount := reconnectCount s |}.

Definition set_heartbeatTimer (h : bool) (s : state) : state :=
  {| bridgeName := bridgeName s; protocol := protocol s; ws := ws s;
     authenticated := authenticated s; tenantId := tenantId s;
     reconnectTimer := reconnectTimer s; heartbeatTimer := h;
     reconnectAttempts := reconnectAttempts s; shouldReconnect := shouldReconnect s;
     lastEventAt := lastEventAt s; haVersion := haVersion s;
     entityCount := entityCount s; reconnectCount := reconnectCount s |}.

Definition set_attempts (n c : Z) (s : state) : state :=
  {| bridgeName := bridgeName s; protocol := protocol s; ws := ws s;
     authenticated := authenticated s; tenantId := tenantId s;
     reconnectTimer := reconnectTimer s; heartbeatTimer := heartbeatTimer s;
     reconnectAttempts := n; shouldReconnect := shouldReconnect s;
     lastEventAt := lastEventAt s; haVersion := haVersion s;
     entityCount := entityCount s; reconnectCount := c |}.

Definition set_shouldReconnect (b : bool) (s : state) : state :=
  {| bridgeName := bridgeName s; protocol := protocol s; ws := ws s;
     authenticated := authenticated s; tenantId := tenantId s;
     reconnectTimer := reconnectTimer s; heartbeatTimer := heartbeatTimer s;
     reconnectAttempts := reconnectAttempts s; shouldReconnect := b;
     lastEventAt := lastEventAt s; haVersion := haVersion s;
     entityCount := entityCount s; reconnectCount := reconnectCount s |}.

Definition updateStats (v : string) (n : Z) (l : option string) (s : state) : state :=
  {| bridgeName := bridgeName s; protocol := protocol s; ws := ws s;
     authenticated := authenticated s; tenantId := tenantId s;
     reconnectTimer := reconnectTimer s; heartbeatTimer := heartbeatTimer s;
     reconnectAttempts := reconnectAttempts s; shouldReconnect := shouldReconnect s;
     lastEventAt := l; haVersion := v;
     entityCount := n; reconnectCount := reconnectCount s |}.

(** [send]: writes only when the socket exists and is open. *)
Definition send (s : state) (f : frame) : list effect :=
  match ws s with
  | Some OPEN => [WsSend f]
  | _ => []
  end.

(** [connect]: nothing happens unless the store holds a credential. *)
Definition connect (s : state) (cs : CredentialStore.t) : state * list effect :=
  if negb (isPaired cs) then (s, []) else (set_ws (Some CONNECTING) s, [WsNew]).

Definition sendAuth (s : state) (cs : CredentialStore.t) : list effect :=
  match get cs with
  | None => []
  | Some c => send s (authenticate (bridgeName s) (bridgeCredential c) (protocol s))
  end.

(** The socket's [open] handler. *)
Definition on_open (s : state) (cs : CredentialStore.t) : state * list effect :=
  let s1 := set_attempts 0 (reconnectCount s) (set_ws (Some OPEN) s) in
  (s1, Emit connected :: sendAuth s1 cs).

Definition stopHeartbeat (s : state) : state * list effect :=
  if heartbeatTimer s then (set_heartbeatTimer false s, [ClearHeartbeat]) else (s, []).

Definition startHeartbeat (s : state) : state * list effect :=
  let '(s1, e1) := stopHeartbeat s in
  (set_heartbeatTimer true s1, (e1 ++ [SetHeartbeat])%list).

Definition sendHeartbeat (s : state) (now : string) : list effect :=
  if negb (authenticated s) then [] else
  send s (heartbeat now (haVersion s) (lastEventAt s) (entityCount s) (reconnectCount s)).

(** [error.toLowerCase().includes('revoked') || ...includes('invalid')]. *)
Definition is_revocation (error : string) : bool :=
  JS.includes (JS.toLowerCase error) "revoked"
  || JS.includes (JS.toLowerCase error) "invalid".

(** [handleAuthResult].  When [clear] throws, the rest of the handler is
    skipped: the exception ends in the [catch] of the socket's [message]
    handler, which logs it. *)
Definition handleAuthResult (s : state) (cs : CredentialStore.t)
    (success : bool) (tenant error : option string) (disk : bool)
    : state * CredentialStore.t * list effect :=
  if success then
    let s1 := set_tenantId tenant (set_authenticated true s) in
    let '(s2, e2) := startHeartbeat s1 in
    (s2, cs, (Emit (authenticated_sig tenant) :: e2 ++ [ConnectResolve])%list)
  else
    let err := JS.or_default error "Unknown error" in
    if is_revocation err then
      match clear disk cs with
      | Some cs1 =>
          (set_shouldReconnect false s, cs1, [Emit (auth_failed err); ConnectReject err])
      | None => (s, cs, [])
      end
    else (s, cs, [Emit (auth_failed err); ConnectReject err]).

Definition sendCommandAck (s : state) (cmd now : string) : list effect :=
  send s (command_ack cmd now).

Definition handleCommand (s : state) (c : CommandMessage) (now : string) : list effect :=
  ((if requiresAck c then sendCommandAck s (cmdId c) now else [])
     ++ [Emit (command_sig c)])%list.

Definition sendCommandResult (s : state) (cmd : string) (status : result_status)
    (now : string) (haResponse : option json) (error : option (string * string))
    : list effect :=
  send s (command_result cmd status now haResponse error).

Definition sendFullSync (s : state) (data : FullSync.FullSyncData) (now : string)
    : list effect :=
  send s (full_sync now (haVersion s) data).

Definition sendStateBatch (s : state) (changes : list StateChangedEvent)
    (now uuid : string) : list effect :=
  match changes with
  | [] => []
  | _ :: _ => send s (state_batch uuid now changes false)
  end.

Definition scheduleReconnect (s : state) : state * list effect :=
  let e0 := match reconnectTimer s with Some _ => [ClearReconnectTimer] | None => [] end in
  if Z.leb maxReconnectAttempts (reconnectAttempts s) then (s, e0) else
  let delay := Z.min (reconnectDelay * 2 ^ reconnectAttempts s) 60000 in
  (set_reconnectTimer (Some delay)
     (set_attempts (reconnectAttempts s + 1) (reconnectCount s + 1) s),
   (e0 ++ [SetReconnectTimer delay])%list).

(** The socket's [close] handler. *)
Definition on_close (s : state) : state * list effect :=
  let s0 := set_ws (match ws s with Some _ => Some CLOSED | None => None end) s in
  let '(s1, e1) := stopHeartbeat (set_authenticated false s0) in
  if shouldReconnect s1 then
    let '(s2, e2) := scheduleReconnect s1 in
    (s2, (e1 ++ Emit disconnected :: e2)%list)
  else (s1, (e1 ++ [Emit disconnected])%list).

Definition disconnect (s : state) : state * list effect :=
  let s1 := set_shouldReconnect false s in
  let e1 := match reconnectTimer s1 with Some _ => [ClearReconnectTimer] | None => [] end in
  let s2 := set_reconnectTimer None s1 in
  let '(s3, e3) := stopHeartbeat s2 in
  let e4 := match ws s3 with Some _ => [WsClose] | None => [] end in
  (set_authenticated false (set_ws None s3), (e1 ++ e3 ++ e4)%list).

(** [handleMessage]; [disk] is the operating system's verdict on a
    removal of the credential file asked for by the handler. *)
Definition handleMessage (s : state) (cs : CredentialStore.t) (m : message)
    (now : string) (disk : bool) : state * CredentialStore.t * list effect :=
  match m with
  | auth_result success tenant error =>
      handleAuthResult s cs success tenant error disk
  | command c => (s, cs, handleCommand s c now)
  | request_full_sync reason => (s, cs, [Emit (request_full_sync_sig reason)])
  | request_heartbeat => (s, cs, sendHeartbeat s now)
  | disconnect_request reason =>
      let s1 := set_shouldReconnect false s in
      let erase :=
        match reason with
        | Some r => String.eqb r "user_disconnected" || String.eqb r "user_reset"
        | None => false
        end in
      if erase then
        match clear disk cs with
        | Some cs1 => let '(s2, e2) := disconnect s1 in (s2, cs1, e2)
        | None => (s1, cs, [])
        end
      else let '(s2, e2) := disconnect s1 in (s2, cs, e2)
  | unknown _ => (s, cs, [])
  end.

Definition isConnected (s : state) : bool :=
  match ws s with
  | Some OPEN => authenticated s
  | _ => false
  end.

End CloudClient.

(** ** The orchestrator ([HelmBridge]) *)

Module HelmBridge.

Module Hub := HAWebSocketClient.
Module Cloud := CloudClient.

(** The clock and the random source, read when an event is handled, and
    the operating system's verdict on a write or removal of the
    credential file asked for while it is handled. *)
Record tick := { now : string; uuid : string; disk : bool }.

Record BridgeState := {
  b_haVersion : string;
  haConnected : bool;
  cloudConnected : bool;
  b_entityCount : Z;
  b_lastEventAt : option string;
  b_reconnectCount : Z;
}.

(** The fields of the orchestrator, and the RPC deadline callbacks armed
    by [sendCommand] that the event loop still holds ([rpcTimers]). *)
Record t := {
  wsClient : Hub.state;
  cloudClient : Cloud.state;
  credentialStore : CredentialStore.t;
  bstate : BridgeState;
  stateChangeQueue : list HAStateChangedEvent;
  batchTimer : bool;
  rpcTimers : list (Z * caller);
  entityRegistry : gmap string HARestClient.HAEntityRegistry;
}.

(** What the process does, in order. *)
Inductive output :=
| HubDo (e : Hub.effect)
| CloudDo (e : Cloud.effect)
| SetBatchTimer (ms : Z)
| ClearBatchTimer
| SetPollTimer (ms : Z)
| Uncaught (err : string).

Definition batchIntervalMs : Z := 500.

Definition init (token bridge proto path : string)
    (f : option CredentialStore.StoredCredentials) : t :=
  {| wsClient := Hub.init token;
     cloudClient := Cloud.init bridge proto;
     credentialStore := CredentialStore.load path f;
     bstate := {| b_haVersion := "unknown"; haConnected := false;
                  cloudConnected := false; b_entityCount := 0;
                  b_lastEventAt := None; b_reconnectCount := 0 |};
     stateChangeQueue := []; batchTimer := false; rpcTimers := [];
     entityRegistry := ∅ |}.

Definition set_hub (h : Hub.state) (b : t) : t :=
  {| wsClient := h; cloudClient := cloudClient b;
     credentialStore := credentialStore b; bstate := bstate b;
     stateChangeQueue := stateChangeQueue b; batchTimer := batchTimer b;
     rpcTimers := rpcTimers b; entityRegistry := entityRegistry b |}.

Definition set_cloud (c : Cloud.state) (b : t) : t :=
  {| wsClient := wsClient b; cloudClient := c;
     credentialStore := credentialStore b; bstate := bstate b;
     stateChangeQueue := stateChangeQueue b; batchTimer := batchTimer b;
     rpcTimers := rpcTimers b; entityRegistry := entityRegistry b |}.

Definition set_store (cs : CredentialStore.t) (b : t) : t :=
  {| wsClient := wsClient b; cloudClient := cloudClient b;
     credentialStore := cs; bstate := bstate b;
     stateChangeQueue := stateChangeQueue b; batchTimer := batchTimer b;
     rpcTimers := rpcTimers b; entityRegistry := entityRegistry b |}.

Definition set_bstate (st : BridgeState) (b : t) : t :=
  {| wsClient := wsClient b; cloudClient := cloudClient b;
     credentialStore := credentialStore b; bstate := st;
     stateChangeQueue := stateChangeQueue b; batchTimer := batchTimer b;
     rpcTimers := rpcTimers b; entityRegistry := entityRegistry b |}.

Definition set_queue (q : list HAStateChangedEvent) (armed : bool) (b : t) : t :=
  {| wsClient := wsClient b; cloudClient := cloudClient b;
     credentialStore := credentialStore b; bstate := bstate b;
     stateChangeQueue := q; batchTimer := armed;
     rpcTimers := rpcTimers b; entityRegistry := entityRegistry b |}.

Definition set_rpcTimers (l : list (Z * caller)) (b : t) : t :=
  {| wsClient := wsClient b; cloudClient := cloudClient b;
     credentialStore := credentialStore b; bstate := bstate b;
     stateChangeQueue := stateChangeQueue b; batchTimer := batchTimer b;
     rpcTimers := l; entityRegistry := entityRegistry b |}.

Definition set_registry (reg : gmap string HARestClient.HAEntityRegistry) (b : t) : t :=
  {| wsClient := wsClient b; cloudClient := cloudClient b;
     credentialStore := credentialStore b; bstate := bstate b;
     stateChangeQueue := stateChangeQueue b; batchTimer := batchTimer b;
     rpcTimers := rpcTimers b; entityRegistry := reg |}.

Definition set_haConnected (v : bool) (bump : Z) (st : BridgeState) : BridgeState :=
  {| b_haVersion := b_haVersion st; haConnected := v;
     cloudConnected := cloudConnected st; b_entityCount := b_entityCount st;
     b_lastEventAt := b_lastEventAt st;
     b_reconnectCount := b_reconnectCount st + bump |}.

Definition set_cloudConnected (v : bool) (st : BridgeState) : BridgeState :=
  {| b_haVersion := b_haVersion st; haConnected := haConnected st;
     cloudConnected := v; b_entityCount := b_entityCount st;
     b_lastEventAt := b_lastEventAt st;
     b_reconnectCount := b_reconnectCount st |}.

Definition set_lastEventAt (l : option string) (st : BridgeState) : BridgeState :=
  {| b_haVersion := b_haVersion st; haConnected := haConnected st;
     cloudConnected := cloudConnected st; b_entityCount := b_entityCount st;
     b_lastEventAt := l; b_reconnectCount := b_reconnectCount st |}.

Definition set_entityCount (n : Z) (st : BridgeState) : BridgeState :=
  {| b_haVersion := b_haVersion st; haConnected := haConnected st;
     cloudConnected := cloudConnected st; b_entityCount := n;
     b_lastEventAt := b_lastEventAt st;
     b_reconnectCount := b_reconnectCount st |}.

(** [handleStateChange].  The writes to the local diagnostic database and
    to the web server's cache touch no field modelled here. *)
Definition handleStateChange (tk : tick) (ev : HAStateChangedEvent) (b : t)
    : t * list output :=
  let b1 := set_bstate (set_lastEventAt (Some (now tk)) (bstate b)) b in
  let q := (stateChangeQueue b1 ++ [ev])%list in
  if batchTimer b1 then (set_queue q true b1, [])
  else (set_queue q true b1, [SetBatchTimer batchIntervalMs]).

Definition snapshot (h : HAState) : Cloud.StateSnapshot :=
  {| Cloud.s_state := state h; Cloud.s_attributes := attributes h;
     Cloud.lastChanged := last_changed h; Cloud.lastUpdated := last_updated h |}.

(** The callback of [batch.map]: reading [e.data.new_state!.state] throws
    when [new_state] is null ([None]). *)
Definition toProtocol (tk : tick) (e : HAStateChangedEvent)
    : option Cloud.StateChangedEvent :=
  match new_state e with
  | None => None
  | Some n =>
      Some {| Cloud.entityId := entity_id e;
              Cloud.oldState := option_map snapshot (old_state e);
              Cloud.newState := snapshot n;
              Cloud.timestamp := now tk |}
  end.

(** [batch.map(...)], left to right; [None] when the callback throws. *)
Fixpoint mapBatch (tk : tick) (batch : list HAStateChangedEvent)
    : option (list Cloud.StateChangedEvent) :=
  match batch with
  | [] => Some []
  | e :: r =>
      match toProtocol tk e with
      | None => None
      | Some x =>
          match mapBatch tk r with
          | None => None
          | Some xs => Some (x :: xs)
          end
      end
  end.

(** [flushStateChanges]; the boolean is false when it throws. *)
Definition flushStateChanges (tk : tick) (b : t) : t * list output * bool :=
  match stateChangeQueue b with
  | [] => (set_queue [] false b, [], true)
  | batch =>
      let b1 := set_queue [] false b in
      if Cloud.isConnected (cloudClient b1) then
        match mapBatch tk batch with
        | None => (b1, [Uncaught "TypeError"], false)
        | Some events =>
            let out := Cloud.sendStateBatch (cloudClient b1) events (now tk) (uuid tk) in
            let c := Cloud.updateStats (b_haVersion (bstate b1))
                       (b_entityCount (bstate b1)) (b_lastEventAt (bstate b1))
                       (cloudClient b1) in
            (set_cloud c b1, map CloudDo out, true)
        end
      else (b1, [], true)
  end.

(** The orchestrator's listeners on the hub client and the continuation
    awaiting the promise of a command's service call, which runs as soon
    as that promise settles.  The promises of the other callers
    ([AwaitOther]) are awaited several at a time, by [collectFullSync] and
    by [start]; their continuations run once all of them have settled and
    are the inputs [FullSyncCollected], [StartEntities] and [StartStates]
    of [step] below. *)
Definition on_hub_effect (tk : tick) (e : Hub.effect) (b : t) : t * list output :=
  match e with
  | Hub.Emit Hub.authenticated_sig =>
      (set_bstate (set_haConnected true 0 (bstate b)) b, [])
  | Hub.Emit Hub.disconnected =>
      (set_bstate (set_haConnected false 1 (bstate b)) b, [])
  | Hub.Emit (Hub.state_changed ev) => handleStateChange tk ev b
  | Hub.Emit (Hub.auth_failed _) => (b, [])
  | Hub.Resolve (AwaitCommand c) v =>
      (b, map CloudDo
            (Cloud.sendCommandResult (cloudClient b) c Cloud.completed (now tk)
               (Some v) None))
  | Hub.Reject (AwaitCommand c) err =>
      (b, map CloudDo
            (Cloud.sendCommandResult (cloudClient b) c Cloud.failed (now tk)
               None (Some ("EXECUTION_FAILED", err))))
  | Hub.SetRpcTimeout id k _ =>
      (set_rpcTimers (rpcTimers b ++ [(id, k)])%list b, [])
  | _ => (b, [])
  end.

Fixpoint on_hub_effects (tk : tick) (es : list Hub.effect) (b : t) : t * list output :=
  match es with
  | [] => (b, [])
  | e :: r =>
      let '(b1, o1) := on_hub_effect tk e b in
      let '(b2, o2) := on_hub_effects tk r b1 in
      (b2, (HubDo e :: o1 ++ o2)%list)
  end.

(** Running a hub client method and reacting to what it did. *)
Definition with_hub (tk : tick) (r : Hub.state * list Hub.effect) (b : t)
    : t * list output :=
  on_hub_effects tk (snd r) (set_hub (fst r) b).

(** The message of the [TypeError] thrown when [command.payload] is null
    or undefined and is destructured. *)
Definition destructure_error : string :=
  "Cannot destructure property 'domain' of 'command.payload' as it is undefined.".

(** [handleCloudCommand]. *)
Definition handleCloudCommand (tk : tick) (c : Cloud.CommandMessage) (b : t)
    : t * list output :=
  match Cloud.payload c with
  | None =>
      (b, map CloudDo
            (Cloud.sendCommandResult (cloudClient b) (Cloud.cmdId c) Cloud.failed
               (now tk) None (Some ("EXECUTION_FAILED", destructure_error))))
  | Some p =>
      with_hub tk
        (Hub.callService (wsClient b) (AwaitCommand (Cloud.cmdId c))
           (Cloud.domain p) (Cloud.service p)
           (match Cloud.serviceData p with Some d => d | None => "{}" end))
        b
  end.

(** [collectFullSync] up to its [await]: the five registry requests, in
    the order of the source.  What follows once the five promises have
    settled is [performFullSync] below. *)
Definition collectFullSync (tk : tick) (b : t) : t * list output :=
  let ask tag type acc :=
    let '(b0, o0) := acc in
    let '(b1, o1) :=
      with_hub tk (Hub.sendCommand (wsClient b0) (AwaitOther tag) type []) b0 in
    (b1, (o0 ++ o1)%list) in
  ask "entities" "config/entity_registry/list"
    (ask "services" "get_services"
       (ask "states" "get_states"
          (ask "devices" "config/device_registry/list"
             (ask "areas" "config/area_registry/list" (b, []))))).

(** The rest of [collectFullSync] and of [performFullSync], run when the
    five promises have settled with the results [r]: the registry and the
    entity count are stored, the statistics of the cloud client are
    updated and the snapshot is written to the cloud. *)
Definition performFullSync (tk : tick) (r : FullSync.raw) (b : t) : t * list output :=
  let '(reg, n, data) := FullSync.assemble (now tk) (entityRegistry b) r in
  let b1 := set_bstate (set_entityCount n (bstate b)) (set_registry reg b) in
  let c := Cloud.updateStats (b_haVersion (bstate b1)) n (b_lastEventAt (bstate b1))
             (cloudClient b1) in
  (set_cloud c b1, map CloudDo (Cloud.sendFullSync c data (now tk))).

(** The orchestrator's listeners on the cloud client. *)
Definition on_cloud_effect (tk : tick) (e : Cloud.effect) (b : t) : t * list output :=
  match e with
  | Cloud.Emit (Cloud.authenticated_sig _) =>
      (set_bstate (set_cloudConnected true (bstate b)) b, [])
  | Cloud.Emit Cloud.disconnected =>
      (set_bstate (set_cloudConnected false (bstate b)) b, [])
  | Cloud.Emit (Cloud.request_full_sync_sig _) => collectFullSync tk b
  | Cloud.Emit (Cloud.command_sig c) => handleCloudCommand tk c b
  | _ => (b, [])
  end.

Fixpoint on_cloud_effects (tk : tick) (es : list Cloud.effect) (b : t)
    : t * list output :=
  match es with
  | [] => (b, [])
  | e :: r =>
      let '(b1, o1) := on_cloud_effect tk e b in
      let '(b2, o2) := on_cloud_effects tk r b1 in
      (b2, (CloudDo e :: o1 ++ o2)%list)
  end.

Definition with_cloud (tk : tick) (r : Cloud.state * list Cloud.effect) (b : t)
    : t * list output :=
  on_cloud_effects tk (snd r) (set_cloud (fst r) b).

(** [stop]: the final flush, then both clients are disconnected; a flush
    that throws leaves the rest undone. *)
Definition stop (tk : tick) (b : t) : t * list output :=
  let '(b1, o1, ok) :=
    if batchTimer b
    then let '(b', o', ok') := flushStateChanges tk b in
         (b', (ClearBatchTimer :: o')%list, ok')
    else (b, [], true) in
  if ok then
    let '(b2, o2) := with_cloud tk (Cloud.disconnect (cloudClient b1)) b1 in
    let '(b3, o3) := with_hub tk (Hub.disconnect (wsClient b2)) b2 in
    (b3, (o1 ++ o2 ++ o3)%list)
  else (b1, o1).

(** *** [pollForPairing] *)

(** The body of [GET .../pairing-codes/<code>/status]. *)
Record PairingStatus := {
  p_status : string;
  p_bridgeCredential : option string;
  p_tenantId : option string;
  p_bridgeId : option string;
}.

(** What [fetch] gives: a transport error, or a response with its
    content type, [ok], status code and body ([None] when
    [response.json()] throws). *)
Inductive fetched :=
| FetchFailed
| Fetched (contentType : option string) (ok : bool) (status : Z)
    (body : option PairingStatus).

(** What a run of [poll] leaves behind: nothing, a timer for the next
    run, or itself suspended on the promise of [cloudClient.connect()]. *)
Inductive poll_next := PollStop | PollAgain | PollAwaitsConnect.

(** How the awaited promise settles: on a successful [auth_result] or on
    a failed one.  (It may also never settle; the poll then stays
    suspended.) *)
Inductive settles := Fulfils | Rejects.

Definition pollInterval : Z := 5000.
Definition maxAttempts : Z := 120.

(** [if (attempts < maxAttempts) setTimeout(poll, pollInterval)]. *)
Definition reschedule (attempts : Z) : list output * poll_next :=
  if Z.ltb attempts maxAttempts then ([SetPollTimer pollInterval], PollAgain)
  else ([], PollStop).

(** [await this.cloudClient.connect()]: an unpaired [connect] returns at
    once, and the poll returns; otherwise the poll is suspended. *)
Definition await_connect (tk : tick) (b : t) : t * list output * poll_next :=
  let paired := CredentialStore.isPaired (credentialStore b) in
  let '(b1, o1) :=
    with_cloud tk (Cloud.connect (cloudClient b) (credentialStore b)) b in
  (b1, o1, if paired then PollAwaitsConnect else PollStop).

(** The rest of a suspended [poll]: [return] after the [await] when the
    promise is fulfilled; the [catch] of the enclosing [try] when it is
    rejected. *)
Definition poll_resume (attempts : Z) (how : settles) : list output * poll_next :=
  match how with
  | Fulfils => ([], PollStop)
  | Rejects => reschedule attempts
  end.

Definition is_json (contentType : option string) : bool :=
  match contentType with
  | Some ct => JS.truthy ct && JS.includes ct "application/json"
  | None => false
  end.

(** One run of [poll], up to its end or to the point where it is
    suspended; [attempts0] is the counter before it.  A [save] that
    throws ends in the [catch] of the poll, which reschedules. *)
Definition poll (tk : tick) (attempts0 : Z) (resp : fetched) (b : t)
    : Z * t * list output * poll_next :=
  let attempts := attempts0 + 1 in
  let again := let '(o, n) := reschedule attempts in (attempts, b, o, n) in
  let connect b' :=
    let '(b1, o1, n1) := await_connect tk b' in
    (attempts, b1, o1, n1) in
  if CredentialStore.isPaired (credentialStore b) then connect b else
  match resp with
  | FetchFailed => again
  | Fetched ct ok status body =>
      if negb (is_json ct) then again
      else if ok then
        match body with
        | None => again
        | Some data =>
            let cred := JS.or_default (p_bridgeCredential data) "" in
            if String.eqb (p_status data) "paired" && JS.truthy cred then
              match CredentialStore.save (disk tk)
                      {| CredentialStore.bridgeId := p_bridgeId data;
                         CredentialStore.tenantId := p_tenantId data;
                         CredentialStore.bridgeCredential := cred;
                         CredentialStore.pairedAt := None;
                         CredentialStore.cloudUrl := None |}
                      (credentialStore b) with
              | Some cs => connect (set_store cs b)
              | None => again
              end
            else if String.eqb (p_status data) "paired" then
              if CredentialStore.isPaired (credentialStore b) then connect b
              else (attempts, b, [], PollStop)
            else if String.eqb (p_status data) "expired" then
              (attempts, b, [], PollStop)
            else again
        end
      else if Z.eqb status 404 then
        if CredentialStore.isPaired (credentialStore b) then connect b else again
      else again
  end.

(** The two requests of [start] after the hub session is up, once they
    have settled ([None] when rejected): the registry entries are stored,
    and the number of states becomes the entity count. *)
Definition on_start_entities (l : option (list HARestClient.HAEntityRegistry)) (b : t)
    : t :=
  match l with
  | Some es => set_registry (FullSync.register (entityRegistry b) es) b
  | None => b
  end.

Definition on_start_states (n : option Z) (b : t) : t :=
  set_bstate (set_entityCount (match n with Some k => k | None => 0 end) (bstate b)) b.

(** Inputs of the process: socket events, timers, requests of the other
    components that use the hub client, and the continuations that run
    when awaited promises have settled.  A run of the pairing poll carries
    the counter of the poll's closure and what [fetch] gave; the
    continuation of a full sync carries the results of its five
    requests.  The environment chooses when a continuation runs and what
    it carries: at once after the request when the promises are rejected
    at once (the hub session is down), later otherwise; the runs of the
    process are among the runs of [run]. *)
Inductive event :=
| HubConnect                          (* start(): wsClient.connect() *)
| HubOpen
| HubClose
| HubMessage (m : Hub.message)
| HubRpcTimeout (n : nat)             (* the n-th armed deadline fires *)
| HubReconnectTimer
| HubRequest (tag type : string)
| CloudConnect                        (* start(), connectToCloud() *)
| CloudOpen
| CloudClose
| CloudMessage (m : Cloud.message)
| CloudReconnectTimer
| HeartbeatTimer
| BatchTimer
| Stop
| PollTimer (attempts0 : Z) (resp : fetched)     (* a run of poll *)
| PollSettled (attempts : Z) (how : settles)     (* the awaited connect settles *)
| FullSyncCollected (r : FullSync.raw)           (* performFullSync resumes *)
| StartEntities (l : option (list HARestClient.HAEntityRegistry))
| StartStates (n : option Z).

Definition step (tk : tick) (ev : event) (b : t) : t * list output :=
  match ev with
  | HubConnect => with_hub tk (Hub.connect (wsClient b)) b
  | HubOpen => with_hub tk (Hub.on_open (wsClient b)) b
  | HubClose => with_hub tk (Hub.on_close (wsClient b)) b
  | HubMessage m => with_hub tk (Hub.handleMessage (wsClient b) m) b
  | HubRpcTimeout n =>
      match rpcTimers b !! n with
      | Some (id, k) =>
          let b1 := set_rpcTimers (delete n (rpcTimers b)) b in
          with_hub tk (Hub.on_rpc_timeout (wsClient b1) id k) b1
      | None => (b, [])
      end
  | HubReconnectTimer => with_hub tk (Hub.on_reconnect_timer (wsClient b)) b
  | HubRequest tag type =>
      with_hub tk (Hub.sendCommand (wsClient b) (AwaitOther tag) type []) b
  | CloudConnect =>
      with_cloud tk (Cloud.connect (cloudClient b) (credentialStore b)) b
  | CloudOpen =>
      with_cloud tk (Cloud.on_open (cloudClient b) (credentialStore b)) b
  | CloudClose => with_cloud tk (Cloud.on_close (cloudClient b)) b
  | CloudMessage m =>
      let '(c, cs, es) :=
        Cloud.handleMessage (cloudClient b) (credentialStore b) m (now tk) (disk tk) in
      with_cloud tk (c, es) (set_store cs b)
  | CloudReconnectTimer =>
      with_cloud tk (Cloud.connect (cloudClient b) (credentialStore b)) b
  | HeartbeatTimer =>
      (b, map CloudDo (Cloud.sendHeartbeat (cloudClient b) (now tk)))
  | BatchTimer => let '(b1, o1, _) := flushStateChanges tk b in (b1, o1)
  | Stop => stop tk b
  | PollTimer attempts0 resp =>
      let '(_, b1, o1, _) := poll tk attempts0 resp b in (b1, o1)
  | PollSettled attempts how => (b, fst (poll_resume attempts how))
  | FullSyncCollected r => performFullSync tk r b
  | StartEntities l => (on_start_entities l b, [])
  | StartStates n => (on_start_states n b, [])
  end.

Fixpoint run (evs : list (tick * event)) (b : t) : t * list output :=
  match evs with
  | [] => (b, [])
  | (tk, ev) :: r =>
      let '(b1, o1) := step tk ev b in
      let '(b2, o2) := run r b1 in
      (b2, (o1 ++ o2)%list)
  end.

End HelmBridge.

(** ** bridge/src/config.ts *)

Module Config.

(** The variables of [process.env] that the loader reads. *)
Record env := {
  HA_URL : option string;
  SUPERVISOR_URL : option string;
  HA_TOKEN : option string;
  SUPERVISOR_TOKEN : option string;
  CLOUD_URL : option string;
  BRIDGE_ID : option string;
  CREDENTIAL_PATH : option string;
}.

Record BridgeConfig := {
  haUrl : string;
  haToken : string;
  cloudUrl : string;
  bridgeId : string;
  credentialPath : string;
  heartbeatInterval : Z;
  protocolVersion : string;
}.

(** [s.replace(/\/$/, '')]: one slash at the very end is dropped. *)
Fixpoint strip_slash (s : string) : string :=
  match s with
  | EmptyString => EmptyString
  | String c r =>
      match r with
      | EmptyString => if Ascii.eqb c "/" then EmptyString else s
      | String _ _ => String c (strip_slash r)
      end
  end.

Definition chars : string := "abcdefghijklmnopqrstuvwxyz0123456789".

(** [chars[i]] appended to a string: an index out of range reads
    [undefined]. *)
Definition pick (i : nat) : string :=
  match String.get i chars with
  | Some c => String c EmptyString
  | None => "undefined"
  end.

(** [generateBridgeId]; [rand i] is the value of
    [Math.floor(Math.random() * chars.length)] in round [i] of the loop. *)
Definition generateBridgeId (rand : nat -> nat) : string :=
  fold_left (fun id i => id ++ pick (rand i)) (seq 0 8) "helm-bridge-".

(** [loadConfig]; [None] stands for [process.exit(1)].  The two constants
    come from the protocol package. *)
Definition loadConfig (e : env) (rand : nat -> nat)
    (HEARTBEAT_INTERVAL_MS : Z) (PROTOCOL_VERSION : string) : option BridgeConfig :=
  let haUrl := JS.or_default (HA_URL e)
                 (JS.or_default (SUPERVISOR_URL e) "http://supervisor/core") in
  let haToken := JS.or_default (HA_TOKEN e) (JS.or_default (SUPERVISOR_TOKEN e) "") in
  let cloudUrl := JS.or_default (CLOUD_URL e) "https://helm.replit.app" in
  let bridgeId :=
    match BRIDGE_ID e with
    | Some s => if JS.truthy s then s else generateBridgeId rand
    | None => generateBridgeId rand
    end in
  let credentialPath := JS.or_default (CREDENTIAL_PATH e) "/data/credentials.json" in
  if negb (JS.truthy haToken) then None
  else Some {| haUrl := strip_slash haUrl; haToken := haToken;
               cloudUrl := strip_slash cloudUrl; bridgeId := bridgeId;
               credentialPath := credentialPath;
               heartbeatInterval := HEARTBEAT_INTERVAL_MS;
               protocolVersion := PROTOCOL_VERSION |}.

(** [s.replace(/^http/, 'ws')]. *)
Definition replace_http (s : string) : string :=
  if JS.startsWith s "http" then "ws" ++ String.substring 4 (String.length s - 4) s
  else s.

(** [HAWebSocketClient.getWebSocketUrl]. *)
Definition hub_getWebSocketUrl (c : BridgeConfig) : string :=
  let httpUrl := haUrl c in
  let wsUrl := replace_http httpUrl in
  if JS.includes httpUrl "supervisor/core" || JS.includes httpUrl "supervisor:80/core"
  then wsUrl ++ "/websocket"
  else wsUrl ++ "/api/websocket".

(** [CloudClient.getWebSocketUrl]. *)
Definition cloud_getWebSocketUrl (c : BridgeConfig) : string :=
  replace_http (cloudUrl c) ++ "/ws/bridge".

End Config.

(** ** The web server's entity cache ([WebServer.updateCachedEntity]) *)

Module WebServer.

Record HAEntityInfo := {
  entityId : string;
  domain : string;
  friendlyName : option string;
  deviceId : option string;
  areaId : option string;
  state : string;
  attributes : json;
}.

(** [Array.prototype.findIndex]: the first index at which [p] holds. *)
Fixpoint findIndex {A} (p : A -> bool) (l : list A) : option nat :=
  match l with
  | [] => None
  | x :: r => if p x then Some O else option_map S (findIndex p r)
  end.

(** [{ ...entity, state, attributes }]. *)
Definition with_state (st : string) (at_ : json) (e : HAEntityInfo) : HAEntityInfo :=
  {| entityId := entityId e; domain := domain e; friendlyName := friendlyName e;
     deviceId := deviceId e; areaId := areaId e; state := st; attributes := at_ |}.

(** [updateCachedEntity] on the field [cachedEntities]. *)
Definition updateCachedEntity (id st : string) (at_ : json) (cache : list HAEntityInfo)
    : list HAEntityInfo :=
  match findIndex (fun e => String.eqb (entityId e) id) cache with
  | Some index =>
      match cache !! index with
      | Some e => <[index := with_state st at_ e]> cache
      | None => cache
      end
  | None => cache
  end.

(** [cachedEntities.find(e => e.entityId === id)]. *)
Definition find_entity (id : string) (cache : list HAEntityInfo) : option HAEntityInfo :=
  List.find (fun e => String.eqb (entityId e) id) cache.

End WebServer.

(** ** The duplicate detector ([DuplicateDetector]) *)

Module DuplicateDetector.

(** White space, on the ASCII range: space, tab, line feed, vertical
    tab, form feed and carriage return. *)
Definition is_space (c : ascii) : bool :=
  let n := nat_of_ascii c in
  Nat.eqb n 32 || (Nat.leb 9 n && Nat.leb n 13).

(** [.replace(/[_-]/g, ' ')]. *)
Fixpoint dashes (s : string) : string :=
  match s with
  | EmptyString => EmptyString
  | String c r =>
      String (if Ascii.eqb c "_" || Ascii.eqb c "-" then " "%char else c) (dashes r)
  end.

(** [.replace(/\s+/g, ' ')]: each maximal run of white space becomes one
    space; [in_run] tells that the previous character was white space. *)
Fixpoint collapse (in_run : bool) (s : string) : string :=
  match s with
  | EmptyString => EmptyString
  | String c r =>
      if is_space c
      then if in_run then collapse true r else String " " (collapse true r)
      else String c (collapse false r)
  end.

Fixpoint trimStart (s : string) : string :=
  match s with
  | EmptyString => EmptyString
  | String c r => if is_space c then trimStart r else s
  end.

Fixpoint trimEnd (s : string) : string :=
  match s with
  | EmptyString => EmptyString
  | String c r =>
      match trimEnd r with
      | EmptyString => if is_space c then EmptyString else String c EmptyString
      | r' => String c r'
      end
  end.

Definition trim (s : string) : string := trimEnd (trimStart s).

Definition normalizeName (name : string) : string :=
  trim (collapse false (dashes (JS.toLowerCase name))).

(** [levenshteinDistance]: the matrix is filled row by row, one row for
    each character of [b]; a row is filled from left to right, [diag]
    and [left] being the cells [matrix[i-1][j-1]] and [matrix[i][j-1]],
    and [prev] the rest of the row above. *)
Fixpoint fill_row (bc : ascii) (a : list ascii) (prev : list nat) (diag left : nat)
    : list nat :=
  match a, prev with
  | ac :: a', up :: prev' =>
      let cell :=
        if Ascii.eqb bc ac then diag
        else Nat.min (diag + 1) (Nat.min (left + 1) (up + 1)) in
      cell :: fill_row bc a' prev' up cell
  | _, _ => []
  end.

Definition next_row (i : nat) (bc : ascii) (a : list ascii) (prev : list nat)
    : list nat :=
  match prev with
  | diag :: prev' => i :: fill_row bc a prev' diag i
  | [] => [i]
  end.

(** The last row of the matrix, from row [i] on. *)
Fixpoint last_row (i : nat) (b a : list ascii) (row : list nat) : list nat :=
  match b with
  | [] => row
  | bc :: b' => last_row (S i) b' a (next_row (S i) bc a row)
  end.

Definition levenshteinDistance (a b : string) : nat :=
  let a' := list_ascii_of_string a in
  let b' := list_ascii_of_string b in
  List.last (last_row 0 b' a' (seq 0 (S (length a')))) 0%nat.

(** The attributes [suggestPrimaryEntity] looks at. *)
Record HAEntityInfo := {
  entityId : string;
  domain : string;
  brightness : bool;       (* typeof attributes['brightness'] !== 'undefined' *)
  colour : bool;           (* rgb_color, hs_color or color_temp is defined *)
}.

(** [suggestPrimaryEntity]; [None] is the [TypeError] of [entities[0]] on
    an empty list. *)
Definition suggestPrimaryEntity (entities : list HAEntityInfo) : option string :=
  let lightEntities := List.filter (fun e => String.eqb (domain e) "light") entities in
  match lightEntities with
  | first :: _ =>
      match List.find brightness lightEntities with
      | Some e => Some (entityId e)
      | None =>
          match List.find colour lightEntities with
          | Some e => Some (entityId e)
          | None => Some (entityId first)
          end
      end
  | [] =>
      match entities with
      | e :: _ => Some (entityId e)
      | [] => None
      end
  end.

End DuplicateDetector.

(** ** server/bridge-ws-server.ts *)

(** The cloud side of the bridge's socket.  A socket is named by the order
    in which it was accepted; its [connectionState] object is shared by the
    socket's handlers and, once authenticated, by [connectedBridges], so
    the objects live in one table and the map holds socket names.  The map
    keeps insertion order, which the loops over its entries observe.

    A user id is written as its decimal text, the form [String] and
    [parseInt] pass back and forth.  [bridgeStorage] is not modelled: its
    calls are recorded as effects and taken to succeed, and
    [validateCredential] after [hashCredential] is an input of each
    step.  Of an audit entry only user and action are kept, and of a
    heartbeat the fields that the cloud client's frame carries.  A
    handler runs to its end before the next input is handled. *)
Module BridgeWebSocketServer.

Module Cloud := CloudClient.

Definition MAX_STORED_LOGS : nat := 1000.

Record DiagnosticLogEntry := {
  level : string;
  entry : json;
}.

Record StoredBridgeLogs := {
  logs : list DiagnosticLogEntry;
  lastDiagnostics : option json;
  lastReceivedAt : Z;
  totalReceived : Z;
}.

(** [Partial<ConnectedBridge>] without its socket. *)
Record ConnectedBridge := {
  bridgeId : option string;
  tenantId : option string;
  authenticated : bool;
  lastHeartbeat : Z;
  reconnectCount : Z;
}.

(** The row [validateCredential] resolves to. *)
Record Credential := {
  id : Z;
  userId : string;
}.

Record tick := {
  now : Z;
  validateCredential : string -> string -> option Credential;
}.

(** What a socket delivers: a frame of the bridge, a log upload, a message
    of another type, or text that [JSON.parse] rejects. *)
Inductive inbound :=
| From (f : Cloud.frame)
| bridge_logs (l : list DiagnosticLogEntry) (diagnostics : option json)
| other (type : string)
| unparsable.

Inductive command_status :=
| acknowledged
| finished (s : Cloud.result_status).

(** Calls on [bridgeStorage]. *)
Inductive storage :=
| updateCredentialLastUsed (credential : Z)
| updateBridgeStatus (user status : string)
| createAuditEntry (user action : string)
| updateBridgeHeartbeat (user haVersion : string) (entityCount : Z)
| storeFullSync (user : string) (data : FullSync.FullSyncData)
| updateBridgeStatusWithStats (user status : string)
    (entityCount deviceCount areaCount : Z)
| updateEntityStates (user : string) (changes : list (string * Cloud.StateSnapshot))
| updateCommandStatus (cmd : string) (status : command_status).

Inductive effect :=
| Send (c : nat) (m : Cloud.message)
| SendError (c : nat) (code message : string)
| SendRequestLogs (c : nat) (maxEntries : Z)
| Close (c : nat) (code : Z) (reason : string)
| SetAuthTimeout (c : nat) (ms : Z)
| ClearAuthTimeout (c : nat)
| SetCloseTimer (bridge : string) (c : nat) (reason : string) (ms : Z)
| SetHeartbeatCheck (ms : Z)
| ClearHeartbeatCheck
| CloseServer
| Storage (op : storage).

Record t := {
  wss : bool;
  sockets : list ConnectedBridge;
  connectedBridges : list (string * nat);
  heartbeatCheckInterval : bool;
  bridgeLogStore : gmap (option string) StoredBridgeLogs;
}.

Definition init : t :=
  {| wss := false; sockets := []; connectedBridges := [];
     heartbeatCheckInterval := false; bridgeLogStore := ∅ |}.

(** [Map.get], [Map.set] and [Map.delete] on the entries in insertion
    order. *)
Fixpoint map_get (k : string) (m : list (string * nat)) : option nat :=
  match m with
  | [] => None
  | (k', v) :: r => if String.eqb k' k then Some v else map_get k r
  end.

Fixpoint map_set (k : string) (v : nat) (m : list (string * nat))
    : list (string * nat) :=
  match m with
  | [] => [(k, v)]
  | (k', v') :: r =>
      if String.eqb k' k then (k, v) :: r else (k', v') :: map_set k v r
  end.

Fixpoint map_delete (k : string) (m : list (string * nat)) : list (string * nat) :=
  match m with
  | [] => []
  | (k', v') :: r =>
      if String.eqb k' k then r else (k', v') :: map_delete k r
  end.

Definition set_socket (c : nat) (o : ConnectedBridge) (s : t) : t :=
  {| wss := wss s; sockets := <[c := o]> (sockets s);
     connectedBridges := connectedBridges s;
     heartbeatCheckInterval := heartbeatCheckInterval s;
     bridgeLogStore := bridgeLogStore s |}.

Definition set_bridges (m : list (string * nat)) (s : t) : t :=
  {| wss := wss s; sockets := sockets s; connectedBridges := m;
     heartbeatCheckInterval := heartbeatCheckInterval s;
     bridgeLogStore := bridgeLogStore s |}.

Definition set_logs (l : gmap (option string) StoredBridgeLogs) (s : t) : t :=
  {| wss := wss s; sockets := sockets s;
     connectedBridges := connectedBridges s;
     heartbeatCheckInterval := heartbeatCheckInterval s;
     bridgeLogStore := l |}.

Definition set_lastHeartbeat (at_ : Z) (o : ConnectedBridge) : ConnectedBridge :=
  {| bridgeId := bridgeId o; tenantId := tenantId o;
     authenticated := authenticated o; lastHeartbeat := at_;
     reconnectCount := reconnectCount o |}.

(** [if (x)] on a string that may be undefined. *)
Definition truthy (x : option string) : bool :=
  match x with
  | Some v => JS.truthy v
  | None => false
  end.

(** [parseInt(state.tenantId!)]; of [undefined] it is [NaN]. *)
Definition user_of (o : ConnectedBridge) : string :=
  match tenantId o with
  | Some v => v
  | None => "NaN"
  end.

(** [if (n)] on a user id. *)
Definition nonzero (u : string) : bool := negb (String.eqb u "0").

Definition sendError (c : nat) (code message : string) : list effect :=
  [SendError c code message].

Definition requestFullSync (c : nat) (reason : string) : list effect :=
  [Send c (Cloud.request_full_sync (Some reason))].

(** The successful [auth_result] also carries [minProtocolVersion], which
    the bridge does not read. *)
Definition handleAuth (tk : tick) (c : nat) (bridge credential : string)
    (o : ConnectedBridge) (s : t) : t * list effect :=
  match validateCredential tk bridge credential with
  | None =>
      (s, [Send c (Cloud.auth_result false None (Some "Invalid or revoked credential"));
           Close c 4002 "Authentication failed"])
  | Some cred =>
      let o1 := {| bridgeId := Some bridge; tenantId := Some (userId cred);
                   authenticated := true; lastHeartbeat := now tk;
                   reconnectCount := reconnectCount o |} in
      (set_bridges (map_set bridge c (connectedBridges s)) (set_socket c o1 s),
       [ClearAuthTimeout c;
        Storage (updateCredentialLastUsed (id cred));
        Storage (updateBridgeStatus (userId cred) "connected");
        Storage (createAuditEntry (userId cred) "bridge_connected");
        Send c (Cloud.auth_result true (Some (userId cred)) None)]
       ++ requestFullSync c "initial_connection")%list
  end.

Definition handleHeartbeat (tk : tick) (c : nat) (haVersion : string)
    (entityCount : Z) (o : ConnectedBridge) (s : t) : t * list effect :=
  (set_socket c (set_lastHeartbeat (now tk) o) s,
   if truthy (tenantId o)
   then [Storage (updateBridgeHeartbeat (user_of o) haVersion entityCount)]
   else []).

Definition handleFullSync (data : FullSync.FullSyncData) (o : ConnectedBridge)
    : list effect :=
  [Storage (storeFullSync (user_of o) data);
   Storage (updateBridgeStatusWithStats (user_of o) "connected"
              (Z.of_nat (length (FullSync.entities data)))
              (Z.of_nat (length (FullSync.devices data)))
              (Z.of_nat (length (FullSync.areas data))));
   Storage (createAuditEntry (user_of o) "full_sync_received")].

Definition handleStateBatch (events : list Cloud.StateChangedEvent)
    (o : ConnectedBridge) : list effect :=
  [Storage (updateEntityStates (user_of o)
              (map (fun e => (Cloud.entityId e, Cloud.newState e)) events))].

Definition handleCommandAck (cmd : string) : list effect :=
  [Storage (updateCommandStatus cmd acknowledged)].

Definition handleCommandResult (cmd : string) (status : Cloud.result_status)
    (o : ConnectedBridge) : list effect :=
  (Storage (updateCommandStatus cmd (finished status))
   :: if truthy (tenantId o)
      then [Storage (createAuditEntry (user_of o) "command_result")]
      else [])%list.

(** [logs.slice(-MAX_STORED_LOGS)] once the list is longer than that. *)
Definition cap (l : list DiagnosticLogEntry) : list DiagnosticLogEntry :=
  if Nat.ltb MAX_STORED_LOGS (length l)
  then drop (length l - MAX_STORED_LOGS) l
  else l.

Definition handleBridgeLogs (tk : tick) (l : list DiagnosticLogEntry)
    (diagnostics : option json) (o : ConnectedBridge) (s : t) : t :=
  let stored :=
    match bridgeLogStore s !! tenantId o with
    | Some st => st
    | None => {| logs := []; lastDiagnostics := None;
                 lastReceivedAt := now tk; totalReceived := 0 |}
    end in
  set_logs
    (<[tenantId o :=
         {| logs := cap (logs stored ++ l);
            lastDiagnostics :=
              match diagnostics with
              | Some d => Some d
              | None => lastDiagnostics stored
              end;
            lastReceivedAt := now tk;
            totalReceived := totalReceived stored + Z.of_nat (length l) |}]>
       (bridgeLogStore s)) s.

Definition not_authenticated (c : nat) : list effect :=
  sendError c "NOT_AUTHENTICATED" "Must authenticate first".

(** The socket's [message] handler with [handleMessage]; [o] is the
    socket's [connectionState]. *)
Definition handleMessage (tk : tick) (c : nat) (m : inbound)
    (o : ConnectedBridge) (s : t) : t * list effect :=
  match m with
  | unparsable => (s, sendError c "PARSE_ERROR" "Invalid message format")
  | From (Cloud.authenticate bridge credential _) =>
      handleAuth tk c bridge credential o s
  | From (Cloud.heartbeat _ haVersion _ entityCount _) =>
      if negb (authenticated o) then (s, not_authenticated c)
      else handleHeartbeat tk c haVersion entityCount o s
  | From (Cloud.full_sync _ _ data) =>
      if negb (authenticated o) then (s, not_authenticated c)
      else (s, handleFullSync data o)
  | From (Cloud.state_batch _ _ events _) =>
      if negb (authenticated o) then (s, not_authenticated c)
      else (s, handleStateBatch events o)
  | From (Cloud.command_ack cmd _) =>
      if negb (authenticated o) then (s, []) else (s, handleCommandAck cmd)
  | From (Cloud.command_result cmd status _ _ _) =>
      if negb (authenticated o) then (s, [])
      else (s, handleCommandResult cmd status o)
  | bridge_logs l diagnostics =>
      if negb (authenticated o) then (s, [])
      else (handleBridgeLogs tk l diagnostics o s, [])
  | other _ => (s, [])
  end.

(** The [connection] handler of [setup]. *)
Definition on_connection (tk : tick) (s : t) : t * list effect :=
  ({| wss := wss s;
      sockets := sockets s ++ [{| bridgeId := None; tenantId := None;
                                  authenticated := false;
                                  lastHeartbeat := now tk;
                                  reconnectCount := 0 |}];
      connectedBridges := connectedBridges s;
      heartbeatCheckInterval := heartbeatCheckInterval s;
      bridgeLogStore := bridgeLogStore s |},
   [SetAuthTimeout (length (sockets s)) 30000]).

Definition on_auth_timeout (c : nat) (o : ConnectedBridge) : list effect :=
  if negb (authenticated o) then [Close c 4001 "Authentication timeout"] else [].

(** The socket's [close] handler. *)
Definition on_close (c : nat) (o : ConnectedBridge) (s : t) : t * list effect :=
  if truthy (bridgeId o) then
    (set_bridges
       (match bridgeId o with
        | Some b => map_delete b (connectedBridges s)
        | None => connectedBridges s
        end) s,
     ClearAuthTimeout c
     :: Storage (updateBridgeStatus (user_of o) "disconnected")
     :: if truthy (tenantId o)
        then [Storage (createAuditEntry (user_of o) "bridge_disconnected")]
        else [])
  else (s, [ClearAuthTimeout c]).

(** The loop of [checkStaleConnections] over the entries copied at its
    start. *)
Fixpoint check_entries (tk : tick) (HEARTBEAT_INTERVAL_MS : Z)
    (entries : list (string * nat)) (s : t) : t * list effect :=
  match entries with
  | [] => (s, [])
  | (b, c) :: r =>
      match sockets s !! c with
      | Some o =>
          if Z.ltb (HEARTBEAT_INTERVAL_MS * 3) (now tk - lastHeartbeat o) then
            let '(s1, e1) :=
              check_entries tk HEARTBEAT_INTERVAL_MS r
                (set_bridges (map_delete b (connectedBridges s)) s) in
            (s1, Close c 4003 "Heartbeat timeout" :: e1)
          else check_entries tk HEARTBEAT_INTERVAL_MS r s
      | None => check_entries tk HEARTBEAT_INTERVAL_MS r s
      end
  end.

Definition checkStaleConnections (tk : tick) (HEARTBEAT_INTERVAL_MS : Z) (s : t)
    : t * list effect :=
  check_entries tk HEARTBEAT_INTERVAL_MS (connectedBridges s) s.

Definition registered (bridge : string) (s : t) : option (nat * ConnectedBridge) :=
  match map_get bridge (connectedBridges s) with
  | Some c =>
      match sockets s !! c with
      | Some o => Some (c, o)
      | None => None
      end
  | None => None
  end.

Definition sendCommand (bridge : string) (command : Cloud.CommandMessage)
    (user : option string) (s : t) : bool * list effect :=
  match registered bridge s with
  | Some (c, o) =>
      if authenticated o then
        let logUserId :=
          match user with
          | Some u => Some u
          | None => if truthy (tenantId o) then tenantId o else None
          end in
        (true,
         Send c (Cloud.command command)
         :: match logUserId with
            | Some u => if nonzero u
                        then [Storage (createAuditEntry u "command_sent")]
                        else []
            | None => []
            end)
      else (false, [])
  | None => (false, [])
  end.

Definition sendDisconnect (bridge reason : string) (s : t) : bool * list effect :=
  match registered bridge s with
  | Some (c, _) =>
      (true, [Send c (Cloud.disconnect_request (Some reason));
              SetCloseTimer bridge c reason 1000])
  | None => (false, [])
  end.

(** The timer that [sendDisconnect] arms. *)
Definition on_close_timer (bridge : string) (c : nat) (reason : string) (s : t)
    : t * list effect :=
  (set_bridges (map_delete bridge (connectedBridges s)) s, [Close c 4000 reason]).

(** The first entry, in insertion order, whose object passes [p]. *)
Fixpoint first_entry (p : ConnectedBridge -> bool) (entries : list (string * nat))
    (s : t) : option (string * nat) :=
  match entries with
  | [] => None
  | (b, c) :: r =>
      match sockets s !! c with
      | Some o => if p o then Some (b, c) else first_entry p r s
      | None => first_entry p r s
      end
  end.

Definition of_tenant (user : string) (o : ConnectedBridge) : bool :=
  match tenantId o with
  | Some v => String.eqb v user
  | None => false
  end.

Definition disconnectBridgeByUserId (user reason : string) (s : t)
    : option string * bool * list effect :=
  match first_entry (of_tenant user) (connectedBridges s) s with
  | Some (b, _) => (Some b, true, snd (sendDisconnect b reason s))
  | None => (None, false, [])
  end.

Definition requestBridgeLogs (user : string) (maxEntries : Z) (s : t)
    : bool * list effect :=
  match first_entry (fun o => of_tenant user o && authenticated o)
          (connectedBridges s) s with
  | Some (_, c) => (true, [SendRequestLogs c maxEntries])
  | None => (false, [])
  end.

Definition getBridgeLogs (user : string) (s : t) : option StoredBridgeLogs :=
  bridgeLogStore s !! Some user.

Definition clearBridgeLogs (user : string) (s : t) : t :=
  set_logs (delete (Some user) (bridgeLogStore s)) s.

Definition isBridgeConnected (bridge : string) (s : t) : bool :=
  match registered bridge s with
  | Some (_, o) => authenticated o
  | None => false
  end.

Definition getConnectedBridges (s : t) : list string :=
  map fst (connectedBridges s).

Definition setup (HEARTBEAT_INTERVAL_MS : Z) (s : t) : t * list effect :=
  ({| wss := true; sockets := sockets s;
      connectedBridges := connectedBridges s;
      heartbeatCheckInterval := true;
      bridgeLogStore := bridgeLogStore s |},
   [SetHeartbeatCheck HEARTBEAT_INTERVAL_MS]).

Definition shutdown (s : t) : t * list effect :=
  (set_bridges [] s,
   (if heartbeatCheckInterval s then [ClearHeartbeatCheck] else [])
   ++ map (fun p => Close (snd p) 1001 "Server shutting down") (connectedBridges s)
   ++ (if wss s then [CloseServer] else []))%list.

(** What reaches the server: sockets, timers and the calls of the routes. *)
Inductive event :=
| Setup
| Connection
| Message (c : nat) (m : inbound)
| Closed (c : nat)
| AuthTimeout (c : nat)
| HeartbeatCheck
| CloseTimer (bridge : string) (c : nat) (reason : string)
| SendCommand (bridge : string) (command : Cloud.CommandMessage) (user : option string)
| SendDisconnect (bridge reason : string)
| DisconnectBridgeByUserId (user reason : string)
| RequestBridgeLogs (user : string) (maxEntries : Z)
| ClearBridgeLogs (user : string)
| Shutdown.

(** Handlers of a socket run on its [connectionState]; a name that was
    never accepted has none. *)
Definition step (HEARTBEAT_INTERVAL_MS : Z) (tk : tick) (ev : event) (s : t)
    : t * list effect :=
  match ev with
  | Setup => setup HEARTBEAT_INTERVAL_MS s
  | Connection => on_connection tk s
  | Message c m =>
      match sockets s !! c with
      | Some o => handleMessage tk c m o s
      | None => (s, [])
      end
  | Closed c =>
      match sockets s !! c with
      | Some o => on_close c o s
      | None => (s, [])
      end
  | AuthTimeout c =>
      match sockets s !! c with
      | Some o => (s, on_auth_timeout c o)
      | None => (s, [])
      end
  | HeartbeatCheck => checkStaleConnections tk HEARTBEAT_INTERVAL_MS s
  | CloseTimer bridge c reason => on_close_timer bridge c reason s
  | SendCommand bridge command user => (s, snd (sendCommand bridge command user s))
  | SendDisconnect bridge reason => (s, snd (sendDisconnect bridge reason s))
  | DisconnectBridgeByUserId user reason =>
      (s, snd (disconnectBridgeByUserId user reason s))
  | RequestBridgeLogs user maxEntries =>
      (s, snd (requestBridgeLogs user maxEntries s))
  | ClearBridgeLogs user => (clearBridgeLogs user s, [])
  | Shutdown => shutdown s
  end.

Fixpoint run (HEARTBEAT_INTERVAL_MS : Z) (evs : list (tick * event)) (s : t)
    : t * list effect :=
  match evs with
  | [] => (s, [])
  | (tk, ev) :: r =>
      let '(s1, e1) := step HEARTBEAT_INTERVAL_MS tk ev s in
      let '(s2, e2) := run HEARTBEAT_INTERVAL_MS r s1 in
      (s2, (e1 ++ e2)%list)
  end.

End BridgeWebSocketServer.

(** * Properties *)

(** ** Vocabulary of the statements *)

Module Spec.

Module Hub := HAWebSocketClient.
Module Cloud := CloudClient.
Import HelmBridge.

(** The delays of the reconnect timers armed by a list of hub effects. *)
Definition scheduled (es : list Hub.effect) : list Z :=
  omap (fun e => match e with Hub.SetReconnectTimer d => Some d | _ => None end) es.



(** A hub effect settles a promise. *)
Definition settles_promise (e : Hub.effect) : bool :=
  match e with
  | Hub.Resolve _ _ | Hub.Reject _ _ => true
  | _ => false
  end.

(** The command acknowledged, or reported on, by an output. *)
Definition ack_of (o : output) : option string :=
  match o with
  | CloudDo (Cloud.WsSend (Cloud.command_ack c _)) => Some c
  | _ => None
  end.

Definition result_of (o : output) : option string :=
  match o with
  | CloudDo (Cloud.WsSend (Cloud.command_result c _ _ _ _)) => Some c
  | _ => None
  end.

Definition acks (os : list output) : list string := omap ack_of os.
Definition results (os : list output) : list string := omap result_of os.

(** The commands received from the cloud in a list of inputs. *)
Definition command_of (te : tick * event) : option string :=
  match snd te with
  | CloudMessage (Cloud.command c) => Some (Cloud.cmdId c)
  | _ => None
  end.

Definition commands_received (evs : list (tick * event)) : list string :=
  omap command_of evs.

(** A command with another [commandType]. *)
Definition retype (ty : string) (c : Cloud.CommandMessage) : Cloud.CommandMessage :=
  {| Cloud.cmdId := Cloud.cmdId c; Cloud.commandType := ty;
     Cloud.payload := Cloud.payload c; Cloud.requiresAck := Cloud.requiresAck c;
     Cloud.issuedAt := Cloud.issuedAt c; Cloud.ttlMs := Cloud.ttlMs c |}.

(** The two shapes of [command_result] the executor produces. *)
Definition executor_result (o : output) : Prop :=
  match o with
  | CloudDo (Cloud.WsSend (Cloud.command_result _ st _ resp err)) =>
      (st = Cloud.completed /\ (exists v, resp = Some v) /\ err = None)
      \/ (st = Cloud.failed /\ resp = None
          /\ exists m, err = Some ("EXECUTION_FAILED", m))
  | _ => True
  end.

(** Where the outputs of the orchestrator's reaction to hub effects [es]
    come from: the effects themselves, the results sent for the commands
    whose promises they settle, and the batch timer. *)
Inductive from_hub (tk : tick) (es : list Hub.effect) : output -> Prop :=
| from_hub_do e :
    In e es -> from_hub tk es (HubDo e)
| from_hub_completed c v :
    In (Hub.Resolve (AwaitCommand c) v) es ->
    from_hub tk es
      (CloudDo (Cloud.WsSend
                  (Cloud.command_result c Cloud.completed (now tk) (Some v) None)))
| from_hub_failed c m :
    In (Hub.Reject (AwaitCommand c) m) es ->
    from_hub tk es
      (CloudDo (Cloud.WsSend
                  (Cloud.command_result c Cloud.failed (now tk) None
                     (Some ("EXECUTION_FAILED", m)))))
| from_hub_batch_timer :
    from_hub tk es (SetBatchTimer batchIntervalMs).

(** What the orchestrator does in reaction to a signal or a settled
    promise: outputs of hub origin, or the result sent when the payload
    of a command cannot be destructured. *)
Definition reaction (tk : tick) (o : output) : Prop :=
  (exists es, from_hub tk es o)
  \/ (exists c, o = CloudDo (Cloud.WsSend
                       (Cloud.command_result c Cloud.failed (now tk) None
                          (Some ("EXECUTION_FAILED", destructure_error))))).

(** The inputs that resume a continuation of the orchestrator itself. *)
Definition resumes (ev : event) : bool :=
  match ev with
  | PollTimer _ _ | PollSettled _ _ | FullSyncCollected _
  | StartEntities _ | StartStates _ => true
  | _ => false
  end.

(** The cloud effects among outputs. *)
Definition cloud_effect_of (o : output) : option Cloud.effect :=
  match o with
  | CloudDo e => Some e
  | _ => None
  end.

(** The effects of the cloud client's own method that an input runs; a
    run of the poll and the continuation of a full sync call the cloud
    client from within, and their cloud effects are read off what they
    do. *)
Definition cloud_effects_of (tk : tick) (ev : event) (b : t) : list Cloud.effect :=
  match ev with
  | CloudConnect | CloudReconnectTimer =>
      snd (Cloud.connect (cloudClient b) (credentialStore b))
  | CloudOpen => snd (Cloud.on_open (cloudClient b) (credentialStore b))
  | CloudClose => snd (Cloud.on_close (cloudClient b))
  | CloudMessage m =>
      snd (Cloud.handleMessage (cloudClient b) (credentialStore b) m (now tk) (disk tk))
  | HeartbeatTimer => Cloud.sendHeartbeat (cloudClient b) (now tk)
  | Stop => snd (Cloud.disconnect (cloudClient b))
  | PollTimer _ _ | FullSyncCollected _ => omap cloud_effect_of (snd (step tk ev b))
  | _ => []
  end.

(** *** Which commands the bridge is still working on

    A caller is known when it does not await a command, or awaits one of
    the commands [R] received so far. *)
Definition caller_known (R : list string) (k : caller) : Prop :=
  match k with
  | AwaitCommand c => In c R
  | AwaitOther _ => True
  end.

(** The caller whose promise a hub effect settles, or whose deadline it
    arms. *)
Definition effect_caller (e : Hub.effect) : option caller :=
  match e with
  | Hub.Resolve k _ | Hub.Reject k _ | Hub.SetRpcTimeout _ k _ => Some k
  | _ => None
  end.

Definition hub_known (R : list string) (s : Hub.state) : Prop :=
  forall id k, Hub.pendingResponses s !! id = Some k -> caller_known R k.

Definition effects_known (R : list string) (es : list Hub.effect) : Prop :=
  forall e k, In e es -> effect_caller e = Some k -> caller_known R k.

Definition timers_known (R : list string) (l : list (Z * caller)) : Prop :=
  forall id k, In (id, k) l -> caller_known R k.

Definition known (R : list string) (b : t) : Prop :=
  hub_known R (wsClient b) /\ timers_known R (rpcTimers b).

(** The deadlines armed by a list of hub effects. *)
Definition armed (es : list Hub.effect) : list (Z * caller) :=
  omap (fun e => match e with
                 | Hub.SetRpcTimeout id k _ => Some (id, k)
                 | _ => None
                 end) es.

(** The command an input delivers. *)
Definition received (ev : event) : list string :=
  match ev with
  | CloudMessage (Cloud.command c) => [Cloud.cmdId c]
  | _ => []
  end.

(** A hub client method keeps the table within the known callers and
    settles or arms only for known callers. *)
Definition keeps_known (R : list string) (s : Hub.state)
    (r : Hub.state * list Hub.effect) : Prop :=
  hub_known R s -> hub_known R (fst r) /\ effects_known R (snd r).

(** How the outputs of a step are laid out: the acknowledgement, if any,
    comes first and is that of the command the step receives; results
    follow and are about known commands. *)
Definition step_layout (R : list string) (ev : event) (outs : list output) : Prop :=
  (forall C, In C (results outs) -> In C (received ev ++ R))
  /\ exists a r, outs = (a ++ r)%list /\ results a = [] /\ acks r = []
                 /\ (acks a = [] \/ acks a = received ev).

(** *** A request in flight

    Request [id] of caller [k] is waiting: it is in the table, and the
    counter is past it. *)
Definition waiting (id : Z) (k : caller) (s : Hub.state) : Prop :=
  Hub.pendingResponses s !! id = Some k /\ id < Hub.messageId s.

(** An input that neither answers request [id], nor fires its deadline,
    nor stops the bridge (after [stop] the process exits). *)
Definition quiet (id : Z) (b : t) (ev : event) : Prop :=
  match ev with
  | HubMessage (Hub.result (Some i) _ _ _) => i <> id
  | HubRpcTimeout n => forall k, rpcTimers b !! n <> Some (id, k)
  | Stop => False
  | _ => True
  end.

Fixpoint quiet_run (id : Z) (evs : list (tick * event)) (b : t) : Prop :=
  match evs with
  | [] => True
  | (tk, ev) :: r => quiet id b ev /\ quiet_run id r (fst (step tk ev b))
  end.

(** *** Revocation *)

(** [text] contains [word] up to the case of ASCII letters. *)
Definition contains_ci (text word : string) : Prop :=
  exists pre w post, text = pre ++ w ++ post /\ JS.toLowerCase w = word.

(** An output that opens or schedules a cloud connection. *)
Definition cloud_reconnects (o : output) : Prop :=
  o = CloudDo Cloud.WsNew \/ exists d, o = CloudDo (Cloud.SetReconnectTimer d).

(** The cloud session will not reconnect and the store is empty. *)
Definition revoked (b : t) : Prop :=
  Cloud.shouldReconnect (cloudClient b) = false
  /\ CredentialStore.isPaired (credentialStore b) = false.

(** A run of the pairing poll that is handed a credential: the response
    is JSON, [ok], says [paired] and carries a non-empty credential. *)
Definition writes (ev : event) : bool :=
  match ev with
  | PollTimer _ (Fetched ct ok _ (Some data)) =>
      is_json ct && ok && String.eqb (p_status data) "paired"
      && JS.truthy (JS.or_default (p_bridgeCredential data) "")
  | _ => false
  end.

(** A run of the pairing poll that is handed a credential and can write
    it to the file. *)
Definition pairs (te : tick * event) : bool :=
  writes (snd te) && disk (fst te).

(** No run of the pairing poll among the inputs stores a credential. *)
Definition never_paired (evs : list (tick * event)) : Prop :=
  Forall (fun te => pairs te = false) evs.

(** *** Batches *)

(** The state change an input delivers. *)
Definition state_change_of (te : tick * event) : option HAStateChangedEvent :=
  match snd te with
  | HubMessage (Hub.event (Some e)) => Some e
  | _ => None
  end.

Definition state_changes (evs : list (tick * event)) : list HAStateChangedEvent :=
  omap state_change_of evs.

(** The inputs that flush the buffer. *)
Definition flushes (ev : event) : bool :=
  match ev with
  | BatchTimer | Stop => true
  | _ => false
  end.

Definition no_flush (evs : list (tick * event)) : Prop :=
  Forall (fun te => flushes (snd te) = false) evs.

(** The [state_batch] frames among outputs: batch id and events. *)
Definition batch_of (o : output) : option (string * list Cloud.StateChangedEvent) :=
  match o with
  | CloudDo (Cloud.WsSend (Cloud.state_batch id _ es _)) => Some (id, es)
  | _ => None
  end.

Definition batches (os : list output) : list (string * list Cloud.StateChangedEvent) :=
  omap batch_of os.

(** The state changes signalled by a list of hub effects. *)
Definition emitted (es : list Hub.effect) : list HAStateChangedEvent :=
  omap (fun e => match e with
                 | Hub.Emit (Hub.state_changed ev) => Some ev
                 | _ => None
                 end) es.

(** Sample data of the scenarios below. *)
Definition tk0 : tick :=
  {| now := "2026-01-19T10:00:00.000Z";
     uuid := "7d9f1c5e-3b2a-4c6d-8e1f-0a9b8c7d6e5f";
     disk := true |}.

(** The same moment, with the credential file locked by the operating
    system. *)
Definition tk_locked : tick :=
  {| now := "2026-01-19T10:00:00.000Z";
     uuid := "7d9f1c5e-3b2a-4c6d-8e1f-0a9b8c7d6e5f";
     disk := false |}.

Definition bridge0 : t :=
  init "token" "helm-bridge-abcd1234" "1.0" "/data/credentials.json" None.

Definition paired0 : t :=
  init "token" "helm-bridge-abcd1234" "1.0" "/data/credentials.json"
    (Some {| CredentialStore.bridgeId := Some "helm-bridge-abcd1234";
             CredentialStore.bridgeCredential := "bc_deadbeef";
             CredentialStore.tenantId := Some "42";
             CredentialStore.pairedAt := None;
             CredentialStore.cloudUrl := None |}).

(** A hub session that is authenticated and has one request in flight:
    id 1 went to the event subscription, id 2 to [get_states]. *)
Definition hub_waiting : Hub.state :=
  fst (Hub.sendCommand
         (fst (Hub.handleMessage
                 (fst (Hub.on_open (fst (Hub.connect (Hub.init "token")))))
                 Hub.auth_ok))
         (AwaitOther "states") "get_states" []).

(** A bridge whose hub session was authenticated, lost its socket and is
    now connected again, waiting for the hub's verdict on the token. *)
Definition hub_reconnected : t :=
  fst (run [(tk0, HubConnect); (tk0, HubOpen);
            (tk0, HubMessage Hub.auth_required); (tk0, HubMessage Hub.auth_ok);
            (tk0, HubClose); (tk0, HubReconnectTimer); (tk0, HubOpen);
            (tk0, HubMessage Hub.auth_required)] bridge0).

(** A paired bridge with both sessions authenticated. *)
Definition both_up : t :=
  fst (run [(tk0, HubConnect); (tk0, HubOpen);
            (tk0, HubMessage Hub.auth_required); (tk0, HubMessage Hub.auth_ok);
            (tk0, CloudConnect); (tk0, CloudOpen);
            (tk0, CloudMessage (Cloud.auth_result true (Some "42") None))]
         paired0).

Definition turn_on_kitchen : Cloud.ServicePayload :=
  {| Cloud.domain := "light"; Cloud.service := "turn_on";
     Cloud.serviceData := Some "{entity_id:light.kitchen}" |}.

(** A command whose type is none of [ha_call_service], [ha_full_resync],
    [ha_refresh_entity]. *)
Definition odd_command : Cloud.CommandMessage :=
  {| Cloud.cmdId := "11111111-1111-1111-1111-111111111111";
     Cloud.commandType := "ha_restart_host";
     Cloud.payload := Some turn_on_kitchen;
     Cloud.requiresAck := true;
     Cloud.issuedAt := "2026-01-19T09:59:59.000Z";
     Cloud.ttlMs := None |}.

Definition kitchen_command : Cloud.CommandMessage :=
  {| Cloud.cmdId := "11111111-1111-1111-1111-111111111111";
     Cloud.commandType := "ha_call_service";
     Cloud.payload := Some turn_on_kitchen;
     Cloud.requiresAck := true;
     Cloud.issuedAt := "2026-01-19T09:59:59.000Z";
     Cloud.ttlMs := None |}.

(** Both sessions come up, a command arrives and the hub answers. *)
Definition command_scenario : list (tick * event) :=
  [(tk0, HubConnect); (tk0, HubOpen);
   (tk0, HubMessage Hub.auth_required); (tk0, HubMessage Hub.auth_ok);
   (tk0, CloudConnect); (tk0, CloudOpen);
   (tk0, CloudMessage (Cloud.auth_result true (Some "42") None));
   (tk0, CloudMessage (Cloud.command kitchen_command));
   (tk0, HubMessage (Hub.result (Some 2) true "[]" None))].

(** The same command frame arrives a second time after its result was
    sent. *)
Definition command_repeated : list (tick * event) :=
  (command_scenario ++ [(tk0, CloudMessage (Cloud.command kitchen_command))])%list.

(** The cloud session of a paired bridge, connected and about to hear the
    verdict on its credential. *)
Definition cloud_connected : t :=
  fst (run [(tk0, CloudConnect); (tk0, CloudOpen)] paired0).

(** The five requests of a full sync all rejected. *)
Definition no_answers : FullSync.raw :=
  {| FullSync.areasRaw := None; FullSync.devicesRaw := None;
     FullSync.statesRaw := None; FullSync.servicesRaw := None;
     FullSync.entityRegistryRaw := None |}.

Definition kitchen_on : HAStateChangedEvent :=
  {| entity_id := "light.kitchen";
     old_state := Some {| state := "off"; attributes := "{}";
                          last_changed := "2026-01-19T09:00:00.000Z";
                          last_updated := "2026-01-19T09:00:00.000Z" |};
     new_state := Some {| state := "on"; attributes := "{brightness:255}";
                          last_changed := "2026-01-19T10:00:00.000Z";
                          last_updated := "2026-01-19T10:00:00.000Z" |};
     context_id := Some "ctx-1" |}.

Definition hall_on : HAStateChangedEvent :=
  {| entity_id := "light.hall";
     old_state := None;
     new_state := Some {| state := "on"; attributes := "{}";
                          last_changed := "2026-01-19T10:00:00.100Z";
                          last_updated := "2026-01-19T10:00:00.100Z" |};
     context_id := None |}.

(** The body of the status poll once the code has been redeemed. *)
Definition redeemed (c t bid : string) : PairingStatus :=
  {| p_status := "paired"; p_bridgeCredential := Some c;
     p_tenantId := Some t; p_bridgeId := Some bid |}.

(** The credential made of exactly these three fields. *)
Definition credential_of (c t bid : string) : CredentialStore.StoredCredentials :=
  {| CredentialStore.bridgeId := Some bid;
     CredentialStore.bridgeCredential := c;
     CredentialStore.tenantId := Some t;
     CredentialStore.pairedAt := None;
     CredentialStore.cloudUrl := None |}.

End Spec.

(** ** Vocabulary of the further properties *)

Module Further.

Module Hub := HAWebSocketClient.
Module Cloud := CloudClient.
Import HelmBridge Spec.

(** *** Request ids *)

(** The request id a hub frame carries. *)
Definition frame_id (f : Hub.frame) : option Z :=
  match f with
  | Hub.FAuth _ => None
  | Hub.FSubscribeEvents id => Some id
  | Hub.FCommand id _ _ => Some id
  end.

Definition effect_id (e : Hub.effect) : option Z :=
  match e with
  | Hub.WsSend f => frame_id f
  | _ => None
  end.

(** The ids of the frames written to the hub, in order. *)
Definition effect_ids (es : list Hub.effect) : list Z := omap effect_id es.

Definition output_id (o : output) : option Z :=
  match o with
  | HubDo e => effect_id e
  | _ => None
  end.

Definition hub_ids (os : list output) : list Z := omap output_id os.

(** [ids] increase strictly and lie in [lo, hi). *)
Definition span (lo hi : Z) (ids : list Z) : Prop :=
  lo <= hi /\ StronglySorted Z.lt ids /\ Forall (fun i => lo <= i < hi) ids.

(** A hub client method takes its ids from the counter. *)
Definition takes_ids (s : Hub.state) (r : Hub.state * list Hub.effect) : Prop :=
  span (Hub.messageId s) (Hub.messageId (fst r)) (effect_ids (snd r)).

(** *** One result for each command *)

(** The command whose promise a hub effect settles. *)
Definition settled_of (e : Hub.effect) : option string :=
  match e with
  | Hub.Resolve (AwaitCommand c) _ => Some c
  | Hub.Reject (AwaitCommand c) _ => Some c
  | _ => None
  end.

Definition settled (es : list Hub.effect) : list string := omap settled_of es.

(** The table of requests in flight and the armed deadlines, given the
    commands [R] received and the commands [D] whose promise has been
    settled: ids are below the counter; a deadline is that of the request
    with its id; a command in flight was received, has not been settled
    and has one request only. *)
Record tidy (R D : list string) (s : Hub.state) (l : list (Z * caller)) : Prop := {
  tidy_table : forall id k, Hub.pendingResponses s !! id = Some k -> id < Hub.messageId s;
  tidy_timers : forall id k, In (id, k) l -> id < Hub.messageId s;
  tidy_agree : forall id k k',
    Hub.pendingResponses s !! id = Some k -> In (id, k') l -> k = k';
  tidy_open : forall id c,
    Hub.pendingResponses s !! id = Some (AwaitCommand c) -> In c R /\ ~ In c D;
  tidy_single : forall id id' c,
    Hub.pendingResponses s !! id = Some (AwaitCommand c) ->
    Hub.pendingResponses s !! id' = Some (AwaitCommand c) -> id = id';
  tidy_done : forall c, In c D -> In c R;
}.

Definition neat (R D : list string) (b : t) : Prop :=
  tidy R D (wsClient b) (rpcTimers b).

(** [N] is empty or one command not settled before. *)
Definition at_most_one (D N : list string) : Prop :=
  N = [] \/ exists c, N = [c] /\ ~ In c D.

(** A hub client method that settles nothing and arms nothing. *)
Definition plain (s : Hub.state) (r : Hub.state * list Hub.effect) : Prop :=
  Hub.pendingResponses (fst r) = Hub.pendingResponses s
  /\ Hub.messageId s <= Hub.messageId (fst r)
  /\ settled (snd r) = [] /\ armed (snd r) = [].

(** A hub client method that settles at most one command, a new one. *)
Definition settles_once (R D : list string) (l : list (Z * caller))
    (r : Hub.state * list Hub.effect) : Prop :=
  at_most_one D (settled (snd r))
  /\ tidy R (settled (snd r) ++ D) (fst r) (l ++ armed (snd r)).

(** A reaction of the bridge that reports on at most one command, a new
    one. *)
Definition reports (R D : list string) (r : t * list output) : Prop :=
  exists N, at_most_one D N /\ sublist (results (snd r)) N
            /\ neat R (N ++ D) (fst r).

(** A reaction that reports on nothing. *)
Definition silent (R D : list string) (r : t * list output) : Prop :=
  neat R D (fst r) /\ results (snd r) = [].

(** The hub answers the command twice and its deadline fires. *)
Definition answered_twice : list (tick * event) :=
  (command_scenario
     ++ [(tk0, HubMessage (Hub.result (Some 2) false "null" (Some "late")));
         (tk0, HubRpcTimeout 0)])%list.

(** *** The outcome of a command *)

(** The [command_result] frame, if the cloud socket is open, reporting
    that command [c] failed with message [m]. *)
Definition failure (tk : tick) (b : t) (c m : string) : list output :=
  map CloudDo
    (Cloud.sendCommandResult (cloudClient b) c Cloud.failed (now tk) None
       (Some ("EXECUTION_FAILED", m))).

(** The same for a command that completed with the hub's response [v]. *)
Definition success (tk : tick) (b : t) (c : string) (v : json) : list output :=
  map CloudDo
    (Cloud.sendCommandResult (cloudClient b) c Cloud.completed (now tk)
       (Some v) None).

(** The data of the [call_service] request made for a payload. *)
Definition service_call (p : Cloud.ServicePayload) : list (string * json) :=
  [("domain", Cloud.domain p); ("service", Cloud.service p);
   ("service_data", match Cloud.serviceData p with Some d => d | None => "{}" end)].

(** What the bridge writes to the cloud on receipt of command [c]. *)
Definition receipt (tk : tick) (b : t) (c : Cloud.CommandMessage) : list output :=
  (map CloudDo (if Cloud.requiresAck c
                then Cloud.sendCommandAck (cloudClient b) (Cloud.cmdId c) (now tk)
                else [])
   ++ [CloudDo (Cloud.Emit (Cloud.command_sig c))])%list.

(** A command without payload. *)
Definition empty_command : Cloud.CommandMessage :=
  {| Cloud.cmdId := "22222222-2222-2222-2222-222222222222";
     Cloud.commandType := "ha_full_resync";
     Cloud.payload := None;
     Cloud.requiresAck := true;
     Cloud.issuedAt := "2026-01-19T09:59:59.000Z";
     Cloud.ttlMs := None |}.

(** *** Reconnection of the cloud session *)





(** The reasons of a [disconnect] message that unpair the bridge. *)
Definition unpairs (reason : option string) : bool :=
  match reason with
  | Some r => String.eqb r "user_disconnected" || String.eqb r "user_reset"
  | None => false
  end.

(** *** The buffer of state changes *)





(** The state changes written to the cloud, over all batches. *)
Definition forwarded (os : list output) : list Cloud.StateChangedEvent :=
  concat (map snd (batches os)).

(** [x] is the protocol form of the state change [e], with some time
    stamp. *)
Definition same_change (e : HAStateChangedEvent) (x : Cloud.StateChangedEvent) : Prop :=
  exists tk, toProtocol tk e = Some x.

(** The hub reports that an entity was removed: there is no new state. *)
Definition hall_removed : HAStateChangedEvent :=
  {| entity_id := "light.hall";
     old_state := Some {| state := "on"; attributes := "{}";
                          last_changed := "2026-01-19T10:00:00.100Z";
                          last_updated := "2026-01-19T10:00:00.100Z" |};
     new_state := None;
     context_id := None |}.

(** *** The pairing poll as a loop *)

(** What the environment gives to one run of [poll]: the clock, the
    response to the status request, how the promise of [connect] settles
    if the run awaits it, and the state of the bridge at that time. *)
Record poll_input := {
  p_tick : tick;
  p_resp : fetched;
  p_settles : settles;
  p_bridge : t;
}.

(** How a run of [poll] ends, once the promise it may await has settled:
    the counter, what was done, and whether the timer of the next run is
    armed. *)
Definition poll_end (how : settles) (r : Z * t * list output * poll_next)
    : Z * list output * bool :=
  let '(n, b1, o, next) := r in
  match next with
  | PollStop => (n, o, false)
  | PollAgain => (n, o, true)
  | PollAwaitsConnect =>
      let '(o', next') := poll_resume n how in
      (n, (o ++ o')%list,
       match next' with PollAgain => true | _ => false end)
  end.

Definition polls_again (attempts : Z) (i : poll_input) : Z * list output * bool :=
  poll_end (p_settles i) (poll (p_tick i) attempts (p_resp i) (p_bridge i)).

(** The runs of [poll] one after the other, as long as the timer is
    armed: their number and what they do. *)
Fixpoint poll_loop (attempts : Z) (ins : list poll_input) : nat * list output :=
  match ins with
  | [] => (O, [])
  | i :: rest =>
      let '(n, o, again) := polls_again attempts i in
      if again then
        let '(k, os) := poll_loop n rest in (S k, (o ++ os)%list)
      else (1%nat, o)
  end.

Definition poll_timers (os : list output) : list Z :=
  omap (fun o => match o with SetPollTimer ms => Some ms | _ => None end) os.

(** A run of [poll] that started with the counter at [attempts] ends
    within the limit. *)
Definition within_limit (attempts : Z) (r : Z * list output * bool) : Prop :=
  let '(n, o, again) := r in
  n = attempts + 1
  /\ (again = true -> n < maxAttempts /\ poll_timers o = [pollInterval])
  /\ (again = false -> poll_timers o = []).

(** The inputs that erase the credential. *)
Definition erases (ev : event) : bool :=
  match ev with
  | CloudMessage (Cloud.auth_result false _ err) =>
      Cloud.is_revocation (JS.or_default err "Unknown error")
  | CloudMessage (Cloud.disconnect_request reason) => unpairs reason
  | _ => false
  end.

(** The store with the file removed and the copy in memory dropped. *)
Definition erased (cs : CredentialStore.t) : CredentialStore.t :=
  {| CredentialStore.filePath := CredentialStore.filePath cs;
     CredentialStore.file := None;
     CredentialStore.credentials := None |}.

(** The error text of an [auth_result], if any, is ASCII. *)
Definition ascii_error (ev : event) : bool :=
  match ev with
  | CloudMessage (Cloud.auth_result _ _ (Some err)) => JS.ascii_text err
  | _ => true
  end.

(** *** Configuration *)

(** An environment in which only the hub's URL and token are set. *)
Definition env_of (url token : string) : Config.env :=
  {| Config.HA_URL := Some url; Config.SUPERVISOR_URL := None;
     Config.HA_TOKEN := Some token; Config.SUPERVISOR_TOKEN := None;
     Config.CLOUD_URL := None; Config.BRIDGE_ID := None;
     Config.CREDENTIAL_PATH := None |}.

(** The environment of the add-on under the supervisor. *)
Definition supervised (token : string) : Config.env :=
  {| Config.HA_URL := None; Config.SUPERVISOR_URL := None;
     Config.HA_TOKEN := None; Config.SUPERVISOR_TOKEN := Some token;
     Config.CLOUD_URL := None; Config.BRIDGE_ID := None;
     Config.CREDENTIAL_PATH := None |}.

(** A variable that is unset or empty. *)
Definition unset (x : option string) : Prop := x = None \/ x = Some "".

(** The last character of a string is a slash. *)
Fixpoint ends_with_slash (s : string) : bool :=
  match s with
  | EmptyString => false
  | String c r =>
      match r with
      | EmptyString => Ascii.eqb c "/"
      | String _ _ => ends_with_slash r
      end
  end.

(** A character of the alphabet of bridge ids. *)
Definition id_char (c : ascii) : bool :=
  let n := nat_of_ascii c in
  (Nat.leb 97 n && Nat.leb n 122) || (Nat.leb 48 n && Nat.leb n 57).

Fixpoint all_chars (p : ascii -> bool) (s : string) : bool :=
  match s with
  | EmptyString => true
  | String c r => p c && all_chars p r
  end.

(** *** Full sync *)

(** The last registry entry of entity [id] in a list. *)
Definition last_entry (id : string) (l : list HARestClient.HAEntityRegistry)
    : option HARestClient.HAEntityRegistry :=
  last (List.filter (fun e => String.eqb (HARestClient.r_entity_id e) id) l).

(** The characters of a string. *)
Fixpoint no_dot (s : string) : bool :=
  match s with
  | EmptyString => true
  | String c r => negb (Ascii.eqb c ".") && no_dot r
  end.

(** *** Names *)

(** A normalised name: no upper-case letter, no underscore or hyphen, no
    white space but single spaces, and none of those at either end. *)
Definition plain_char (c : ascii) : bool :=
  negb (DuplicateDetector.is_space c)
  && negb (Ascii.eqb c "_") && negb (Ascii.eqb c "-")
  && Ascii.eqb (JS.lower c) c.

(** After a space ([after_space]) comes a plain character; the string
    does not end with a space. *)
Fixpoint spaced (after_space : bool) (s : string) : bool :=
  match s with
  | EmptyString => negb after_space
  | String c r =>
      if Ascii.eqb c " " then negb after_space && spaced true r
      else plain_char c && spaced false r
  end.

(** The same, but the string may end with a space. *)
Fixpoint loose (after_space : bool) (s : string) : bool :=
  match s with
  | EmptyString => true
  | String c r =>
      if Ascii.eqb c " " then negb after_space && loose true r
      else plain_char c && loose false r
  end.

(** A string is normal when it is empty or starts with a plain character
    and is [spaced]. *)
Definition normal (s : string) : bool :=
  match s with
  | EmptyString => true
  | String c _ => negb (Ascii.eqb c " ") && spaced false s
  end.

(** *** Edit distance *)

(** The cell in row [i] and column [j] of the matrix lies between the
    difference of [i] and [j] and their maximum. *)
Definition bound (i j d : nat) : Prop :=
  (i - j <= d /\ j - i <= d /\ d <= Nat.max i j)%nat.

(** The cells of [l], which start at column [j] of row [i], are bounded. *)
Fixpoint bounded (i j : nat) (l : list nat) : Prop :=
  match l with
  | [] => True
  | d :: r => bound i j d /\ bounded i (S j) r
  end.

(** The cells of [l], which start at column [j] of the row reached after
    the characters [pb] of [b], are zero exactly where [pb] is the prefix
    of [a] of that length. *)
Fixpoint zeroed (pb a : list ascii) (j : nat) (l : list nat) : Prop :=
  match l with
  | [] => True
  | d :: r => (d = O <-> pb = take j a) /\ zeroed pb a (S j) r
  end.

(** *** The primary entity of a group *)

Definition is_light (e : DuplicateDetector.HAEntityInfo) : bool :=
  String.eqb (DuplicateDetector.domain e) "light".

(** A switch and two lights, the second of which can be dimmed. *)
Definition sample_group : list DuplicateDetector.HAEntityInfo :=
  [ {| DuplicateDetector.entityId := "switch.lamp"; DuplicateDetector.domain := "switch";
       DuplicateDetector.brightness := false; DuplicateDetector.colour := false |};
    {| DuplicateDetector.entityId := "light.lamp_relay"; DuplicateDetector.domain := "light";
       DuplicateDetector.brightness := false; DuplicateDetector.colour := false |};
    {| DuplicateDetector.entityId := "light.lamp"; DuplicateDetector.domain := "light";
       DuplicateDetector.brightness := true; DuplicateDetector.colour := false |} ].

(** *** The heartbeat interval *)

(** Whether a heartbeat interval is live after the outputs [os], given
    whether one was live before; [None] when [setInterval] is called
    while an interval is live, which would leave the older one running
    for ever. *)
Fixpoint beats (live : bool) (os : list output) : option bool :=
  match os with
  | [] => Some live
  | CloudDo Cloud.SetHeartbeat :: r => if live then None else beats true r
  | CloudDo Cloud.ClearHeartbeat :: r => beats false r
  | _ :: r => beats live r
  end.

(** An output that neither starts nor stops the heartbeat. *)
Definition beatless (o : output) : Prop :=
  o <> CloudDo Cloud.SetHeartbeat /\ o <> CloudDo Cloud.ClearHeartbeat.

(** A cloud client method that keeps the flag [heartbeatTimer] in step
    with the interval. *)
Definition keeps_beat (s : Cloud.state) (r : Cloud.state * list Cloud.effect) : Prop :=
  beats (Cloud.heartbeatTimer s) (map CloudDo (snd r))
  = Some (Cloud.heartbeatTimer (fst r)).

(** *** Before the cloud accepts the credential *)

(** An output that reports on the hub to the cloud: a heartbeat or a
    batch of state changes. *)
Definition reports_state (o : output) : bool :=
  match o with
  | CloudDo (Cloud.WsSend (Cloud.heartbeat _ _ _ _ _)) => true
  | CloudDo (Cloud.WsSend (Cloud.state_batch _ _ _ _)) => true
  | _ => false
  end.

(** The input by which the cloud accepts the credential. *)
Definition accepts (ev : event) : bool :=
  match ev with
  | CloudMessage (Cloud.auth_result true _ _) => true
  | _ => false
  end.

(** *** The cloud server *)

Module Server := BridgeWebSocketServer.

Definition keys (m : list (string * nat)) : list string := map fst m.

(** The user whose credential an input makes the storage accept. *)
Definition validated_by (te : Server.tick * Server.event) : option string :=
  match snd te with
  | Server.Message _ (Server.From (Cloud.authenticate b cr _)) =>
      option_map Server.userId (Server.validateCredential (fst te) b cr)
  | _ => None
  end.

Definition validated (evs : list (Server.tick * Server.event)) : list string :=
  omap validated_by evs.

(** The user under whom a storage call files what a socket delivered or
    did; the audit entry of [sendCommand] is filed under the user its
    caller names. *)
Definition data_user (op : Server.storage) : option string :=
  match op with
  | Server.updateBridgeStatus u _ => Some u
  | Server.updateBridgeHeartbeat u _ _ => Some u
  | Server.storeFullSync u _ => Some u
  | Server.updateBridgeStatusWithStats u _ _ _ _ => Some u
  | Server.updateEntityStates u _ => Some u
  | Server.createAuditEntry u a =>
      if String.eqb a "command_sent" then None else Some u
  | _ => None
  end.

Definition files_under (V : list string) (e : Server.effect) : Prop :=
  match e with
  | Server.Storage op =>
      match data_user op with
      | Some u => In u V
      | None => True
      end
  | _ => True
  end.

(** The user whose credential an input makes the storage accept on
    socket [c]. *)
Definition owner_by (c : nat) (te : Server.tick * Server.event) : option string :=
  match snd te with
  | Server.Message c' (Server.From (Cloud.authenticate b cr _)) =>
      if Nat.eqb c' c
      then option_map Server.userId (Server.validateCredential (fst te) b cr)
      else None
  | _ => None
  end.

(** The user whose credential the storage accepted last on socket [c]. *)
Definition owner (c : nat) (evs : list (Server.tick * Server.event)) : option string :=
  fold_left (fun acc te => match owner_by c te with Some u => Some u | None => acc end)
    evs None.

(** The socket an input comes from. *)
Definition socket_of (ev : Server.event) : option nat :=
  match ev with
  | Server.Message c _ => Some c
  | Server.Closed c => Some c
  | Server.AuthTimeout c => Some c
  | _ => None
  end.

(** A storage call that files data does so in reaction to an input of a
    socket, under the owner of that socket after the inputs [hist]. *)
Definition filed_by_owner (hist : list (Server.tick * Server.event))
    (ev : Server.event) (e : Server.effect) : Prop :=
  match e with
  | Server.Storage op =>
      match data_user op with
      | Some u => exists c, socket_of ev = Some c /\ owner c hist = Some u
      | None => True
      end
  | _ => True
  end.

(** The tenant of every socket is its owner. *)
Definition owned (hist : list (Server.tick * Server.event)) (s : Server.t) : Prop :=
  forall c o u, Server.sockets s !! c = Some o -> Server.tenantId o = Some u ->
                owner c hist = Some u.

(** A storage that accepts every credential for the user named like the
    credential. *)
Definition accept_named (now : Z) : Server.tick :=
  {| Server.now := now;
     Server.validateCredential :=
       fun _ cr => Some {| Server.id := 7; Server.userId := cr |} |}.

(** Two bridges of two users, each on its own socket. *)
Definition two_tenants : list (Server.tick * Server.event) :=
  [(accept_named 0, Server.Connection);
   (accept_named 5, Server.Connection);
   (accept_named 10,
    Server.Message 0%nat (Server.From (Cloud.authenticate "helm-bridge-1" "41" "1.0.0")));
   (accept_named 20,
    Server.Message 1%nat (Server.From (Cloud.authenticate "helm-bridge-2" "42" "1.0.0")))].

(** The socket to which an effect hands a command, a request or the order
    to disconnect. *)
Definition served (e : Server.effect) : option nat :=
  match e with
  | Server.Send c (Cloud.command _) => Some c
  | Server.Send c (Cloud.request_full_sync _) => Some c
  | Server.Send c (Cloud.disconnect_request _) => Some c
  | Server.SendRequestLogs c _ => Some c
  | _ => None
  end.

Definition accepted (s : Server.t) (c : nat) : Prop :=
  exists o, Server.sockets s !! c = Some o /\ Server.authenticated o = true.

Definition serves_accepted (s : Server.t) (e : Server.effect) : Prop :=
  match served e with
  | Some c => accepted s c
  | None => True
  end.

(** The registrations are one per bridge id and point at accepted
    sockets; a socket is either untouched or carries a tenant of [V]. *)
Record sound (V : list string) (s : Server.t) : Prop := {
  sound_keys : List.NoDup (keys (Server.connectedBridges s));
  sound_registered :
    forall b c, In (b, c) (Server.connectedBridges s) -> accepted s c;
  sound_sockets :
    forall c o, Server.sockets s !! c = Some o ->
      (Server.authenticated o = false /\ Server.bridgeId o = None
       /\ Server.tenantId o = None)
      \/ (Server.authenticated o = true
          /\ exists u, Server.tenantId o = Some u /\ In u V);
}.

(** An entry whose last heartbeat is older than three intervals. *)
Definition stale (H : Z) (tk : Server.tick) (s : Server.t) (p : string * nat) : bool :=
  match Server.sockets s !! snd p with
  | Some o => Z.ltb (H * 3) (Server.now tk - Server.lastHeartbeat o)
  | None => false
  end.

Definition closes_stale (p : string * nat) : Server.effect :=
  Server.Close (snd p) 4003 "Heartbeat timeout".

(** Every stored log list is within the cap and no longer than the count
    of entries received. *)
Definition capped (s : Server.t) : Prop :=
  forall k st, Server.bridgeLogStore s !! k = Some st ->
    (length (Server.logs st) <= Server.MAX_STORED_LOGS)%nat
    /\ Z.of_nat (length (Server.logs st)) <= Server.totalReceived st.

(** The server after a run from its initial state. *)
Definition reached (H : Z) (evs : list (Server.tick * Server.event)) : Server.t :=
  fst (Server.run H evs Server.init).

(** A storage that accepts every credential for one user. *)
Definition accept_all (now : Z) : Server.tick :=
  {| Server.now := now;
     Server.validateCredential :=
       fun _ _ => Some {| Server.id := 7; Server.userId := "42" |} |}.

Definition auth_frame (bridge : string) : Server.inbound :=
  Server.From (Cloud.authenticate bridge "secret" "1.0.0").

(** A bridge that authenticates on a second socket while its first one is
    still open. *)
Definition reconnected : list (Server.tick * Server.event) :=
  [(accept_all 0, Server.Connection);
   (accept_all 10, Server.Message 0%nat (auth_frame "helm-bridge-1"));
   (accept_all 20, Server.Connection);
   (accept_all 30, Server.Message 1%nat (auth_frame "helm-bridge-1"))].

(** *** Bridge and server together *)

(** The frames the bridge writes to its cloud socket, as the server reads
    them. *)
Definition on_wire (o : output) : option Server.inbound :=
  match o with
  | CloudDo (Cloud.WsSend f) => Some (Server.From f)
  | _ => None
  end.

Definition wire (os : list output) : list Server.inbound := omap on_wire os.

(** The frames arriving on socket [c]. *)
Definition arrive (tk : Server.tick) (c : nat) (ms : list Server.inbound)
    : list (Server.tick * Server.event) :=
  map (fun m => (tk, Server.Message c m)) ms.

(** What the server writes to socket [c], as the bridge reads it: [error]
    and [request_logs] are types the bridge does not know. *)
Definition reply (c : nat) (e : Server.effect) : option Cloud.message :=
  match e with
  | Server.Send c' m => if Nat.eqb c' c then Some m else None
  | Server.SendError c' _ _ =>
      if Nat.eqb c' c then Some (Cloud.unknown "error") else None
  | Server.SendRequestLogs c' _ =>
      if Nat.eqb c' c then Some (Cloud.unknown "request_logs") else None
  | _ => None
  end.

Definition replies (c : nat) (es : list Server.effect) : list Cloud.message :=
  omap (reply c) es.

Definition deliver (tk : tick) (ms : list Cloud.message) : list (tick * event) :=
  map (fun m => (tk, CloudMessage m)) ms.

(** What the server does with the frames among the outputs [os] of the
    bridge, read on socket [c]. *)
Definition uplink (H : Z) (stk : Server.tick) (c : nat) (os : list output)
    (s : Server.t) : Server.t * list Server.effect :=
  Server.run H (arrive stk c (wire os)) s.

(** What the bridge does with what the server wrote to socket [c]. *)
Definition downlink (tk : tick) (c : nat) (es : list Server.effect) (b : t)
    : t * list output :=
  run (deliver tk (replies c es)) b.

(** The bridge's socket opens, the server reads what the bridge writes on
    it, and the bridge reads the server's answer. *)
Definition handshake (H : Z) (stk : Server.tick) (c : nat) (s : Server.t)
    (tk : tick) (b : t) : (Server.t * list Server.effect) * (t * list output) :=
  let hello := step tk CloudOpen b in
  let answer := uplink H stk c (snd hello) s in
  (answer, downlink tk c (snd answer) (fst hello)).

(** A storage that knows no credential. *)
Definition reject_all (now : Z) : Server.tick :=
  {| Server.now := now; Server.validateCredential := fun _ _ => None |}.

(** A server with one socket accepted and nothing received on it. *)
Definition one_socket : Server.t :=
  reached 60000 [(accept_all 0, Server.Connection)].

(** The entity and its new state, as the server files a state change. *)
Definition latest (e : HAStateChangedEvent) : option (string * Cloud.StateSnapshot) :=
  option_map (fun n => (entity_id e, snapshot n)) (new_state e).

(** No change of the list removes its entity. *)
Definition complete (l : list HAStateChangedEvent) : bool :=
  forallb (fun e => match new_state e with Some _ => true | None => false end) l.

Definition some_change (l : list HAStateChangedEvent) : bool :=
  match l with
  | [] => false
  | _ :: _ => true
  end.

(** A server with one socket, on which bridge [helm-bridge-abcd1234]
    has authenticated for user 42. *)
Definition in_session : Server.t :=
  reached 60000 [(accept_all 0, Server.Connection);
                 (accept_all 10, Server.Message 0%nat (auth_frame "helm-bridge-abcd1234"))].

End Further.

(** ** JavaScript strings *)

Module JSFacts.

Import JS.

Lemma toLowerCase_app (a b : string) :
  toLowerCase (a ++ b) = toLowerCase a ++ toLowerCase b.
Proof.
  induction a as [|c a IH]; [reflexivity|].
  change (String (lower c) (toLowerCase (a ++ b))
          = String (lower c) (toLowerCase a ++ toLowerCase b)).
  f_equal. exact IH.
Qed.

Lemma startsWith_app (t s : string) : startsWith (t ++ s) t = true.
Proof.
  induction t as [|c t IH]; [now destruct s|].
  change ((if Ascii.eqb c c then startsWith (t ++ s) t else false) = true).
  now rewrite Ascii.eqb_refl.
Qed.

Lemma includes_here (s t : string) : startsWith s t = true -> includes s t = true.
Proof. destruct s; cbn; intros ->; reflexivity. Qed.

Lemma includes_app (pre t post : string) : includes (pre ++ t ++ post) t = true.
Proof.
  induction pre as [|c pre IH].
  - change ("" ++ t ++ post) with (t ++ post). apply includes_here, startsWith_app.
  - change (startsWith (String c (pre ++ t ++ post)) t
            || includes (pre ++ t ++ post) t = true).
    rewrite IH. apply orb_true_r.
Qed.

Lemma startsWith_inv (s t : string) :
  startsWith s t = true -> exists post, s = t ++ post.
Proof.
  revert s. induction t as [|b t IH]; intros s.
  - intros _. now exists s.
  - destruct s as [|a s]; [discriminate|]. cbn [startsWith].
    destruct (Ascii.eqb a b) eqn:E; [|discriminate].
    apply Ascii.eqb_eq in E as ->.
    intros H. destruct (IH s H) as [post ->]. now exists post.
Qed.

(** [includes] decides the occurrence of a substring. *)
Lemma includes_spec (s t : string) :
  includes s t = true <-> exists pre post, s = pre ++ t ++ post.
Proof.
  split.
  - induction s as [|c s IH]; cbn [includes].
    + intros H. destruct (startsWith_inv _ _ H) as [post ->]. now exists "", post.
    + intros H. apply orb_true_iff in H as [H|H].
      * destruct (startsWith_inv _ _ H) as [post ->]. now exists "", post.
      * destruct (IH H) as (pre & post & ->). now exists (String c pre), post.
  - intros (pre & post & ->). apply includes_app.
Qed.

Lemma contains_ci_includes (text word : string) :
  Spec.contains_ci text word -> includes (toLowerCase text) word = true.
Proof.
  intros (pre & w & post & -> & <-). rewrite !toLowerCase_app. apply includes_app.
Qed.

Lemma contains_ci_truthy (text word : string) :
  word <> "" -> Spec.contains_ci text word -> truthy text = true.
Proof.
  intros Hw (pre & w & post & -> & <-).
  destruct pre; [|reflexivity]. destruct w; [now destruct Hw|reflexivity].
Qed.

End JSFacts.

(** ** The hub client *)

Module HubFacts.

Import HAWebSocketClient Spec.

Lemma scheduled_app (a b : list effect) :
  scheduled (a ++ b) = (scheduled a ++ scheduled b)%list.
Proof. unfold scheduled. apply omap_app. Qed.






(** C10.  [sendCommand] on a session that is not authenticated rejects
    the caller's promise with "Not authenticated" and does nothing else:
    the state is the same (the request id counter and the waiters table
    are untouched) and no frame is written to the socket. *)
Theorem sendCommand_not_authenticated (s : state) (k : caller) (type : string)
    (data : list (string * json)) :
  authenticated s = false ->
  snd (sendCommand s k type data) = [Reject k "Not authenticated"]
  /\ fst (sendCommand s k type data) = s
  /\ messageId (fst (sendCommand s k type data)) = messageId s
  /\ pendingResponses (fst (sendCommand s k type data)) = pendingResponses s
  /\ (forall f, ~ In (WsSend f) (snd (sendCommand s k type data))).
Proof.
  intros Ha. unfold sendCommand. rewrite Ha. cbn.
  repeat split; auto. intros f [H|[]]. discriminate H.
Qed.

Lemma sendCommand_not_authenticated_witness :
  snd (sendCommand (init "token") (AwaitOther "states") "get_states" [])
  = [Reject (AwaitOther "states") "Not authenticated"].
Proof.
  exact (proj1 (sendCommand_not_authenticated (init "token")
                  (AwaitOther "states") "get_states" [] eq_refl)).
Defined.

(** C2, as stated, fails.  With request 2 in flight, neither the close
    handler nor [disconnect] rejects its waiter: the close handler leaves
    it in the table and [disconnect] drops it. *)
Lemma close_rejects_no_waiter :
  pendingResponses hub_waiting !! 2 = Some (AwaitOther "states")
  /\ (forall err, ~ In (Reject (AwaitOther "states") err) (snd (on_close hub_waiting)))
  /\ pendingResponses (fst (on_close hub_waiting)) !! 2 = Some (AwaitOther "states")
  /\ (forall err, ~ In (Reject (AwaitOther "states") err) (snd (disconnect hub_waiting)))
  /\ pendingResponses (fst (disconnect hub_waiting)) !! 2 = None.
Proof.
  repeat split; try (vm_compute; reflexivity);
    intros err; vm_compute; intuition discriminate.
Qed.

Lemma scheduleReconnect_settles_nothing (s : state) :
  pendingResponses (fst (scheduleReconnect s)) = pendingResponses s
  /\ Forall (fun e => settles_promise e = false) (snd (scheduleReconnect s)).
Proof.
  unfold scheduleReconnect.
  destruct (Z.leb _ _), (reconnectTimer s); cbn; repeat constructor.
Qed.

(** C2, amended.  Closing the hub session fails no waiter.  The close
    handler settles no promise and leaves the waiters table as it is;
    [disconnect] settles no promise either and empties the table. *)
Theorem close_settles_no_waiter (s : state) :
  pendingResponses (fst (on_close s)) = pendingResponses s
  /\ Forall (fun e => settles_promise e = false) (snd (on_close s))
  /\ pendingResponses (fst (disconnect s)) = ∅
  /\ Forall (fun e => settles_promise e = false) (snd (disconnect s)).
Proof.
  split; [|split; [|split]].
  - unfold on_close. cbn [shouldReconnect].
    destruct (shouldReconnect s); [|reflexivity].
    match goal with
    | |- context [scheduleReconnect ?x] =>
        pose proof (scheduleReconnect_settles_nothing x) as [H _];
        destruct (scheduleReconnect x); cbn in *; exact H
    end.
  - unfold on_close. cbn [shouldReconnect].
    destruct (shouldReconnect s); [|repeat constructor].
    match goal with
    | |- context [scheduleReconnect ?x] =>
        pose proof (scheduleReconnect_settles_nothing x) as [_ H];
        destruct (scheduleReconnect x); cbn in *; constructor; auto
    end.
  - reflexivity.
  - unfold disconnect. destruct (reconnectTimer s), (ws s); cbn; repeat constructor.
Qed.

(** C5, as stated, fails.  The hub answers [auth_invalid] on a
    reconnected session; when it then closes the socket a reconnect is
    armed after 1000 ms, and on the next connection the same token is
    sent again. *)
Lemma auth_invalid_then_reconnect :
  snd (HelmBridge.run
         [(tk0, HelmBridge.HubMessage (auth_invalid "Invalid access token"));
          (tk0, HelmBridge.HubClose);
          (tk0, HelmBridge.HubReconnectTimer);
          (tk0, HelmBridge.HubOpen);
          (tk0, HelmBridge.HubMessage auth_required)] hub_reconnected)
  = [HelmBridge.HubDo (Emit (auth_failed "Invalid access token"));
     HelmBridge.HubDo (ConnectReject "HA auth failed: Invalid access token");
     HelmBridge.HubDo (Emit disconnected);
     HelmBridge.HubDo ClearReconnectTimer;
     HelmBridge.HubDo (SetReconnectTimer 1000);
     HelmBridge.HubDo WsNew;
     HelmBridge.HubDo (WsSend (FAuth "token"))].
Proof. vm_compute. reflexivity. Qed.

(** C5, amended.  On [auth_invalid] the hub session emits [auth_failed]
    with the hub's message and rejects the pending connect promise; no
    field of the session changes, so when the socket then closes with
    reconnection enabled and fewer than ten attempts made, a reconnect
    is armed with the usual delay. *)
Theorem auth_invalid_keeps_reconnecting (s : state) (msg : string) :
  shouldReconnect s = true ->
  reconnectAttempts s < maxReconnectAttempts ->
  handleMessage s (auth_invalid msg)
  = (s, [Emit (auth_failed msg); ConnectReject ("HA auth failed: " ++ msg)])
  /\ In (SetReconnectTimer (backoff (reconnectAttempts s)))
        (snd (on_close (fst (handleMessage s (auth_invalid msg))))).
Proof.
  intros Hr Hlt. split; [reflexivity|].
  cbn [handleMessage fst]. unfold on_close. cbn [shouldReconnect]. rewrite Hr.
  unfold scheduleReconnect. cbn [reconnectAttempts reconnectTimer].
  destruct (Z.leb_spec maxReconnectAttempts (reconnectAttempts s)); [lia|].
  destruct (reconnectTimer s); cbn; auto.
Qed.

Lemma auth_invalid_keeps_reconnecting_witness :
  In (SetReconnectTimer 1000)
     (snd (on_close (fst (handleMessage (HelmBridge.wsClient hub_reconnected)
                            (auth_invalid "Invalid access token"))))).
Proof.
  exact (proj2 (auth_invalid_keeps_reconnecting
                  (HelmBridge.wsClient hub_reconnected) "Invalid access token"
                  eq_refl eq_refl)).
Defined.

End HubFacts.

(** ** The orchestrator: how it reacts to the two clients *)

Module BridgeFacts.

Import HelmBridge Spec.

Lemma cloud_send_cases (c : Cloud.state) (f : Cloud.frame) :
  Cloud.send c f = [] \/ Cloud.send c f = [Cloud.WsSend f].
Proof. unfold Cloud.send. destruct (Cloud.ws c) as [[]|]; auto. Qed.

Lemma hub_send_cases (s : Hub.state) (f : Hub.frame) :
  Hub.send s f = [] \/ Hub.send s f = [Hub.WsSend f].
Proof. unfold Hub.send. destruct (Hub.ws s) as [[]|]; auto. Qed.

(** The listeners on the hub client touch neither client nor the store. *)
Lemma on_hub_effect_frame tk e b :
  wsClient (fst (on_hub_effect tk e b)) = wsClient b
  /\ cloudClient (fst (on_hub_effect tk e b)) = cloudClient b
  /\ credentialStore (fst (on_hub_effect tk e b)) = credentialStore b.
Proof.
  destruct e as [| | |[]| [] |[]| | | | |]; cbn; auto.
  unfold handleStateChange. cbn. destruct (batchTimer b); cbn; auto.
Qed.

Lemma on_hub_effects_frame tk es : forall b,
  wsClient (fst (on_hub_effects tk es b)) = wsClient b
  /\ cloudClient (fst (on_hub_effects tk es b)) = cloudClient b
  /\ credentialStore (fst (on_hub_effects tk es b)) = credentialStore b.
Proof.
  induction es as [|e r IH]; intros b; cbn [on_hub_effects]; [auto|].
  pose proof (on_hub_effect_frame tk e b) as (H1 & H2 & H3).
  destruct (on_hub_effect tk e b) as [b1 o1]. cbn [fst] in *.
  specialize (IH b1). destruct (on_hub_effects tk r b1) as [b2 o2].
  cbn [fst] in *. destruct IH as (I1 & I2 & I3). repeat split; congruence.
Qed.

Lemma on_hub_effect_from tk e b o :
  In o (snd (on_hub_effect tk e b)) -> from_hub tk [e] o.
Proof.
  destruct e as [| | |[]| k v | k m| | | | |]; cbn; try tauto.
  - unfold handleStateChange. destruct (batchTimer _); cbn; [tauto|].
    intros [<-|[]]. apply from_hub_batch_timer.
  - destruct k; cbn; [|tauto]. unfold Cloud.sendCommandResult.
    destruct (cloud_send_cases (cloudClient b)
                (Cloud.command_result cmdId Cloud.completed (now tk) (Some v) None))
      as [-> | ->]; cbn; [tauto|].
    intros [<-|[]]. apply from_hub_completed. now left.
  - destruct k; cbn; [|tauto]. unfold Cloud.sendCommandResult.
    destruct (cloud_send_cases (cloudClient b)
                (Cloud.command_result cmdId Cloud.failed (now tk) None
                   (Some ("EXECUTION_FAILED", m))))
      as [-> | ->]; cbn; [tauto|].
    intros [<-|[]]. apply from_hub_failed. now left.
Qed.

Lemma from_hub_mono tk es es' o :
  (forall e, In e es -> In e es') -> from_hub tk es o -> from_hub tk es' o.
Proof.
  intros Hsub H. destruct H.
  - apply from_hub_do; auto.
  - apply from_hub_completed; auto.
  - apply from_hub_failed; auto.
  - apply from_hub_batch_timer.
Qed.

(** Every output of the reaction to hub effects has one of the four
    origins of [from_hub]. *)
Lemma on_hub_effects_from tk es : forall b o,
  In o (snd (on_hub_effects tk es b)) -> from_hub tk es o.
Proof.
  induction es as [|e r IH]; intros b o; cbn [on_hub_effects]; [intros []|].
  pose proof (on_hub_effect_from tk e b) as He.
  destruct (on_hub_effect tk e b) as [b1 o1].
  specialize (IH b1). destruct (on_hub_effects tk r b1) as [b2 o2].
  cbn [snd] in *. intros [<-|Hin].
  - apply from_hub_do. now left.
  - apply in_app_or in Hin as [Hin|Hin].
    + eapply from_hub_mono; [|apply He, Hin]. intros e' [<-|[]]. now left.
    + eapply from_hub_mono; [|apply IH, Hin]. intros e' He'. now right.
Qed.

Lemma with_hub_from tk r b o :
  In o (snd (with_hub tk r b)) -> from_hub tk (snd r) o.
Proof. unfold with_hub. apply on_hub_effects_from. Qed.

Lemma with_hub_frame tk r b :
  wsClient (fst (with_hub tk r b)) = fst r
  /\ cloudClient (fst (with_hub tk r b)) = cloudClient b
  /\ credentialStore (fst (with_hub tk r b)) = credentialStore b.
Proof.
  unfold with_hub.
  destruct (on_hub_effects_frame tk (snd r) (set_hub (fst r) b)) as (H1 & H2 & H3).
  rewrite H1, H2, H3. auto.
Qed.

Lemma handleCloudCommand_reaction tk c b o :
  In o (snd (handleCloudCommand tk c b)) -> reaction tk o.
Proof.
  unfold handleCloudCommand. destruct (Cloud.payload c) as [p|].
  - intros H. left. eexists. eapply with_hub_from, H.
  - cbn [snd]. unfold Cloud.sendCommandResult.
    match goal with
    | |- context [Cloud.send ?s ?f] => destruct (cloud_send_cases s f) as [-> | ->]
    end; cbn; [tauto|].
    intros [<-|[]]. right. eauto.
Qed.

Lemma handleCloudCommand_frame tk c b :
  cloudClient (fst (handleCloudCommand tk c b)) = cloudClient b
  /\ credentialStore (fst (handleCloudCommand tk c b)) = credentialStore b.
Proof.
  unfold handleCloudCommand. destruct (Cloud.payload c) as [p|]; [|auto].
  match goal with
  | |- context [with_hub tk ?r b] => destruct (with_hub_frame tk r b) as (_ & H2 & H3)
  end. auto.
Qed.

Lemma collectFullSync_reaction tk b o :
  In o (snd (collectFullSync tk b)) -> reaction tk o.
Proof.
  unfold collectFullSync.
  repeat match goal with
  | |- context [with_hub tk ?r ?b'] =>
      let H := fresh "H" in
      pose proof (with_hub_from tk r b') as H;
      destruct (with_hub tk r b'); cbn [fst snd] in *
  end.
  rewrite !in_app_iff. cbn [In].
  intros H'. left.
  repeat match type of H' with
  | _ \/ _ => destruct H' as [H'|H']
  | False => destruct H'
  end; eauto.
Qed.

Lemma collectFullSync_frame tk b :
  cloudClient (fst (collectFullSync tk b)) = cloudClient b
  /\ credentialStore (fst (collectFullSync tk b)) = credentialStore b.
Proof.
  unfold collectFullSync.
  repeat match goal with
  | |- context [with_hub tk ?r ?b'] =>
      let H := fresh "H" in
      pose proof (with_hub_frame tk r b') as (_ & ? & ?);
      destruct (with_hub tk r b'); cbn [fst snd] in *
  end.
  split; congruence.
Qed.

Lemma on_cloud_effect_reaction tk e b o :
  In o (snd (on_cloud_effect tk e b)) -> reaction tk o.
Proof.
  destruct e as [| | |[]| | | | | |]; cbn; try tauto.
  - apply handleCloudCommand_reaction.
  - apply collectFullSync_reaction.
Qed.

Lemma on_cloud_effect_frame tk e b :
  cloudClient (fst (on_cloud_effect tk e b)) = cloudClient b
  /\ credentialStore (fst (on_cloud_effect tk e b)) = credentialStore b.
Proof.
  destruct e as [| | |[]| | | | | |]; cbn; auto.
  - apply handleCloudCommand_frame.
  - apply collectFullSync_frame.
Qed.

Lemma on_cloud_effects_frame tk es : forall b,
  cloudClient (fst (on_cloud_effects tk es b)) = cloudClient b
  /\ credentialStore (fst (on_cloud_effects tk es b)) = credentialStore b.
Proof.
  induction es as [|e r IH]; intros b; cbn [on_cloud_effects]; [auto|].
  pose proof (on_cloud_effect_frame tk e b) as (H1 & H2).
  destruct (on_cloud_effect tk e b) as [b1 o1]. cbn [fst] in *.
  specialize (IH b1). destruct (on_cloud_effects tk r b1) as [b2 o2].
  cbn [fst] in *. destruct IH as (I1 & I2). split; congruence.
Qed.

(** Every output of the reaction to cloud effects is one of the effects
    or a reaction of the orchestrator. *)
Lemma on_cloud_effects_out tk es : forall b o,
  In o (snd (on_cloud_effects tk es b)) ->
  (exists e, In e es /\ o = CloudDo e) \/ reaction tk o.
Proof.
  induction es as [|e r IH]; intros b o; cbn [on_cloud_effects]; [intros []|].
  pose proof (on_cloud_effect_reaction tk e b) as He.
  destruct (on_cloud_effect tk e b) as [b1 o1].
  specialize (IH b1). destruct (on_cloud_effects tk r b1) as [b2 o2].
  cbn [snd] in *. intros [<-|Hin].
  - left. exists e. split; [now left|reflexivity].
  - apply in_app_or in Hin as [Hin|Hin]; [right; auto|].
    destruct (IH _ Hin) as [(e' & He' & ->)|Hr]; [|now right].
    left. exists e'. split; [now right|reflexivity].
Qed.

Lemma with_cloud_out tk r b o :
  In o (snd (with_cloud tk r b)) ->
  (exists e, In e (snd r) /\ o = CloudDo e) \/ reaction tk o.
Proof. unfold with_cloud. apply on_cloud_effects_out. Qed.

Lemma with_cloud_frame tk r b :
  cloudClient (fst (with_cloud tk r b)) = fst r
  /\ credentialStore (fst (with_cloud tk r b)) = credentialStore b.
Proof.
  unfold with_cloud.
  destruct (on_cloud_effects_frame tk (snd r) (set_cloud (fst r) b)) as (H1 & H2).
  rewrite H1, H2. auto.
Qed.

Lemma flush_out tk b o :
  In o (snd (fst (flushStateChanges tk b))) ->
  o = Uncaught "TypeError"
  \/ exists evs, mapBatch tk (stateChangeQueue b) = Some evs
                 /\ o = CloudDo (Cloud.WsSend
                                   (Cloud.state_batch (uuid tk) (now tk) evs false)).
Proof.
  unfold flushStateChanges. destruct (stateChangeQueue b) as [|e q] eqn:Hq; [intros []|].
  cbn [cloudClient set_queue].
  destruct (Cloud.isConnected (cloudClient b)); [|intros []].
  destruct (mapBatch tk (e :: q)) as [evs|] eqn:Hm; cbn [fst snd].
  - unfold Cloud.sendStateBatch. destruct evs as [|x xs]; [intros []|].
    match goal with
    | |- context [Cloud.send ?s ?f] => destruct (cloud_send_cases s f) as [-> | ->]
    end; cbn; [tauto|].
    intros [<-|[]]. right. eauto.
  - intros [<-|[]]. now left.
Qed.

Lemma flush_frame tk b :
  wsClient (fst (fst (flushStateChanges tk b))) = wsClient b
  /\ credentialStore (fst (fst (flushStateChanges tk b))) = credentialStore b
  /\ (cloudClient (fst (fst (flushStateChanges tk b))) = cloudClient b
      \/ exists v n l,
           cloudClient (fst (fst (flushStateChanges tk b)))
           = Cloud.updateStats v n l (cloudClient b)).
Proof.
  unfold flushStateChanges. destruct (stateChangeQueue b) as [|e q]; [cbn; auto|].
  cbn [cloudClient set_queue].
  destruct (Cloud.isConnected (cloudClient b)); [|cbn; auto].
  destruct (mapBatch tk (e :: q)); cbn; eauto 8.
Qed.

Lemma stop_out tk b o :
  In o (snd (stop tk b)) ->
  (exists e, In e (snd (Cloud.disconnect (cloudClient b))) /\ o = CloudDo e)
  \/ (exists evs, o = CloudDo (Cloud.WsSend
                                 (Cloud.state_batch (uuid tk) (now tk) evs false)))
  \/ reaction tk o \/ o = ClearBatchTimer \/ o = Uncaught "TypeError".
Proof.
  unfold stop.
  assert (Hfl : forall o', In o' (snd (fst (flushStateChanges tk b))) ->
            (exists evs, o' = CloudDo (Cloud.WsSend
                               (Cloud.state_batch (uuid tk) (now tk) evs false)))
            \/ o' = Uncaught "TypeError").
  { intros o' H. destruct (flush_out tk b o' H) as [->|(evs & _ & ->)]; eauto. }
  pose proof (flush_frame tk b) as (_ & _ & Hc).
  assert (Hd : forall b1, (cloudClient b1 = cloudClient b
               \/ exists v n l, cloudClient b1 = Cloud.updateStats v n l (cloudClient b)) ->
            snd (Cloud.disconnect (cloudClient b1)) = snd (Cloud.disconnect (cloudClient b))).
  { intros b1 [->|(v & n & l & ->)]; [reflexivity|].
    unfold Cloud.disconnect, Cloud.stopHeartbeat. cbn.
    destruct (Cloud.reconnectTimer _), (Cloud.heartbeatTimer _), (Cloud.ws _); reflexivity. }
  destruct (batchTimer b).
  - destruct (flushStateChanges tk b) as [[b1 o1] ok]. cbn [fst snd] in *.
    destruct ok.
    + pose proof (with_cloud_out tk (Cloud.disconnect (cloudClient b1)) b1) as Hc1.
      destruct (with_cloud tk _ b1) as [b2 o2].
      pose proof (with_hub_from tk (Hub.disconnect (wsClient b2)) b2) as Hh.
      destruct (with_hub tk _ b2) as [b3 o3]. cbn [fst snd] in *.
      rewrite (Hd b1 Hc) in Hc1.
      rewrite !in_app_iff. cbn [In].
      intros [[<-|H]|[H|H]]; auto.
      * destruct (Hfl _ H); auto.
      * destruct (Hc1 _ H); auto.
      * right. right. left. left. eauto.
    + cbn [snd In]. intros [<-|H]; auto. destruct (Hfl _ H); auto.
  - pose proof (with_cloud_out tk (Cloud.disconnect (cloudClient b)) b) as Hc1.
    destruct (with_cloud tk _ b) as [b2 o2].
    pose proof (with_hub_from tk (Hub.disconnect (wsClient b2)) b2) as Hh.
    destruct (with_hub tk _ b2) as [b3 o3]. cbn [fst snd] in *.
    rewrite !in_app_iff. cbn [In].
    intros [[]|[H|H]].
    * destruct (Hc1 _ H); auto.
    * right. right. left. left. eauto.
Qed.

Lemma in_cloud_effects e os :
  In (CloudDo e) os -> In e (omap cloud_effect_of os).
Proof.
  intros H. apply list_elem_of_In, list_elem_of_omap. exists (CloudDo e).
  split; [now apply list_elem_of_In|reflexivity].
Qed.

Lemma cloud_effects_in e os :
  In e (omap cloud_effect_of os) -> In (CloudDo e) os.
Proof.
  intros H. apply list_elem_of_In, list_elem_of_omap in H as (o & Ho & E).
  apply list_elem_of_In in Ho. destruct o; try discriminate E. now injection E as ->.
Qed.

(** What a run of the poll does: it arms its timer again, or it calls
    [connect]. *)
Lemma reschedule_out attempts o :
  In o (fst (reschedule attempts)) -> o = SetPollTimer pollInterval.
Proof.
  unfold reschedule. destruct (Z.ltb attempts maxAttempts); cbn; [|intros []].
  now intros [<-|[]].
Qed.

Lemma connect_out tk b o :
  In o (snd (with_cloud tk (Cloud.connect (cloudClient b) (credentialStore b)) b)) ->
  o = CloudDo Cloud.WsNew.
Proof.
  unfold Cloud.connect. destruct (negb _); cbn; [intros []|].
  now intros [<-|[]].
Qed.

Lemma poll_out tk attempts0 resp b o :
  In o (snd (fst (poll tk attempts0 resp b))) ->
  o = SetPollTimer pollInterval \/ o = CloudDo Cloud.WsNew.
Proof.
  assert (Ha : In o (fst (reschedule (attempts0 + 1))) ->
               o = SetPollTimer pollInterval \/ o = CloudDo Cloud.WsNew).
  { intros H. left. eapply reschedule_out, H. }
  assert (Hc : forall b', In o (snd (fst (await_connect tk b'))) ->
               o = SetPollTimer pollInterval \/ o = CloudDo Cloud.WsNew).
  { intros b'. unfold await_connect.
    pose proof (connect_out tk b' o) as H.
    destruct (with_cloud tk _ b') as [b1 o1]. cbn [fst snd] in *. auto. }
  unfold poll. cbv zeta.
  destruct (reschedule (attempts0 + 1)) as [oa na]. cbn [fst] in Ha.
  repeat match goal with
  | |- context [await_connect ?t ?x] =>
      let H := fresh "Hx" in
      pose proof (Hc x) as H; destruct (await_connect t x) as [[? ?] ?];
      cbn [fst snd] in H
  | |- context [if ?c then _ else _] => destruct c
  | |- context [match ?x with _ => _ end] => destruct x
  end; cbn [fst snd]; auto; try (intros []).
Qed.

(** What a run of the poll changes: the cloud client by [connect], and
    the credential store by a [save]. *)
Lemma await_connect_frame tk b :
  let b1 := fst (fst (await_connect tk b)) in
  wsClient b1 = wsClient b /\ rpcTimers b1 = rpcTimers b
  /\ stateChangeQueue b1 = stateChangeQueue b /\ batchTimer b1 = batchTimer b
  /\ bstate b1 = bstate b /\ entityRegistry b1 = entityRegistry b
  /\ credentialStore b1 = credentialStore b
  /\ cloudClient b1 = fst (Cloud.connect (cloudClient b) (credentialStore b)).
Proof.
  unfold await_connect, with_cloud, Cloud.connect.
  destruct (negb _); cbn; auto 10.
Qed.

Lemma poll_frame tk attempts0 resp b :
  let b1 := snd (fst (fst (poll tk attempts0 resp b))) in
  wsClient b1 = wsClient b /\ rpcTimers b1 = rpcTimers b
  /\ stateChangeQueue b1 = stateChangeQueue b /\ batchTimer b1 = batchTimer b
  /\ bstate b1 = bstate b /\ entityRegistry b1 = entityRegistry b
  /\ (credentialStore b1 = credentialStore b
      \/ exists c, JS.truthy (CredentialStore.bridgeCredential c) = true
                   /\ CredentialStore.save (disk tk) c (credentialStore b)
                      = Some (credentialStore b1))
  /\ (cloudClient b1 = fst (Cloud.connect (cloudClient b) (credentialStore b1))
      \/ (cloudClient b1 = cloudClient b /\ credentialStore b1 = credentialStore b)).
Proof.
  assert (Hc : forall b', 
            wsClient b' = wsClient b -> rpcTimers b' = rpcTimers b ->
            stateChangeQueue b' = stateChangeQueue b -> batchTimer b' = batchTimer b ->
            bstate b' = bstate b -> entityRegistry b' = entityRegistry b ->
            cloudClient b' = cloudClient b ->
            (credentialStore b' = credentialStore b
             \/ exists c, JS.truthy (CredentialStore.bridgeCredential c) = true
                          /\ CredentialStore.save (disk tk) c (credentialStore b)
                             = Some (credentialStore b')) ->
            let b1 := fst (fst (await_connect tk b')) in
            wsClient b1 = wsClient b /\ rpcTimers b1 = rpcTimers b
            /\ stateChangeQueue b1 = stateChangeQueue b /\ batchTimer b1 = batchTimer b
            /\ bstate b1 = bstate b /\ entityRegistry b1 = entityRegistry b
            /\ (credentialStore b1 = credentialStore b
                \/ exists c, JS.truthy (CredentialStore.bridgeCredential c) = true
                             /\ CredentialStore.save (disk tk) c (credentialStore b)
                                = Some (credentialStore b1))
            /\ (cloudClient b1 = fst (Cloud.connect (cloudClient b) (credentialStore b1))
                \/ (cloudClient b1 = cloudClient b
                    /\ credentialStore b1 = credentialStore b))).
  { intros b' H1 H2 H3 H4 H5 H6 H7 H8.
    destruct (await_connect_frame tk b') as (G1 & G2 & G3 & G4 & G5 & G6 & G7 & G8).
    cbv zeta. rewrite G1, G2, G3, G4, G5, G6, G7, G8, H1, H2, H3, H4, H5, H6, H7.
    repeat (split; [reflexivity|]). split; [exact H8|]. now left. }
  specialize (Hc b eq_refl eq_refl eq_refl eq_refl eq_refl eq_refl eq_refl
                (or_introl eq_refl)) as Hb.
  unfold poll. cbv zeta.
  destruct (reschedule (attempts0 + 1)) as [oa na].
  repeat match goal with
  | |- context [await_connect ?t b] =>
      destruct (await_connect t b) as [[? ?] ?]; cbn [fst snd] in Hb
  | |- context [CredentialStore.save ?d ?c ?cs] =>
      let E := fresh "Es" in
      destruct (CredentialStore.save d c cs) as [cs'|] eqn:E
  | |- context [if ?c then _ else _] => let E := fresh "Ec" in destruct c eqn:E
  | |- context [match ?x with _ => _ end] => is_var x; destruct x
  end; cbn [fst snd]; auto 12.
  match goal with
  | |- context [await_connect ?t (set_store ?cs' b)] =>
      specialize (Hc (set_store cs' b) eq_refl eq_refl eq_refl eq_refl eq_refl
                    eq_refl eq_refl);
      destruct (await_connect t (set_store cs' b)) as [[? ?] ?]; cbn [fst snd] in Hc
  end.
  apply Hc. right. eexists. split; [|exact Es].
  match goal with
  | H : (_ && JS.truthy _)%bool = true |- _ => apply andb_prop in H as [_ Ht]
  end. exact Ht.
Qed.

Lemma performFullSync_frame tk r b :
  let b1 := fst (performFullSync tk r b) in
  wsClient b1 = wsClient b /\ rpcTimers b1 = rpcTimers b
  /\ stateChangeQueue b1 = stateChangeQueue b /\ batchTimer b1 = batchTimer b
  /\ credentialStore b1 = credentialStore b
  /\ exists v n l, cloudClient b1 = Cloud.updateStats v n l (cloudClient b).
Proof.
  unfold performFullSync. destruct (FullSync.assemble _ _ r) as [[reg n] data].
  cbn. repeat (split; [reflexivity|]). eauto.
Qed.

Lemma step_poll tk attempts0 resp b :
  step tk (PollTimer attempts0 resp) b
  = (snd (fst (fst (poll tk attempts0 resp b))), snd (fst (poll tk attempts0 resp b))).
Proof. cbn [step]. now destruct (poll tk attempts0 resp b) as [[[? ?] ?] ?]. Qed.

Lemma performFullSync_out tk r b o :
  In o (snd (performFullSync tk r b)) ->
  exists at_ v data, o = CloudDo (Cloud.WsSend (Cloud.full_sync at_ v data)).
Proof.
  unfold performFullSync. destruct (FullSync.assemble _ _ r) as [[reg n] data].
  cbn [snd]. unfold Cloud.sendFullSync, Cloud.send.
  destruct (Cloud.ws _) as [[]|]; cbn; intros H; try (destruct H; fail).
  destruct H as [<-|[]]. eauto.
Qed.

(** What the continuations write, and what they leave alone: the hub
    client, the armed deadlines and the buffer of state changes. *)
Lemma resumes_out tk ev b o :
  resumes ev = true -> In o (snd (step tk ev b)) ->
  o = SetPollTimer pollInterval \/ o = CloudDo Cloud.WsNew
  \/ exists at_ v data, o = CloudDo (Cloud.WsSend (Cloud.full_sync at_ v data)).
Proof.
  intros Hr H. destruct ev; try discriminate Hr.
  - rewrite step_poll in H. cbn [snd] in H.
    destruct (poll_out tk attempts0 resp b o H); auto.
  - cbn [step snd] in H. destruct how; cbn in H; [destruct H|].
    apply reschedule_out in H. auto.
  - right. right. exact (performFullSync_out tk r b o H).
  - destruct H.
  - destruct H.
Qed.

Lemma resumes_frame tk ev b :
  resumes ev = true ->
  wsClient (fst (step tk ev b)) = wsClient b
  /\ rpcTimers (fst (step tk ev b)) = rpcTimers b
  /\ stateChangeQueue (fst (step tk ev b)) = stateChangeQueue b
  /\ batchTimer (fst (step tk ev b)) = batchTimer b.
Proof.
  intros Hr. destruct ev; try discriminate Hr.
  - rewrite step_poll. cbn [fst].
    destruct (poll_frame tk attempts0 resp b) as (H1 & H2 & H3 & H4 & _). auto.
  - cbn. auto.
  - cbn [step]. destruct (performFullSync_frame tk r b) as (H1 & H2 & H3 & H4 & _).
    auto.
  - destruct l; cbn; auto.
  - cbn. auto.
Qed.

(** The origin of every output of a step. *)
Lemma step_out tk ev b o :
  In o (snd (step tk ev b)) ->
  (exists e, In e (cloud_effects_of tk ev b) /\ o = CloudDo e)
  \/ (exists evs, o = CloudDo (Cloud.WsSend
                                 (Cloud.state_batch (uuid tk) (now tk) evs false)))
  \/ reaction tk o \/ o = ClearBatchTimer \/ o = Uncaught "TypeError"
  \/ o = SetPollTimer pollInterval.
Proof.
  assert (Hh : forall r b', In o (snd (with_hub tk r b')) -> reaction tk o).
  { intros r b' H. left. eexists. eapply with_hub_from, H. }
  destruct ev;
    [cbn [step cloud_effects_of];
     try (intros H; right; right; left; eapply Hh, H)..| | | | |].
  - destruct (rpcTimers b !! n) as [[id k]|]; [|intros []].
    intros H; right; right; left; eapply Hh, H.
  - intros H. destruct (with_cloud_out tk _ b o H); auto.
  - intros H. destruct (with_cloud_out tk _ b o H); auto.
  - intros H. destruct (with_cloud_out tk _ b o H); auto.
  - destruct (Cloud.handleMessage _ _ m _) as [[c cs] es]. cbn [snd].
    intros H. destruct (with_cloud_out tk _ _ o H); auto.
  - intros H. destruct (with_cloud_out tk _ b o H); auto.
  - cbn [snd]. rewrite in_map_iff. intros (e & <- & He). left. eauto.
  - pose proof (flush_out tk b o) as Hf.
    destruct (flushStateChanges tk b) as [[b1 o1] ok]. cbn [fst snd] in *.
    intros H. destruct (Hf H) as [->|(evs & _ & ->)]; eauto 6.
  - intros H. destruct (stop_out tk b o H) as [?|[?|[?|[?|?]]]]; auto 7.
  - intros H. cbn [cloud_effects_of]. pose proof H as H'.
    rewrite step_poll in H'. cbn [snd] in H'.
    destruct (poll_out tk attempts0 resp b o H') as [-> | ->]; [auto 7|].
    left. exists Cloud.WsNew. split; [now apply in_cloud_effects|reflexivity].
  - cbn [step snd]. destruct how; cbn; [intros []|].
    intros H. apply reschedule_out in H. auto 7.
  - intros H. cbn [cloud_effects_of].
    destruct (performFullSync_out tk r b o H) as (at_ & v & data & ->).
    left. exists (Cloud.WsSend (Cloud.full_sync at_ v data)).
    split; [apply in_cloud_effects; exact H|reflexivity].
  - intros [].
  - intros [].
Qed.

#[local] Arguments Cloud.is_revocation : simpl never.
#[local] Arguments String.eqb : simpl never.
#[local] Arguments JS.truthy : simpl never.
#[local] Arguments JS.or_default : simpl never.
#[local] Arguments JS.includes : simpl never.
#[local] Arguments Z.leb : simpl never.
#[local] Arguments Z.min : simpl never.
#[local] Arguments Z.pow : simpl never.
#[local] Arguments Z.add : simpl never.
#[local] Arguments Z.mul : simpl never.

(** Case analysis, in hypothesis [H], on everything a cloud client method
    branches on. *)
Ltac cloud_unfold H :=
  unfold Cloud.connect, Cloud.on_open, Cloud.on_close, Cloud.handleMessage,
    Cloud.handleAuthResult, Cloud.handleCommand, Cloud.sendCommandAck,
    Cloud.sendHeartbeat, Cloud.disconnect, Cloud.startHeartbeat,
    Cloud.stopHeartbeat, Cloud.scheduleReconnect, Cloud.sendAuth, Cloud.send,
    CredentialStore.isPaired, CredentialStore.get, CredentialStore.clear in H.

Ltac cases_in H :=
  repeat (cbn in H;
    match type of H with
    | context [match ?x with _ => _ end] => is_var x; destruct x
    | context [negb ?x] => is_var x; destruct x
    | context [Z.leb ?a ?b] => destruct (Z.leb a b)
    | context [Cloud.is_revocation ?x] => destruct (Cloud.is_revocation x)
    | context [String.eqb ?a ?b] => destruct (String.eqb a b)
    | context [JS.truthy ?a] => destruct (JS.truthy a)
    | context [Cloud.requiresAck ?a] => destruct (Cloud.requiresAck a)
    | context [disk ?a] => destruct (disk a)
    end).

Ltac cloud_cases H b :=
  destruct (cloudClient b) as [? ? ? ? ? ? ? ? ? ? ? ? ?];
  destruct (credentialStore b) as [? ? [[? ? ? ? ?]|]];
  cloud_unfold H; cases_in H.

(** The cloud effects of a run of the poll and of the continuation of a
    full sync. *)
Lemma poll_cloud_effects tk attempts0 resp b e :
  In e (omap cloud_effect_of (snd (step tk (PollTimer attempts0 resp) b))) ->
  e = Cloud.WsNew.
Proof.
  intros H. apply cloud_effects_in in H. rewrite step_poll in H. cbn [snd] in H.
  destruct (poll_out tk attempts0 resp b _ H) as [E|E]; [discriminate E|].
  now injection E.
Qed.

Lemma sync_cloud_effects tk r b e :
  In e (omap cloud_effect_of (snd (step tk (FullSyncCollected r) b))) ->
  exists at_ v data, e = Cloud.WsSend (Cloud.full_sync at_ v data).
Proof.
  intros H. apply cloud_effects_in in H.
  destruct (performFullSync_out tk r b _ H) as (at_ & v & data & E).
  injection E as ->. eauto.
Qed.

(** In hypothesis [H], the cloud effects of those two inputs. *)
Ltac inner_cloud H :=
  first [apply poll_cloud_effects in H
        |apply sync_cloud_effects in H as (? & ? & ? & H)].

(** The cloud client never sends a [command_result] of its own. *)
Lemma cloud_effects_no_result tk ev b e :
  In e (cloud_effects_of tk ev b) -> result_of (CloudDo e) = None.
Proof.
  intros H. destruct ev; cbn [cloud_effects_of] in H; try (destruct H; fail);
    try (inner_cloud H; subst; reflexivity);
    try destruct m; cloud_cases H b;
    repeat (destruct H as [<-|H]; [reflexivity|]); destruct H.
Qed.

Lemma reaction_executor_result tk o : reaction tk o -> executor_result o.
Proof.
  intros [(es & H)|(c & ->)].
  - destruct H; cbn; eauto 8.
  - cbn. eauto 8.
Qed.

Lemma step_executor_result tk ev b :
  Forall executor_result (snd (step tk ev b)).
Proof.
  apply List.Forall_forall. intros o Ho.
  destruct (step_out tk ev b o Ho)
    as [(e & He & ->)|[(evs & ->)|[Hr|[->|[->| ->]]]]]; cbn; auto.
  - pose proof (cloud_effects_no_result tk ev b e He) as Hn. cbn in Hn.
    destruct e as [|[]| | | | | | | |]; cbn; auto. discriminate Hn.
  - now apply (reaction_executor_result tk).
Qed.

Lemma run_executor_result evs : forall b,
  Forall executor_result (snd (run evs b)).
Proof.
  induction evs as [|[tk ev] r IH]; intros b; cbn [run]; [constructor|].
  pose proof (step_executor_result tk ev b) as H1.
  destruct (step tk ev b) as [b1 o1]. specialize (IH b1).
  destruct (run r b1) as [b2 o2]. cbn [snd] in *.
  apply Forall_app. split; assumption.
Qed.

(** C6, as stated, fails.  A command of an unrecognized type is executed
    like any other: the hub receives a [call_service] request, and the
    hub's answer is reported as [completed]; no [UNKNOWN_COMMAND] result
    is sent. *)
Lemma unknown_command_is_executed :
  snd (run [(tk0, CloudMessage (Cloud.command odd_command));
            (tk0, HubMessage (Hub.result (Some 2) true "[]" None))] both_up)
  = [CloudDo (Cloud.WsSend
                (Cloud.command_ack "11111111-1111-1111-1111-111111111111"
                   "2026-01-19T10:00:00.000Z"));
     CloudDo (Cloud.Emit (Cloud.command_sig odd_command));
     HubDo (Hub.WsSend
              (Hub.FCommand 2 "call_service"
                 [("domain", "light"); ("service", "turn_on");
                  ("service_data", "{entity_id:light.kitchen}")]));
     HubDo (Hub.SetRpcTimeout 2
              (AwaitCommand "11111111-1111-1111-1111-111111111111") 30000);
     HubDo (Hub.Resolve (AwaitCommand "11111111-1111-1111-1111-111111111111") "[]");
     CloudDo (Cloud.WsSend
                (Cloud.command_result "11111111-1111-1111-1111-111111111111"
                   Cloud.completed "2026-01-19T10:00:00.000Z" (Some "[]") None))].
Proof. vm_compute. reflexivity. Qed.

(** C6, amended.  The executor does not look at [commandType]: a command
    is handled in the same way whatever its type, as a hub service call.
    Every [command_result] the bridge sends is either [completed] with
    the hub's response or [failed] with code [EXECUTION_FAILED]; the code
    [UNKNOWN_COMMAND] never occurs. *)
Theorem executor_ignores_commandType tk ty c b evs b' :
  handleCloudCommand tk (retype ty c) b = handleCloudCommand tk c b
  /\ Forall executor_result (snd (run evs b')).
Proof. split; [reflexivity|apply run_executor_result]. Qed.

End BridgeFacts.

(** ** Acknowledgements and results of commands *)

Module AckFacts.

Import HelmBridge Spec BridgeFacts.

Lemma caller_known_mono R R' k :
  (forall c, In c R -> In c R') -> caller_known R k -> caller_known R' k.
Proof. destruct k; cbn; auto. Qed.

Lemma known_mono R R' b :
  (forall c, In c R -> In c R') -> known R b -> known R' b.
Proof.
  intros Hsub [Hh Ht]. split.
  - intros id k Hk. eapply caller_known_mono; eauto.
  - intros id k Hk. eapply caller_known_mono; eauto.
Qed.

Lemma effects_known_nil R : effects_known R [].
Proof. intros e k []. Qed.

Lemma effects_known_cons R e es :
  (forall k, effect_caller e = Some k -> caller_known R k) ->
  effects_known R es -> effects_known R (e :: es).
Proof. intros He Hes e' k [<-|Hin] Hk; eauto. Qed.

Lemma effects_known_app R es1 es2 :
  effects_known R es1 -> effects_known R es2 -> effects_known R (es1 ++ es2).
Proof.
  intros H1 H2 e k Hin Hk. apply in_app_or in Hin as [Hin|Hin]; eauto.
Qed.

Lemma effects_known_send R s f : effects_known R (Hub.send s f).
Proof.
  destruct (hub_send_cases s f) as [-> | ->]; [apply effects_known_nil|].
  apply effects_known_cons; [discriminate|apply effects_known_nil].
Qed.

Ltac plain_effects :=
  repeat first
    [ apply effects_known_nil
    | apply effects_known_send
    | apply effects_known_app
    | apply effects_known_cons; [cbn; try discriminate|] ].

Lemma connect_keeps R s : keeps_known R s (Hub.connect s).
Proof. intros H. split; [exact H|]. cbn. plain_effects. Qed.

Lemma on_open_keeps R s : keeps_known R s (Hub.on_open s).
Proof. intros H. split; [exact H|]. cbn. plain_effects. Qed.

Lemma scheduleReconnect_keeps R s : keeps_known R s (Hub.scheduleReconnect s).
Proof.
  intros H. unfold Hub.scheduleReconnect.
  destruct (Z.leb _ _), (Hub.reconnectTimer s); cbn; (split; [exact H|plain_effects]).
Qed.

Lemma on_close_keeps R s : keeps_known R s (Hub.on_close s).
Proof.
  intros H. unfold Hub.on_close. cbn [Hub.shouldReconnect].
  destruct (Hub.shouldReconnect s); [|split; [exact H|cbn; plain_effects]].
  match goal with
  | |- context [Hub.scheduleReconnect ?x] =>
      destruct (scheduleReconnect_keeps R x H) as [H1 H2];
      destruct (Hub.scheduleReconnect x)
  end.
  cbn [fst snd] in *. split; [exact H1|]. plain_effects. exact H2.
Qed.

Lemma disconnect_keeps R s : keeps_known R s (Hub.disconnect s).
Proof.
  intros H. split.
  - intros id k. cbn. rewrite lookup_empty. discriminate.
  - unfold Hub.disconnect. destruct (Hub.reconnectTimer s), (Hub.ws s); cbn; plain_effects.
Qed.

Lemma sendCommand_keeps R s k type data :
  caller_known R k -> keeps_known R s (Hub.sendCommand s k type data).
Proof.
  intros Hk H. unfold Hub.sendCommand.
  destruct (Hub.authenticated s); cbn [negb fst snd].
  - split.
    + intros id k'. cbn. rewrite lookup_insert. case_decide; [|apply H].
      intros [= <-]. exact Hk.
    + plain_effects. intros k' [= <-]. exact Hk.
  - split; [exact H|]. plain_effects. intros k' [= <-]. exact Hk.
Qed.

Lemma handleResult_keeps R s id success res err :
  keeps_known R s (Hub.handleResult s id success res err).
Proof.
  intros H. unfold Hub.handleResult.
  destruct id as [i|]; [|split; [exact H|plain_effects]].
  destruct (Z.eqb i 0); [split; [exact H|plain_effects]|].
  destruct (Hub.pendingResponses s !! i) as [k|] eqn:Hi;
    [|split; [exact H|plain_effects]].
  split.
  - intros id k'. cbn. rewrite lookup_delete. case_decide; [discriminate|apply H].
  - cbn [snd]. destruct success; plain_effects; intros k' [= <-]; eapply H, Hi.
Qed.

Lemma handleMessage_keeps R s m : keeps_known R s (Hub.handleMessage s m).
Proof.
  destruct m; cbn [Hub.handleMessage].
  - intros H. split; [exact H|]. unfold Hub.sendAuth. plain_effects.
  - intros H. unfold Hub.subscribeToEvents. cbn. split; [exact H|]. plain_effects.
  - intros H. split; [exact H|]. plain_effects.
  - intros H. split; [exact H|]. unfold Hub.handleEvent.
    destruct state_changed; plain_effects.
  - apply handleResult_keeps.
  - intros H. split; [exact H|]. plain_effects.
Qed.

Lemma on_rpc_timeout_keeps R s id k :
  caller_known R k -> keeps_known R s (Hub.on_rpc_timeout s id k).
Proof.
  intros Hk H. unfold Hub.on_rpc_timeout.
  destruct (Hub.pendingResponses s !! id) eqn:Hi; [|split; [exact H|plain_effects]].
  split.
  - intros id' k'. cbn. rewrite lookup_delete. case_decide; [discriminate|apply H].
  - plain_effects. intros k' [= <-]. exact Hk.
Qed.

Lemma in_omap {A B} (f : A -> option B) (l : list A) (y : B) :
  In y (omap f l) <-> exists x, In x l /\ f x = Some y.
Proof.
  rewrite <- list_elem_of_In, list_elem_of_omap.
  split; intros (x & Hx & Hf); exists x; split; auto; now apply list_elem_of_In.
Qed.

Lemma omap_none {A B} (f : A -> option B) (l : list A) :
  (forall x, In x l -> f x = None) -> omap f l = [].
Proof.
  induction l as [|a l IH]; intros H; [reflexivity|]. cbn.
  rewrite (H a) by now left. apply IH. intros x Hx. apply H. now right.
Qed.

Lemma acks_app a b : acks (a ++ b) = (acks a ++ acks b)%list.
Proof. apply omap_app. Qed.

Lemma results_app a b : results (a ++ b) = (results a ++ results b)%list.
Proof. apply omap_app. Qed.

Lemma from_hub_no_ack tk es o : from_hub tk es o -> ack_of o = None.
Proof. intros []; reflexivity. Qed.

Lemma from_hub_result R tk es o C :
  effects_known R es -> from_hub tk es o -> result_of o = Some C -> In C R.
Proof.
  intros Hes [e He|c v Hin|c m Hin|]; cbn; try discriminate.
  - intros [= <-]. exact (Hes _ (AwaitCommand c) Hin eq_refl).
  - intros [= <-]. exact (Hes _ (AwaitCommand c) Hin eq_refl).
Qed.

Lemma on_hub_effect_timers tk e b :
  rpcTimers (fst (on_hub_effect tk e b)) = (rpcTimers b ++ armed [e])%list.
Proof.
  destruct e as [| | |[]| [] |[]| | | | |]; cbn;
    try reflexivity; try now rewrite app_nil_r.
  unfold handleStateChange. destruct (batchTimer _); cbn; now rewrite app_nil_r.
Qed.

Lemma on_hub_effects_timers tk es : forall b,
  rpcTimers (fst (on_hub_effects tk es b)) = (rpcTimers b ++ armed es)%list.
Proof.
  induction es as [|e r IH]; intros b; cbn [on_hub_effects].
  - cbn. now rewrite app_nil_r.
  - pose proof (on_hub_effect_timers tk e b) as H1.
    destruct (on_hub_effect tk e b) as [b1 o1]. specialize (IH b1).
    destruct (on_hub_effects tk r b1) as [b2 o2]. cbn [fst] in *.
    rewrite IH, H1. change (e :: r) with ([e] ++ r)%list.
    unfold armed. rewrite omap_app. now rewrite app_assoc.
Qed.

Lemma armed_known R es : effects_known R es -> timers_known R (armed es).
Proof.
  intros H id k Hin. apply in_omap in Hin as (e & He & Hf).
  destruct e; try discriminate. injection Hf as <- <-.
  exact (H _ _ He eq_refl).
Qed.

(** Reacting to the effects of a hub method that keeps to the known
    callers: the bridge stays within them, reports only on known
    commands, and acknowledges nothing. *)
Lemma with_hub_known R tk r b :
  hub_known R (fst r) -> effects_known R (snd r) ->
  timers_known R (rpcTimers b) ->
  known R (fst (with_hub tk r b))
  /\ (forall C, In C (results (snd (with_hub tk r b))) -> In C R)
  /\ acks (snd (with_hub tk r b)) = [].
Proof.
  intros Hh He Ht. split; [split|split].
  - destruct (with_hub_frame tk r b) as (-> & _). exact Hh.
  - unfold with_hub. rewrite on_hub_effects_timers. cbn [rpcTimers set_hub].
    intros id k Hin. apply in_app_or in Hin as [Hin|Hin]; [eauto|].
    eapply armed_known; eauto.
  - intros C HC. apply in_omap in HC as (o & Ho & Hr).
    eapply from_hub_result; eauto. eapply with_hub_from, Ho.
  - apply omap_none. intros o Ho. eapply from_hub_no_ack, with_hub_from, Ho.
Qed.

Lemma handleCloudCommand_known R tk c b :
  known R b -> In (Cloud.cmdId c) R ->
  known R (fst (handleCloudCommand tk c b))
  /\ (forall C, In C (results (snd (handleCloudCommand tk c b))) -> In C R)
  /\ acks (snd (handleCloudCommand tk c b)) = [].
Proof.
  intros [Hh Ht] Hc. unfold handleCloudCommand.
  destruct (Cloud.payload c) as [p|].
  - unfold Hub.callService.
    match goal with
    | |- context [Hub.sendCommand ?s ?k ?ty ?d] =>
        destruct (sendCommand_keeps R s k ty d Hc Hh) as [H1 H2]
    end.
    apply with_hub_known; assumption.
  - cbn [fst snd]. split; [split; assumption|].
    unfold Cloud.sendCommandResult.
    match goal with
    | |- context [Cloud.send ?s ?f] => destruct (cloud_send_cases s f) as [-> | ->]
    end; cbn; split; auto; try tauto.
    intros C [<-|[]]. exact Hc.
Qed.

Lemma collectFullSync_known R tk b :
  known R b ->
  known R (fst (collectFullSync tk b))
  /\ (forall C, In C (results (snd (collectFullSync tk b))) -> In C R)
  /\ acks (snd (collectFullSync tk b)) = [].
Proof.
  intros Hk. unfold collectFullSync.
  repeat match goal with
  | Hk : known R ?b' |- context [with_hub tk (Hub.sendCommand (wsClient ?b') ?k ?ty ?d) ?b'] =>
      let H1 := fresh "H" in
      let H2 := fresh "H" in
      let Hn := fresh "Hk" in
      destruct (sendCommand_keeps R (wsClient b') k ty d I (proj1 Hk)) as [H1 H2];
      destruct (with_hub_known R tk (Hub.sendCommand (wsClient b') k ty d) b'
                  H1 H2 (proj2 Hk)) as (Hn & ? & ?);
      destruct (with_hub tk (Hub.sendCommand (wsClient b') k ty d) b');
      cbn [fst snd] in *; clear Hk H1 H2
  end.
  split; [assumption|]. rewrite !results_app, !acks_app.
  change (results []) with (@nil string). change (acks []) with (@nil string).
  split.
  - intros C. rewrite !in_app_iff. cbn [In]. intuition.
  - repeat match goal with H : acks _ = [] |- _ => rewrite H; clear H end.
    reflexivity.
Qed.

Lemma on_cloud_effect_known R tk e b :
  known R b ->
  (forall c, e = Cloud.Emit (Cloud.command_sig c) -> In (Cloud.cmdId c) R) ->
  known R (fst (on_cloud_effect tk e b))
  /\ (forall C, In C (results (snd (on_cloud_effect tk e b))) -> In C R)
  /\ acks (snd (on_cloud_effect tk e b)) = [].
Proof.
  intros Hk Hc.
  destruct e as [| | |[]| | | | | |]; cbn [on_cloud_effect];
    try (split; [exact Hk|split; [intros C []|reflexivity]]).
  - apply handleCloudCommand_known; auto.
  - apply collectFullSync_known; auto.
Qed.

Lemma on_cloud_effects_known R tk es : forall b,
  known R b ->
  (forall c, In (Cloud.Emit (Cloud.command_sig c)) es -> In (Cloud.cmdId c) R) ->
  (forall e, In e es -> result_of (CloudDo e) = None) ->
  known R (fst (on_cloud_effects tk es b))
  /\ (forall C, In C (results (snd (on_cloud_effects tk es b))) -> In C R)
  /\ acks (snd (on_cloud_effects tk es b)) = acks (map CloudDo es).
Proof.
  induction es as [|e r IH]; intros b Hk Hc Hr; cbn [on_cloud_effects].
  - split; [exact Hk|split; [intros C []|reflexivity]].
  - destruct (on_cloud_effect_known R tk e b Hk) as (Hk1 & Hr1 & Ha1).
    { intros c ->. apply Hc. now left. }
    destruct (on_cloud_effect tk e b) as [b1 o1]. cbn [fst snd] in *.
    destruct (IH b1 Hk1) as (Hk2 & Hr2 & Ha2).
    { intros c Hin. apply Hc. now right. }
    { intros e' Hin. apply Hr. now right. }
    destruct (on_cloud_effects tk r b1) as [b2 o2]. cbn [fst snd] in *.
    split; [exact Hk2|]. split.
    + intros C. change (CloudDo e :: o1 ++ o2)%list with ([CloudDo e] ++ o1 ++ o2)%list.
      rewrite !results_app, !in_app_iff. intros [H|[H|H]]; auto.
      apply in_omap in H as (o & [<-|[]] & Ho).
      rewrite (Hr e) in Ho by now left. discriminate Ho.
    + change (CloudDo e :: o1 ++ o2)%list with ([CloudDo e] ++ o1 ++ o2)%list.
      rewrite !acks_app, Ha1, Ha2.
      change (map CloudDo (e :: r)) with ([CloudDo e] ++ map CloudDo r)%list.
      now rewrite acks_app.
Qed.

Lemma on_cloud_effects_app tk es1 es2 : forall b,
  on_cloud_effects tk (es1 ++ es2) b
  = let '(b1, o1) := on_cloud_effects tk es1 b in
    let '(b2, o2) := on_cloud_effects tk es2 b1 in
    (b2, (o1 ++ o2)%list).
Proof.
  induction es1 as [|e r IH]; intros b; cbn [on_cloud_effects app].
  - destruct (on_cloud_effects tk es2 b). reflexivity.
  - destruct (on_cloud_effect tk e b) as [b1 o1]. rewrite IH.
    destruct (on_cloud_effects tk r b1) as [b2 o2].
    destruct (on_cloud_effects tk es2 b2) as [b3 o3].
    f_equal. cbn [app]. f_equal. apply app_assoc.
Qed.

Lemma on_cloud_effects_send tk c f b :
  on_cloud_effects tk (Cloud.send c f) b = (b, map CloudDo (Cloud.send c f)).
Proof. destruct (cloud_send_cases c f) as [-> | ->]; reflexivity. Qed.

Lemma known_set_cloud R c b : known R (set_cloud c b) <-> known R b.
Proof. reflexivity. Qed.

Lemma known_set_store R cs b : known R (set_store cs b) <-> known R b.
Proof. reflexivity. Qed.

Lemma layout_plain R ev outs :
  (forall C, In C (results outs) -> In C R) -> acks outs = [] ->
  step_layout R ev outs.
Proof.
  intros Hr Ha. split.
  - intros C HC. apply in_or_app. right. auto.
  - exists [], outs. repeat split; auto.
Qed.

Lemma known_received R ev b : known R b -> known (received ev ++ R) b.
Proof. apply known_mono. intros c Hc. apply in_or_app. now right. Qed.

Lemma with_hub_step R tk ev r b :
  known R b -> keeps_known R (wsClient b) r ->
  known (received ev ++ R) (fst (with_hub tk r b))
  /\ step_layout R ev (snd (with_hub tk r b)).
Proof.
  intros [Hh Ht] Hkeep. destruct (Hkeep Hh) as [H1 H2].
  destruct (with_hub_known R tk r b H1 H2 Ht) as (Hk & Hr & Ha).
  split; [now apply known_received|now apply layout_plain].
Qed.

Lemma cloud_effects_no_ack tk ev b e :
  received ev = [] ->
  In e (cloud_effects_of tk ev b) -> ack_of (CloudDo e) = None.
Proof.
  intros Hrec H. destruct ev; cbn [cloud_effects_of] in H; try (destruct H; fail);
    try (inner_cloud H; subst; reflexivity);
    try destruct m; try discriminate Hrec; cloud_cases H b;
    repeat (destruct H as [<-|H]; [reflexivity|]); destruct H.
Qed.

Lemma cloud_effects_no_command tk ev b c :
  received ev = [] ->
  ~ In (Cloud.Emit (Cloud.command_sig c)) (cloud_effects_of tk ev b).
Proof.
  intros Hrec H. destruct ev; cbn [cloud_effects_of] in H; try (destruct H; fail);
    try (inner_cloud H; discriminate H);
    try destruct m; try discriminate Hrec; cloud_cases H b;
    repeat (destruct H as [H|H]; [discriminate H|]); destruct H.
Qed.

Lemma with_cloud_step R tk ev r b0 b :
  received ev = [] ->
  snd r = cloud_effects_of tk ev b ->
  known R b0 ->
  known (received ev ++ R) (fst (with_cloud tk r b0))
  /\ step_layout R ev (snd (with_cloud tk r b0)).
Proof.
  intros Hrec Hes Hk. unfold with_cloud.
  destruct (on_cloud_effects_known R tk (snd r) (set_cloud (fst r) b0))
    as (Hk' & Hr & Ha).
  - exact Hk.
  - rewrite Hes. intros c Hin. now apply cloud_effects_no_command in Hin.
  - rewrite Hes. apply cloud_effects_no_result.
  - split; [now apply known_received|]. apply layout_plain; [exact Hr|].
    rewrite Ha. apply omap_none. intros o Ho.
    apply in_map_iff in Ho as (e & <- & He). rewrite Hes in He.
    eapply cloud_effects_no_ack; eauto.
Qed.

Lemma in_delete {A} (x : A) (n : nat) (l : list A) :
  In x (delete n l) -> In x l.
Proof.
  revert n. induction l as [|a l IH]; intros [|n]; cbn; auto.
  intros [->|H]; eauto.
Qed.

Lemma flush_known R tk ev b :
  received ev = [] -> known R b ->
  known (received ev ++ R) (fst (fst (flushStateChanges tk b)))
  /\ step_layout R ev (snd (fst (flushStateChanges tk b))).
Proof.
  intros Hrec Hk. split.
  - apply known_received.
    unfold flushStateChanges. destruct (stateChangeQueue b); [exact Hk|].
    cbn [cloudClient set_queue]. destruct (Cloud.isConnected _); [|exact Hk].
    destruct (mapBatch _ _); exact Hk.
  - apply layout_plain.
    + intros C HC. apply in_omap in HC as (o & Ho & Hr).
      destruct (flush_out tk b o Ho) as [->|(evs & _ & ->)]; discriminate Hr.
    + apply omap_none. intros o Ho.
      destruct (flush_out tk b o Ho) as [->|(evs & _ & ->)]; reflexivity.
Qed.

Lemma layout_app R ev o1 o2 :
  received ev = [] ->
  step_layout R ev o1 -> step_layout R ev o2 -> step_layout R ev (o1 ++ o2).
Proof.
  intros Hrec [Hr1 (a1 & r1 & -> & Ha1 & Hb1 & Hc1)]
              [Hr2 (a2 & r2 & -> & Ha2 & Hb2 & Hc2)].
  rewrite Hrec in *. cbn [app] in *.
  assert (E1 : acks (a1 ++ r1) = []).
  { rewrite acks_app, Hb1. destruct Hc1 as [-> | ->]; reflexivity. }
  assert (E2 : acks (a2 ++ r2) = []).
  { rewrite acks_app, Hb2. destruct Hc2 as [-> | ->]; reflexivity. }
  apply layout_plain.
  - intros C. rewrite results_app, in_app_iff. intros [H|H]; auto.
  - now rewrite acks_app, E1, E2.
Qed.

Lemma step_command_known R tk c b :
  known R b ->
  known (Cloud.cmdId c :: R) (fst (step tk (CloudMessage (Cloud.command c)) b))
  /\ step_layout R (CloudMessage (Cloud.command c))
       (snd (step tk (CloudMessage (Cloud.command c)) b)).
Proof.
  intros Hk. cbn [step Cloud.handleMessage]. unfold with_cloud, Cloud.handleCommand.
  cbn [fst snd]. rewrite on_cloud_effects_app.
  set (b0 := set_cloud (cloudClient b) (set_store (credentialStore b) b)).
  assert (Hk0 : known (Cloud.cmdId c :: R) b0).
  { eapply known_mono; [|exact Hk]. intros x Hx. now right. }
  set (ackpart := if Cloud.requiresAck c
                  then Cloud.sendCommandAck (cloudClient b) (Cloud.cmdId c) (now tk)
                  else []).
  assert (Hack : on_cloud_effects tk ackpart b0 = (b0, map CloudDo ackpart)
                 /\ results (map CloudDo ackpart) = []
                 /\ (acks (map CloudDo ackpart) = []
                     \/ acks (map CloudDo ackpart) = [Cloud.cmdId c])).
  { unfold ackpart, Cloud.sendCommandAck. destruct (Cloud.requiresAck c); [|cbn; auto].
    rewrite on_cloud_effects_send.
    match goal with
    | |- context [Cloud.send ?s ?f] => destruct (cloud_send_cases s f) as [-> | ->]
    end; cbn; auto. }
  destruct Hack as (-> & Hres & Hacks).
  cbn [on_cloud_effects on_cloud_effect].
  destruct (handleCloudCommand_known (Cloud.cmdId c :: R) tk c b0 Hk0)
    as (Hk1 & Hr1 & Ha1); [now left|].
  destruct (handleCloudCommand tk c b0) as [b1 o1]. cbn [fst snd] in *.
  split; [exact Hk1|]. split.
  - intros C. rewrite results_app, Hres. cbn [app received].
    change (CloudDo (Cloud.Emit (Cloud.command_sig c)) :: o1 ++ [])%list
      with ([CloudDo (Cloud.Emit (Cloud.command_sig c))] ++ o1 ++ [])%list.
    rewrite !results_app, !in_app_iff. intros [[]|[H|[]]]. auto.
  - eexists _, _. split; [reflexivity|]. split; [exact Hres|]. split; [|exact Hacks].
    change (CloudDo (Cloud.Emit (Cloud.command_sig c)) :: o1 ++ [])%list
      with ([CloudDo (Cloud.Emit (Cloud.command_sig c))] ++ o1 ++ [])%list.
    now rewrite !acks_app, Ha1.
Qed.

Lemma stop_known R tk b :
  known R b ->
  known R (fst (stop tk b)) /\ step_layout R Stop (snd (stop tk b)).
Proof.
  intros Hk. unfold stop.
  assert (Hfl : known R (fst (fst (flushStateChanges tk b)))
                /\ step_layout R Stop
                     (ClearBatchTimer :: snd (fst (flushStateChanges tk b)))).
  { destruct (flush_known R tk Stop b eq_refl Hk) as [H1 H2]. split; [exact H1|].
    change (step_layout R Stop ([ClearBatchTimer] ++ snd (fst (flushStateChanges tk b)))).
    apply layout_app; [reflexivity| |exact H2].
    apply layout_plain; [intros C []|reflexivity]. }
  assert (Hrest : forall b1, known R b1 ->
            cloudClient b1 = cloudClient b
            \/ (exists v n l, cloudClient b1 = Cloud.updateStats v n l (cloudClient b)) ->
            let '(b2, o2) := with_cloud tk (Cloud.disconnect (cloudClient b1)) b1 in
            let '(b3, o3) := with_hub tk (Hub.disconnect (wsClient b2)) b2 in
            known R b3 /\ step_layout R Stop (o2 ++ o3)).
  { intros b1 Hk1 Hc.
    assert (Hd : snd (Cloud.disconnect (cloudClient b1))
                 = cloud_effects_of tk Stop b).
    { cbn [cloud_effects_of]. destruct Hc as [->|(v & n & l & ->)]; [reflexivity|].
      unfold Cloud.disconnect, Cloud.stopHeartbeat. cbn.
      destruct (Cloud.reconnectTimer _), (Cloud.heartbeatTimer _), (Cloud.ws _);
        reflexivity. }
    destruct (with_cloud_step R tk Stop _ b1 b eq_refl Hd Hk1) as [Hk2 Hl2].
    destruct (with_cloud tk _ b1) as [b2 o2]. cbn [fst snd received app] in *.
    destruct (with_hub_step R tk Stop (Hub.disconnect (wsClient b2)) b2 Hk2)
      as [Hk3 Hl3]; [apply disconnect_keeps|].
    destruct (with_hub tk _ b2) as [b3 o3]. cbn [fst snd received app] in *.
    split; [exact Hk3|]. now apply layout_app. }
  pose proof (flush_frame tk b) as (_ & _ & Hc).
  destruct (batchTimer b).
  - destruct (flushStateChanges tk b) as [[b1 o1] ok]. cbn [fst snd] in *.
    destruct Hfl as [Hk1 Hl1]. destruct ok; [|auto].
    specialize (Hrest b1 Hk1 Hc).
    destruct (with_cloud tk _ b1) as [b2 o2].
    destruct (with_hub tk _ b2) as [b3 o3]. cbn [fst snd].
    destruct Hrest as [Hk3 Hl3]. split; [exact Hk3|].
    change (step_layout R Stop ((ClearBatchTimer :: o1) ++ o2 ++ o3)).
    now apply layout_app.
  - specialize (Hrest b Hk (or_introl eq_refl)).
    destruct (with_cloud tk _ b) as [b2 o2].
    destruct (with_hub tk _ b2) as [b3 o3]. cbn [fst snd]. exact Hrest.
Qed.

(** A continuation neither acknowledges nor reports a command. *)
Lemma resumes_plain tk ev b o :
  resumes ev = true -> In o (snd (step tk ev b)) ->
  result_of o = None /\ ack_of o = None.
Proof.
  intros Hr H.
  destruct (resumes_out tk ev b o Hr H) as [-> |[-> |(at_ & v & data & ->)]];
    now split.
Qed.

Lemma resumes_known R tk ev b :
  resumes ev = true -> known R b ->
  known (received ev ++ R) (fst (step tk ev b))
  /\ step_layout R ev (snd (step tk ev b)).
Proof.
  intros Hr [Hh Ht].
  destruct (resumes_frame tk ev b Hr) as (H1 & H2 & _).
  split.
  - apply known_received. split; [now rewrite H1|now rewrite H2].
  - apply layout_plain.
    + intros C HC. apply in_omap in HC as (o & Ho & E).
      destruct (resumes_plain tk ev b o Hr Ho) as [E' _]. congruence.
    + apply omap_none. intros o Ho. now destruct (resumes_plain tk ev b o Hr Ho).
Qed.

(** The invariant, step by step. *)
Lemma step_known R tk ev b :
  known R b ->
  known (received ev ++ R) (fst (step tk ev b))
  /\ step_layout R ev (snd (step tk ev b)).
Proof.
  intros Hk. destruct (resumes ev) eqn:Hres; [now apply resumes_known|].
  destruct ev; try discriminate Hres; cbn [step].
  - apply with_hub_step; [exact Hk|apply connect_keeps].
  - apply with_hub_step; [exact Hk|apply on_open_keeps].
  - apply with_hub_step; [exact Hk|apply on_close_keeps].
  - apply with_hub_step; [exact Hk|apply handleMessage_keeps].
  - destruct (rpcTimers b !! n) as [[id k]|] eqn:Hn.
    + assert (Hin : In (id, k) (rpcTimers b)).
      { apply list_elem_of_In. eapply list_elem_of_lookup_2, Hn. }
      apply with_hub_step.
      * destruct Hk as [Hh Ht]. split; [exact Hh|].
        intros id' k' Hin'. cbn in Hin'. apply in_delete in Hin'. eauto.
      * apply on_rpc_timeout_keeps. destruct Hk as [_ Ht]. eauto.
    + split; [exact Hk|]. apply layout_plain; [intros C []|reflexivity].
  - apply with_hub_step; [exact Hk|apply connect_keeps].
  - apply with_hub_step; [exact Hk|now apply sendCommand_keeps].
  - now apply (with_cloud_step R tk CloudConnect _ b b).
  - now apply (with_cloud_step R tk CloudOpen _ b b).
  - now apply (with_cloud_step R tk CloudClose _ b b).
  - destruct m; try apply step_command_known; try exact Hk.
    all: match goal with
         | |- context [Cloud.handleMessage ?s ?cs ?m ?n ?d] =>
             pose proof (eq_refl : snd (Cloud.handleMessage s cs m n d)
                                   = cloud_effects_of tk (CloudMessage m) b) as Hes;
             destruct (Cloud.handleMessage s cs m n d) as [[c' cs'] es'] eqn:Hm;
             cbn [snd] in Hes;
             apply (with_cloud_step R tk (CloudMessage m) (c', es')
                      (set_store cs' b) b eq_refl Hes Hk)
         end.
  - now apply (with_cloud_step R tk CloudReconnectTimer _ b b).
  - split; [exact Hk|]. apply layout_plain.
    + intros C HC. apply in_omap in HC as (o & Ho & Hr).
      apply in_map_iff in Ho as (e & <- & He).
      rewrite (cloud_effects_no_result tk HeartbeatTimer b e He) in Hr. discriminate.
    + apply omap_none. intros o Ho. apply in_map_iff in Ho as (e & <- & He).
      now apply (cloud_effects_no_ack tk HeartbeatTimer b e).
  - pose proof (flush_known R tk BatchTimer b eq_refl Hk) as Hf.
    destruct (flushStateChanges tk b) as [[b1 o1] ok]. exact Hf.
  - now apply stop_known.
Qed.

Lemma commands_received_cons tk ev r :
  commands_received ((tk, ev) :: r) = (received ev ++ commands_received r)%list.
Proof.
  unfold commands_received. cbn [omap list_omap]. unfold command_of at 1. cbn [snd].
  destruct ev; try reflexivity. destruct m; reflexivity.
Qed.

Lemma in_acks_app C a b : In C (acks (a ++ b)) <-> In C (acks a) \/ In C (acks b).
Proof. now rewrite acks_app, in_app_iff. Qed.

Lemma in_results_app C a b :
  In C (results (a ++ b)) <-> In C (results a) \/ In C (results b).
Proof. now rewrite results_app, in_app_iff. Qed.

(** Within the outputs of one step no result precedes an
    acknowledgement. *)
Lemma layout_order R ev o1 pre l C :
  step_layout R ev o1 -> o1 = (pre ++ l)%list ->
  In C (results pre) -> In C (acks l) -> False.
Proof.
  intros [_ (a & r1 & -> & Ha & Hr & _)] Heq Hpre Hl.
  apply app_eq_app in Heq as [l' [[-> ->]|[-> ->]]].
  - assert (H : In C (results (pre ++ l'))) by (apply in_results_app; auto).
    rewrite Ha in H. destruct H.
  - assert (H : In C (acks (l' ++ l))) by (apply in_acks_app; auto).
    rewrite Hr in H. destruct H.
Qed.

Lemma layout_acks R ev o1 C :
  step_layout R ev o1 -> In C (acks o1) -> In C (received ev).
Proof.
  intros [_ (a & r1 & -> & Ha & Hr & Hc)] H.
  apply in_acks_app in H as [H|H]; [|rewrite Hr in H; destruct H].
  destruct Hc as [Hc|Hc]; rewrite Hc in H; [destruct H|exact H].
Qed.

Lemma layout_acks_NoDup R ev o1 :
  NoDup (received ev) -> step_layout R ev o1 -> NoDup (acks o1).
Proof.
  intros Hnd [_ (a & r1 & -> & Ha & Hr & Hc)].
  rewrite acks_app, Hr, app_nil_r. destruct Hc as [-> | ->]; [constructor|exact Hnd].
Qed.

(** The invariant along a run.  [R] are the commands received before the
    run; those received in it are new and pairwise distinct. *)
Lemma run_known evs : forall b R,
  known R b ->
  NoDup (commands_received evs) ->
  (forall C, In C (commands_received evs) -> ~ In C R) ->
  (forall C, In C (acks (snd (run evs b))) -> In C (commands_received evs))
  /\ (forall C, In C (results (snd (run evs b))) ->
                In C R \/ In C (commands_received evs))
  /\ NoDup (acks (snd (run evs b)))
  /\ (forall C pre post, snd (run evs b) = (pre ++ post)%list ->
        In C (results pre) -> In C (acks post) -> False).
Proof.
  induction evs as [|[tk ev] r IH]; intros b R Hk Hnd Hnew.
  - cbn. repeat split; try tauto; try constructor.
    intros C pre post Heq. symmetry in Heq. apply app_eq_nil in Heq as [-> ->].
    intros [].
  - rewrite commands_received_cons in Hnd, Hnew |- *.
    apply NoDup_app in Hnd as (Hnd1 & Hdisj & Hnd2).
    cbn [run]. destruct (step_known R tk ev b Hk) as [Hk1 Hl1].
    destruct (step tk ev b) as [b1 o1]. cbn [fst snd] in *.
    destruct (IH b1 (received ev ++ R)%list Hk1 Hnd2) as (Ia & Ib & Ic & Id).
    { intros C HC Hin. apply in_app_or in Hin as [Hin|Hin].
      - apply (Hdisj C); now apply list_elem_of_In.
      - apply (Hnew C); [apply in_or_app; now right|exact Hin]. }
    destruct (run r b1) as [b2 o2]. cbn [fst snd] in *.
    assert (Hfresh : forall C, In C (commands_received r) ->
                       ~ In C (received ev ++ R)).
    { intros C HC Hin. apply in_app_or in Hin as [Hin|Hin].
      - apply (Hdisj C); now apply list_elem_of_In.
      - apply (Hnew C); [apply in_or_app; now right|exact Hin]. }
    split; [|split; [|split]].
    + intros C HC. apply in_acks_app in HC as [HC|HC]; apply in_or_app.
      * left. eapply layout_acks; eauto.
      * right. auto.
    + intros C HC. apply in_results_app in HC as [HC|HC]; rewrite in_app_iff.
      * destruct Hl1 as [Hr1 _]. apply Hr1, in_app_or in HC. tauto.
      * apply Ib in HC. rewrite in_app_iff in HC. tauto.
    + rewrite acks_app. apply NoDup_app. split; [|split].
      * eapply layout_acks_NoDup; eauto.
      * intros C H1 H2. apply list_elem_of_In in H1, H2.
        apply (Hdisj C); apply list_elem_of_In; [eapply layout_acks; eauto|auto].
      * exact Ic.
    + intros C pre post Heq Hpre Hpost.
      apply app_eq_app in Heq as [l [[-> ->]|[-> ->]]].
      * apply in_acks_app in Hpost as [Hpost|Hpost].
        -- eapply layout_order; eauto.
        -- apply (Hfresh C); [auto|]. destruct Hl1 as [Hr1 _]. apply Hr1.
           apply in_results_app. now left.
      * apply in_results_app in Hpre as [Hpre|Hpre].
        -- apply (Hfresh C).
           ++ apply Ia. apply in_acks_app. now right.
           ++ destruct Hl1 as [Hr1 _]. now apply Hr1.
        -- eapply Id; eauto.
Qed.

(** With the cloud socket open, a command that requires an
    acknowledgement is acknowledged at once, before it is handed to the
    executor. *)
Lemma ack_sent_on_receipt tk c b :
  Cloud.requiresAck c = true ->
  Cloud.ws (cloudClient b) = Some Cloud.OPEN ->
  exists rest,
    snd (step tk (CloudMessage (Cloud.command c)) b)
    = CloudDo (Cloud.WsSend (Cloud.command_ack (Cloud.cmdId c) (now tk)))
      :: CloudDo (Cloud.Emit (Cloud.command_sig c)) :: rest.
Proof.
  intros Hack Hopen. cbn [step Cloud.handleMessage].
  unfold with_cloud, Cloud.handleCommand, Cloud.sendCommandAck, Cloud.send.
  rewrite Hack, Hopen. cbn [fst snd app on_cloud_effects on_cloud_effect].
  destruct (handleCloudCommand tk c _) as [b1 o1]. cbn. eauto.
Qed.

(** C1, as stated, fails when the cloud repeats a cmdId.  The bridge
    keeps no record of the commands it has seen: a [command] frame with
    requiresAck set that arrives a second time, after the result of the
    first was sent, is acknowledged again, so that two [command_ack]
    frames carry its cmdId and the second follows the [command_result]. *)
Lemma repeated_command_acked_twice :
  let outs := snd (run command_repeated paired0) in
  Cloud.requiresAck kitchen_command = true
  /\ acks outs = [Cloud.cmdId kitchen_command; Cloud.cmdId kitchen_command]
  /\ In (Cloud.cmdId kitchen_command) (results (firstn 17 outs))
  /\ In (Cloud.cmdId kitchen_command) (acks (skipn 17 outs)).
Proof.
  split; [reflexivity|]. split; [vm_compute; reflexivity|].
  split; vm_compute; left; reflexivity.
Qed.

(** C1, amended.  Whatever the bridge receives, as long as the commands
    of the cloud carry pairwise distinct ids: every [command_ack] it sends
    is for a command it received, no command (with requiresAck set or not)
    is acknowledged more than once, and no [command_ack] for a command is
    sent after a [command_result] for it. *)
Theorem ack_once_and_before_result
    (evs : list (tick * event)) (token bridge proto path : string)
    (f : option CredentialStore.StoredCredentials) :
  NoDup (commands_received evs) ->
  let outs := snd (run evs (init token bridge proto path f)) in
  (forall C, In C (acks outs) -> In C (commands_received evs))
  /\ NoDup (acks outs)
  /\ (forall C pre post, outs = (pre ++ post)%list ->
        In C (results pre) -> ~ In C (acks post)).
Proof.
  intros Hnd outs.
  assert (Hk : known [] (init token bridge proto path f)).
  { split; intros id k; cbn; [rewrite lookup_empty; discriminate|tauto]. }
  destruct (run_known evs (init token bridge proto path f) [] Hk Hnd)
    as (Ha & _ & Hc & Hd); [intros C _ []|].
  split; [exact Ha|split; [exact Hc|]].
  intros C pre post Heq Hpre Hpost. eapply Hd; eauto.
Qed.

Lemma ack_once_and_before_result_witness :
  acks (snd (run command_scenario paired0))
  = ["11111111-1111-1111-1111-111111111111"]
  /\ results (snd (run command_scenario paired0))
    = ["11111111-1111-1111-1111-111111111111"]
  /\ NoDup (acks (snd (run command_scenario paired0))).
Proof.
  split; [vm_compute; reflexivity|]. split; [vm_compute; reflexivity|].
  refine (proj1 (proj2 (ack_once_and_before_result command_scenario
            "token" "helm-bridge-abcd1234" "1.0" "/data/credentials.json"
            (CredentialStore.credentials (credentialStore paired0)) _))).
  vm_compute. repeat constructor. intros H. inversion H.
Defined.

End AckFacts.

(** ** The deadline of a hub request *)

Module DeadlineFacts.

Import HelmBridge Spec BridgeFacts.

Lemma sendCommand_waiting id k s k' type data :
  waiting id k s -> waiting id k (fst (Hub.sendCommand s k' type data)).
Proof.
  intros [Hp Hlt]. unfold Hub.sendCommand, waiting.
  destruct (Hub.authenticated s);
    cbn [negb fst Hub.pendingResponses Hub.messageId]; split; auto; try lia.
  rewrite lookup_insert_ne by lia. exact Hp.
Qed.

Lemma handleMessage_waiting id k s m b :
  quiet id b (HubMessage m) ->
  waiting id k s -> waiting id k (fst (Hub.handleMessage s m)).
Proof.
  intros Hq [Hp Hlt]. unfold waiting.
  destruct m; cbn [Hub.handleMessage fst]; try (split; assumption).
  - cbn [Hub.subscribeToEvents fst Hub.pendingResponses Hub.messageId].
    split; [exact Hp|lia].
  - unfold Hub.handleResult. destruct id0 as [i|]; [|split; assumption].
    destruct (Z.eqb i 0); [split; assumption|].
    destruct (Hub.pendingResponses s !! i); [|split; assumption].
    cbn [fst Hub.pendingResponses Hub.messageId]. cbn [quiet] in Hq.
    split; [|exact Hlt]. now rewrite lookup_delete_ne.
Qed.

Lemma on_close_waiting id k s :
  waiting id k s -> waiting id k (fst (Hub.on_close s)).
Proof.
  intros [Hp Hlt]. unfold Hub.on_close, Hub.scheduleReconnect, waiting.
  cbn [Hub.shouldReconnect Hub.reconnectAttempts Hub.reconnectTimer].
  destruct (Hub.shouldReconnect s); [|split; assumption].
  destruct (Z.leb _ _); cbn [fst Hub.pendingResponses Hub.messageId];
    split; assumption.
Qed.

Lemma on_rpc_timeout_waiting id k s id' k' :
  id' <> id -> waiting id k s -> waiting id k (fst (Hub.on_rpc_timeout s id' k')).
Proof.
  intros Hne [Hp Hlt]. unfold Hub.on_rpc_timeout, waiting.
  destruct (Hub.pendingResponses s !! id'); [|split; assumption].
  cbn [fst Hub.pendingResponses Hub.messageId].
  split; [|exact Hlt]. now rewrite lookup_delete_ne.
Qed.

Lemma with_hub_waiting id k tk r b :
  waiting id k (fst r) -> waiting id k (wsClient (fst (with_hub tk r b))).
Proof. destruct (with_hub_frame tk r b) as (-> & _). auto. Qed.

Lemma handleCloudCommand_waiting id k tk c b :
  waiting id k (wsClient b) ->
  waiting id k (wsClient (fst (handleCloudCommand tk c b))).
Proof.
  intros H. unfold handleCloudCommand. destruct (Cloud.payload c); [|exact H].
  apply with_hub_waiting, sendCommand_waiting, H.
Qed.

Lemma collectFullSync_waiting id k tk b :
  waiting id k (wsClient b) ->
  waiting id k (wsClient (fst (collectFullSync tk b))).
Proof.
  intros H. unfold collectFullSync.
  repeat match goal with
  | H : waiting id k (wsClient ?b') |- context [with_hub tk (Hub.sendCommand (wsClient ?b') ?k' ?ty ?d) ?b'] =>
      let Hn := fresh "Hw" in
      pose proof (with_hub_waiting id k tk (Hub.sendCommand (wsClient b') k' ty d) b'
                    (sendCommand_waiting id k (wsClient b') k' ty d H)) as Hn;
      destruct (with_hub tk (Hub.sendCommand (wsClient b') k' ty d) b');
      cbn [fst snd] in *; clear H
  end.
  assumption.
Qed.

Lemma on_cloud_effects_waiting id k tk es : forall b,
  waiting id k (wsClient b) ->
  waiting id k (wsClient (fst (on_cloud_effects tk es b))).
Proof.
  induction es as [|e r IH]; intros b H; cbn [on_cloud_effects]; [exact H|].
  assert (H1 : waiting id k (wsClient (fst (on_cloud_effect tk e b)))).
  { destruct e as [| | |[]| | | | | |]; cbn [on_cloud_effect fst]; try exact H.
    - now apply handleCloudCommand_waiting.
    - now apply collectFullSync_waiting. }
  destruct (on_cloud_effect tk e b) as [b1 o1]. specialize (IH b1 H1).
  destruct (on_cloud_effects tk r b1) as [b2 o2]. exact IH.
Qed.

Lemma step_waiting id k tk ev b :
  quiet id b ev ->
  waiting id k (wsClient b) -> waiting id k (wsClient (fst (step tk ev b))).
Proof.
  intros Hq H. destruct (resumes ev) eqn:Hres.
  { destruct (resumes_frame tk ev b Hres) as (H1 & _). now rewrite H1. }
  destruct ev; try discriminate Hres; cbn [step]; try (apply with_hub_waiting);
    try (unfold with_cloud; apply on_cloud_effects_waiting; exact H).
  - exact H.
  - destruct H. split; assumption.
  - now apply on_close_waiting.
  - now apply (handleMessage_waiting id k (wsClient b) m b).
  - destruct (rpcTimers b !! n) as [[id' k']|] eqn:Hn; [|exact H].
    apply with_hub_waiting. cbn [wsClient set_rpcTimers].
    apply on_rpc_timeout_waiting; [|exact H]. intros ->. exact (Hq k' Hn).
  - exact H.
  - now apply sendCommand_waiting.
  - destruct (Cloud.handleMessage _ _ m _ _) as [[c cs] es].
    unfold with_cloud. apply on_cloud_effects_waiting. exact H.
  - exact H.
  - pose proof (flush_frame tk b) as (Hw & _).
    destruct (flushStateChanges tk b) as [[b1 o1] ok]. cbn [fst] in *.
    now rewrite Hw.
  - destruct Hq.
Qed.

Lemma run_waiting id k evs : forall b,
  quiet_run id evs b ->
  waiting id k (wsClient b) -> waiting id k (wsClient (fst (run evs b))).
Proof.
  induction evs as [|[tk ev] r IH]; intros b Hq H; cbn [run]; [exact H|].
  destruct Hq as [Hq Hr]. pose proof (step_waiting id k tk ev b Hq H) as H1.
  destruct (step tk ev b) as [b1 o1]. cbn [fst] in *.
  specialize (IH b1 Hr H1). destruct (run r b1) as [b2 o2]. exact IH.
Qed.

Lemma on_hub_effects_do tk e es : forall b,
  In e es -> In (HubDo e) (snd (on_hub_effects tk es b)).
Proof.
  induction es as [|e' r IH]; intros b; [intros []|].
  cbn [on_hub_effects]. destruct (on_hub_effect tk e' b) as [b1 o1].
  specialize (IH b1). destruct (on_hub_effects tk r b1) as [b2 o2].
  cbn [snd] in *. intros [->|Hin]; [now left|].
  right. apply in_or_app. right. auto.
Qed.

(** C3, as stated, fails.  The error of the deadline is the string
    "Command timeout", with a capital C; and once [disconnect] has
    emptied the table the deadline of a request in flight rejects
    nothing, so that call never fails. *)
Lemma deadline_counterexample :
  snd (Hub.on_rpc_timeout hub_waiting 2 (AwaitOther "states"))
  = [Hub.Reject (AwaitOther "states") "Command timeout"]
  /\ "Command timeout" <> "command timeout"
  /\ Hub.pendingResponses hub_waiting !! 2 = Some (AwaitOther "states")
  /\ snd (Hub.on_rpc_timeout (fst (Hub.disconnect hub_waiting)) 2 (AwaitOther "states"))
     = [].
Proof. repeat split; try (vm_compute; reflexivity). discriminate. Qed.

(** C3, amended.  A request issued by [sendCommand] on an authenticated
    session arms a deadline of 30000 ms.  Whatever happens in between,
    as long as no result frame with its id arrives, the deadline has not
    fired and the bridge has not been stopped: when the deadline fires
    the waiter is removed from the table and the call fails with
    "Command timeout", and a result frame with that id arriving
    afterwards changes nothing and has no effect. *)
Theorem rpc_deadline (tk : tick) (k : caller) (type : string)
    (data : list (string * json)) (b : t) (evs : list (tick * event)) :
  Hub.authenticated (wsClient b) = true ->
  let id := Hub.messageId (wsClient b) in
  let sent := with_hub tk (Hub.sendCommand (wsClient b) k type data) b in
  quiet_run id evs (fst sent) ->
  let fired := Hub.on_rpc_timeout (wsClient (fst (run evs (fst sent)))) id k in
  In (HubDo (Hub.SetRpcTimeout id k 30000)) (snd sent)
  /\ In (id, k) (rpcTimers (fst sent))
  /\ snd fired = [Hub.Reject k "Command timeout"]
  /\ Hub.pendingResponses (fst fired) !! id = None
  /\ forall success res err,
       Hub.handleResult (fst fired) (Some id) success res err = (fst fired, []).
Proof.
  intros Hauth id sent Hq fired.
  assert (Hsend : Hub.sendCommand (wsClient b) k type data
            = (fst (Hub.sendCommand (wsClient b) k type data),
               (Hub.send (fst (Hub.sendCommand (wsClient b) k type data))
                  (Hub.FCommand id type data)
                ++ [Hub.SetRpcTimeout id k 30000])%list)).
  { unfold Hub.sendCommand. rewrite Hauth. reflexivity. }
  assert (Hw0 : waiting id k (fst (Hub.sendCommand (wsClient b) k type data))).
  { unfold Hub.sendCommand, waiting, id. rewrite Hauth.
    cbn [negb fst Hub.pendingResponses Hub.messageId].
    split; [apply lookup_insert_eq|lia]. }
  assert (Hw : waiting id k (wsClient (fst (run evs (fst sent))))).
  { apply run_waiting; [exact Hq|]. now apply with_hub_waiting. }
  assert (Hfired : fired
            = (fst fired, [Hub.Reject k "Command timeout"])
            /\ Hub.pendingResponses (fst fired) !! id = None).
  { unfold fired, Hub.on_rpc_timeout. destruct Hw as [-> _].
    cbn [fst snd Hub.pendingResponses].
    split; [reflexivity|apply lookup_delete_eq]. }
  destruct Hfired as [Hf Hnone].
  split; [|split; [|split; [|split]]].
  - unfold sent, with_hub. apply on_hub_effects_do. rewrite Hsend. cbn [snd].
    apply in_or_app. right. now left.
  - unfold sent, with_hub. rewrite AckFacts.on_hub_effects_timers.
    apply in_or_app. right. rewrite Hsend. cbn [snd]. unfold armed.
    rewrite omap_app. apply in_or_app. right. now left.
  - now rewrite Hf.
  - exact Hnone.
  - intros success res err. unfold Hub.handleResult.
    destruct (Z.eqb id 0); [reflexivity|]. now rewrite Hnone.
Qed.

Lemma rpc_deadline_witness :
  snd (Hub.on_rpc_timeout
         (wsClient
            (fst (run [(tk0, HubClose); (tk0, HubReconnectTimer)]
                    (fst (with_hub tk0
                            (Hub.sendCommand (wsClient both_up)
                               (AwaitOther "states") "get_states" [])
                            both_up)))))
         2 (AwaitOther "states"))
  = [Hub.Reject (AwaitOther "states") "Command timeout"].
Proof.
  refine (proj1 (proj2 (proj2
            (rpc_deadline tk0 (AwaitOther "states") "get_states" [] both_up
               [(tk0, HubClose); (tk0, HubReconnectTimer)] eq_refl _)))).
  vm_compute. tauto.
Defined.

End DeadlineFacts.

(** ** Revoked credentials *)

Module RevocationFacts.

Import HelmBridge Spec BridgeFacts.

Lemma connect_revoked c cs :
  Cloud.shouldReconnect c = false -> CredentialStore.isPaired cs = false ->
  Cloud.connect c cs = (c, []).
Proof. intros _ Hp. unfold Cloud.connect. now rewrite Hp. Qed.

Lemma stopHeartbeat_shouldReconnect c :
  Cloud.shouldReconnect (fst (Cloud.stopHeartbeat c)) = Cloud.shouldReconnect c.
Proof. unfold Cloud.stopHeartbeat. now destruct (Cloud.heartbeatTimer c). Qed.

Lemma on_open_shouldReconnect c cs :
  Cloud.shouldReconnect (fst (Cloud.on_open c cs)) = Cloud.shouldReconnect c.
Proof. reflexivity. Qed.

Lemma on_close_revoked c :
  Cloud.shouldReconnect c = false ->
  Cloud.shouldReconnect (fst (Cloud.on_close c)) = false
  /\ forall e, In e (snd (Cloud.on_close c)) ->
       e <> Cloud.WsNew /\ forall d, e <> Cloud.SetReconnectTimer d.
Proof.
  intros Hs. destruct c as [? ? ? ? ? ? hb ? sr ? ? ? ?]. cbn in Hs. subst sr.
  unfold Cloud.on_close, Cloud.stopHeartbeat.
  destruct hb; cbn; (split; [reflexivity|]);
    intros e H; repeat (destruct H as [<-|H]; [split; [|intros d]; discriminate|]);
    destruct H.
Qed.

Lemma disconnect_revoked c :
  Cloud.shouldReconnect (fst (Cloud.disconnect c)) = false
  /\ forall e, In e (snd (Cloud.disconnect c)) ->
       e <> Cloud.WsNew /\ forall d, e <> Cloud.SetReconnectTimer d.
Proof.
  destruct c as [? ? w ? ? rt hb ? ? ? ? ? ?].
  unfold Cloud.disconnect, Cloud.stopHeartbeat.
  destruct hb, rt, w; cbn;
    (split; [reflexivity|]);
    intros e H; repeat (destruct H as [<-|H]; [split; [|intros d]; discriminate|]);
    destruct H.
Qed.

Lemma clear_unpaired d cs cs' :
  CredentialStore.clear d cs = Some cs' -> CredentialStore.isPaired cs' = false.
Proof.
  unfold CredentialStore.clear.
  destruct (CredentialStore.file cs); [destruct d|]; intros [= <-]; reflexivity.
Qed.

Lemma clear_done d cs :
  d = true \/ CredentialStore.file cs = None ->
  CredentialStore.clear d cs
  = Some {| CredentialStore.filePath := CredentialStore.filePath cs;
            CredentialStore.file := None; CredentialStore.credentials := None |}.
Proof.
  unfold CredentialStore.clear. intros [-> | ->]; [|reflexivity].
  now destruct (CredentialStore.file cs).
Qed.

Lemma handleMessage_revoked c cs m now d :
  Cloud.shouldReconnect c = false -> CredentialStore.isPaired cs = false ->
  Cloud.shouldReconnect (fst (fst (Cloud.handleMessage c cs m now d))) = false
  /\ CredentialStore.isPaired (snd (fst (Cloud.handleMessage c cs m now d))) = false
  /\ forall e, In e (snd (Cloud.handleMessage c cs m now d)) ->
       e <> Cloud.WsNew /\ forall d, e <> Cloud.SetReconnectTimer d.
Proof.
  intros Hs Hp.
  assert (Hsend : forall f e, In e (Cloud.send c f) ->
            e <> Cloud.WsNew /\ forall d, e <> Cloud.SetReconnectTimer d).
  { intros f e. destruct (cloud_send_cases c f) as [-> | ->]; [intros []|].
    intros [<-|[]]. split; [|intros d']; discriminate. }
  destruct m; cbn [Cloud.handleMessage].
  - unfold Cloud.handleAuthResult, Cloud.startHeartbeat, Cloud.stopHeartbeat.
    cbn [Cloud.heartbeatTimer Cloud.set_tenantId Cloud.set_authenticated].
    destruct success.
    + destruct (Cloud.heartbeatTimer c); cbn; (split; [exact Hs|split; [exact Hp|]]);
        intros e H;
        repeat (destruct H as [<-|H]; [split; [|intros d']; discriminate|]);
        destruct H.
    + destruct (Cloud.is_revocation _).
      * destruct (CredentialStore.clear d cs) as [cs1|] eqn:Ec; cbn.
        -- split; [reflexivity|]. split; [exact (clear_unpaired d cs cs1 Ec)|].
           intros e H.
           repeat (destruct H as [<-|H]; [split; [|intros d']; discriminate|]);
             destruct H.
        -- split; [exact Hs|]. split; [exact Hp|]. intros e [].
      * cbn. split; [exact Hs|]. split; [exact Hp|]. intros e H.
        repeat (destruct H as [<-|H]; [split; [|intros d']; discriminate|]);
          destruct H.
  - cbn [fst snd]. split; [exact Hs|split; [exact Hp|]].
    unfold Cloud.handleCommand, Cloud.sendCommandAck. intros e H.
    apply in_app_or in H as [H|[<-|[]]]; [|split; [|intros d']; discriminate].
    destruct (Cloud.requiresAck c0); [eapply Hsend, H|destruct H].
  - cbn. split; [exact Hs|split; [exact Hp|]]. intros e [<-|[]].
    split; [|intros d']; discriminate.
  - cbn [fst snd]. split; [exact Hs|split; [exact Hp|]].
    unfold Cloud.sendHeartbeat. destruct (negb _); [intros e []|apply Hsend].
  - destruct (disconnect_revoked (Cloud.set_shouldReconnect false c)) as [H1 H2].
    destruct (Cloud.disconnect (Cloud.set_shouldReconnect false c)) as [c2 e2].
    cbn [fst snd] in *.
    destruct (match reason with
              | Some r => String.eqb r "user_disconnected" || String.eqb r "user_reset"
              | None => false
              end).
    + destruct (CredentialStore.clear d cs) as [cs1|] eqn:Ec; cbn [fst snd].
      * split; [exact H1|]. split; [exact (clear_unpaired d cs cs1 Ec)|exact H2].
      * split; [reflexivity|]. split; [exact Hp|]. intros e [].
    + cbn [fst snd]. split; [exact H1|]. split; [exact Hp|exact H2].
  - cbn. split; [exact Hs|split; [exact Hp|]]. intros e [].
Qed.

Lemma reaction_no_reconnect tk o : reaction tk o -> ~ cloud_reconnects o.
Proof.
  intros [(es & H)|(c & ->)] [Hn|(d & Hn)]; try discriminate Hn;
    destruct H; discriminate Hn.
Qed.

(** An unpaired bridge whose poll stores nothing: the run of the poll
    leaves the bridge as it was and only arms its timer. *)
Lemma poll_unpaired tk attempts0 resp b :
  CredentialStore.isPaired (credentialStore b) = false ->
  pairs (tk, PollTimer attempts0 resp) = false ->
  snd (fst (fst (poll tk attempts0 resp b))) = b
  /\ forall o, In o (snd (fst (poll tk attempts0 resp b))) ->
       o = SetPollTimer pollInterval.
Proof.
  intros Hp Hn. unfold pairs, writes in Hn. cbn [fst snd] in Hn.
  assert (Ha : forall o, In o (fst (reschedule (attempts0 + 1))) ->
               o = SetPollTimer pollInterval) by (intros o; apply reschedule_out).
  unfold poll. cbv zeta. rewrite Hp.
  destruct (reschedule (attempts0 + 1)) as [oa na]. cbn [fst] in Ha.
  destruct resp as [|ct ok status body]; [now split|].
  destruct (is_json ct); cbn [negb]; [|now split].
  destruct ok.
  - destruct body as [data|]; [|now split].
    cbn [andb] in Hn.
    destruct (String.eqb (p_status data) "paired"); cbn [andb] in Hn |- *.
    + destruct (JS.truthy (JS.or_default (p_bridgeCredential data) ""));
        cbn [andb] in Hn |- *.
      * rewrite Hn. cbn. now split.
      * cbn. split; [reflexivity|intros o []].
    + destruct (String.eqb (p_status data) "expired"); cbn; [|now split].
      split; [reflexivity|intros o []].
  - destruct (Z.eqb status 404); now split.
Qed.

(** Once revoked, a step opens and schedules no cloud connection, and the
    bridge stays revoked, unless a run of the poll stores a credential. *)
Lemma step_revoked tk ev b :
  revoked b -> pairs (tk, ev) = false ->
  revoked (fst (step tk ev b))
  /\ Forall (fun o => ~ cloud_reconnects o) (snd (step tk ev b)).
Proof.
  intros [Hs Hp] Hnp.
  destruct (resumes ev) eqn:Hres.
  { destruct ev; try discriminate Hres.
    - rewrite step_poll. cbn [fst snd].
      destruct (poll_unpaired tk attempts0 resp b Hp Hnp) as [-> Ho].
      split; [now split|]. apply List.Forall_forall. intros o Hin.
      rewrite (Ho o Hin). intros [Hc|(d & Hc)]; discriminate Hc.
    - cbn [step fst snd]. split; [now split|]. apply List.Forall_forall.
      intros o Hin. destruct how; cbn in Hin; [destruct Hin|].
      apply reschedule_out in Hin as ->. intros [Hc|(d & Hc)]; discriminate Hc.
    - cbn [step]. split.
      + destruct (performFullSync_frame tk r b) as (_ & _ & _ & _ & H5 & v & n & l & H6).
        split; [now rewrite H6|now rewrite H5].
      + apply List.Forall_forall. intros o Hin.
        destruct (performFullSync_out tk r b o Hin) as (at_ & v & data & ->).
        intros [Hc|(d & Hc)]; discriminate Hc.
    - cbn [step fst snd]. split; [|constructor]. destruct l; now split.
    - cbn [step fst snd]. split; [|constructor]. now split. }
  split.
  - assert (Hh : forall r, revoked (fst (with_hub tk r b))).
    { intros r. destruct (with_hub_frame tk r b) as (_ & H2 & H3).
      split; congruence. }
    destruct ev; try discriminate Hres; cbn [step]; try apply Hh.
    + destruct (rpcTimers b !! n) as [[id k]|]; [|now split].
      match goal with
      | |- revoked (fst (with_hub tk ?r ?b')) =>
          destruct (with_hub_frame tk r b') as (_ & H2 & H3)
      end.
      cbn [cloudClient credentialStore set_rpcTimers] in H2, H3.
      split; congruence.
    + rewrite (connect_revoked _ _ Hs Hp).
      destruct (with_cloud_frame tk (cloudClient b, []) b) as (H1 & H2).
      cbn [fst] in H1. split; congruence.
    + destruct (with_cloud_frame tk (Cloud.on_open (cloudClient b) (credentialStore b)) b)
        as (H1 & H2).
      split; [rewrite H1; exact Hs|congruence].
    + destruct (with_cloud_frame tk (Cloud.on_close (cloudClient b)) b) as (H1 & H2).
      split; [rewrite H1; now apply on_close_revoked|congruence].
    + destruct (handleMessage_revoked (cloudClient b) (credentialStore b) m (now tk)
                  (disk tk) Hs Hp) as (H1 & H2 & _).
      destruct (Cloud.handleMessage _ _ m _ _) as [[c cs] es]. cbn [fst snd] in *.
      destruct (with_cloud_frame tk (c, es) (set_store cs b)) as (H3 & H4).
      split; [rewrite H3; exact H1|rewrite H4; exact H2].
    + rewrite (connect_revoked _ _ Hs Hp).
      destruct (with_cloud_frame tk (cloudClient b, []) b) as (H1 & H2).
      cbn [fst] in H1. split; congruence.
    + now split.
    + pose proof (flush_frame tk b) as (_ & H2 & H3).
      destruct (flushStateChanges tk b) as [[b1 o1] ok]. cbn [fst] in *.
      split; [|congruence].
      destruct H3 as [->|(v & n & l & ->)]; exact Hs.
    + unfold stop.
      assert (Hrest : forall b1, credentialStore b1 = credentialStore b ->
                revoked (fst (let '(b2, o2) :=
                                with_cloud tk (Cloud.disconnect (cloudClient b1)) b1 in
                              let '(b3, o3) :=
                                with_hub tk (Hub.disconnect (wsClient b2)) b2 in
                              (b3, (o2 ++ o3)%list)))).
      { intros b1 Hst.
        destruct (with_cloud_frame tk (Cloud.disconnect (cloudClient b1)) b1) as (H1 & H2).
        destruct (with_cloud tk _ b1) as [b2 o2]. cbn [fst] in *.
        destruct (with_hub_frame tk (Hub.disconnect (wsClient b2)) b2) as (_ & H3 & H4).
        destruct (with_hub tk _ b2) as [b3 o3]. cbn [fst] in *.
        split.
        - rewrite H3, H1. apply disconnect_revoked.
        - rewrite H4, H2, Hst. exact Hp. }
      pose proof (flush_frame tk b) as (_ & H2 & H3).
      destruct (batchTimer b).
      * destruct (flushStateChanges tk b) as [[b1 o1] ok]. cbn [fst] in *.
        destruct ok.
        -- specialize (Hrest b1 H2).
           destruct (with_cloud tk _ b1) as [b2 o2].
           destruct (with_hub tk _ b2) as [b3 o3]. exact Hrest.
        -- cbn [fst]. split; [|congruence].
           destruct H3 as [->|(v & n & l & ->)]; exact Hs.
      * specialize (Hrest b eq_refl).
        destruct (with_cloud tk _ b) as [b2 o2].
        destruct (with_hub tk _ b2) as [b3 o3]. exact Hrest.
  - apply List.Forall_forall. intros o Ho.
    destruct (step_out tk ev b o Ho)
      as [(e & He & ->)|[(evs & ->)|[Hr|[->|[->| ->]]]]].
    + assert (Hne : e <> Cloud.WsNew /\ forall d, e <> Cloud.SetReconnectTimer d).
      { destruct ev; try discriminate Hres;
          cbn [cloud_effects_of] in He; try (destruct He; fail).
        - rewrite (connect_revoked _ _ Hs Hp) in He. destruct He.
        - unfold Cloud.on_open, Cloud.sendAuth in He. cbn [snd] in He.
          destruct He as [<-|He]; [split; [|intros d]; discriminate|].
          destruct (CredentialStore.get _); [|destruct He].
          match type of He with
          | In _ (Cloud.send ?s ?f) => destruct (cloud_send_cases s f) as [E|E];
                                       rewrite E in He
          end; [destruct He|].
          destruct He as [<-|[]]. split; [|intros d]; discriminate.
        - eapply on_close_revoked; eauto.
        - eapply handleMessage_revoked; eauto.
        - rewrite (connect_revoked _ _ Hs Hp) in He. destruct He.
        - unfold Cloud.sendHeartbeat in He. destruct (negb _); [destruct He|].
          match type of He with
          | In _ (Cloud.send ?s ?f) => destruct (cloud_send_cases s f) as [E|E];
                                       rewrite E in He
          end; [destruct He|].
          destruct He as [<-|[]]. split; [|intros d]; discriminate.
        - eapply disconnect_revoked; eauto. }
      destruct Hne as [Hn1 Hn2]. intros [Hc|(d & Hc)]; injection Hc; auto.
      intros ->. now apply (Hn2 d).
    + intros [Hc|(d & Hc)]; discriminate Hc.
    + now apply (reaction_no_reconnect tk).
    + intros [Hc|(d & Hc)]; discriminate Hc.
    + intros [Hc|(d & Hc)]; discriminate Hc.
    + intros [Hc|(d & Hc)]; discriminate Hc.
Qed.

Lemma run_revoked evs : forall b,
  revoked b -> never_paired evs ->
  Forall (fun o => ~ cloud_reconnects o) (snd (run evs b)).
Proof.
  induction evs as [|[tk ev] r IH]; intros b Hr Hn; cbn [run]; [constructor|].
  apply Forall_cons in Hn as [Hn1 Hn].
  destruct (step_revoked tk ev b Hr Hn1) as [H1 H2].
  destruct (step tk ev b) as [b1 o1]. specialize (IH b1 H1 Hn).
  destruct (run r b1) as [b2 o2]. cbn [snd] in *.
  apply Forall_app. split; assumption.
Qed.

(** C4, as stated, fails when the operating system refuses to remove the
    credential file: [clear] throws before should-reconnect is touched,
    the store keeps file and copy, and the close of the socket that
    follows arms the reconnect timer as after any other failure. *)
Lemma revocation_needs_removable_file :
  let b1 := fst (step tk_locked
                   (CloudMessage (Cloud.auth_result false None (Some "Credential revoked")))
                   cloud_connected) in
  credentialStore b1 = credentialStore cloud_connected
  /\ CredentialStore.isPaired (credentialStore b1) = true
  /\ Cloud.shouldReconnect (cloudClient b1) = true
  /\ snd (step tk0 CloudClose b1)
     = [CloudDo (Cloud.Emit Cloud.disconnected);
        CloudDo (Cloud.SetReconnectTimer 1000)].
Proof. repeat split; reflexivity. Qed.

(** A poll that is still running pairs the bridge again after the
    revocation: its next run stores the credential the cloud hands out
    and opens a cloud connection. *)
Lemma poll_pairs_again_after_revocation :
  let b1 := fst (step tk0
                   (CloudMessage (Cloud.auth_result false None (Some "Credential revoked")))
                   cloud_connected) in
  revoked b1
  /\ snd (step tk0
            (PollTimer 3 (Fetched (Some "application/json") true 200
                            (Some (redeemed "bc_cafe" "42" "helm-bridge-abcd1234"))))
            b1)
     = [CloudDo Cloud.WsNew].
Proof. repeat split; reflexivity. Qed.

(** C4, amended.  When the cloud answers the authentication with a
    failure whose error text contains "revoked" or "invalid" in any mix of
    upper and lower case, and the credential file can be removed, the
    file is removed, the in-memory copy is dropped and should-reconnect is
    false; from then on the bridge neither opens nor schedules a cloud
    connection, whatever happens, as long as no run of the pairing poll
    stores a credential. *)
Theorem revoked_credential_is_final (tk : tick) (b : t) (tenant : option string)
    (err : string) (evs : list (tick * event)) :
  contains_ci err "revoked" \/ contains_ci err "invalid" ->
  disk tk = true ->
  never_paired evs ->
  let b1 := fst (step tk (CloudMessage (Cloud.auth_result false tenant (Some err))) b) in
  CredentialStore.file (credentialStore b1) = None
  /\ CredentialStore.credentials (credentialStore b1) = None
  /\ Cloud.shouldReconnect (cloudClient b1) = false
  /\ Forall (fun o => ~ cloud_reconnects o) (snd (run evs b1)).
Proof.
  intros Hci Hrm Hnp b1.
  assert (Hrev : Cloud.is_revocation (JS.or_default (Some err) "Unknown error") = true
                 /\ JS.or_default (Some err) "Unknown error" = err).
  { assert (Ht : JS.truthy err = true).
    { destruct Hci as [H|H]; eapply JSFacts.contains_ci_truthy; eauto; discriminate. }
    unfold JS.or_default. rewrite Ht. split; [|reflexivity].
    unfold Cloud.is_revocation.
    destruct Hci as [H|H]; rewrite (JSFacts.contains_ci_includes _ _ H);
      [reflexivity|apply orb_true_r]. }
  destruct Hrev as [Hrev Herr].
  assert (Hb1 : cloudClient b1 = Cloud.set_shouldReconnect false (cloudClient b)
                /\ credentialStore b1
                   = {| CredentialStore.filePath :=
                          CredentialStore.filePath (credentialStore b);
                        CredentialStore.file := None;
                        CredentialStore.credentials := None |}).
  { unfold b1. cbn [step Cloud.handleMessage]. unfold Cloud.handleAuthResult.
    rewrite Hrev, (clear_done _ _ (or_introl Hrm)).
    match goal with
    | |- context [with_cloud tk ?r ?b'] => destruct (with_cloud_frame tk r b') as (H1 & H2)
    end.
    rewrite H1, H2. split; reflexivity. }
  destruct Hb1 as [Hc Hst].
  split; [now rewrite Hst|]. split; [now rewrite Hst|]. split; [now rewrite Hc|].
  apply run_revoked; [|exact Hnp]. split; [now rewrite Hc|now rewrite Hst].
Qed.

Lemma revoked_credential_is_final_witness :
  let b1 := fst (step tk0
                   (CloudMessage (Cloud.auth_result false None (Some "Credential Revoked")))
                   cloud_connected) in
  CredentialStore.file (credentialStore b1) = None
  /\ CredentialStore.credentials (credentialStore b1) = None
  /\ Cloud.shouldReconnect (cloudClient b1) = false
  /\ Forall (fun o => ~ cloud_reconnects o)
       (snd (run [(tk0, CloudClose); (tk0, CloudReconnectTimer);
                  (tk0, PollTimer 3 FetchFailed)] b1)).
Proof.
  refine (revoked_credential_is_final tk0 cloud_connected None "Credential Revoked"
            [(tk0, CloudClose); (tk0, CloudReconnectTimer);
             (tk0, PollTimer 3 FetchFailed)] _ _ _).
  - left. exists "Credential ", "Revoked", "". split; reflexivity.
  - reflexivity.
  - repeat constructor.
Defined.

End RevocationFacts.

(** ** Batches of state changes *)

Module BatchFacts.

Import HelmBridge Spec BridgeFacts.

Lemma emitted_app a b : emitted (a ++ b) = (emitted a ++ emitted b)%list.
Proof. apply omap_app. Qed.

Lemma emitted_send s f : emitted (Hub.send s f) = [].
Proof. destruct (hub_send_cases s f) as [-> | ->]; reflexivity. Qed.

Lemma on_hub_effect_queue tk e b :
  stateChangeQueue (fst (on_hub_effect tk e b))
  = (stateChangeQueue b ++ emitted [e])%list.
Proof.
  destruct e as [| | |[]| [] |[]| | | | |]; cbn; try now rewrite app_nil_r.
  unfold handleStateChange. destruct (batchTimer _); reflexivity.
Qed.

Lemma on_hub_effects_queue tk es : forall b,
  stateChangeQueue (fst (on_hub_effects tk es b))
  = (stateChangeQueue b ++ emitted es)%list.
Proof.
  induction es as [|e r IH]; intros b; cbn [on_hub_effects].
  - cbn. now rewrite app_nil_r.
  - pose proof (on_hub_effect_queue tk e b) as H1.
    destruct (on_hub_effect tk e b) as [b1 o1]. specialize (IH b1).
    destruct (on_hub_effects tk r b1) as [b2 o2]. cbn [fst] in *.
    rewrite IH, H1. change (e :: r) with ([e] ++ r)%list.
    now rewrite emitted_app, app_assoc.
Qed.

Lemma with_hub_queue tk r b :
  stateChangeQueue (fst (with_hub tk r b))
  = (stateChangeQueue b ++ emitted (snd r))%list.
Proof. unfold with_hub. now rewrite on_hub_effects_queue. Qed.

Lemma sendCommand_emits_nothing s k type data :
  emitted (snd (Hub.sendCommand s k type data)) = [].
Proof.
  unfold Hub.sendCommand. destruct (Hub.authenticated s); cbn [negb snd]; [|reflexivity].
  now rewrite emitted_app, emitted_send.
Qed.

Lemma on_close_emits_nothing s : emitted (snd (Hub.on_close s)) = [].
Proof.
  unfold Hub.on_close, Hub.scheduleReconnect. cbn.
  destruct (Hub.shouldReconnect s); [|reflexivity].
  destruct (Z.leb _ _), (Hub.reconnectTimer s); reflexivity.
Qed.

Lemma handleMessage_emits s m :
  emitted (snd (Hub.handleMessage s m))
  = match m with Hub.event (Some e) => [e] | _ => [] end.
Proof.
  destruct m; cbn [Hub.handleMessage snd]; try reflexivity.
  - apply emitted_send.
  - unfold Hub.subscribeToEvents. cbn [snd].
    change (Hub.Emit Hub.authenticated_sig :: ?x ++ [Hub.ConnectResolve])%list
      with ([Hub.Emit Hub.authenticated_sig] ++ x ++ [Hub.ConnectResolve])%list.
    now rewrite !emitted_app, emitted_send.
  - now destruct state_changed.
  - unfold Hub.handleResult. destruct id as [i|]; [|reflexivity].
    destruct (Z.eqb i 0); [reflexivity|].
    destruct (Hub.pendingResponses s !! i); [|reflexivity].
    now destruct success.
Qed.

Lemma on_rpc_timeout_emits_nothing s id k :
  emitted (snd (Hub.on_rpc_timeout s id k)) = [].
Proof. unfold Hub.on_rpc_timeout. now destruct (Hub.pendingResponses s !! id). Qed.

Lemma handleCloudCommand_queue tk c b :
  stateChangeQueue (fst (handleCloudCommand tk c b)) = stateChangeQueue b.
Proof.
  unfold handleCloudCommand. destruct (Cloud.payload c); [|reflexivity].
  rewrite with_hub_queue. unfold Hub.callService.
  now rewrite sendCommand_emits_nothing, app_nil_r.
Qed.

Lemma collectFullSync_queue tk b :
  stateChangeQueue (fst (collectFullSync tk b)) = stateChangeQueue b.
Proof.
  unfold collectFullSync.
  repeat match goal with
  | |- context [with_hub tk (Hub.sendCommand ?s ?k ?ty ?d) ?b'] =>
      let H := fresh "H" in
      pose proof (with_hub_queue tk (Hub.sendCommand s k ty d) b') as H;
      rewrite sendCommand_emits_nothing, app_nil_r in H;
      destruct (with_hub tk (Hub.sendCommand s k ty d) b'); cbn [fst snd] in *
  end.
  congruence.
Qed.

Lemma on_cloud_effects_queue tk es : forall b,
  stateChangeQueue (fst (on_cloud_effects tk es b)) = stateChangeQueue b.
Proof.
  induction es as [|e r IH]; intros b; cbn [on_cloud_effects]; [reflexivity|].
  assert (H1 : stateChangeQueue (fst (on_cloud_effect tk e b)) = stateChangeQueue b).
  { destruct e as [| | |[]| | | | | |]; cbn [on_cloud_effect fst]; try reflexivity.
    - apply handleCloudCommand_queue.
    - apply collectFullSync_queue. }
  destruct (on_cloud_effect tk e b) as [b1 o1]. specialize (IH b1).
  destruct (on_cloud_effects tk r b1) as [b2 o2]. cbn [fst] in *. congruence.
Qed.

(** An input that does not flush appends its state change, if it carries
    one, to the buffer. *)
Lemma step_queue tk ev b :
  flushes ev = false ->
  stateChangeQueue (fst (step tk ev b))
  = (stateChangeQueue b ++ state_changes [(tk, ev)])%list.
Proof.
  intros Hf.
  destruct (resumes ev) eqn:Hres.
  { destruct (resumes_frame tk ev b Hres) as (_ & _ & -> & _).
    destruct ev; try discriminate Hres; cbn; now rewrite app_nil_r. }
  destruct ev; try discriminate Hf; try discriminate Hres; cbn [step];
    unfold state_changes;
    cbn [omap list_omap state_change_of snd];
    try (unfold with_cloud; rewrite on_cloud_effects_queue; cbn; now rewrite app_nil_r);
    try rewrite with_hub_queue.
  - reflexivity.
  - reflexivity.
  - now rewrite on_close_emits_nothing.
  - rewrite handleMessage_emits. destruct m as [| | |[e|]| |]; reflexivity.
  - destruct (rpcTimers b !! n) as [[id k]|]; [|cbn; now rewrite app_nil_r].
    now rewrite with_hub_queue, on_rpc_timeout_emits_nothing.
  - reflexivity.
  - now rewrite sendCommand_emits_nothing.
  - destruct (Cloud.handleMessage _ _ m _ _) as [[c cs] es].
    unfold with_cloud. rewrite on_cloud_effects_queue. cbn. now rewrite app_nil_r.
  - cbn. now rewrite app_nil_r.
Qed.

Lemma state_changes_cons te r :
  state_changes (te :: r) = (state_changes [te] ++ state_changes r)%list.
Proof. change (te :: r) with ([te] ++ r)%list. apply omap_app. Qed.

Lemma run_queue evs : forall b,
  no_flush evs ->
  stateChangeQueue (fst (run evs b)) = (stateChangeQueue b ++ state_changes evs)%list.
Proof.
  induction evs as [|[tk ev] r IH]; intros b Hn; cbn [run].
  - cbn. now rewrite app_nil_r.
  - apply Forall_cons in Hn as [Hf Hn]. cbn [snd] in Hf.
    pose proof (step_queue tk ev b Hf) as H1.
    destruct (step tk ev b) as [b1 o1]. specialize (IH b1 Hn).
    destruct (run r b1) as [b2 o2]. cbn [fst] in *.
    rewrite IH, H1, (state_changes_cons (tk, ev) r). now rewrite app_assoc.
Qed.

(** [mapBatch] converts the events one by one, in order. *)
Lemma mapBatch_order tk batch : forall es,
  mapBatch tk batch = Some es ->
  Forall2 (fun e x => toProtocol tk e = Some x) batch es
  /\ map Cloud.entityId es = map entity_id batch.
Proof.
  induction batch as [|e r IH]; intros es; cbn [mapBatch].
  - intros [= <-]. split; constructor.
  - destruct (toProtocol tk e) as [x|] eqn:Hx; [|discriminate].
    destruct (mapBatch tk r) as [xs|]; [|discriminate].
    intros [= <-]. destruct (IH xs eq_refl) as [H1 H2]. split.
    + constructor; assumption.
    + cbn [map]. rewrite H2. f_equal.
      unfold toProtocol in Hx. destruct (new_state e); [|discriminate].
      now injection Hx as <-.
Qed.

Lemma sendStateBatch_cases c es now uuid :
  Cloud.sendStateBatch c es now uuid = []
  \/ Cloud.sendStateBatch c es now uuid
     = [Cloud.WsSend (Cloud.state_batch uuid now es false)].
Proof.
  unfold Cloud.sendStateBatch. destruct es; [now left|]. apply cloud_send_cases.
Qed.

Lemma sendStateBatch_connected c e es now uuid :
  Cloud.isConnected c = true ->
  Cloud.sendStateBatch c (e :: es) now uuid
  = [Cloud.WsSend (Cloud.state_batch uuid now (e :: es) false)].
Proof.
  unfold Cloud.isConnected, Cloud.sendStateBatch, Cloud.send.
  destruct (Cloud.ws c) as [[]|]; try discriminate. reflexivity.
Qed.

(** C8.  Let the buffer be empty, as a flush leaves it, and let inputs
    follow among which none flushes.  The buffer then holds the state
    changes of these inputs in the order received, and when the batch
    timer fires: at most one [state_batch] frame is sent; a frame that is
    sent carries the uuid drawn at the flush and the converted events, one
    per state change and in the same order; nothing is sent when no state
    change was received; a connected cloud session does get the frame
    when every event converts; and the buffer is empty afterwards. *)
Theorem batch_keeps_order (evs : list (tick * event)) (b : t) (tk : tick) :
  stateChangeQueue b = [] ->
  no_flush evs ->
  let b1 := fst (run evs b) in
  let outs := snd (step tk BatchTimer b1) in
  stateChangeQueue b1 = state_changes evs
  /\ (length (batches outs) <= 1)%nat
  /\ (forall id es, In (id, es) (batches outs) ->
        id = uuid tk
        /\ Forall2 (fun e x => toProtocol tk e = Some x) (state_changes evs) es
        /\ map Cloud.entityId es = map entity_id (state_changes evs))
  /\ (state_changes evs = [] -> outs = [])
  /\ (Cloud.isConnected (cloudClient b1) = true ->
      state_changes evs <> [] ->
      forall es, mapBatch tk (state_changes evs) = Some es ->
      outs = [CloudDo (Cloud.WsSend (Cloud.state_batch (uuid tk) (now tk) es false))])
  /\ stateChangeQueue (fst (step tk BatchTimer b1)) = [].
Proof.
  intros Hempty Hnf b1 outs.
  assert (Hq : stateChangeQueue b1 = state_changes evs).
  { unfold b1. now rewrite run_queue, Hempty. }
  split; [exact Hq|].
  unfold outs. cbn [step]. unfold flushStateChanges. rewrite Hq.
  destruct (state_changes evs) as [|e q] eqn:Hsc.
  { cbn. split; [lia|]. split; [intros id es' []|]. split; [reflexivity|].
    split; [|reflexivity]. intros _ Hne. now destruct Hne. }
  cbn [cloudClient set_queue].
  destruct (Cloud.isConnected (cloudClient b1)) eqn:Hc.
  - destruct (mapBatch tk (e :: q)) as [es|] eqn:Hm.
    + cbn [fst snd].
      destruct (mapBatch_order tk _ _ Hm) as [Hf2 Hmap].
      assert (Hes : exists x xs, es = x :: xs).
      { inversion Hf2; subst. eauto. }
      destruct Hes as (x & xs & ->).
      rewrite (sendStateBatch_connected _ _ _ _ _ Hc). cbn.
      split; [lia|]. split; [intros id es' [[= <- <-]|[]]; auto|].
      split; [discriminate|]. split; [|reflexivity].
      intros _ _ es' [= <-]. reflexivity.
    + cbn. split; [lia|]. split; [intros id es' []|].
      split; [discriminate|]. split; [|reflexivity]. intros _ _ es' Hes. discriminate Hes.
  - cbn. split; [lia|]. split; [intros id es' []|].
    split; [discriminate|]. split; [|reflexivity]. intros Hes. discriminate Hes.
Qed.

Lemma batch_keeps_order_witness :
  snd (step tk0 BatchTimer
         (fst (run [(tk0, HubMessage (Hub.event (Some kitchen_on)));
                    (tk0, CloudMessage Cloud.request_heartbeat);
                    (tk0, HubMessage (Hub.event (Some hall_on)))] both_up)))
  = [CloudDo (Cloud.WsSend
       (Cloud.state_batch "7d9f1c5e-3b2a-4c6d-8e1f-0a9b8c7d6e5f"
          "2026-01-19T10:00:00.000Z"
          [{| Cloud.entityId := "light.kitchen";
              Cloud.oldState := Some (snapshot {| state := "off"; attributes := "{}";
                                  last_changed := "2026-01-19T09:00:00.000Z";
                                  last_updated := "2026-01-19T09:00:00.000Z" |});
              Cloud.newState := snapshot {| state := "on";
                                  attributes := "{brightness:255}";
                                  last_changed := "2026-01-19T10:00:00.000Z";
                                  last_updated := "2026-01-19T10:00:00.000Z" |};
              Cloud.timestamp := "2026-01-19T10:00:00.000Z" |};
           {| Cloud.entityId := "light.hall";
              Cloud.oldState := None;
              Cloud.newState := snapshot {| state := "on"; attributes := "{}";
                                  last_changed := "2026-01-19T10:00:00.100Z";
                                  last_updated := "2026-01-19T10:00:00.100Z" |};
              Cloud.timestamp := "2026-01-19T10:00:00.000Z" |}]
          false))].
Proof.
  refine (proj1 (proj2 (proj2 (proj2 (proj2
            (batch_keeps_order
               [(tk0, HubMessage (Hub.event (Some kitchen_on)));
                (tk0, CloudMessage Cloud.request_heartbeat);
                (tk0, HubMessage (Hub.event (Some hall_on)))] both_up tk0 _ _)))))
            _ _ _ _).
  - vm_compute. reflexivity.
  - repeat constructor.
  - vm_compute. reflexivity.
  - discriminate.
  - vm_compute. reflexivity.
Defined.

End BatchFacts.

(** ** Pairing *)

Module PairingFacts.

Import HelmBridge Spec BridgeFacts.

(** C9, as stated, fails.  The first poll of an unpaired bridge returns
    the redeemed code; the credential is stored and the cloud connection
    opened, and the poll waits for it.  The cloud then rejects the
    authentication: the rejection of the awaited [connect] is caught by
    the poll, which schedules itself again instead of ending. *)
Lemma poll_again_after_rejected_connect :
  poll tk0 0
    (Fetched (Some "application/json; charset=utf-8") true 200
       (Some (redeemed "bc_deadbeef" "42" "helm-bridge-abcd1234")))
    bridge0
  = (1,
     set_cloud (Cloud.set_ws (Some Cloud.CONNECTING) (cloudClient bridge0))
       (set_store
          {| CredentialStore.filePath := CredentialStore.filePath (credentialStore bridge0);
             CredentialStore.file :=
               Some (credential_of "bc_deadbeef" "42" "helm-bridge-abcd1234");
             CredentialStore.credentials :=
               Some (credential_of "bc_deadbeef" "42" "helm-bridge-abcd1234") |}
          bridge0),
     [CloudDo Cloud.WsNew], PollAwaitsConnect)
  /\ poll_resume 1 Rejects = ([SetPollTimer 5000], PollAgain).
Proof. split; vm_compute; reflexivity. Qed.

(** When the credential file cannot be written, [save] throws before the
    in-memory copy is set: the poll catches it, the bridge stays
    unpaired, no connection is opened and the poll schedules itself
    again. *)
Lemma poll_again_after_failed_write :
  let '(n, b1, outs, next) :=
    poll tk_locked 0
      (Fetched (Some "application/json; charset=utf-8") true 200
         (Some (redeemed "bc_deadbeef" "42" "helm-bridge-abcd1234")))
      bridge0 in
  CredentialStore.credentials (credentialStore b1) = None
  /\ outs = [SetPollTimer 5000]
  /\ next = PollAgain.
Proof. vm_compute. repeat split. Qed.

(** C9, amended.  When a poll of an unpaired bridge gets a successful
    JSON answer with status "paired" and a non-empty bridgeCredential, a
    tenantId and a bridgeId, and the credential file can be written, the
    credential store afterwards holds exactly these three fields, in the
    file and in memory, and the cloud connection is opened; the poll waits
    for that connect and, when it succeeds, ends without scheduling
    another poll. *)
Theorem poll_paired (tk : tick) (attempts : Z) (ct : option string) (status : Z)
    (c t bid : string) (b : HelmBridge.t) :
  CredentialStore.isPaired (credentialStore b) = false ->
  is_json ct = true ->
  JS.truthy c = true ->
  disk tk = true ->
  let '(n, b1, outs, next) :=
    poll tk attempts (Fetched ct true status (Some (redeemed c t bid))) b in
  CredentialStore.credentials (credentialStore b1) = Some (credential_of c t bid)
  /\ CredentialStore.file (credentialStore b1) = Some (credential_of c t bid)
  /\ outs = [CloudDo Cloud.WsNew]
  /\ Cloud.ws (cloudClient b1) = Some Cloud.CONNECTING
  /\ next = PollAwaitsConnect
  /\ n = attempts + 1
  /\ poll_resume n Fulfils = ([], PollStop).
Proof.
  intros Hp Hj Hc Hd. unfold poll. rewrite Hp, Hj. cbn [negb redeemed p_status
    p_bridgeCredential p_tenantId p_bridgeId].
  unfold JS.or_default. rewrite Hc.
  change (String.eqb "paired" "paired") with true. cbn [andb].
  unfold CredentialStore.save. rewrite Hd.
  unfold await_connect, Cloud.connect, CredentialStore.isPaired.
  cbn [credentialStore set_store CredentialStore.save CredentialStore.credentials
       CredentialStore.bridgeCredential cloudClient].
  rewrite Hc. cbn [negb]. unfold with_cloud.
  cbn [fst snd on_cloud_effects on_cloud_effect].
  cbn. repeat split.
Qed.

Lemma poll_paired_witness :
  let '(n, b1, outs, next) :=
    poll tk0 0
      (Fetched (Some "application/json; charset=utf-8") true 200
         (Some (redeemed "bc_deadbeef" "42" "helm-bridge-abcd1234")))
      bridge0 in
  CredentialStore.credentials (credentialStore b1)
  = Some (credential_of "bc_deadbeef" "42" "helm-bridge-abcd1234")
  /\ CredentialStore.file (credentialStore b1)
     = Some (credential_of "bc_deadbeef" "42" "helm-bridge-abcd1234")
  /\ outs = [CloudDo Cloud.WsNew]
  /\ Cloud.ws (cloudClient b1) = Some Cloud.CONNECTING
  /\ next = PollAwaitsConnect
  /\ n = 0 + 1
  /\ poll_resume n Fulfils = ([], PollStop).
Proof.
  refine (poll_paired tk0 0 (Some "application/json; charset=utf-8") 200
            "bc_deadbeef" "42" "helm-bridge-abcd1234" bridge0 _ _ _ _).
  - reflexivity.
  - reflexivity.
  - reflexivity.
  - reflexivity.
Defined.

End PairingFacts.

(** ** Request ids of the hub session *)

Module IdFacts.

Module Hub := HAWebSocketClient.
Module Cloud := CloudClient.
Import HelmBridge Spec Further.

Lemma span_nil lo : span lo lo [].
Proof. repeat split; [lia | constructor | constructor]. Qed.

Lemma span_one lo : span lo (lo + 1) [lo].
Proof.
  repeat split; [lia | repeat constructor | repeat constructor; lia].
Qed.

Lemma span_wide lo hi hi' ids : span lo hi ids -> hi <= hi' -> span lo hi' ids.
Proof.
  intros (H1 & H2 & H3) H. repeat split; [lia | exact H2 |].
  eapply List.Forall_impl; [|exact H3]. cbn. intros; lia.
Qed.

Lemma span_app a b c l1 l2 :
  span a b l1 -> span b c l2 -> span a c (l1 ++ l2).
Proof.
  intros (A1 & A2 & A3) (B1 & B2 & B3). repeat split; [lia | |].
  - induction l1 as [|x l1 IH]; [exact B2|].
    cbn. inversion A2; subst. inversion A3; subst. constructor; [auto|].
    apply List.Forall_app. split; [assumption|].
    eapply List.Forall_impl; [|exact B3]. cbn. intros; lia.
  - apply List.Forall_app. split.
    + eapply List.Forall_impl; [|exact A3]. cbn. intros; lia.
    + eapply List.Forall_impl; [|exact B3]. cbn. intros; lia.
Qed.

Lemma effect_ids_app a b : effect_ids (a ++ b) = (effect_ids a ++ effect_ids b)%list.
Proof. apply omap_app. Qed.

Lemma hub_ids_app a b : hub_ids (a ++ b) = (hub_ids a ++ hub_ids b)%list.
Proof. apply omap_app. Qed.

Lemma hub_ids_cloud l : hub_ids (map CloudDo l) = [].
Proof. induction l; [reflexivity | exact IHl]. Qed.

Lemma connect_ids s : takes_ids s (Hub.connect s).
Proof. apply span_nil. Qed.

Lemma on_open_ids s : takes_ids s (Hub.on_open s).
Proof. apply span_nil. Qed.

Lemma on_close_ids s : takes_ids s (Hub.on_close s).
Proof.
  unfold takes_ids, Hub.on_close, Hub.scheduleReconnect. cbn.
  destruct (Hub.shouldReconnect s); [|apply span_nil].
  destruct (Z.leb _ _); destruct (Hub.reconnectTimer s); apply span_nil.
Qed.

Lemma disconnect_ids s : takes_ids s (Hub.disconnect s).
Proof.
  unfold takes_ids, Hub.disconnect. cbn.
  destruct (Hub.reconnectTimer s), (Hub.ws s); apply span_nil.
Qed.

Lemma on_rpc_timeout_ids s id k : takes_ids s (Hub.on_rpc_timeout s id k).
Proof.
  unfold takes_ids, Hub.on_rpc_timeout.
  destruct (Hub.pendingResponses s !! id); apply span_nil.
Qed.

Lemma sendCommand_ids s k type data : takes_ids s (Hub.sendCommand s k type data).
Proof.
  unfold takes_ids, Hub.sendCommand, Hub.send.
  destruct (Hub.authenticated s); cbn; [|apply span_nil].
  destruct (Hub.ws s) as [[]|]; cbn;
    first [apply span_one | eapply span_wide; [apply span_nil | lia]].
Qed.

Lemma handleMessage_ids s m : takes_ids s (Hub.handleMessage s m).
Proof.
  unfold takes_ids. destruct m as [| |msg|ev|id success res err|ty]; cbn.
  - unfold Hub.sendAuth, Hub.send. destruct (Hub.ws s) as [[]|]; apply span_nil.
  - unfold Hub.send. cbn. destruct (Hub.ws s) as [[]|]; cbn;
      first [apply span_one | eapply span_wide; [apply span_nil | lia]].
  - apply span_nil.
  - destruct ev; apply span_nil.
  - unfold Hub.handleResult. destruct id as [i|]; [|apply span_nil].
    destruct (Z.eqb i 0); [apply span_nil|].
    destruct (Hub.pendingResponses s !! i); [|apply span_nil].
    destruct success; apply span_nil.
  - apply span_nil.
Qed.

Lemma on_hub_effect_ids tk e b : hub_ids (snd (on_hub_effect tk e b)) = [].
Proof.
  destruct e as [| | |[| | |]|[]|[]| | | | |]; cbn; try reflexivity.
  - unfold handleStateChange. cbn. destruct (batchTimer b); reflexivity.
  - apply hub_ids_cloud.
  - apply hub_ids_cloud.
Qed.

Lemma on_hub_effects_ids tk es : forall b,
  hub_ids (snd (on_hub_effects tk es b)) = effect_ids es.
Proof.
  induction es as [|e es IH]; intros b; [reflexivity|].
  cbn [on_hub_effects].
  pose proof (on_hub_effect_ids tk e b) as H1.
  destruct (on_hub_effect tk e b) as [b1 o1].
  specialize (IH b1). destruct (on_hub_effects tk es b1) as [b2 o2].
  cbn [snd] in *.
  change (hub_ids (HubDo e :: o1 ++ o2))
    with (hub_ids ([HubDo e] ++ (o1 ++ o2))).
  rewrite !hub_ids_app, H1, IH.
  change (effect_ids (e :: es)) with (effect_ids ([e] ++ es)).
  rewrite effect_ids_app. reflexivity.
Qed.

Lemma with_hub_ids tk r b :
  takes_ids (wsClient b) r ->
  span (Hub.messageId (wsClient b))
       (Hub.messageId (wsClient (fst (with_hub tk r b))))
       (hub_ids (snd (with_hub tk r b))).
Proof.
  intros H. unfold with_hub. rewrite on_hub_effects_ids.
  destruct (BridgeFacts.on_hub_effects_frame tk (snd r) (set_hub (fst r) b)) as (-> & _).
  exact H.
Qed.

Lemma handleCloudCommand_ids tk c b :
  span (Hub.messageId (wsClient b))
       (Hub.messageId (wsClient (fst (handleCloudCommand tk c b))))
       (hub_ids (snd (handleCloudCommand tk c b))).
Proof.
  unfold handleCloudCommand. destruct (Cloud.payload c) as [p|].
  - apply with_hub_ids. apply sendCommand_ids.
  - cbn [fst snd]. rewrite hub_ids_cloud. apply span_nil.
Qed.

Lemma collectFullSync_ids tk b :
  span (Hub.messageId (wsClient b))
       (Hub.messageId (wsClient (fst (collectFullSync tk b))))
       (hub_ids (snd (collectFullSync tk b))).
Proof.
  unfold collectFullSync.
  assert (step : forall tag type (acc : t * list output),
    span (Hub.messageId (wsClient b)) (Hub.messageId (wsClient (fst acc)))
      (hub_ids (snd acc)) ->
    let r := (let '(b0, o0) := acc in
              let '(b1, o1) :=
                with_hub tk (Hub.sendCommand (wsClient b0) (AwaitOther tag) type []) b0 in
              (b1, (o0 ++ o1)%list)) in
    span (Hub.messageId (wsClient b)) (Hub.messageId (wsClient (fst r)))
      (hub_ids (snd r))).
  { intros tag type [b0 o0] H. cbn [fst snd] in H.
    pose proof (with_hub_ids tk
      (Hub.sendCommand (wsClient b0) (AwaitOther tag) type []) b0
      (sendCommand_ids _ _ _ _)) as H1.
    destruct (with_hub tk _ b0) as [b1 o1]. cbn [fst snd] in *.
    rewrite hub_ids_app. eapply span_app; eassumption. }
  do 4 apply step.
  apply (step "areas" "config/area_registry/list" (b, [])). apply span_nil.
Qed.

Lemma on_cloud_effect_ids tk e b :
  span (Hub.messageId (wsClient b))
       (Hub.messageId (wsClient (fst (on_cloud_effect tk e b))))
       (hub_ids (snd (on_cloud_effect tk e b))).
Proof.
  destruct e as [| | |[| | | | |]| | | | | |]; cbn [on_cloud_effect fst snd];
    try apply span_nil.
  - apply handleCloudCommand_ids.
  - apply collectFullSync_ids.
Qed.

Lemma on_cloud_effects_ids tk es : forall b,
  span (Hub.messageId (wsClient b))
       (Hub.messageId (wsClient (fst (on_cloud_effects tk es b))))
       (hub_ids (snd (on_cloud_effects tk es b))).
Proof.
  induction es as [|e es IH]; intros b; [apply span_nil|].
  cbn [on_cloud_effects].
  pose proof (on_cloud_effect_ids tk e b) as H1.
  destruct (on_cloud_effect tk e b) as [b1 o1].
  specialize (IH b1). destruct (on_cloud_effects tk es b1) as [b2 o2].
  cbn [fst snd] in *.
  change (hub_ids (CloudDo e :: o1 ++ o2)) with (hub_ids (o1 ++ o2)).
  rewrite hub_ids_app. eapply span_app; eassumption.
Qed.

Lemma with_cloud_ids tk r b :
  span (Hub.messageId (wsClient b))
       (Hub.messageId (wsClient (fst (with_cloud tk r b))))
       (hub_ids (snd (with_cloud tk r b))).
Proof. apply (on_cloud_effects_ids tk (snd r) (set_cloud (fst r) b)). Qed.

Lemma flush_ids tk b :
  wsClient (fst (fst (flushStateChanges tk b))) = wsClient b
  /\ hub_ids (snd (fst (flushStateChanges tk b))) = [].
Proof.
  split; [apply BridgeFacts.flush_frame|].
  apply AckFacts.omap_none. intros o Ho.
  apply BridgeFacts.flush_out in Ho as [->|(evs & _ & ->)]; reflexivity.
Qed.

Lemma stop_ids tk b :
  span (Hub.messageId (wsClient b))
       (Hub.messageId (wsClient (fst (stop tk b))))
       (hub_ids (snd (stop tk b))).
Proof.
  unfold stop.
  assert (H : forall r : t * list output * bool,
    wsClient (fst (fst r)) = wsClient b -> hub_ids (snd (fst r)) = [] ->
    span (Hub.messageId (wsClient b))
      (Hub.messageId (wsClient (fst
        (let '(b1, o1, ok) := r in
         if ok then
           let '(b2, o2) := with_cloud tk (Cloud.disconnect (cloudClient b1)) b1 in
           let '(b3, o3) := with_hub tk (Hub.disconnect (wsClient b2)) b2 in
           (b3, (o1 ++ o2 ++ o3)%list)
         else (b1, o1)))))
      (hub_ids (snd
        (let '(b1, o1, ok) := r in
         if ok then
           let '(b2, o2) := with_cloud tk (Cloud.disconnect (cloudClient b1)) b1 in
           let '(b3, o3) := with_hub tk (Hub.disconnect (wsClient b2)) b2 in
           (b3, (o1 ++ o2 ++ o3)%list)
         else (b1, o1))))).
  { intros [[b1 o1] ok] E1 E2. cbn [fst snd] in E1, E2.
    destruct ok; cbn [fst snd]; [|rewrite E1, E2; apply span_nil].
    pose proof (with_cloud_ids tk (Cloud.disconnect (cloudClient b1)) b1) as H2.
    destruct (with_cloud tk _ b1) as [b2 o2]. cbn [fst snd] in H2.
    pose proof (with_hub_ids tk (Hub.disconnect (wsClient b2)) b2
                  (disconnect_ids _)) as H3.
    destruct (with_hub tk _ b2) as [b3 o3]. cbn [fst snd] in *.
    rewrite !hub_ids_app, E2. cbn [app]. rewrite E1 in H2.
    eapply span_app; eassumption. }
  destruct (batchTimer b).
  - destruct (flush_ids tk b) as [E1 E2].
    destruct (flushStateChanges tk b) as [[b' o'] ok'].
    apply (H (b', (ClearBatchTimer :: o')%list, ok')); assumption.
  - apply (H (b, [], true)); reflexivity.
Qed.

Lemma step_ids tk ev b :
  span (Hub.messageId (wsClient b))
       (Hub.messageId (wsClient (fst (step tk ev b))))
       (hub_ids (snd (step tk ev b))).
Proof.
  destruct (resumes ev) eqn:Hres.
  { destruct (BridgeFacts.resumes_frame tk ev b Hres) as (-> & _).
    replace (hub_ids (snd (step tk ev b))) with (@nil Z); [apply span_nil|].
    symmetry. apply AckFacts.omap_none. intros o Ho.
    destruct (BridgeFacts.resumes_out tk ev b o Hres Ho)
      as [->|[->|(at_ & v & data & ->)]]; reflexivity. }
  destruct ev; try discriminate Hres; cbn [step].
  - apply with_hub_ids, connect_ids.
  - apply with_hub_ids, on_open_ids.
  - apply with_hub_ids, on_close_ids.
  - apply with_hub_ids, handleMessage_ids.
  - destruct (rpcTimers b !! n) as [[id k]|]; [|apply span_nil].
    apply (with_hub_ids tk _ (set_rpcTimers (delete n (rpcTimers b)) b)).
    apply on_rpc_timeout_ids.
  - apply with_hub_ids, connect_ids.
  - apply with_hub_ids, sendCommand_ids.
  - apply with_cloud_ids.
  - apply with_cloud_ids.
  - apply with_cloud_ids.
  - destruct (Cloud.handleMessage _ _ _ _ _) as [[c cs] es].
    apply (with_cloud_ids tk (c, es) (set_store cs b)).
  - apply with_cloud_ids.
  - cbn [fst snd]. rewrite hub_ids_cloud. apply span_nil.
  - destruct (flush_ids tk b) as [E1 E2].
    destruct (flushStateChanges tk b) as [[b1 o1] ok]. cbn [fst snd] in *.
    rewrite E1, E2. apply span_nil.
  - apply stop_ids.
Qed.

Lemma run_ids evs : forall b,
  span (Hub.messageId (wsClient b))
       (Hub.messageId (wsClient (fst (run evs b))))
       (hub_ids (snd (run evs b))).
Proof.
  induction evs as [|[tk ev] evs IH]; intros b; [apply span_nil|].
  cbn [run].
  pose proof (step_ids tk ev b) as H1.
  destruct (step tk ev b) as [b1 o1].
  specialize (IH b1). destruct (run evs b1) as [b2 o2]. cbn [fst snd] in *.
  rewrite hub_ids_app. eapply span_app; eassumption.
Qed.

Lemma sorted_NoDup (l : list Z) : StronglySorted Z.lt l -> NoDup l.
Proof.
  induction 1 as [|x l _ IH H]; constructor; [|exact IH].
  intros Hin. rewrite List.Forall_forall in H.
  apply list_elem_of_In in Hin. specialize (H x Hin). lia.
Qed.

(** X1.  Whatever happens to a bridge, the ids of the requests it writes
    to the hub (event subscriptions and commands) increase strictly in
    the order of writing, start at the counter's value and stay below its
    final value: no id is used twice. *)
Theorem hub_request_ids_increase (evs : list (tick * event)) (b : t) :
  let ids := hub_ids (snd (run evs b)) in
  StronglySorted Z.lt ids
  /\ NoDup ids
  /\ Forall (fun i => Hub.messageId (wsClient b) <= i
                      < Hub.messageId (wsClient (fst (run evs b)))) ids.
Proof.
  destruct (run_ids evs b) as (_ & H1 & H2).
  split; [exact H1|]. split; [apply sorted_NoDup; exact H1 | exact H2].
Qed.

End IdFacts.

(** ** One result for each command *)

Module ResultFacts.

Module Hub := HAWebSocketClient.
Module Cloud := CloudClient.
Import HelmBridge Spec Further.

Lemma tidy_keep R D s s' l l' :
  Hub.pendingResponses s' = Hub.pendingResponses s ->
  Hub.messageId s <= Hub.messageId s' ->
  (forall x, In x l' -> In x l) ->
  tidy R D s l -> tidy R D s' l'.
Proof.
  intros Hp Hm Hl [T1 T2 T3 T4 T5 T6].
  split; rewrite ?Hp; intros.
  - specialize (T1 _ _ H). lia.
  - specialize (T2 _ _ (Hl _ H)). lia.
  - eauto.
  - eauto.
  - eauto.
  - eauto.
Qed.

Lemma tidy_received R R' D s l :
  (forall c, In c R -> In c R') -> tidy R D s l -> tidy R' D s l.
Proof.
  intros HR [T1 T2 T3 T4 T5 T6]. split; eauto.
  intros id c H. destruct (T4 _ _ H). auto.
Qed.

Lemma plain_settles R D l s r :
  plain s r -> tidy R D s l -> settles_once R D l r.
Proof.
  intros (Hp & Hm & Hs & Ha) HT. unfold settles_once. rewrite Hs, Ha.
  split; [now left|].
  rewrite app_nil_r. cbn [app]. eapply tidy_keep; eauto.
Qed.

Lemma settled_app a b : settled (a ++ b) = (settled a ++ settled b)%list.
Proof. apply omap_app. Qed.

Lemma armed_app a b : armed (a ++ b) = (armed a ++ armed b)%list.
Proof. apply omap_app. Qed.

Lemma send_plain s f : settled (Hub.send s f) = [] /\ armed (Hub.send s f) = [].
Proof. unfold Hub.send. destruct (Hub.ws s) as [[]|]; split; reflexivity. Qed.

Lemma connect_plain s : plain s (Hub.connect s).
Proof. repeat split; cbn; lia. Qed.

Lemma on_open_plain s : plain s (Hub.on_open s).
Proof. repeat split; cbn; lia. Qed.

Lemma on_close_plain s : plain s (Hub.on_close s).
Proof.
  unfold plain, Hub.on_close, Hub.scheduleReconnect. cbn.
  destruct (Hub.shouldReconnect s); [|repeat split; cbn; lia].
  destruct (Z.leb _ _); destruct (Hub.reconnectTimer s); repeat split; cbn; lia.
Qed.

Lemma disconnect_tidy R D l s :
  tidy R D s l -> settles_once R D l (Hub.disconnect s).
Proof.
  intros [T1 T2 T3 T4 T5 T6].
  assert (settled (snd (Hub.disconnect s)) = []
          /\ armed (snd (Hub.disconnect s)) = []) as [Hs Ha].
  { unfold Hub.disconnect. cbn.
    destruct (Hub.reconnectTimer s), (Hub.ws s); split; reflexivity. }
  unfold settles_once. rewrite Hs, Ha.
  split; [now left|]. rewrite app_nil_r. cbn [app].
  split; cbn [Hub.disconnect fst Hub.pendingResponses Hub.messageId];
    try (intros *; rewrite lookup_empty; discriminate); eauto.
Qed.

Lemma handleResult_tidy R D l s id success res err :
  tidy R D s l ->
  settles_once R D l (Hub.handleResult s id success res err).
Proof.
  intros HT. unfold Hub.handleResult.
  destruct id as [i|]; [|apply (plain_settles R D l s); [repeat split; cbn; lia|exact HT]].
  destruct (Z.eqb i 0);
    [apply (plain_settles R D l s); [repeat split; cbn; lia|exact HT]|].
  destruct (Hub.pendingResponses s !! i) as [k|] eqn:Hi;
    [|apply (plain_settles R D l s); [repeat split; cbn; lia|exact HT]].
  destruct HT as [T1 T2 T3 T4 T5 T6].
  assert (Hs : settled (if success then [Hub.Resolve k res]
                        else [Hub.Reject k (JS.or_default err "Unknown error")])
               = match k with AwaitCommand c => [c] | AwaitOther _ => [] end).
  { destruct success, k; reflexivity. }
  assert (Ha : armed (if success then [Hub.Resolve k res]
                      else [Hub.Reject k (JS.or_default err "Unknown error")]) = []).
  { destruct success; reflexivity. }
  unfold settles_once. cbn [fst snd]. rewrite Hs, Ha, app_nil_r.
  split.
  - destruct k as [c|tag]; [|now left]. right. exists c. split; [reflexivity|].
    apply (T4 _ _ Hi).
  - split; cbn [Hub.pendingResponses Hub.messageId].
    + intros id k0 H. apply lookup_delete_Some in H as [_ H]. eauto.
    + eauto.
    + intros id k0 k' H. apply lookup_delete_Some in H as [_ H]. eauto.
    + intros id c H. apply lookup_delete_Some in H as [Hne H].
      destruct (T4 _ _ H) as [H1 H2]. split; [exact H1|].
      destruct k as [c0|tag]; [|exact H2]. cbn [app In].
      intros [<-|H3]; [|tauto]. apply Hne. eapply T5; eauto.
    + intros id id' c H H'. apply lookup_delete_Some in H as [_ H].
      apply lookup_delete_Some in H' as [_ H']. eauto.
    + intros c H. destruct k as [c0|tag]; [|auto]. cbn [app In] in H.
      destruct H as [<-|H]; [|auto]. apply (T4 _ _ Hi).
Qed.

Lemma on_rpc_timeout_tidy R D l s id k :
  tidy R D s l ->
  (forall k', Hub.pendingResponses s !! id = Some k' -> k' = k) ->
  settles_once R D l (Hub.on_rpc_timeout s id k).
Proof.
  intros HT Hk. unfold Hub.on_rpc_timeout.
  destruct (Hub.pendingResponses s !! id) as [k'|] eqn:Hi;
    [|apply (plain_settles R D l s); [repeat split; cbn; lia|exact HT]].
  rewrite (Hk k' eq_refl) in Hi. clear Hk k'.
  destruct HT as [T1 T2 T3 T4 T5 T6].
  unfold settles_once. cbn [fst snd].
  change (armed [Hub.Reject k "Command timeout"]) with (@nil (Z * caller)).
  rewrite app_nil_r.
  assert (Hs : settled [Hub.Reject k "Command timeout"]
               = match k with AwaitCommand c => [c] | AwaitOther _ => [] end).
  { destruct k; reflexivity. }
  rewrite Hs. split.
  - destruct k as [c|tag]; [|now left]. right. exists c. split; [reflexivity|].
    apply (T4 _ _ Hi).
  - split; cbn [Hub.pendingResponses Hub.messageId].
    + intros id0 k0 H. apply lookup_delete_Some in H as [_ H]. eauto.
    + eauto.
    + intros id0 k0 k' H. apply lookup_delete_Some in H as [_ H]. eauto.
    + intros id0 c H. apply lookup_delete_Some in H as [Hne H].
      destruct (T4 _ _ H) as [H1 H2]. split; [exact H1|].
      destruct k as [c0|tag]; [|exact H2]. cbn [app In].
      intros [<-|H3]; [|tauto]. apply Hne. eapply T5; eauto.
    + intros id0 id' c H H'. apply lookup_delete_Some in H as [_ H].
      apply lookup_delete_Some in H' as [_ H']. eauto.
    + intros c H. destruct k as [c0|tag]; [|auto]. cbn [app In] in H.
      destruct H as [<-|H]; [|auto]. apply (T4 _ _ Hi).
Qed.

Lemma sendCommand_tidy R D l s k type data :
  tidy R D s l ->
  (forall c, k = AwaitCommand c ->
     In c R /\ ~ In c D
     /\ forall id, Hub.pendingResponses s !! id <> Some (AwaitCommand c)) ->
  settles_once R D l (Hub.sendCommand s k type data).
Proof.
  intros [T1 T2 T3 T4 T5 T6] Hk. unfold Hub.sendCommand, settles_once.
  destruct (Hub.authenticated s); cbn [negb fst snd].
  - rewrite settled_app, armed_app.
    destruct (send_plain
      {| Hub.haToken := Hub.haToken s; Hub.ws := Hub.ws s;
         Hub.messageId := Hub.messageId s + 1;
         Hub.reconnectTimer := Hub.reconnectTimer s; Hub.authenticated := true;
         Hub.eventSubscriptionId := Hub.eventSubscriptionId s;
         Hub.reconnectAttempts := Hub.reconnectAttempts s;
         Hub.shouldReconnect := Hub.shouldReconnect s;
         Hub.pendingResponses := <[Hub.messageId s:=k]> (Hub.pendingResponses s) |}
      (Hub.FCommand (Hub.messageId s) type data)) as [-> ->].
    cbn [app settled armed omap settled_of]. split; [now left|].
    split; cbn [Hub.pendingResponses Hub.messageId].
    + intros id k0 H. apply lookup_insert_Some in H as [[<- _]|[_ H]]; [lia|].
      specialize (T1 _ _ H). lia.
    + intros id k0 H. apply in_app_iff in H as [H|[[= <- <-]|[]]]; [|lia].
      specialize (T2 _ _ H). lia.
    + intros id k0 k' H H'.
      apply in_app_iff in H' as [H'|[[= <- <-]|[]]].
      * apply lookup_insert_Some in H as [[<- _]|[_ H]]; [|eauto].
        specialize (T2 _ _ H'). lia.
      * apply lookup_insert_Some in H as [[_ <-]|[Hne _]]; [reflexivity|congruence].
    + intros id c H. apply lookup_insert_Some in H as [[_ ->]|[_ H]]; [|eauto].
      destruct (Hk c eq_refl) as (H1 & H2 & _). auto.
    + intros id id' c H H'.
      apply lookup_insert_Some in H as [[<- ->]|[Hne H]];
        apply lookup_insert_Some in H' as [[<- E]|[Hne' H']]; try reflexivity.
      * destruct (Hk c eq_refl) as (_ & _ & H3). now apply H3 in H'.
      * subst k. destruct (Hk c eq_refl) as (_ & _ & H3). now apply H3 in H.
      * eauto.
    + exact T6.
  - change (armed [Hub.Reject k "Not authenticated"]) with (@nil (Z * caller)).
    rewrite app_nil_r.
    assert (Hs : settled [Hub.Reject k "Not authenticated"]
                 = match k with AwaitCommand c => [c] | AwaitOther _ => [] end).
    { destruct k; reflexivity. }
    rewrite Hs. destruct k as [c|tag].
    + destruct (Hk c eq_refl) as (H1 & H2 & H3).
      split; [right; exists c; auto|].
      split; eauto.
      * intros id c' H. destruct (T4 _ _ H) as [H4 H5]. split; [exact H4|].
        cbn [app In]. intros [<-|H6]; [|tauto]. now apply H3 in H.
      * intros c' [<-|H]; auto.
    + split; [now left|]. split; eauto.
Qed.

Lemma sendCommand_other s tag type data :
  settled (snd (Hub.sendCommand s (AwaitOther tag) type data)) = [].
Proof.
  unfold Hub.sendCommand. destruct (Hub.authenticated s); cbn [negb snd]; [|reflexivity].
  rewrite settled_app.
  match goal with |- context [Hub.send ?s ?f] => destruct (send_plain s f) as [-> _] end.
  reflexivity.
Qed.

Lemma handleMessage_tidy R D l s m :
  tidy R D s l -> settles_once R D l (Hub.handleMessage s m).
Proof.
  intros HT. destruct m as [| |msg|ev|id success res err|ty];
    [| | | |apply handleResult_tidy, HT|];
    (apply (plain_settles R D l s); [|exact HT]).
  - cbn. unfold Hub.sendAuth.
    destruct (send_plain s (Hub.FAuth (Hub.haToken s))) as [H1 H2].
    repeat split; cbn; [lia|exact H1|exact H2].
  - cbn. unfold Hub.send. cbn.
    destruct (Hub.ws s) as [[]|]; repeat split; cbn; lia.
  - repeat split; cbn; lia.
  - destruct ev; repeat split; cbn; lia.
  - repeat split; cbn; lia.
Qed.

(** The orchestrator sends a result only for a settled promise. *)
Lemma on_hub_effect_results tk e b :
  sublist (results (snd (on_hub_effect tk e b))) (settled [e]).
Proof.
  destruct e as [| | |[| | |]|[c|tag] v|[c|tag] err| | | | |];
    cbn [on_hub_effect snd]; try apply sublist_nil_l.
  - unfold handleStateChange. destruct (batchTimer _); apply sublist_nil_l.
  - unfold Cloud.sendCommandResult.
    match goal with
    | |- context [Cloud.send ?s ?f] =>
        destruct (BridgeFacts.cloud_send_cases s f) as [-> | ->]
    end; [apply sublist_nil_l|]. cbn. reflexivity.
  - unfold Cloud.sendCommandResult.
    match goal with
    | |- context [Cloud.send ?s ?f] =>
        destruct (BridgeFacts.cloud_send_cases s f) as [-> | ->]
    end; [apply sublist_nil_l|]. cbn. reflexivity.
Qed.

Lemma on_hub_effects_results tk es : forall b,
  sublist (results (snd (on_hub_effects tk es b))) (settled es).
Proof.
  induction es as [|e es IH]; intros b; [apply sublist_nil_l|].
  cbn [on_hub_effects].
  pose proof (on_hub_effect_results tk e b) as H1.
  destruct (on_hub_effect tk e b) as [b1 o1].
  specialize (IH b1). destruct (on_hub_effects tk es b1) as [b2 o2].
  cbn [snd] in *.
  change (results (HubDo e :: o1 ++ o2)) with (results (o1 ++ o2)).
  rewrite AckFacts.results_app.
  change (settled (e :: es)) with (settled ([e] ++ es)).
  rewrite settled_app. now apply sublist_app.
Qed.

Lemma with_hub_reports R D tk r b :
  settles_once R D (rpcTimers b) r -> reports R D (with_hub tk r b).
Proof.
  intros [H1 H2]. exists (settled (snd r)). split; [exact H1|]. split.
  - apply on_hub_effects_results.
  - unfold neat, with_hub. rewrite AckFacts.on_hub_effects_timers.
    destruct (BridgeFacts.on_hub_effects_frame tk (snd r) (set_hub (fst r) b))
      as (-> & _).
    exact H2.
Qed.

Lemma sublist_nil_eq {A} (l : list A) : sublist l [] -> l = [].
Proof. apply sublist_nil_r. Qed.

Lemma with_hub_silent R D tk r b :
  settles_once R D (rpcTimers b) r -> settled (snd r) = [] ->
  silent R D (with_hub tk r b).
Proof.
  intros H Hs. destruct (with_hub_reports R D tk r b H) as (N & _ & _ & _).
  destruct H as [_ H2]. rewrite Hs in H2. split.
  - unfold neat, with_hub. rewrite AckFacts.on_hub_effects_timers.
    destruct (BridgeFacts.on_hub_effects_frame tk (snd r) (set_hub (fst r) b))
      as (-> & _).
    exact H2.
  - apply sublist_nil_eq. rewrite <- Hs. apply on_hub_effects_results.
Qed.

Lemma silent_reports R D r : silent R D r -> reports R D r.
Proof.
  intros [H1 H2]. exists []. split; [now left|]. rewrite H2.
  split; [apply sublist_nil_l | exact H1].
Qed.

Lemma handleCloudCommand_reports R D tk c b :
  neat R D b -> ~ In (Cloud.cmdId c) R ->
  reports (Cloud.cmdId c :: R) D (handleCloudCommand tk c b).
Proof.
  intros HT Hc.
  assert (HT' : tidy (Cloud.cmdId c :: R) D (wsClient b) (rpcTimers b)).
  { eapply tidy_received; [|exact HT]. intros x Hx. now right. }
  assert (Hfresh : In (Cloud.cmdId c) (Cloud.cmdId c :: R) /\ ~ In (Cloud.cmdId c) D
     /\ forall id, Hub.pendingResponses (wsClient b) !! id
                   <> Some (AwaitCommand (Cloud.cmdId c))).
  { split; [now left|]. split.
    - intros H. apply Hc. eapply tidy_done; eauto.
    - intros id H. apply Hc. eapply tidy_open; eauto. }
  unfold handleCloudCommand. destruct (Cloud.payload c) as [p|].
  - apply with_hub_reports. apply sendCommand_tidy; [exact HT'|].
    intros c0 [= <-]. exact Hfresh.
  - exists [Cloud.cmdId c]. cbn [fst snd]. split; [|split].
    + right. exists (Cloud.cmdId c). split; [reflexivity|apply Hfresh].
    + unfold Cloud.sendCommandResult.
      match goal with
      | |- context [Cloud.send ?s ?f] =>
          destruct (BridgeFacts.cloud_send_cases s f) as [-> | ->]
      end; [apply sublist_nil_l|]. cbn. reflexivity.
    + destruct HT' as [T1 T2 T3 T4 T5 T6]. split; eauto.
      * intros id c' H. destruct (T4 _ _ H) as [H4 H5]. split; [exact H4|].
        cbn [app In]. intros [<-|H6]; [|tauto].
        destruct Hfresh as (_ & _ & H3). now apply H3 in H.
      * intros c' [<-|H]; [now left|auto].
Qed.

Lemma collectFullSync_silent R D tk b :
  neat R D b -> silent R D (collectFullSync tk b).
Proof.
  intros HT. unfold collectFullSync.
  assert (step : forall tag type (acc : t * list output),
    silent R D acc ->
    silent R D (let '(b0, o0) := acc in
                let '(b1, o1) :=
                  with_hub tk (Hub.sendCommand (wsClient b0) (AwaitOther tag) type []) b0 in
                (b1, (o0 ++ o1)%list))).
  { intros tag type [b0 o0] [H1 H2]. cbn [fst snd] in H1, H2.
    assert (H3 : silent R D
      (with_hub tk (Hub.sendCommand (wsClient b0) (AwaitOther tag) type []) b0)).
    { apply with_hub_silent; [|apply sendCommand_other].
      destruct (sendCommand_tidy R D (rpcTimers b0) (wsClient b0)
                  (AwaitOther tag) type [] H1) as [H4 H5]; [discriminate|].
      split; assumption. }
    destruct (with_hub tk _ b0) as [b1 o1]. destruct H3 as [H3 H4].
    split; [exact H3|]. cbn [fst snd] in *.
    now rewrite AckFacts.results_app, H2, H4. }
  do 4 apply step.
  apply (step "areas" "config/area_registry/list" (b, [])).
  split; [exact HT|reflexivity].
Qed.

Lemma on_cloud_effects_silent R D tk es : forall b,
  neat R D b ->
  (forall c, ~ In (Cloud.Emit (Cloud.command_sig c)) es) ->
  (forall e, In e es -> result_of (CloudDo e) = None) ->
  silent R D (on_cloud_effects tk es b).
Proof.
  induction es as [|e es IH]; intros b HT Hc Hr; [split; [exact HT|reflexivity]|].
  cbn [on_cloud_effects].
  assert (H1 : silent R D (on_cloud_effect tk e b)).
  { destruct e as [| | |[| | | | |]| | | | | |]; cbn [on_cloud_effect];
      try (split; [exact HT|reflexivity]).
    - exfalso. eapply Hc. left. reflexivity.
    - now apply collectFullSync_silent. }
  destruct (on_cloud_effect tk e b) as [b1 o1]. destruct H1 as [H1 H2].
  cbn [fst snd] in H1, H2.
  destruct (IH b1 H1) as [H3 H4].
  { intros c H. eapply Hc. right. exact H. }
  { intros e' H. apply Hr. now right. }
  destruct (on_cloud_effects tk es b1) as [b2 o2]. cbn [fst snd] in *.
  split; [exact H3|]. cbn [snd].
  change (results (CloudDo e :: o1 ++ o2))
    with (results ([CloudDo e] ++ (o1 ++ o2))).
  rewrite !AckFacts.results_app, H2, H4.
  unfold results. rewrite (AckFacts.omap_none result_of [CloudDo e]); [reflexivity|].
  intros x [<-|[]]. apply Hr. now left.
Qed.

Lemma with_cloud_silent R D tk ev r b0 b :
  received ev = [] ->
  snd r = cloud_effects_of tk ev b ->
  neat R D b0 ->
  silent R D (with_cloud tk r b0).
Proof.
  intros Hev Hes HT. unfold with_cloud. apply on_cloud_effects_silent.
  - exact HT.
  - intros c. rewrite Hes. now apply AckFacts.cloud_effects_no_command.
  - intros e. rewrite Hes. apply BridgeFacts.cloud_effects_no_result.
Qed.

Lemma flush_silent R D tk b :
  neat R D b -> silent R D (fst (flushStateChanges tk b)).
Proof.
  intros HT. split.
  - unfold neat.
    destruct (BridgeFacts.flush_frame tk b) as (-> & _).
    assert (E : rpcTimers (fst (fst (flushStateChanges tk b))) = rpcTimers b).
    { unfold flushStateChanges. destruct (stateChangeQueue b); [reflexivity|].
      destruct (Cloud.isConnected _); [|reflexivity].
      destruct (mapBatch tk _); reflexivity. }
    rewrite E. exact HT.
  - apply AckFacts.omap_none. intros o Ho.
    apply BridgeFacts.flush_out in Ho as [->|(evs & _ & ->)]; reflexivity.
Qed.

Lemma step_command_reports R D tk c b :
  neat R D b -> ~ In (Cloud.cmdId c) R ->
  reports (Cloud.cmdId c :: R) D (step tk (CloudMessage (Cloud.command c)) b).
Proof.
  intros HT Hc. cbn [step Cloud.handleMessage]. unfold with_cloud, Cloud.handleCommand.
  cbn [fst snd]. rewrite AckFacts.on_cloud_effects_app.
  set (b0 := set_cloud (cloudClient b) (set_store (credentialStore b) b)).
  set (ackpart := if Cloud.requiresAck c
                  then Cloud.sendCommandAck (cloudClient b) (Cloud.cmdId c) (now tk)
                  else []).
  assert (Hack : on_cloud_effects tk ackpart b0 = (b0, map CloudDo ackpart)
                 /\ results (map CloudDo ackpart) = []).
  { unfold ackpart, Cloud.sendCommandAck. destruct (Cloud.requiresAck c); [|cbn; auto].
    rewrite AckFacts.on_cloud_effects_send.
    match goal with
    | |- context [Cloud.send ?s ?f] =>
        destruct (BridgeFacts.cloud_send_cases s f) as [-> | ->]
    end; cbn; auto. }
  destruct Hack as (-> & Hres).
  cbn [on_cloud_effects on_cloud_effect].
  destruct (handleCloudCommand_reports R D tk c b0 HT Hc) as (N & H1 & H2 & H3).
  destruct (handleCloudCommand tk c b0) as [b1 o1]. cbn [fst snd] in *.
  exists N. split; [exact H1|]. split; [|exact H3]. cbn [snd].
  rewrite AckFacts.results_app, Hres. cbn [app].
  change (CloudDo (Cloud.Emit (Cloud.command_sig c)) :: o1 ++ [])%list
    with ([CloudDo (Cloud.Emit (Cloud.command_sig c))] ++ o1 ++ [])%list.
  rewrite !AckFacts.results_app.
  change (results [CloudDo (Cloud.Emit (Cloud.command_sig c))]) with (@nil string).
  change (results []) with (@nil string).
  rewrite app_nil_r. exact H2.
Qed.

Lemma stop_silent R D tk b : neat R D b -> silent R D (stop tk b).
Proof.
  intros HT. unfold stop.
  assert (Hrest : forall b1 o1, silent R D (b1, o1) ->
            cloudClient b1 = cloudClient b
            \/ (exists v n l, cloudClient b1 = Cloud.updateStats v n l (cloudClient b)) ->
            silent R D
              (let '(b2, o2) := with_cloud tk (Cloud.disconnect (cloudClient b1)) b1 in
               let '(b3, o3) := with_hub tk (Hub.disconnect (wsClient b2)) b2 in
               (b3, (o1 ++ o2 ++ o3)%list))).
  { intros b1 o1 [Hk1 Hr1] Hc. cbn [fst snd] in Hk1, Hr1.
    assert (Hd : snd (Cloud.disconnect (cloudClient b1))
                 = cloud_effects_of tk Stop b).
    { cbn [cloud_effects_of]. destruct Hc as [->|(v & n & l & ->)]; [reflexivity|].
      unfold Cloud.disconnect, Cloud.stopHeartbeat. cbn.
      destruct (Cloud.reconnectTimer _), (Cloud.heartbeatTimer _), (Cloud.ws _);
        reflexivity. }
    destruct (with_cloud_silent R D tk Stop _ b1 b eq_refl Hd Hk1) as [Hk2 Hr2].
    destruct (with_cloud tk _ b1) as [b2 o2]. cbn [fst snd] in *.
    destruct (with_hub_silent R D tk (Hub.disconnect (wsClient b2)) b2)
      as [Hk3 Hr3].
    { apply disconnect_tidy, Hk2. }
    { unfold Hub.disconnect. cbn.
      destruct (Hub.reconnectTimer _), (Hub.ws _); reflexivity. }
    destruct (with_hub tk _ b2) as [b3 o3]. cbn [fst snd] in *.
    split; [exact Hk3|]. cbn [snd].
    now rewrite !AckFacts.results_app, Hr1, Hr2, Hr3. }
  pose proof (BridgeFacts.flush_frame tk b) as (_ & _ & Hc).
  pose proof (flush_silent R D tk b HT) as Hfl.
  destruct (batchTimer b).
  - destruct (flushStateChanges tk b) as [[b1 o1] ok]. cbn [fst snd] in *.
    destruct ok; [|exact Hfl].
    apply (Hrest b1 (ClearBatchTimer :: o1)%list); [|exact Hc].
    destruct Hfl as [H1 H2]. split; [exact H1|exact H2].
  - apply (Hrest b []); [split; [exact HT|reflexivity]|now left].
Qed.

(** The invariant, step by step. *)
Lemma step_reports R D tk ev b :
  neat R D b ->
  (forall c, In c (received ev) -> ~ In c R) ->
  reports (received ev ++ R) D (step tk ev b).
Proof.
  intros HT Hnew.
  assert (Hq : forall r, received ev = [] -> silent R D r ->
                         reports (received ev ++ R) D r).
  { intros r -> H. now apply silent_reports. }
  destruct (resumes ev) eqn:Hres.
  { apply Hq; [now destruct ev|]. split.
    - unfold neat. destruct (BridgeFacts.resumes_frame tk ev b Hres) as (-> & -> & _).
      exact HT.
    - apply AckFacts.omap_none. intros o Ho.
      destruct (BridgeFacts.resumes_out tk ev b o Hres Ho)
        as [->|[->|(at_ & v & data & ->)]]; reflexivity. }
  destruct ev; try discriminate Hres; cbn [step].
  - apply with_hub_reports, (plain_settles R D _ (wsClient b)), HT. apply connect_plain.
  - apply with_hub_reports, (plain_settles R D _ (wsClient b)), HT. apply on_open_plain.
  - apply with_hub_reports, (plain_settles R D _ (wsClient b)), HT. apply on_close_plain.
  - apply with_hub_reports, handleMessage_tidy, HT.
  - destruct (rpcTimers b !! n) as [[id k]|] eqn:Hn.
    + assert (Hin : In (id, k) (rpcTimers b)).
      { apply list_elem_of_In. eapply list_elem_of_lookup_2, Hn. }
      apply (with_hub_reports R D tk _ (set_rpcTimers (delete n (rpcTimers b)) b)).
      apply on_rpc_timeout_tidy.
      * eapply tidy_keep; [reflexivity|lia| |exact HT].
        intros x Hx. cbn in Hx. eapply AckFacts.in_delete, Hx.
      * intros k' Hk'. eapply tidy_agree; eauto.
    + apply silent_reports. split; [exact HT|reflexivity].
  - apply with_hub_reports, (plain_settles R D _ (wsClient b)), HT. apply connect_plain.
  - apply with_hub_reports, sendCommand_tidy; [exact HT|discriminate].
  - apply Hq; [reflexivity|]. now apply (with_cloud_silent R D tk CloudConnect _ b b).
  - apply Hq; [reflexivity|]. now apply (with_cloud_silent R D tk CloudOpen _ b b).
  - apply Hq; [reflexivity|]. now apply (with_cloud_silent R D tk CloudClose _ b b).
  - destruct m;
      try (apply step_command_reports; [exact HT|apply Hnew; now left]).
    all: apply Hq; [reflexivity|].
    all: match goal with
         | |- context [Cloud.handleMessage ?s ?cs ?m ?n ?d] =>
             pose proof (eq_refl : snd (Cloud.handleMessage s cs m n d)
                                   = cloud_effects_of tk (CloudMessage m) b) as Hes;
             destruct (Cloud.handleMessage s cs m n d) as [[c' cs'] es'] eqn:Hm;
             cbn [snd] in Hes;
             apply (with_cloud_silent R D tk (CloudMessage m) (c', es')
                      (set_store cs' b) b eq_refl Hes HT)
         end.
  - apply Hq; [reflexivity|].
    now apply (with_cloud_silent R D tk CloudReconnectTimer _ b b).
  - apply silent_reports. split; [exact HT|].
    apply AckFacts.omap_none. intros o Ho. apply in_map_iff in Ho as (e & <- & He).
    apply (BridgeFacts.cloud_effects_no_result tk HeartbeatTimer b e He).
  - apply silent_reports.
    pose proof (flush_silent R D tk b HT) as Hf.
    destruct (flushStateChanges tk b) as [[b1 o1] ok]. exact Hf.
  - apply silent_reports. now apply stop_silent.
Qed.

Lemma run_reports evs : forall b R D,
  neat R D b ->
  NoDup (commands_received evs) ->
  (forall C, In C (commands_received evs) -> ~ In C R) ->
  NoDup (results (snd (run evs b)))
  /\ forall C, In C (results (snd (run evs b))) -> ~ In C D.
Proof.
  induction evs as [|[tk ev] evs IH]; intros b R D HT Hnd Hnew.
  { split; [constructor|intros C []]. }
  rewrite AckFacts.commands_received_cons in Hnd, Hnew.
  cbn [run].
  destruct (step_reports R D tk ev b HT) as (N & HN & Hsub & HT1).
  { intros c Hc. apply Hnew, in_app_iff. now left. }
  destruct (step tk ev b) as [b1 o1]. cbn [fst snd] in *.
  apply NoDup_app in Hnd as (Hnd1 & Hdis & Hnd2).
  destruct (IH b1 (received ev ++ R)%list (N ++ D)%list HT1 Hnd2) as [IH1 IH2].
  { intros C HC HR. apply in_app_iff in HR as [HR|HR].
    - apply (Hdis C); apply list_elem_of_In; assumption.
    - apply (Hnew C); [apply in_app_iff; now right|exact HR]. }
  destruct (run evs b1) as [b2 o2]. cbn [fst snd] in *.
  rewrite AckFacts.results_app.
  assert (HN1 : forall C, In C (results o1) -> In C N).
  { intros C HC. apply list_elem_of_In. eapply sublist_subseteq; [exact Hsub|].
    now apply list_elem_of_In. }
  assert (HN2 : NoDup N).
  { destruct HN as [->|(c & -> & _)]; [constructor|apply NoDup_singleton]. }
  split.
  - apply NoDup_app. split; [eapply sublist_NoDup; eauto|]. split; [|exact IH1].
    intros C HC HC'. apply list_elem_of_In in HC, HC'.
    apply (IH2 C HC'), in_app_iff. left. auto.
  - intros C HC. apply in_app_iff in HC as [HC|HC].
    + destruct HN as [->|(c & -> & Hc)]; [destruct (HN1 C HC)|].
      destruct (HN1 C HC) as [<-|[]]. exact Hc.
    + intros HD. apply (IH2 C HC), in_app_iff. now right.
Qed.

(** X2.  As long as the cloud never reuses a command id, the bridge sends
    at most one [command_result] for each command, however the hub
    answers, whichever deadlines fire and whenever the sockets close. *)
Theorem one_result_per_command
    (evs : list (tick * event)) (token bridge proto path : string)
    (f : option CredentialStore.StoredCredentials) :
  NoDup (commands_received evs) ->
  NoDup (results (snd (run evs (init token bridge proto path f)))).
Proof.
  intros Hnd.
  apply (run_reports evs (init token bridge proto path f) [] []); [|exact Hnd|auto].
  split; cbn; try (intros *; rewrite lookup_empty; discriminate);
    try (intros; tauto).
Qed.

Lemma one_result_per_command_witness :
  results (snd (run answered_twice paired0))
  = ["11111111-1111-1111-1111-111111111111"]
  /\ NoDup (results (snd (run answered_twice paired0))).
Proof.
  split; [vm_compute; reflexivity|].
  refine (one_result_per_command answered_twice
            "token" "helm-bridge-abcd1234" "1.0" "/data/credentials.json"
            (CredentialStore.credentials (credentialStore paired0)) _).
  vm_compute. repeat constructor. intros H. inversion H.
Defined.

End ResultFacts.

(** ** The outcome of a command *)

Module CommandFacts.

Module Hub := HAWebSocketClient.
Module Cloud := CloudClient.
Import HelmBridge Spec Further.

(** Deadlines stay armed until they fire. *)
Lemma with_hub_timers tk r b x :
  In x (rpcTimers b) -> In x (rpcTimers (fst (with_hub tk r b))).
Proof.
  intros H. unfold with_hub. rewrite AckFacts.on_hub_effects_timers.
  apply in_or_app. now left.
Qed.

Lemma handleCloudCommand_timers tk c b x :
  In x (rpcTimers b) -> In x (rpcTimers (fst (handleCloudCommand tk c b))).
Proof.
  intros H. unfold handleCloudCommand.
  destruct (Cloud.payload c); [now apply with_hub_timers|exact H].
Qed.

Lemma collectFullSync_timers tk b x :
  In x (rpcTimers b) -> In x (rpcTimers (fst (collectFullSync tk b))).
Proof.
  intros H. unfold collectFullSync.
  assert (step : forall tag type (acc : t * list output),
    In x (rpcTimers (fst acc)) ->
    In x (rpcTimers (fst
      (let '(b0, o0) := acc in
       let '(b1, o1) :=
         with_hub tk (Hub.sendCommand (wsClient b0) (AwaitOther tag) type []) b0 in
       (b1, (o0 ++ o1)%list))))).
  { intros tag type [b0 o0] H0. cbn [fst] in H0.
    pose proof (with_hub_timers tk
      (Hub.sendCommand (wsClient b0) (AwaitOther tag) type []) b0 x H0) as H1.
    destruct (with_hub tk _ b0) as [b1 o1]. exact H1. }
  do 4 apply step.
  apply (step "areas" "config/area_registry/list" (b, [])). exact H.
Qed.

Lemma on_cloud_effects_timers tk es x : forall b,
  In x (rpcTimers b) -> In x (rpcTimers (fst (on_cloud_effects tk es b))).
Proof.
  induction es as [|e es IH]; intros b H; [exact H|].
  cbn [on_cloud_effects].
  assert (H1 : In x (rpcTimers (fst (on_cloud_effect tk e b)))).
  { destruct e as [| | |[| | | | |]| | | | | |]; cbn [on_cloud_effect fst];
      try exact H.
    - now apply handleCloudCommand_timers.
    - now apply collectFullSync_timers. }
  destruct (on_cloud_effect tk e b) as [b1 o1].
  specialize (IH b1 H1). destruct (on_cloud_effects tk es b1) as [b2 o2].
  exact IH.
Qed.

Lemma flush_timers tk b :
  rpcTimers (fst (fst (flushStateChanges tk b))) = rpcTimers b.
Proof.
  unfold flushStateChanges. destruct (stateChangeQueue b); [reflexivity|].
  destruct (Cloud.isConnected _); [|reflexivity].
  destruct (mapBatch tk _); reflexivity.
Qed.

Lemma in_delete_other {A} (x : A) (n : nat) : forall (l : list A),
  In x l -> l !! n <> Some x -> In x (delete n l).
Proof.
  induction n as [|n IH]; intros [|y l] H Hn; try destruct H.
  - subst. now destruct Hn.
  - exact H.
  - subst. now left.
  - right. apply IH; assumption.
Qed.

Lemma step_timer id k tk ev b :
  quiet id b ev ->
  In (id, k) (rpcTimers b) -> In (id, k) (rpcTimers (fst (step tk ev b))).
Proof.
  intros Hq H.
  destruct (resumes ev) eqn:Hres.
  { destruct (BridgeFacts.resumes_frame tk ev b Hres) as (_ & -> & _). exact H. }
  destruct ev; try discriminate Hres; cbn [step]; try (now apply with_hub_timers).
  - destruct (rpcTimers b !! n) as [[id' k']|] eqn:Hn; [|exact H].
    apply with_hub_timers. cbn [rpcTimers set_rpcTimers].
    apply in_delete_other; [exact H|]. rewrite Hn. intros [= -> ->].
    now apply (Hq k).
  - now apply (on_cloud_effects_timers tk).
  - now apply (on_cloud_effects_timers tk).
  - now apply (on_cloud_effects_timers tk).
  - destruct (Cloud.handleMessage _ _ _ _ _) as [[c cs] es].
    now apply (on_cloud_effects_timers tk).
  - now apply (on_cloud_effects_timers tk).
  - exact H.
  - pose proof (flush_timers tk b) as E.
    destruct (flushStateChanges tk b) as [[b1 o1] ok]. cbn [fst] in *.
    now rewrite E.
  - destruct Hq.
Qed.

Lemma run_timer id k evs : forall b,
  quiet_run id evs b ->
  In (id, k) (rpcTimers b) -> In (id, k) (rpcTimers (fst (run evs b))).
Proof.
  induction evs as [|[tk ev] evs IH]; intros b Hq H; [exact H|].
  cbn [run]. destruct Hq as [Hq1 Hq2].
  pose proof (step_timer id k tk ev b Hq1 H) as H1.
  destruct (step tk ev b) as [b1 o1]. cbn [fst] in *.
  specialize (IH b1 Hq2 H1). destruct (run evs b1) as [b2 o2]. exact IH.
Qed.

(** What the bridge does when the hub answers request [id] of a command. *)
Lemma answer_outcome tk b id c ok res err :
  id <> 0 ->
  Hub.pendingResponses (wsClient b) !! id = Some (AwaitCommand c) ->
  snd (step tk (HubMessage (Hub.result (Some id) ok res err)) b)
  = if ok
    then HubDo (Hub.Resolve (AwaitCommand c) res) :: success tk b c res
    else HubDo (Hub.Reject (AwaitCommand c) (JS.or_default err "Unknown error"))
           :: failure tk b c (JS.or_default err "Unknown error").
Proof.
  intros Hid Hp. cbn [step Hub.handleMessage]. unfold Hub.handleResult, with_hub.
  apply Z.eqb_neq in Hid. rewrite Hid, Hp. cbn [fst snd].
  destruct ok; cbn [on_hub_effects on_hub_effect snd];
    unfold success, failure; cbn [cloudClient set_hub]; now rewrite app_nil_r.
Qed.

(** What the bridge does when the deadline of request [id] fires. *)
Lemma deadline_outcome tk b n id c :
  rpcTimers b !! n = Some (id, AwaitCommand c) ->
  Hub.pendingResponses (wsClient b) !! id = Some (AwaitCommand c) ->
  snd (step tk (HubRpcTimeout n) b)
  = HubDo (Hub.Reject (AwaitCommand c) "Command timeout")
      :: failure tk b c "Command timeout".
Proof.
  intros Hn Hp. cbn [step]. rewrite Hn. unfold Hub.on_rpc_timeout, with_hub.
  cbn [wsClient set_rpcTimers]. rewrite Hp.
  cbn [fst snd on_hub_effects on_hub_effect].
  unfold failure. cbn [cloudClient set_hub set_rpcTimers]. now rewrite app_nil_r.
Qed.

(** X3.  A command with a payload, received while the hub session is
    authenticated, becomes a [call_service] request with the next id and
    a deadline of 30000 ms.  Whatever happens in between, as long as the
    request is neither answered nor timed out and the bridge is not
    stopped: a successful answer is reported as [completed] with the
    hub's response, a failed one as [failed] with code EXECUTION_FAILED
    and the hub's message (or "Unknown error"), and the deadline, which
    is still armed, as [failed] with "Command timeout". *)
Theorem command_outcome (tk tk' : tick) (c : Cloud.CommandMessage)
    (p : Cloud.ServicePayload) (b : t) (evs : list (tick * event)) :
  Cloud.payload c = Some p ->
  Hub.authenticated (wsClient b) = true ->
  0 < Hub.messageId (wsClient b) ->
  let id := Hub.messageId (wsClient b) in
  let k := AwaitCommand (Cloud.cmdId c) in
  let sent := handleCloudCommand tk c b in
  quiet_run id evs (fst sent) ->
  let b' := fst (run evs (fst sent)) in
  snd sent
  = (map HubDo (Hub.send (wsClient (fst sent))
                  (Hub.FCommand id "call_service" (service_call p)))
     ++ [HubDo (Hub.SetRpcTimeout id k 30000)])%list
  /\ (forall res err,
        snd (step tk' (HubMessage (Hub.result (Some id) true res err)) b')
        = HubDo (Hub.Resolve k res) :: success tk' b' (Cloud.cmdId c) res)
  /\ (forall res err,
        snd (step tk' (HubMessage (Hub.result (Some id) false res err)) b')
        = HubDo (Hub.Reject k (JS.or_default err "Unknown error"))
            :: failure tk' b' (Cloud.cmdId c) (JS.or_default err "Unknown error"))
  /\ (exists n, rpcTimers b' !! n = Some (id, k))
  /\ (forall n, rpcTimers b' !! n = Some (id, k) ->
        snd (step tk' (HubRpcTimeout n) b')
        = HubDo (Hub.Reject k "Command timeout")
            :: failure tk' b' (Cloud.cmdId c) "Command timeout").
Proof.
  intros Hp Hauth Hpos id k sent Hq b'.
  assert (Hsent : sent = with_hub tk
            (Hub.sendCommand (wsClient b) k "call_service" (service_call p)) b).
  { unfold sent, handleCloudCommand. rewrite Hp. reflexivity. }
  clearbody sent. subst sent.
  set (sent := with_hub tk
         (Hub.sendCommand (wsClient b) k "call_service" (service_call p)) b) in *.
  assert (Hsent : sent = with_hub tk
            (Hub.sendCommand (wsClient b) k "call_service" (service_call p)) b)
    by reflexivity.
  clearbody sent.
  assert (Hsend : Hub.sendCommand (wsClient b) k "call_service" (service_call p)
            = (fst (Hub.sendCommand (wsClient b) k "call_service" (service_call p)),
               (Hub.send (fst (Hub.sendCommand (wsClient b) k "call_service"
                                 (service_call p)))
                  (Hub.FCommand id "call_service" (service_call p))
                ++ [Hub.SetRpcTimeout id k 30000])%list)).
  { unfold Hub.sendCommand. rewrite Hauth. reflexivity. }
  assert (Hw0 : waiting id k
            (fst (Hub.sendCommand (wsClient b) k "call_service" (service_call p)))).
  { unfold Hub.sendCommand, waiting, id. rewrite Hauth.
    cbn [negb fst Hub.pendingResponses Hub.messageId].
    split; [apply lookup_insert_eq|lia]. }
  assert (Hw : waiting id k (wsClient b')).
  { apply DeadlineFacts.run_waiting; [exact Hq|].
    rewrite Hsent. now apply DeadlineFacts.with_hub_waiting. }
  assert (Ht : In (id, k) (rpcTimers b')).
  { apply run_timer; [exact Hq|]. rewrite Hsent. unfold with_hub.
    rewrite AckFacts.on_hub_effects_timers.
    apply in_or_app. right. rewrite Hsend. cbn [snd]. unfold armed.
    rewrite omap_app. apply in_or_app. right. now left. }
  destruct Hw as [Hw _].
  split; [|split; [|split; [|split]]].
  - rewrite Hsent.
    destruct (BridgeFacts.with_hub_frame tk
      (Hub.sendCommand (wsClient b) k "call_service" (service_call p)) b) as (E & _).
    rewrite E. unfold with_hub. clear -Hsend.
    set (s1 := fst (Hub.sendCommand (wsClient b) k "call_service" (service_call p)))
      in *.
    clearbody s1. rewrite Hsend. cbn [fst snd]. unfold Hub.send.
    destruct (Hub.ws s1) as [[]|]; reflexivity.
  - intros res err.
    apply (answer_outcome tk' b' id (Cloud.cmdId c) true res err); [lia|exact Hw].
  - intros res err.
    apply (answer_outcome tk' b' id (Cloud.cmdId c) false res err); [lia|exact Hw].
  - apply list_elem_of_lookup_1. apply list_elem_of_In. exact Ht.
  - intros n Hn. exact (deadline_outcome tk' b' n id (Cloud.cmdId c) Hn Hw).
Qed.

Lemma command_outcome_witness :
  snd (step tk0 (HubMessage (Hub.result (Some 2) false "null" (Some "Entity not found")))
         (fst (run [(tk0, HubMessage (Hub.event (Some kitchen_on)));
                    (tk0, HubClose)]
                 (fst (handleCloudCommand tk0 kitchen_command both_up)))))
  = [HubDo (Hub.Reject (AwaitCommand "11111111-1111-1111-1111-111111111111")
              "Entity not found");
     CloudDo (Cloud.WsSend
                (Cloud.command_result "11111111-1111-1111-1111-111111111111"
                   Cloud.failed "2026-01-19T10:00:00.000Z" None
                   (Some ("EXECUTION_FAILED", "Entity not found"))))].
Proof.
  refine (proj1 (proj2 (proj2
    (command_outcome tk0 tk0 kitchen_command turn_on_kitchen both_up
       [(tk0, HubMessage (Hub.event (Some kitchen_on))); (tk0, HubClose)]
       eq_refl eq_refl _ _))) "null" (Some "Entity not found")).
  - vm_compute. reflexivity.
  - cbn [quiet_run quiet]. auto.
Defined.

(** X4.  A command that cannot be executed, because it has no payload or
    because the hub session is not authenticated, is answered at once:
    after the acknowledgement the bridge reports it as [failed] with
    code EXECUTION_FAILED, writes nothing to the hub, arms no deadline
    and keeps its state. *)
Theorem command_not_executed (tk : tick) (c : Cloud.CommandMessage) (b : t) :
  Cloud.payload c = None \/ Hub.authenticated (wsClient b) = false ->
  let k := AwaitCommand (Cloud.cmdId c) in
  step tk (CloudMessage (Cloud.command c)) b
  = (b,
     (receipt tk b c
      ++ match Cloud.payload c with
         | None => failure tk b (Cloud.cmdId c) destructure_error
         | Some _ =>
             HubDo (Hub.Reject k "Not authenticated")
               :: failure tk b (Cloud.cmdId c) "Not authenticated"
         end)%list).
Proof.
  intros H k. cbn [step Cloud.handleMessage]. unfold with_cloud, Cloud.handleCommand.
  cbn [fst snd]. rewrite AckFacts.on_cloud_effects_app.
  assert (E : set_cloud (cloudClient b) (set_store (credentialStore b) b) = b).
  { destruct b; reflexivity. }
  rewrite E. unfold receipt.
  assert (Hack : forall l : list Cloud.effect,
    (l = [] \/ exists f, l = Cloud.send (cloudClient b) f) ->
    on_cloud_effects tk l b = (b, map CloudDo l)).
  { intros l [->|(f & ->)]; [reflexivity|apply AckFacts.on_cloud_effects_send]. }
  rewrite Hack.
  2:{ destruct (Cloud.requiresAck c); [right; eexists; reflexivity|now left]. }
  cbn [on_cloud_effects on_cloud_effect].
  assert (Hc : handleCloudCommand tk c b
    = (b, match Cloud.payload c with
          | None => failure tk b (Cloud.cmdId c) destructure_error
          | Some _ =>
              HubDo (Hub.Reject k "Not authenticated")
                :: failure tk b (Cloud.cmdId c) "Not authenticated"
          end)).
  { unfold handleCloudCommand. destruct (Cloud.payload c) as [p|]; [|reflexivity].
    destruct H as [H|H]; [discriminate|].
    unfold Hub.callService, Hub.sendCommand, with_hub. rewrite H.
    cbn [negb fst snd on_hub_effects on_hub_effect]. unfold failure.
    cbn [cloudClient set_hub]. rewrite app_nil_r.
    f_equal. destruct b; reflexivity. }
  rewrite Hc. rewrite app_nil_r, <- app_assoc. reflexivity.
Qed.

Lemma command_not_executed_witness :
  snd (step tk0 (CloudMessage (Cloud.command empty_command)) both_up)
  = [CloudDo (Cloud.WsSend
                (Cloud.command_ack "22222222-2222-2222-2222-222222222222"
                   "2026-01-19T10:00:00.000Z"));
     CloudDo (Cloud.Emit (Cloud.command_sig empty_command));
     CloudDo (Cloud.WsSend
                (Cloud.command_result "22222222-2222-2222-2222-222222222222"
                   Cloud.failed "2026-01-19T10:00:00.000Z" None
                   (Some ("EXECUTION_FAILED", destructure_error))))].
Proof.
  rewrite (command_not_executed tk0 empty_command both_up (or_introl eq_refl)).
  vm_compute. reflexivity.
Defined.

End CommandFacts.

(** ** The cloud session *)

Module CloudFacts.

Module Hub := HAWebSocketClient.
Module Cloud := CloudClient.
Import HelmBridge Spec Further.






(** A [disconnect] message that asks for the credential to be erased
    while the operating system refuses to remove the file: [clear] throws
    after should-reconnect was switched off and before the socket is
    dropped; the store keeps file and copy and the session stays as it
    was. *)
Lemma disconnect_request_with_locked_file :
  let b1 := fst (step tk_locked
                   (CloudMessage (Cloud.disconnect_request (Some "user_reset")))
                   cloud_connected) in
  credentialStore b1 = credentialStore cloud_connected
  /\ cloudClient b1 = Cloud.set_shouldReconnect false (cloudClient cloud_connected)
  /\ Cloud.ws (cloudClient b1) = Some Cloud.OPEN.
Proof. repeat split; reflexivity. Qed.

(** X6.  A [disconnect] message from the cloud ends the session, provided
    the credential file can be removed when the reason asks for it: the
    socket is dropped, the heartbeat and the reconnect timer are
    cancelled and reconnection is switched off.  With the reason
    [user_disconnected] or [user_reset] the stored credential is erased
    from memory and from disk, and whatever happens next the bridge
    neither opens nor schedules a cloud connection, as long as no run of
    the pairing poll stores a credential; with any other reason the
    credential is kept. *)
Theorem disconnect_request_ends_session (tk : tick) (b : t) (reason : option string)
    (evs : list (tick * event)) :
  (unpairs reason = true -> disk tk = true) ->
  never_paired evs ->
  let b1 := fst (step tk (CloudMessage (Cloud.disconnect_request reason)) b) in
  Cloud.ws (cloudClient b1) = None
  /\ Cloud.authenticated (cloudClient b1) = false
  /\ Cloud.shouldReconnect (cloudClient b1) = false
  /\ Cloud.heartbeatTimer (cloudClient b1) = false
  /\ Cloud.reconnectTimer (cloudClient b1) = None
  /\ (if unpairs reason
      then CredentialStore.file (credentialStore b1) = None
           /\ CredentialStore.credentials (credentialStore b1) = None
           /\ Forall (fun o => ~ cloud_reconnects o) (snd (run evs b1))
      else credentialStore b1 = credentialStore b).
Proof.
  intros Hrm Hnp b1.
  assert (Hc : cloudClient b1
               = fst (Cloud.disconnect (Cloud.set_shouldReconnect false (cloudClient b)))
               /\ credentialStore b1
                  = if unpairs reason
                    then {| CredentialStore.filePath :=
                              CredentialStore.filePath (credentialStore b);
                            CredentialStore.file := None;
                            CredentialStore.credentials := None |}
                    else credentialStore b).
  { unfold b1. cbn [step Cloud.handleMessage].
    change (match reason with
            | Some r => String.eqb r "user_disconnected" || String.eqb r "user_reset"
            | None => false
            end) with (unpairs reason).
    destruct (Cloud.disconnect (Cloud.set_shouldReconnect false (cloudClient b)))
      as [s2 e2] eqn:Hd.
    destruct (unpairs reason).
    - rewrite (RevocationFacts.clear_done _ _ (or_introl (Hrm eq_refl))).
      match goal with
      | |- context [with_cloud tk ?r ?b0] =>
          destruct (BridgeFacts.with_cloud_frame tk r b0) as [-> ->]
      end.
      split; reflexivity.
    - match goal with
      | |- context [with_cloud tk ?r ?b0] =>
          destruct (BridgeFacts.with_cloud_frame tk r b0) as [-> ->]
      end.
      split; reflexivity. }
  destruct Hc as [Hc Hs]. clearbody b1.
  assert (Hf : Cloud.ws (cloudClient b1) = None
               /\ Cloud.authenticated (cloudClient b1) = false
               /\ Cloud.shouldReconnect (cloudClient b1) = false
               /\ Cloud.heartbeatTimer (cloudClient b1) = false
               /\ Cloud.reconnectTimer (cloudClient b1) = None).
  { rewrite Hc. unfold Cloud.disconnect, Cloud.stopHeartbeat.
    destruct (cloudClient b) as [bn pr w au te rt hb ra sr le hv ec rc]. cbn.
    destruct hb; cbn; auto. }
  destruct Hf as (H1 & H2 & H3 & H4 & H5).
  repeat (split; [assumption|]).
  destruct (unpairs reason); [|exact Hs].
  split; [now rewrite Hs|]. split; [now rewrite Hs|].
  apply RevocationFacts.run_revoked; [|exact Hnp]. split; [exact H3|].
  now rewrite Hs.
Qed.

Lemma disconnect_request_ends_session_witness :
  let b1 := fst (step tk0 (CloudMessage (Cloud.disconnect_request (Some "user_reset")))
                   cloud_connected) in
  Cloud.ws (cloudClient b1) = None
  /\ Cloud.authenticated (cloudClient b1) = false
  /\ Cloud.shouldReconnect (cloudClient b1) = false
  /\ Cloud.heartbeatTimer (cloudClient b1) = false
  /\ Cloud.reconnectTimer (cloudClient b1) = None
  /\ CredentialStore.file (credentialStore b1) = None
  /\ CredentialStore.credentials (credentialStore b1) = None
  /\ Forall (fun o => ~ cloud_reconnects o)
       (snd (run [(tk0, CloudClose); (tk0, CloudReconnectTimer);
                  (tk0, PollTimer 3 FetchFailed)] b1)).
Proof.
  refine (disconnect_request_ends_session tk0 cloud_connected (Some "user_reset")
            [(tk0, CloudClose); (tk0, CloudReconnectTimer);
             (tk0, PollTimer 3 FetchFailed)] _ _).
  - intros _. reflexivity.
  - repeat constructor.
Defined.

End CloudFacts.

(** ** The buffer of state changes *)

Module FlushFacts.

Module Hub := HAWebSocketClient.
Module Cloud := CloudClient.
Import HelmBridge Spec Further.

Local Open Scope list_scope.

#[local] Arguments Cloud.is_revocation : simpl never.
#[local] Arguments String.eqb : simpl never.
#[local] Arguments JS.truthy : simpl never.
#[local] Arguments JS.or_default : simpl never.
#[local] Arguments JS.includes : simpl never.
#[local] Arguments Z.leb : simpl never.
#[local] Arguments Z.min : simpl never.
#[local] Arguments Z.pow : simpl never.
#[local] Arguments Z.add : simpl never.
#[local] Arguments Z.mul : simpl never.

Lemma batches_app a b : batches (a ++ b) = (batches a ++ batches b)%list.
Proof. apply omap_app. Qed.

Lemma forwarded_app a b : forwarded (a ++ b) = (forwarded a ++ forwarded b)%list.
Proof. unfold forwarded. now rewrite batches_app, map_app, concat_app. Qed.




(** The cloud client writes no batch of its own accord. *)
Lemma cloud_effects_no_batch tk ev b e :
  In e (cloud_effects_of tk ev b) -> batch_of (CloudDo e) = None.
Proof.
  intros H. destruct ev; cbn [cloud_effects_of] in H; try (destruct H; fail);
    try (BridgeFacts.inner_cloud H; subst; reflexivity);
    try destruct m; BridgeFacts.cloud_cases H b;
    repeat (destruct H as [<-|H]; [reflexivity|]); destruct H.
Qed.

Lemma reaction_no_batch tk o :
  reaction tk o -> batch_of o = None /\ forall ms, o = SetBatchTimer ms -> ms = batchIntervalMs.
Proof.
  intros [(es & H)|(c & ->)]; [destruct H|]; split; try reflexivity;
    intros ms [=]; auto.
Qed.

Lemma no_batches os : (forall o, In o os -> batch_of o = None) -> batches os = [].
Proof. apply AckFacts.omap_none. Qed.

Lemma with_hub_no_batch tk r b : batches (snd (with_hub tk r b)) = [].
Proof.
  apply no_batches. intros o Ho. apply BridgeFacts.with_hub_from in Ho.
  destruct Ho; reflexivity.
Qed.

Lemma with_cloud_no_batch tk ev r b0 b :
  snd r = cloud_effects_of tk ev b -> batches (snd (with_cloud tk r b0)) = [].
Proof.
  intros Hr. apply no_batches. intros o Ho.
  apply BridgeFacts.with_cloud_out in Ho as [(e & He & ->)|Ho].
  - rewrite Hr in He. now apply (cloud_effects_no_batch tk ev b).
  - now apply (reaction_no_batch tk).
Qed.

(** An input that does not flush writes no batch. *)
Lemma step_no_batch tk ev b :
  flushes ev = false -> batches (snd (step tk ev b)) = [].
Proof.
  intros Hf.
  destruct (resumes ev) eqn:Hres.
  { apply no_batches. intros o Ho.
    destruct (BridgeFacts.resumes_out tk ev b o Hres Ho)
      as [->|[->|(at_ & v & data & ->)]]; reflexivity. }
  destruct ev; try discriminate Hf; try discriminate Hres; cbn [step];
    try apply with_hub_no_batch.
  - destruct (rpcTimers b !! n) as [[id k]|]; [apply with_hub_no_batch|reflexivity].
  - now apply (with_cloud_no_batch tk CloudConnect _ b b).
  - now apply (with_cloud_no_batch tk CloudOpen _ b b).
  - now apply (with_cloud_no_batch tk CloudClose _ b b).
  - pose proof (eq_refl : snd (Cloud.handleMessage (cloudClient b) (credentialStore b)
                                 m (now tk) (disk tk))
                          = cloud_effects_of tk (CloudMessage m) b) as Hes.
    destruct (Cloud.handleMessage _ _ m _ _) as [[c cs] es]. cbn [snd] in Hes.
    now apply (with_cloud_no_batch tk (CloudMessage m) (c, es) (set_store cs b) b).
  - now apply (with_cloud_no_batch tk CloudReconnectTimer _ b b).
  - apply no_batches. intros o Ho. apply in_map_iff in Ho as (e & <- & He).
    now apply (cloud_effects_no_batch tk HeartbeatTimer b).
Qed.

(** What a flush forwards, and what it leaves in the buffer. *)
Lemma flush_forwarded tk b :
  stateChangeQueue (fst (fst (flushStateChanges tk b))) = []
  /\ (forwarded (snd (fst (flushStateChanges tk b))) = []
      \/ Forall2 (fun e x => toProtocol tk e = Some x) (stateChangeQueue b)
           (forwarded (snd (fst (flushStateChanges tk b))))).
Proof.
  unfold flushStateChanges. destruct (stateChangeQueue b) as [|e q] eqn:Hq.
  { split; [reflexivity|now left]. }
  cbn [cloudClient set_queue].
  destruct (Cloud.isConnected (cloudClient b)); [|split; [reflexivity|now left]].
  destruct (mapBatch tk (e :: q)) as [es|] eqn:Hm; [|split; [reflexivity|now left]].
  cbn [fst snd]. split; [reflexivity|].
  destruct (BatchFacts.sendStateBatch_cases (cloudClient b) es (now tk) (uuid tk))
    as [-> | ->]; [now left|].
  right. cbn. rewrite app_nil_r. apply (BatchFacts.mapBatch_order tk _ _ Hm).
Qed.

Lemma same_change_of tk l xs :
  Forall2 (fun e x => toProtocol tk e = Some x) l xs -> Forall2 same_change l xs.
Proof. intros H. eapply Forall2_impl; [exact H|]. intros e x Hx. now exists tk. Qed.

Lemma stop_forwarded tk b :
  exists sub,
    Forall2 same_change sub (forwarded (snd (stop tk b)))
    /\ sublist (sub ++ stateChangeQueue (fst (stop tk b))) (stateChangeQueue b).
Proof.
  unfold stop.
  assert (Hrest : forall b1 o1 sub,
            Forall2 same_change sub (forwarded o1) ->
            sublist (sub ++ stateChangeQueue b1) (stateChangeQueue b) ->
            (cloudClient b1 = cloudClient b
             \/ exists v n l, cloudClient b1 = Cloud.updateStats v n l (cloudClient b)) ->
            let r := (let '(b2, o2) :=
                        with_cloud tk (Cloud.disconnect (cloudClient b1)) b1 in
                      let '(b3, o3) := with_hub tk (Hub.disconnect (wsClient b2)) b2 in
                      (b3, (o1 ++ o2 ++ o3)%list)) in
            exists sub',
              Forall2 same_change sub' (forwarded (snd r))
              /\ sublist (sub' ++ stateChangeQueue (fst r)) (stateChangeQueue b)).
  { intros b1 o1 sub H1 H2 Hc.
    assert (Hd : snd (Cloud.disconnect (cloudClient b1))
                 = cloud_effects_of tk Stop b).
    { cbn [cloud_effects_of]. destruct Hc as [->|(v & n & l & ->)]; [reflexivity|].
      unfold Cloud.disconnect, Cloud.stopHeartbeat. cbn.
      destruct (Cloud.reconnectTimer _), (Cloud.heartbeatTimer _), (Cloud.ws _);
        reflexivity. }
    pose proof (with_cloud_no_batch tk Stop _ b1 b Hd) as Hb2.
    pose proof (BatchFacts.on_cloud_effects_queue tk
                  (snd (Cloud.disconnect (cloudClient b1)))
                  (set_cloud (fst (Cloud.disconnect (cloudClient b1))) b1)) as Hq2.
    fold (with_cloud tk (Cloud.disconnect (cloudClient b1)) b1) in Hq2.
    destruct (with_cloud tk _ b1) as [b2 o2]. cbn [fst snd] in *.
    pose proof (with_hub_no_batch tk (Hub.disconnect (wsClient b2)) b2) as Hb3.
    pose proof (BatchFacts.with_hub_queue tk (Hub.disconnect (wsClient b2)) b2) as Hq3.
    assert (He : emitted (snd (Hub.disconnect (wsClient b2))) = []).
    { unfold Hub.disconnect. cbn.
      destruct (Hub.reconnectTimer _), (Hub.ws _); reflexivity. }
    rewrite He, app_nil_r in Hq3.
    destruct (with_hub tk _ b2) as [b3 o3]. cbn [fst snd] in *.
    exists sub. unfold forwarded in *. rewrite !batches_app, Hb2, Hb3, !app_nil_r.
    split; [exact H1|]. rewrite Hq3, Hq2. exact H2. }
  pose proof (BridgeFacts.flush_frame tk b) as (_ & _ & Hc).
  destruct (batchTimer b).
  - destruct (flush_forwarded tk b) as [Hq Hf].
    destruct (flushStateChanges tk b) as [[b1 o1] ok]. cbn [fst snd] in *.
    assert (Hsub : exists sub,
      Forall2 same_change sub (forwarded (ClearBatchTimer :: o1))
      /\ sublist (sub ++ stateChangeQueue b1) (stateChangeQueue b)).
    { change (forwarded (ClearBatchTimer :: o1)) with (forwarded o1).
      rewrite Hq. destruct Hf as [->|Hf].
      - exists []. split; [constructor|apply sublist_nil_l].
      - exists (stateChangeQueue b). split; [eapply same_change_of, Hf|].
        now rewrite app_nil_r. }
    destruct Hsub as (sub & H1 & H2).
    destruct ok; [|exists sub; split; assumption].
    apply (Hrest b1 (ClearBatchTimer :: o1)%list sub H1 H2 Hc).
  - apply (Hrest b [] []); [constructor|reflexivity|now left].
Qed.

(** One input: what is forwarded was in the buffer, and the buffer
    afterwards holds nothing else than what is left and what came in. *)
Lemma step_forwarded tk ev b :
  exists sub,
    Forall2 same_change sub (forwarded (snd (step tk ev b)))
    /\ sublist (sub ++ stateChangeQueue (fst (step tk ev b)))
         (stateChangeQueue b ++ state_changes [(tk, ev)]).
Proof.
  destruct (flushes ev) eqn:Hf.
  - destruct ev; try discriminate Hf.
    + cbn [step]. destruct (flush_forwarded tk b) as [Hq Hfw].
      destruct (flushStateChanges tk b) as [[b1 o1] ok]. cbn [fst snd] in *.
      rewrite Hq. change (state_changes [(tk, BatchTimer)]) with (@nil HAStateChangedEvent).
      rewrite !app_nil_r. destruct Hfw as [->|Hfw].
      * exists []. split; [constructor|apply sublist_nil_l].
      * exists (stateChangeQueue b). split; [eapply same_change_of, Hfw|].
        now rewrite app_nil_r.
    + cbn [step]. change (state_changes [(tk, Stop)]) with (@nil HAStateChangedEvent).
      rewrite app_nil_r. apply stop_forwarded.
  - exists []. unfold forwarded. rewrite (step_no_batch tk ev b Hf).
    split; [constructor|]. cbn [app]. now rewrite (BatchFacts.step_queue tk ev b Hf).
Qed.

(** X8.  Over any sequence of inputs, the state changes written to the
    cloud, batch after batch, followed by those still in the buffer, are
    a subsequence of the state changes the bridge held and received, each
    in its protocol form: changes may be dropped, but none is forwarded
    twice, none is invented and their order is kept across batches. *)
Theorem changes_forwarded_once (evs : list (tick * event)) (b : t) :
  exists sub,
    Forall2 same_change sub (forwarded (snd (run evs b)))
    /\ sublist (sub ++ stateChangeQueue (fst (run evs b)))
         (stateChangeQueue b ++ state_changes evs).
Proof.
  revert b. induction evs as [|[tk ev] evs IH]; intros b.
  { exists []. split; [constructor|]. cbn. now rewrite app_nil_r. }
  cbn [run]. destruct (step_forwarded tk ev b) as (sub1 & H1 & H2).
  destruct (step tk ev b) as [b1 o1]. cbn [fst snd] in *.
  destruct (IH b1) as (sub2 & H3 & H4).
  destruct (run evs b1) as [b2 o2]. cbn [fst snd] in *.
  exists (sub1 ++ sub2)%list. split.
  - rewrite forwarded_app. now apply Forall2_app.
  - rewrite (BatchFacts.state_changes_cons (tk, ev) evs), <- !app_assoc.
    transitivity (sub1 ++ stateChangeQueue b1 ++ state_changes evs)%list.
    + apply sublist_app; [reflexivity|exact H4].
    + rewrite !app_assoc. apply sublist_app; [exact H2|reflexivity].
Qed.

Lemma mapBatch_removed tk e : forall q,
  In e q -> new_state e = None -> mapBatch tk q = None.
Proof.
  induction q as [|x q IH]; intros Hin Hn; [destruct Hin|].
  cbn [mapBatch]. destruct Hin as [->|Hin].
  - unfold toProtocol. now rewrite Hn.
  - destruct (toProtocol tk x); [|reflexivity]. now rewrite (IH Hin Hn).
Qed.

(** X9.  A state change without new state (the hub reports a removed
    entity this way) makes the flush of its batch throw once the cloud
    session is connected: no batch is written, the whole buffer is lost,
    and a [stop] whose final flush throws leaves both sessions as they
    are, without closing a socket or cancelling a timer. *)
Theorem removed_entity_poisons_batch (tk : tick) (b : t) (e : HAStateChangedEvent) :
  Cloud.isConnected (cloudClient b) = true ->
  In e (stateChangeQueue b) ->
  new_state e = None ->
  step tk BatchTimer b = (set_queue [] false b, [Uncaught "TypeError"])
  /\ (batchTimer b = true ->
      step tk Stop b = (set_queue [] false b, [ClearBatchTimer; Uncaught "TypeError"])).
Proof.
  intros Hc Hin Hn.
  assert (Hf : flushStateChanges tk b
               = (set_queue [] false b, [Uncaught "TypeError"], false)).
  { unfold flushStateChanges.
    pose proof (mapBatch_removed tk e _ Hin Hn) as Hm.
    destruct (stateChangeQueue b) as [|x q]; [destruct Hin|].
    cbn [cloudClient set_queue]. now rewrite Hc, Hm. }
  split.
  - cbn [step]. now rewrite Hf.
  - intros Ht. cbn [step]. unfold stop. now rewrite Ht, Hf.
Qed.

Lemma removed_entity_poisons_batch_witness :
  snd (run [(tk0, HubMessage (Hub.event (Some kitchen_on)));
            (tk0, HubMessage (Hub.event (Some hall_removed)));
            (tk0, Stop)] both_up)
  = [HubDo (Hub.Emit (Hub.state_changed kitchen_on)); SetBatchTimer 500;
     HubDo (Hub.Emit (Hub.state_changed hall_removed));
     ClearBatchTimer; Uncaught "TypeError"].
Proof.
  set (b := fst (run [(tk0, HubMessage (Hub.event (Some kitchen_on)));
                      (tk0, HubMessage (Hub.event (Some hall_removed)))] both_up)).
  pose proof (proj2 (removed_entity_poisons_batch tk0 b hall_removed
                       eq_refl (or_intror (or_introl eq_refl)) eq_refl) eq_refl) as H.
  change (snd (run [(tk0, HubMessage (Hub.event (Some kitchen_on)));
                    (tk0, HubMessage (Hub.event (Some hall_removed)));
                    (tk0, Stop)] both_up))
    with (snd (run [(tk0, HubMessage (Hub.event (Some kitchen_on)));
                    (tk0, HubMessage (Hub.event (Some hall_removed)))] both_up)
          ++ snd (step tk0 Stop b))%list.
  rewrite H. vm_compute. reflexivity.
Defined.













End FlushFacts.

(** ** The pairing poll and the credential *)

Module PollFacts.

Module Hub := HAWebSocketClient.
Module Cloud := CloudClient.
Import HelmBridge Spec Further.

Local Open Scope list_scope.

Lemma poll_timers_app a b : poll_timers (a ++ b) = poll_timers a ++ poll_timers b.
Proof. apply omap_app. Qed.

Lemma reschedule_cases attempts :
  (attempts < maxAttempts /\ reschedule attempts = ([SetPollTimer pollInterval], PollAgain))
  \/ (maxAttempts <= attempts /\ reschedule attempts = ([], PollStop)).
Proof.
  unfold reschedule. destruct (Z.ltb_spec attempts maxAttempts); [left|right]; auto.
Qed.

Lemma with_cloud_no_poll_timer tk r b :
  poll_timers (snd (with_cloud tk r b)) = [].
Proof.
  apply AckFacts.omap_none. intros o Ho.
  apply BridgeFacts.with_cloud_out in Ho as [(e & _ & ->)|[(es & H)|(c & ->)]];
    [reflexivity|destruct H; reflexivity|reflexivity].
Qed.

Lemma await_connect_cases tk b :
  poll_timers (snd (fst (await_connect tk b))) = []
  /\ snd (await_connect tk b) <> PollAgain.
Proof.
  unfold await_connect.
  pose proof (with_cloud_no_poll_timer tk
                (Cloud.connect (cloudClient b) (credentialStore b)) b) as H.
  destruct (with_cloud tk _ b) as [b1 o1]. cbn [fst snd] in *.
  split; [exact H|]. destruct (CredentialStore.isPaired _); discriminate.
Qed.

(** One run of [poll]: the counter grows by one, and the next run is
    scheduled, 5000 ms later, only below the limit. *)
Lemma polls_again_cases attempts i : within_limit attempts (polls_again attempts i).
Proof.
  unfold polls_again.
  assert (Hagain : forall b,
    within_limit attempts
      (poll_end (p_settles i)
         (let '(o, n) := reschedule (attempts + 1) in (attempts + 1, b, o, n)))).
  { intros b. destruct (reschedule_cases (attempts + 1)) as [[H ->]|[H ->]]; cbn;
      repeat split; auto; discriminate. }
  assert (Hconnect : forall b,
    within_limit attempts
      (poll_end (p_settles i)
         (let '(b1, o1, n1) := await_connect (p_tick i) b in
          (attempts + 1, b1, o1, n1)))).
  { intros b. destruct (await_connect_cases (p_tick i) b) as [H1 H2].
    destruct (await_connect (p_tick i) b) as [[b1 o1] n1]. cbn [fst snd] in *.
    destruct n1; [repeat split; auto; discriminate|now destruct H2|].
    unfold poll_end, poll_resume. destruct (p_settles i).
    - cbn. rewrite app_nil_r. repeat split; auto; discriminate.
    - destruct (reschedule_cases (attempts + 1)) as [[H ->]|[H ->]];
        cbn; rewrite poll_timers_app, H1; cbn; repeat split; auto; discriminate. }
  assert (Hstop : forall b : t,
    within_limit attempts (poll_end (p_settles i) (attempts + 1, b, [], PollStop))).
  { intros b. cbn. repeat split; auto; discriminate. }
  unfold poll.
  destruct (CredentialStore.isPaired (credentialStore (p_bridge i))) eqn:Hp;
    [apply Hconnect|].
  destruct (p_resp i) as [|ct ok status body]; [apply Hagain|].
  destruct (negb (is_json ct)); [apply Hagain|].
  destruct ok.
  - destruct body as [data|]; [|apply Hagain].
    destruct (String.eqb (p_status data) "paired"); cbn [andb].
    + destruct (JS.truthy _); [|apply Hstop].
      destruct (CredentialStore.save _ _ _); [apply Hconnect|apply Hagain].
    + destruct (String.eqb (p_status data) "expired"); [apply Hstop|apply Hagain].
  - destruct (Z.eqb status 404); apply Hagain.
Qed.

Lemma poll_loop_bound ins : forall attempts,
  0 <= attempts ->
  let '(k, os) := poll_loop attempts ins in
  (Z.of_nat k <= Z.max 1 (maxAttempts - attempts))
  /\ (Z.of_nat (length (poll_timers os)) <= Z.max 0 (maxAttempts - 1 - attempts))
  /\ Forall (fun ms => ms = pollInterval) (poll_timers os).
Proof.
  induction ins as [|i rest IH]; intros attempts Hge.
  { cbn. repeat split; [lia|lia|constructor]. }
  cbn [poll_loop].
  pose proof (polls_again_cases attempts i) as H.
  destruct (polls_again attempts i) as [[n o] again].
  destruct H as (Hn & Ht & Hf).
  destruct again.
  - destruct (Ht eq_refl) as [Hlt Hto].
    specialize (IH n). destruct (poll_loop n rest) as [k os].
    destruct IH as (IH1 & IH2 & IH3); [lia|].
    rewrite poll_timers_app, Hto. cbn [app length].
    split; [lia|]. split; [lia|]. constructor; [reflexivity|exact IH3].
  - rewrite (Hf eq_refl). cbn. repeat split; [lia|lia|constructor].
Qed.

(** X10.  The pairing poll gives up: whatever the cloud answers and
    whatever state the bridge is in at each run, [poll] runs at most 120
    times and arms the timer of its next run, of 5000 ms, at most 119
    times. *)
Theorem pairing_poll_gives_up (ins : list poll_input) :
  let '(k, os) := poll_loop 0 ins in
  (k <= 120)%nat
  /\ (length (poll_timers os) <= 119)%nat
  /\ Forall (fun ms => ms = 5000) (poll_timers os).
Proof.
  pose proof (poll_loop_bound ins 0 (Z.le_refl 0)) as H.
  destruct (poll_loop 0 ins) as [k os]. destruct H as (H1 & H2 & H3).
  unfold maxAttempts in H1, H2. split; [lia|]. split; [lia|exact H3].
Qed.

Lemma clear_cases d cs :
  CredentialStore.clear d cs = Some (erased cs) \/ CredentialStore.clear d cs = None.
Proof.
  unfold CredentialStore.clear, erased.
  destruct (CredentialStore.file cs); [destruct d|]; auto.
Qed.

(** A run of the poll that is handed no credential leaves the store as
    it was. *)
Lemma poll_store tk attempts0 resp b :
  writes (PollTimer attempts0 resp) = false ->
  credentialStore (snd (fst (fst (poll tk attempts0 resp b)))) = credentialStore b.
Proof.
  intros Hw. cbn [writes] in Hw.
  assert (Hc : credentialStore (fst (fst (await_connect tk b))) = credentialStore b).
  { unfold await_connect.
    pose proof (BridgeFacts.with_cloud_frame tk
                  (Cloud.connect (cloudClient b) (credentialStore b)) b) as [_ H].
    destruct (with_cloud tk _ b) as [b1 o1]. exact H. }
  unfold poll. cbv zeta.
  destruct (await_connect tk b) as [[b1 o1] n1]. cbn [fst] in Hc.
  destruct (reschedule (attempts0 + 1)) as [oa na].
  destruct (CredentialStore.isPaired (credentialStore b)); [exact Hc|].
  destruct resp as [|ct ok status body]; [reflexivity|].
  destruct (is_json ct); cbn [negb]; [|reflexivity].
  destruct ok.
  - destruct body as [data|]; [|reflexivity]. cbn [andb] in Hw.
    destruct (String.eqb (p_status data) "paired"); cbn [andb] in Hw |- *.
    + rewrite Hw. reflexivity.
    + destruct (String.eqb (p_status data) "expired"); reflexivity.
  - destruct (Z.eqb status 404); reflexivity.
Qed.

(** Apart from the poll, the credential is touched by the cloud client
    only, and only erased. *)
Lemma step_store tk ev b :
  writes ev = false ->
  credentialStore (fst (step tk ev b)) = credentialStore b
  \/ (erases ev = true
      /\ credentialStore (fst (step tk ev b)) = erased (credentialStore b)).
Proof.
  intros Hw.
  assert (Hh : forall r b', credentialStore (fst (with_hub tk r b')) = credentialStore b').
  { intros r b'. apply BridgeFacts.with_hub_frame. }
  assert (Hc : forall r b', credentialStore (fst (with_cloud tk r b')) = credentialStore b').
  { intros r b'. apply BridgeFacts.with_cloud_frame. }
  destruct (resumes ev) eqn:Hres.
  { left. destruct ev; try discriminate Hres.
    - rewrite BridgeFacts.step_poll. cbn [fst]. now apply poll_store.
    - reflexivity.
    - cbn [step]. now destruct (BridgeFacts.performFullSync_frame tk r b)
        as (_ & _ & _ & _ & H & _).
    - now destruct l.
    - reflexivity. }
  destruct ev; try discriminate Hres; cbn [step erases]; rewrite ?Hh, ?Hc;
    try (left; reflexivity).
  - destruct (rpcTimers b !! n) as [[id k]|]; [|now left]. rewrite Hh. now left.
  - destruct m as [ok tenant err|c|reason| |reason|ty]; cbn [Cloud.handleMessage];
      try (rewrite Hc; left; reflexivity).
    + unfold Cloud.handleAuthResult. destruct ok.
      * destruct (Cloud.startHeartbeat _) as [s2 e2]. rewrite Hc. now left.
      * destruct (Cloud.is_revocation _); [|rewrite Hc; now left].
        destruct (clear_cases (disk tk) (credentialStore b)) as [-> | ->];
          rewrite Hc; [right; split; reflexivity|now left].
    + destruct (Cloud.disconnect _) as [s2 e2].
      change (match reason with
              | Some r => String.eqb r "user_disconnected" || String.eqb r "user_reset"
              | None => false
              end) with (unpairs reason).
      destruct (unpairs reason); [|rewrite Hc; now left].
      destruct (clear_cases (disk tk) (credentialStore b)) as [-> | ->].
      * rewrite Hc. right. split; reflexivity.
      * now left.
  - pose proof (BridgeFacts.flush_frame tk b) as (_ & H & _).
    destruct (flushStateChanges tk b) as [[b1 o1] ok]. now left.
  - left. unfold stop.
    assert (H : forall r : t * list output * bool,
      credentialStore (fst (fst r)) = credentialStore b ->
      credentialStore (fst
        (let '(b1, o1, ok) := r in
         if ok then
           let '(b2, o2) := with_cloud tk (Cloud.disconnect (cloudClient b1)) b1 in
           let '(b3, o3) := with_hub tk (Hub.disconnect (wsClient b2)) b2 in
           (b3, (o1 ++ o2 ++ o3)%list)
         else (b1, o1))) = credentialStore b).
    { intros [[b1 o1] ok] E. cbn [fst] in E. destruct ok; [|exact E].
      pose proof (Hc (Cloud.disconnect (cloudClient b1)) b1) as H2.
      destruct (with_cloud tk _ b1) as [b2 o2].
      pose proof (Hh (Hub.disconnect (wsClient b2)) b2) as H3.
      destruct (with_hub tk _ b2) as [b3 o3]. cbn [fst] in *. congruence. }
    destruct (batchTimer b).
    + pose proof (BridgeFacts.flush_frame tk b) as (_ & E & _).
      destruct (flushStateChanges tk b) as [[b' o'] ok'].
      apply (H (b', ClearBatchTimer :: o', ok')). exact E.
    + apply (H (b, [], true)). reflexivity.
Qed.

(** X11.  Apart from the pairing poll, the event loop never writes a
    credential.  Over any sequence of inputs in which no run of the poll
    is handed a credential and the error texts of the cloud's
    [auth_result] messages are ASCII, the credential store is either
    untouched or erased, file and copy in memory together; it is erased
    only if a failed [auth_result] names a revoked or invalid credential
    or a [disconnect] message gives the reason [user_disconnected] or
    [user_reset]. *)
Theorem credential_only_erased (evs : list (tick * event)) (b : t) :
  Forall (fun te => writes (snd te) = false) evs ->
  Forall (fun te => ascii_error (snd te) = true) evs ->
  credentialStore (fst (run evs b)) = credentialStore b
  \/ (existsb (fun te => erases (snd te)) evs = true
      /\ credentialStore (fst (run evs b)) = erased (credentialStore b)).
Proof.
  intros Hw _. revert b Hw.
  induction evs as [|[tk ev] evs IH]; intros b Hw; [now left|].
  apply Forall_cons in Hw as [Hw1 Hw]. cbn [snd] in Hw1.
  cbn [run existsb snd].
  pose proof (step_store tk ev b Hw1) as H1.
  destruct (step tk ev b) as [b1 o1]. specialize (IH b1 Hw).
  destruct (run evs b1) as [b2 o2]. cbn [fst] in *.
  destruct IH as [IH|[He IH]]; rewrite IH.
  - destruct H1 as [->|[-> ->]]; [now left|]. right. split; reflexivity.
  - rewrite He, orb_true_r. right. split; [reflexivity|].
    destruct H1 as [->|[_ ->]]; reflexivity.
Qed.

Lemma credential_only_erased_witness :
  credentialStore
    (fst (run [(tk0, CloudMessage (Cloud.auth_result false None
                                     (Some "Credential revoked")));
               (tk0, PollTimer 3 FetchFailed)] cloud_connected))
  = credentialStore cloud_connected
  \/ (existsb (fun te => erases (snd te))
        [(tk0, CloudMessage (Cloud.auth_result false None (Some "Credential revoked")));
         (tk0, PollTimer 3 FetchFailed)] = true
      /\ credentialStore
           (fst (run [(tk0, CloudMessage (Cloud.auth_result false None
                                            (Some "Credential revoked")));
                      (tk0, PollTimer 3 FetchFailed)] cloud_connected))
         = erased (credentialStore cloud_connected)).
Proof.
  apply (credential_only_erased
           [(tk0, CloudMessage (Cloud.auth_result false None (Some "Credential revoked")));
            (tk0, PollTimer 3 FetchFailed)] cloud_connected).
  - repeat constructor.
  - repeat constructor.
Defined.

End PollFacts.

(** ** Configuration *)

Module ConfigFacts.

Import Config Spec Further.

#[local] Arguments JS.includes : simpl never.

Lemma append_assoc (a b c : string) : (a ++ b) ++ c = a ++ b ++ c.
Proof.
  induction a as [|x a IH]; [reflexivity|].
  change (String x ((a ++ b) ++ c) = String x (a ++ b ++ c)). now rewrite IH.
Qed.

Lemma append_nil_r (a : string) : a ++ "" = a.
Proof.
  induction a as [|x a IH]; [reflexivity|].
  change (String x (a ++ "") = String x a). now rewrite IH.
Qed.

Lemma strip_slash_slash (s : string) : strip_slash (s ++ "/") = s.
Proof.
  induction s as [|c s IH]; [reflexivity|].
  change (String c s ++ "/") with (String c (s ++ "/")).
  cbn [strip_slash]. rewrite IH.
  destruct s; reflexivity.
Qed.

Lemma strip_slash_none (s : string) : ends_with_slash s = false -> strip_slash s = s.
Proof.
  induction s as [|c s IH]; [reflexivity|].
  cbn [ends_with_slash strip_slash]. destruct s as [|d s].
  - now intros ->.
  - intros H. now rewrite (IH H).
Qed.

Lemma strip_slash_app (a b : string) :
  b <> "" -> strip_slash (a ++ b) = a ++ strip_slash b.
Proof.
  intros Hb. induction a as [|c a IH]; [reflexivity|].
  change (String c a ++ b) with (String c (a ++ b)).
  cbn [strip_slash]. rewrite IH.
  destruct (a ++ b) eqn:E; [|reflexivity].
  destruct a; [|discriminate]. now destruct Hb.
Qed.

Lemma substring_all (r : string) : String.substring 0 (String.length r) r = r.
Proof.
  induction r as [|c r IH]; [reflexivity|].
  cbn [String.length String.substring]. now rewrite IH.
Qed.

Lemma replace_http_http (r : string) : replace_http ("http" ++ r) = "ws" ++ r.
Proof.
  unfold replace_http.
  rewrite (JSFacts.startsWith_app "http" r).
  change (String.length ("http" ++ r) - 4)%nat with (String.length r - 0)%nat.
  change (String.substring 4 (String.length r - 0) ("http" ++ r))
    with (String.substring 0 (String.length r - 0) r).
  now rewrite Nat.sub_0_r, substring_all.
Qed.

(** X12.  The bridge refuses to start without a hub token: [loadConfig]
    exits exactly when HA_TOKEN and SUPERVISOR_TOKEN are both unset or
    empty; otherwise the configured token is HA_TOKEN, or
    SUPERVISOR_TOKEN when HA_TOKEN is unset or empty, and it is not
    empty. *)
Theorem loadConfig_needs_token (e : env) (rand : nat -> nat) (hb : Z) (pv : string) :
  (loadConfig e rand hb pv = None <-> unset (HA_TOKEN e) /\ unset (SUPERVISOR_TOKEN e))
  /\ forall c, loadConfig e rand hb pv = Some c ->
       JS.truthy (haToken c) = true
       /\ (Some (haToken c) = HA_TOKEN e
           \/ (unset (HA_TOKEN e) /\ Some (haToken c) = SUPERVISOR_TOKEN e)).
Proof.
  unfold loadConfig, unset.
  destruct (HA_TOKEN e) as [[|a s]|]; destruct (SUPERVISOR_TOKEN e) as [[|a' s']|];
    cbn; split; try (intros c [= <-]; cbn; auto; fail);
    try (split; [discriminate|intros [[|] [|]]; discriminate]);
    try (split; auto; fail); try (intros c; discriminate).
Qed.

(** X13.  With a non-empty token, and for an HA_URL that starts with
    [http], goes on after it and does not end in a slash: a slash added at
    the end of HA_URL does not matter, and the hub's WebSocket address is
    the configured address with [http] replaced by [ws] (so [https] by
    [wss]) and the path [/api/websocket], or [/websocket] behind the
    supervisor.  Without HA_URL and SUPERVISOR_URL, and with a non-empty
    supervisor token, the address is [ws://supervisor/core/websocket]. *)
Theorem hub_url_of_config (rest token : string) (rand : nat -> nat) (hb : Z)
    (pv : string) :
  JS.truthy token = true ->
  rest <> "" ->
  ends_with_slash rest = false ->
  loadConfig (env_of ("http" ++ rest ++ "/") token) rand hb pv
  = loadConfig (env_of ("http" ++ rest) token) rand hb pv
  /\ (exists c,
        loadConfig (env_of ("http" ++ rest) token) rand hb pv = Some c
        /\ haUrl c = "http" ++ rest
        /\ hub_getWebSocketUrl c
           = "ws" ++ rest
             ++ (if JS.includes ("http" ++ rest) "supervisor/core"
                    || JS.includes ("http" ++ rest) "supervisor:80/core"
                 then "/websocket" else "/api/websocket"))
  /\ option_map hub_getWebSocketUrl (loadConfig (supervised token) rand hb pv)
     = Some "ws://supervisor/core/websocket".
Proof.
  intros Ht Hr Hs.
  assert (H1 : strip_slash ("http" ++ rest ++ "/") = "http" ++ rest).
  { rewrite (strip_slash_app "http" (rest ++ "/")).
    - now rewrite strip_slash_slash.
    - destruct rest; discriminate. }
  assert (H2 : strip_slash ("http" ++ rest) = "http" ++ rest).
  { rewrite (strip_slash_app "http" rest Hr). now rewrite (strip_slash_none rest Hs). }
  assert (Hd : forall s d, JS.truthy s = true -> JS.or_default (Some s) d = s).
  { intros s d H. unfold JS.or_default. now rewrite H. }
  unfold loadConfig, env_of, supervised.
  cbn [HA_URL SUPERVISOR_URL HA_TOKEN SUPERVISOR_TOKEN CLOUD_URL BRIDGE_ID
       CREDENTIAL_PATH].
  rewrite !(Hd token) by exact Ht.
  rewrite (Hd ("http" ++ rest ++ "/")) by reflexivity.
  rewrite (Hd ("http" ++ rest)) by reflexivity.
  change (JS.or_default None ?d) with d.
  rewrite Ht. cbn [negb]. rewrite H1, H2. split; [reflexivity|]. split.
  - eexists. split; [reflexivity|]. cbn [haUrl]. split; [reflexivity|].
    unfold hub_getWebSocketUrl. cbn [haUrl]. rewrite replace_http_http.
    destruct (JS.includes _ _ || JS.includes _ _);
      now rewrite append_assoc.
  - reflexivity.
Qed.

Lemma hub_url_of_config_witness :
  option_map hub_getWebSocketUrl
    (loadConfig (env_of "https://ha.example.org:8123/" "secret") (fun _ => O)
       60000 "1.0.0")
  = Some "wss://ha.example.org:8123/api/websocket".
Proof.
  destruct (hub_url_of_config "s://ha.example.org:8123" "secret" (fun _ => O)
              60000 "1.0.0" eq_refl) as (H1 & (c & H2 & _ & H3) & _);
    [discriminate|reflexivity|].
  change ("http" ++ "s://ha.example.org:8123" ++ "/")
    with "https://ha.example.org:8123/" in H1.
  rewrite H1, H2. cbn [option_map]. rewrite H3. reflexivity.
Defined.

Lemma pick_char (i : nat) :
  (i < 36)%nat -> exists c, pick i = String c EmptyString /\ id_char c = true.
Proof.
  intros H. do 36 (destruct i as [|i]; [eexists; split; reflexivity|]). lia.
Qed.

Lemma all_chars_app p (a b : string) :
  all_chars p (a ++ b) = all_chars p a && all_chars p b.
Proof.
  induction a as [|c a IH]; [reflexivity|].
  change (String c a ++ b) with (String c (a ++ b)). cbn [all_chars].
  now rewrite IH, andb_assoc.
Qed.

Lemma length_app (a b : string) :
  String.length (a ++ b) = (String.length a + String.length b)%nat.
Proof.
  induction a as [|c a IH]; [reflexivity|].
  change (String c a ++ b) with (String c (a ++ b)). cbn [String.length]. now rewrite IH.
Qed.

Lemma generated_suffix (rand : nat -> nat) (l : list nat) : forall (pre : string),
  (forall i, (rand i < 36)%nat) ->
  exists s, fold_left (fun id i => id ++ pick (rand i)) l pre = pre ++ s
            /\ String.length s = length l /\ all_chars id_char s = true.
Proof.
  induction l as [|i l IH]; intros pre Hr.
  { exists "". cbn. split; [|auto]. now rewrite append_nil_r. }
  cbn [fold_left]. destruct (pick_char (rand i) (Hr i)) as (c & Hc & Hi).
  destruct (IH (pre ++ pick (rand i)) Hr) as (s & H1 & H2 & H3).
  exists (pick (rand i) ++ s). split; [|split].
  - now rewrite H1, append_assoc.
  - rewrite Hc. cbn [String.length]. change (String c "" ++ s) with (String c s).
    cbn [String.length length]. now rewrite H2.
  - rewrite Hc. change (String c "" ++ s) with (String c s). cbn [all_chars].
    now rewrite Hi, H3.
Qed.

(** X14.  A generated bridge id is [helm-bridge-] followed by eight
    characters, each a lowercase letter or a digit, twenty characters in
    all, whatever the random draws within the alphabet; and [loadConfig]
    generates one only when BRIDGE_ID is unset or empty. *)
Theorem generated_bridge_id (rand : nat -> nat) :
  (forall i, (rand i < 36)%nat) ->
  exists s, generateBridgeId rand = "helm-bridge-" ++ s
            /\ String.length s = 8%nat
            /\ all_chars id_char s = true
            /\ String.length (generateBridgeId rand) = 20%nat.
Proof.
  intros Hr. unfold generateBridgeId.
  destruct (generated_suffix rand (seq 0 8) "helm-bridge-" Hr) as (s & H1 & H2 & H3).
  exists s. rewrite H1. split; [reflexivity|]. split; [exact H2|].
  split; [exact H3|]. rewrite length_app, H2. reflexivity.
Qed.

Lemma generated_bridge_id_witness :
  exists s, generateBridgeId (fun i => (7 * i + 3) mod 36)%nat = "helm-bridge-" ++ s
            /\ String.length s = 8%nat
            /\ all_chars id_char s = true
            /\ String.length (generateBridgeId (fun i => (7 * i + 3) mod 36)%nat) = 20%nat.
Proof.
  apply (generated_bridge_id (fun i => (7 * i + 3) mod 36)%nat).
  intros i. apply Nat.mod_upper_bound. lia.
Defined.

End ConfigFacts.

(** ** The snapshot of a full sync *)

Module SyncFacts.

Import HARestClient FullSync Spec Further.

Local Open Scope list_scope.

Lemma register_snoc reg l e :
  register reg (l ++ [e]) = <[r_entity_id e := e]> (register reg l).
Proof. unfold register. now rewrite fold_left_app. Qed.

(** The registry after a sync: for each entity the last entry of the
    list, and the entry of earlier syncs for an entity not in the list. *)
Lemma register_lookup id (l : list HAEntityRegistry) : forall reg,
  register reg l !! id
  = match last_entry id l with Some e => Some e | None => reg !! id end.
Proof.
  induction l as [|e l IH] using rev_ind; intros reg; [reflexivity|].
  rewrite register_snoc. unfold last_entry. rewrite List.filter_app.
  cbn [List.filter]. destruct (String.eqb_spec (r_entity_id e) id) as [<-|Hne].
  - rewrite lookup_insert_eq. now rewrite last_snoc.
  - rewrite lookup_insert_ne by exact Hne. rewrite app_nil_r. apply IH.
Qed.

Lemma before_dot_spec (s : string) :
  no_dot (before_dot s) = true
  /\ (s = before_dot s \/ exists rest, s = (before_dot s ++ "." ++ rest)%string).
Proof.
  induction s as [|c s [IH1 IH2]]; [split; [reflexivity|now left]|].
  cbn [before_dot]. destruct (Ascii.eqb c ".") eqn:E.
  - apply Ascii.eqb_eq in E as ->. split; [reflexivity|]. right. now exists s.
  - cbn [no_dot]. rewrite E, IH1. split; [reflexivity|].
    destruct IH2 as [IH2|(rest & IH2)].
    + left. now rewrite <- IH2.
    + right. exists rest.
      change (String c s = String c (before_dot s ++ "." ++ rest)%string).
      now rewrite <- IH2.
Qed.

(** X15.  The snapshot of a full sync has one entity per state, in the
    order of the states; the entity's device and area are those of the
    last entry of the entity registry for that entity id, or, when the
    registry list has none (for instance because the request failed),
    those remembered from an earlier sync, or null; its domain is the
    part of the entity id before the first dot; and the entity count is
    the number of states. *)
Theorem full_sync_entities (now : string) (reg : gmap string HAEntityRegistry)
    (r : raw) :
  let '(reg', n, data) := assemble now reg r in
  map entityId (entities data) = map s_entity_id (array (statesRaw r))
  /\ n = Z.of_nat (length (array (statesRaw r)))
  /\ Forall2 (fun s e =>
        let entry := match last_entry (s_entity_id s) (array (entityRegistryRaw r)) with
                     | Some x => Some x
                     | None => reg !! s_entity_id s
                     end in
        e = mapStateToProtocol now s entry
        /\ deviceId e = (entry ≫= r_device_id)
        /\ areaId e = (entry ≫= r_area_id)
        /\ no_dot (domain e) = true
        /\ (entityId e = domain e
            \/ exists rest, entityId e = (domain e ++ "." ++ rest)%string))
       (array (statesRaw r)) (entities data)
  /\ (forall id, reg' !! id
                 = match last_entry id (array (entityRegistryRaw r)) with
                   | Some x => Some x
                   | None => reg !! id
                   end).
Proof.
  unfold assemble. cbn [entities].
  split; [now rewrite map_map|]. split; [now rewrite length_map|].
  split; [|intros id; apply register_lookup].
  induction (array (statesRaw r)) as [|s l IH]; [constructor|].
  cbn [map]. constructor; [|exact IH].
  rewrite register_lookup. split; [reflexivity|].
  destruct (before_dot_spec (s_entity_id s)) as [H1 H2].
  cbn [deviceId areaId domain entityId mapStateToProtocol].
  repeat split; try assumption;
    destruct (match last_entry _ _ with Some x => Some x | None => _ end); reflexivity.
Qed.

End SyncFacts.

(** ** The web server's entity cache *)

Module CacheFacts.

Import WebServer.

Local Open Scope list_scope.

Lemma updateCachedEntity_cons id st at_ e cache :
  updateCachedEntity id st at_ (e :: cache)
  = if String.eqb (entityId e) id then with_state st at_ e :: cache
    else e :: updateCachedEntity id st at_ cache.
Proof.
  unfold updateCachedEntity. cbn [findIndex].
  destruct (String.eqb (entityId e) id); [reflexivity|].
  destruct (findIndex _ cache) as [i|]; [|reflexivity].
  cbn [option_map]. change ((e :: cache) !! S i) with (cache !! i).
  destruct (cache !! i); reflexivity.
Qed.

(** X16.  Updating the cached state of an entity keeps the cache's
    entities and their order; the first cached entity with that id gets
    the new state and attributes and keeps its other fields, so that
    looking the id up gives the updated entity; every entity with another
    id is untouched; and when no cached entity has the id the cache is
    unchanged: a state change never adds an entity to the cache. *)
Theorem cache_update (id st : string) (at_ : json) (cache : list HAEntityInfo) :
  let cache' := updateCachedEntity id st at_ cache in
  map entityId cache' = map entityId cache
  /\ find_entity id cache' = option_map (with_state st at_) (find_entity id cache)
  /\ (forall id', id' <> id -> find_entity id' cache' = find_entity id' cache)
  /\ (forall i e, cache !! i = Some e -> entityId e <> id -> cache' !! i = Some e)
  /\ (find_entity id cache = None -> cache' = cache).
Proof.
  induction cache as [|e cache IH]; cbn zeta.
  { repeat split; auto. }
  rewrite updateCachedEntity_cons. cbn zeta in IH.
  destruct IH as (IH1 & IH2 & IH3 & IH4 & IH5).
  unfold find_entity in *. cbn [List.find].
  destruct (String.eqb_spec (entityId e) id) as [He|He].
  - split; [reflexivity|]. cbn [List.find entityId with_state].
    rewrite He, String.eqb_refl. split; [reflexivity|]. split; [|split].
    + intros id' Hne. destruct (String.eqb_spec id id'); [congruence|reflexivity].
    + intros [|i] e' H Hne; cbn in H |- *; [|exact H].
      injection H as <-. contradiction.
    + discriminate.
  - cbn [map List.find]. rewrite IH1.
    destruct (String.eqb_spec (entityId e) id) as [|_]; [contradiction|].
    split; [reflexivity|]. split; [exact IH2|]. split; [|split].
    + intros id' Hne. destruct (String.eqb (entityId e) id'); [reflexivity|].
      now apply IH3.
    + intros [|i] e' H Hne; cbn in H |- *; [exact H|]. now apply IH4.
    + intros H. now rewrite (IH5 H).
Qed.

End CacheFacts.

(** ** The duplicate detector *)

Module NameFacts.

Import DuplicateDetector Spec Further.

(** What lower-casing and the replacement of [_] and [-] leave: a space,
    another white space character, or a plain character. *)
Lemma prepared_char (c : ascii) :
  let d := if Ascii.eqb (JS.lower c) "_" || Ascii.eqb (JS.lower c) "-"
           then " "%char else JS.lower c in
  (is_space d = true /\ (Ascii.eqb d " " = true \/ plain_char d = false))
  \/ (is_space d = false /\ Ascii.eqb d " " = false /\ plain_char d = true).
Proof.
  destruct c as [[] [] [] [] [] [] [] []]; vm_compute; auto.
Qed.

Lemma plain_char_fixed (c : ascii) :
  plain_char c = true ->
  JS.lower c = c /\ Ascii.eqb c "_" || Ascii.eqb c "-" = false /\ is_space c = false.
Proof.
  destruct c as [[] [] [] [] [] [] [] []]; vm_compute; auto; discriminate.
Qed.

Lemma collapse_loose (s : string) : forall b,
  loose b (collapse b (dashes (JS.toLowerCase s))) = true.
Proof.
  induction s as [|c s IH]; intros b; [reflexivity|].
  cbn [JS.toLowerCase dashes collapse].
  destruct (prepared_char c) as [[H1 H2]|(H1 & H2 & H3)]; cbn zeta in *.
  - rewrite H1. destruct b; [apply IH|].
    cbn [loose]. change (Ascii.eqb " " " ") with true. cbn. apply IH.
  - rewrite H1. cbn [loose]. rewrite H2, H3. cbn. apply IH.
Qed.

Lemma loose_char b c r :
  loose b (String c r) = true ->
  (c = " "%char /\ b = false /\ loose true r = true)
  \/ (Ascii.eqb c " " = false /\ plain_char c = true /\ loose false r = true).
Proof.
  cbn [loose]. destruct (Ascii.eqb c " ") eqn:E.
  - apply Ascii.eqb_eq in E as ->. intros H. apply andb_true_iff in H as [H1 H2].
    left. destruct b; [discriminate|auto].
  - intros H. apply andb_true_iff in H as [H1 H2]. auto.
Qed.

Lemma trimStart_loose (s : string) : forall b,
  loose b s = true ->
  loose false (trimStart s) = true
  /\ match trimStart s with
     | EmptyString => True
     | String c _ => Ascii.eqb c " " = false
     end.
Proof.
  induction s as [|c s IH]; intros b H; [split; [reflexivity|exact I]|].
  destruct (loose_char b c s H) as [(-> & _ & H1)|(H1 & H2 & H3)].
  - cbn [trimStart]. change (is_space " ") with true. cbn. apply (IH true H1).
  - cbn [trimStart]. destruct (plain_char_fixed c H2) as (_ & _ & ->).
    split; [|exact H1]. cbn [loose]. now rewrite H1, H2, H3.
Qed.

Lemma trimEnd_spaced (s : string) : forall b,
  loose b s = true ->
  trimEnd s = EmptyString
  \/ (spaced b (trimEnd s) = true
      /\ match s, trimEnd s with
         | String c _, String d _ => c = d
         | _, _ => True
         end).
Proof.
  induction s as [|c s IH]; intros b H; [now left|].
  destruct (loose_char b c s H) as [(-> & -> & H1)|(H1 & H2 & H3)].
  - cbn [trimEnd]. destruct (IH true H1) as [->|[H2 _]]; [now left|].
    right. destruct (trimEnd s) as [|d r]; [discriminate H2|].
    split; [|reflexivity]. change (spaced false (String " " (String d r)))
      with (negb false && spaced true (String d r)). now rewrite H2.
  - cbn [trimEnd]. destruct (plain_char_fixed c H2) as (_ & _ & Hs).
    right. destruct (IH false H3) as [->|[H4 _]].
    + rewrite Hs. split; [|reflexivity]. cbn [spaced]. now rewrite H1, H2.
    + destruct (trimEnd s) as [|d r] eqn:E.
      * rewrite Hs. split; [|reflexivity]. cbn [spaced]. now rewrite H1, H2.
      * split; [|reflexivity].
        change (spaced b (String c (String d r)))
          with (if Ascii.eqb c " " then negb b && spaced true (String d r)
                else plain_char c && spaced false (String d r)).
        now rewrite H1, H2, H4.
Qed.

Lemma normalizeName_normal (s : string) : normal (normalizeName s) = true.
Proof.
  unfold normalizeName, trim.
  destruct (trimStart_loose _ false (collapse_loose s false)) as [H1 H2].
  destruct (trimEnd_spaced _ false H1) as [->|[H3 H4]]; [reflexivity|].
  destruct (trimEnd _) as [|d r] eqn:E; [reflexivity|].
  unfold normal. rewrite H3.
  destruct (trimStart _) as [|c r'] eqn:E'; [discriminate E|].
  rewrite E in H4. subst d. now rewrite H2.
Qed.

Lemma spaced_char b c r :
  spaced b (String c r) = true ->
  (c = " "%char /\ b = false /\ spaced true r = true)
  \/ (Ascii.eqb c " " = false /\ plain_char c = true /\ spaced false r = true).
Proof.
  cbn [spaced]. destruct (Ascii.eqb c " ") eqn:E.
  - apply Ascii.eqb_eq in E as ->. intros H. apply andb_true_iff in H as [H1 H2].
    left. destruct b; [discriminate|auto].
  - intros H. apply andb_true_iff in H as [H1 H2]. auto.
Qed.

Lemma spaced_fixed (s : string) : forall b,
  spaced b s = true ->
  JS.toLowerCase s = s /\ dashes s = s /\ collapse b s = s
  /\ (s <> EmptyString -> trimEnd s = s).
Proof.
  induction s as [|c s IH]; intros b H; [repeat split; auto; now intros []|].
  cbn [JS.toLowerCase dashes collapse trimEnd].
  destruct (spaced_char b c s H) as [(-> & -> & H1)|(H1 & H2 & H3)].
  - destruct (IH true H1) as (E1 & E2 & E3 & E4).
    change (JS.lower " ") with " "%char. change (is_space " ") with true.
    cbn [Ascii.eqb Bool.eqb orb]. rewrite E1, E2, E3.
    repeat split; auto. intros _.
    destruct s as [|d r]; [discriminate H1|]. rewrite E4 by discriminate. reflexivity.
  - destruct (IH false H3) as (E1 & E2 & E3 & E4).
    destruct (plain_char_fixed c H2) as (F1 & F2 & F3).
    rewrite F1, F2, F3, E1, E2, E3. repeat split; auto. intros _.
    destruct s as [|d r]; [reflexivity|]. rewrite E4 by discriminate. reflexivity.
Qed.

Lemma normal_fixed (s : string) : normal s = true -> normalizeName s = s.
Proof.
  destruct s as [|c r]; [reflexivity|]. unfold normal.
  intros H. apply andb_true_iff in H as [H1 H2]. apply negb_true_iff in H1.
  destruct (spaced_fixed _ false H2) as (E1 & E2 & E3 & E4).
  unfold normalizeName, trim. rewrite E1, E2, E3.
  destruct (spaced_char _ _ _ H2) as [(-> & _)|(_ & Hp & _)]; [discriminate H1|].
  destruct (plain_char_fixed c Hp) as (_ & _ & Hs).
  cbn [trimStart]. rewrite Hs. apply E4. discriminate.
Qed.

(** X17.  On names of ASCII characters: a normalised name has no
    upper-case letter, underscore or hyphen, separates its words by single
    spaces and neither starts nor ends with white space; a name of that
    form is left as it is, so that normalising twice is normalising
    once. *)
Theorem normalizeName_idempotent (s : string) :
  JS.ascii_text s = true ->
  normal (normalizeName s) = true
  /\ (normal s = true -> normalizeName s = s)
  /\ normalizeName (normalizeName s) = normalizeName s.
Proof.
  intros _.
  split; [apply normalizeName_normal|]. split; [apply normal_fixed|].
  apply normal_fixed, normalizeName_normal.
Qed.

Lemma normalizeName_idempotent_witness :
  normalizeName "  Living_Room   LAMP-2 " = "living room lamp 2"
  /\ normalizeName (normalizeName "  Living_Room   LAMP-2 ")
     = normalizeName "  Living_Room   LAMP-2 ".
Proof.
  split; [reflexivity|].
  exact (proj2 (proj2 (normalizeName_idempotent "  Living_Room   LAMP-2 " eq_refl))).
Defined.

End NameFacts.

(** ** Edit distance *)

Module DistanceFacts.

Import DuplicateDetector Spec Further.

Local Open Scope nat_scope.
Local Open Scope list_scope.

Lemma fill_row_length bc (a : list ascii) : forall prev diag left,
  length (fill_row bc a prev diag left) = Nat.min (length a) (length prev).
Proof.
  induction a as [|ac a IH]; intros [|up prev] diag left; cbn; auto.
Qed.

Lemma fill_row_bounded p bc (a : list ascii) : forall prev j diag left,
  bound p j diag -> bound (S p) j left -> bounded p (S j) prev ->
  bounded (S p) (S j) (fill_row bc a prev diag left).
Proof.
  induction a as [|ac a IH]; intros [|up prev] j diag left Hd Hl Hp; cbn; auto.
  destruct Hp as [Hu Hp].
  assert (Hc : bound (S p) (S j)
                 (if Ascii.eqb bc ac then diag
                  else Nat.min (diag + 1) (Nat.min (left + 1) (up + 1)))).
  { unfold bound in *. destruct (Ascii.eqb bc ac); lia. }
  split; [exact Hc|]. apply IH; assumption.
Qed.

Lemma next_row_bounded p bc a prev :
  bounded p 0 prev -> bounded (S p) 0 (next_row (S p) bc a prev).
Proof.
  destruct prev as [|diag prev]; cbn [next_row bounded].
  - intros _. split; [unfold bound; lia|exact I].
  - intros [Hd Hp]. split; [unfold bound; lia|].
    apply fill_row_bounded; [exact Hd|unfold bound; lia|exact Hp].
Qed.

Lemma next_row_length i bc a prev :
  length prev = S (length a) -> length (next_row i bc a prev) = S (length a).
Proof.
  destruct prev as [|diag prev]; [discriminate|]. cbn [next_row length].
  intros [= H]. rewrite fill_row_length, H. f_equal. lia.
Qed.

Lemma fill_row_zeroed pb bc (af : list ascii) (a : list ascii) :
  forall prev j diag left,
  a = drop j af ->
  (diag = 0 <-> pb = take j af) ->
  zeroed pb af (S j) prev ->
  zeroed (pb ++ [bc]) af (S j) (fill_row bc a prev diag left).
Proof.
  induction a as [|ac a IH]; intros [|up prev] j diag left Ha Hd Hp; cbn; auto.
  destruct Hp as [Hu Hp].
  assert (Hj : af !! j = Some ac).
  { rewrite <- (Nat.add_0_r j), <- lookup_drop, <- Ha. reflexivity. }
  assert (Ht : take (S j) af = take j af ++ [ac]) by now apply take_S_r.
  assert (Ha' : a = drop (S j) af).
  { apply drop_S in Hj. rewrite <- Ha in Hj. now injection Hj. }
  split; [|apply IH; assumption].
  rewrite Ht. destruct (Ascii.eqb_spec bc ac) as [->|Hne].
  - rewrite Hd. split; [now intros ->|]. intros H. now apply app_inj_tail in H.
  - split; [lia|]. intros H. apply app_inj_tail in H as [_ H]. contradiction.
Qed.

Lemma next_row_zeroed pb bc af prev :
  zeroed pb af 0 prev ->
  zeroed (pb ++ [bc]) af 0 (next_row (S (length pb)) bc af prev).
Proof.
  assert (H0 : S (length pb) = 0 <-> pb ++ [bc] = take 0 af).
  { split; [discriminate|]. cbn. intros H. now destruct pb. }
  destruct prev as [|diag prev]; cbn [next_row zeroed].
  - intros _. split; [exact H0|exact I].
  - intros [Hd Hp]. split; [exact H0|].
    apply fill_row_zeroed; [reflexivity|exact Hd|exact Hp].
Qed.

(** The last row, given the row reached after the characters [pb]. *)
Lemma last_row_spec (a : list ascii) (b : list ascii) : forall pb row,
  length row = S (length a) ->
  bounded (length pb) 0 row ->
  zeroed pb a 0 row ->
  let final := last_row (length pb) b a row in
  length final = S (length a)
  /\ bounded (length pb + length b) 0 final
  /\ zeroed (pb ++ b) a 0 final.
Proof.
  induction b as [|bc b IH]; intros pb row Hl Hb Hz.
  { cbn. rewrite Nat.add_0_r, app_nil_r. auto. }
  cbn [last_row].
  specialize (IH (pb ++ [bc]) (next_row (S (length pb)) bc a row)).
  rewrite length_app in IH. cbn [length] in IH.
  replace (length pb + 1) with (S (length pb)) in IH by lia.
  destruct IH as (H1 & H2 & H3).
  - now apply next_row_length.
  - now apply next_row_bounded.
  - now apply next_row_zeroed.
  - cbn zeta. rewrite <- app_assoc in H3. cbn [app length] in *.
    replace (length pb + S (length b)) with (S (length pb) + length b) by lia.
    auto.
Qed.

Lemma seq_bounded n : forall j, bounded 0 j (seq j n).
Proof.
  induction n as [|n IH]; intros j; cbn; [exact I|].
  split; [unfold bound; lia|apply IH].
Qed.

Lemma seq_zeroed (a : list ascii) n : forall j,
  j + n <= S (length a) -> zeroed [] a j (seq j n).
Proof.
  induction n as [|n IH]; intros j Hj; cbn [seq zeroed]; [exact I|].
  split; [|apply IH; lia].
  split; [now intros ->|]. intros H. destruct j; [reflexivity|].
  destruct a; [cbn in Hj; lia|discriminate H].
Qed.

Lemma last_bounded i : forall l j,
  l <> [] -> bounded i j l -> bound i (j + length l - 1) (List.last l 0).
Proof.
  induction l as [|d l IH]; intros j Hne H; [now destruct Hne|].
  destruct H as [Hd Hl]. destruct l as [|d' l].
  - cbn. replace (j + 1 - 1) with j by lia. exact Hd.
  - change (List.last (d :: d' :: l) 0) with (List.last (d' :: l) 0).
    specialize (IH (S j) ltac:(discriminate) Hl).
    cbn [length] in *. replace (j + S (S (length l)) - 1)
      with (S j + S (length l) - 1) by lia. exact IH.
Qed.

Lemma last_zeroed pb a : forall l j,
  l <> [] -> zeroed pb a j l ->
  (List.last l 0 = 0 <-> pb = take (j + length l - 1) a).
Proof.
  induction l as [|d l IH]; intros j Hne H; [now destruct Hne|].
  destruct H as [Hd Hl]. destruct l as [|d' l].
  - cbn. replace (j + 1 - 1) with j by lia. exact Hd.
  - change (List.last (d :: d' :: l) 0) with (List.last (d' :: l) 0).
    specialize (IH (S j) ltac:(discriminate) Hl).
    cbn [length] in *. replace (j + S (S (length l)) - 1)
      with (S j + S (length l) - 1) by lia. exact IH.
Qed.

Lemma list_ascii_length (s : string) :
  length (list_ascii_of_string s) = String.length s.
Proof. induction s; cbn; auto. Qed.

Lemma list_ascii_inj (s t : string) :
  list_ascii_of_string s = list_ascii_of_string t -> s = t.
Proof.
  intros H. rewrite <- (string_of_list_ascii_of_string s),
    <- (string_of_list_ascii_of_string t). now rewrite H.
Qed.

(** X18.  The edit distance computed by [levenshteinDistance] is at
    least the difference of the two lengths and at most the greater
    length, and it is zero exactly when the two strings are equal. *)
Theorem levenshteinDistance_bounds (a b : string) :
  let d := levenshteinDistance a b in
  String.length a - String.length b <= d
  /\ String.length b - String.length a <= d
  /\ d <= Nat.max (String.length a) (String.length b)
  /\ (d = 0 <-> a = b).
Proof.
  unfold levenshteinDistance. cbn zeta.
  set (a' := list_ascii_of_string a). set (b' := list_ascii_of_string b).
  destruct (last_row_spec a' b' [] (seq 0 (S (length a')))) as (H1 & H2 & H3).
  - apply length_seq.
  - apply seq_bounded.
  - apply seq_zeroed. cbn. lia.
  - cbn [length app Nat.add] in *.
    set (final := last_row 0 b' a' (seq 0 (S (length a')))) in *.
    assert (Hne : final <> []) by (intros E; rewrite E in H1; discriminate).
    pose proof (last_bounded _ final 0 Hne H2) as Hb.
    pose proof (last_zeroed _ _ final 0 Hne H3) as Hz.
    rewrite H1 in Hb, Hz. cbn [Nat.add] in Hb, Hz.
    replace (S (length a') - 1) with (length a') in Hb, Hz by lia.
    rewrite firstn_all in Hz. unfold bound in Hb.
    unfold a', b' in Hb. rewrite !list_ascii_length in Hb.
    split; [lia|]. split; [lia|]. split; [lia|].
    rewrite Hz. split.
    + intros H. symmetry. now apply list_ascii_inj.
    + now intros ->.
Qed.

End DistanceFacts.

(** ** The primary entity of a group *)

Module PrimaryFacts.

Import DuplicateDetector Spec Further.

Local Open Scope list_scope.

(** X19.  For a group that is not empty, the suggested primary entity is
    a member of the group; it is a light whenever the group has one, a
    light that can be dimmed whenever there is one, and otherwise a light
    with a colour attribute whenever there is one. *)
Theorem suggested_primary_is_member (entities : list HAEntityInfo) :
  entities <> [] ->
  exists e,
    In e entities
    /\ suggestPrimaryEntity entities = Some (entityId e)
    /\ (existsb is_light entities = true -> is_light e = true)
    /\ (existsb (fun x => is_light x && brightness x) entities = true ->
        brightness e = true)
    /\ (existsb (fun x => is_light x && brightness x) entities = false ->
        existsb (fun x => is_light x && colour x) entities = true ->
        colour e = true).
Proof.
  intros Hne. unfold suggestPrimaryEntity. fold is_light.
  assert (Hex : forall p, existsb (fun x => is_light x && p x) entities = true ->
            exists x, List.find p (List.filter is_light entities) = Some x).
  { intros p H. apply existsb_exists in H as (x & Hx & Hp).
    apply andb_true_iff in Hp as [Hl Hp].
    destruct (List.find p (List.filter is_light entities)) as [y|] eqn:E; [eauto|].
    exfalso. eapply List.find_none in E; [|apply filter_In; split; eassumption].
    congruence. }
  assert (Hnone : forall p, existsb (fun x => is_light x && p x) entities = false ->
            List.find p (List.filter is_light entities) = None).
  { intros p H. destruct (List.find p _) as [y|] eqn:E; [|reflexivity].
    apply List.find_some in E as [Hy Hp]. apply filter_In in Hy as [Hy Hl].
    assert (existsb (fun x => is_light x && p x) entities = true); [|congruence].
    apply existsb_exists. exists y. split; [exact Hy|]. now rewrite Hl, Hp. }
  destruct (List.filter is_light entities) as [|first rest] eqn:Hf.
  - (* no light *)
    destruct entities as [|e0 r]; [now destruct Hne|].
    exists e0. split; [now left|]. split; [reflexivity|].
    assert (Hno : forall x, In x (e0 :: r) -> is_light x = false).
    { intros x Hx. destruct (is_light x) eqn:E; [|reflexivity].
      assert (In x (List.filter is_light (e0 :: r))) by (apply filter_In; auto).
      rewrite Hf in H. destruct H. }
    split; [|split].
    + intros H. apply existsb_exists in H as (x & Hx & Hl).
      rewrite (Hno x Hx) in Hl. discriminate.
    + intros H. apply existsb_exists in H as (x & Hx & Hl).
      rewrite (Hno x Hx) in Hl. discriminate.
    + intros _ H. apply existsb_exists in H as (x & Hx & Hl).
      rewrite (Hno x Hx) in Hl. discriminate.
  - assert (Hin : forall x, In x (first :: rest) -> In x entities /\ is_light x = true).
    { intros x Hx. rewrite <- Hf in Hx. now apply filter_In in Hx. }
    destruct (List.find brightness (first :: rest)) as [e|] eqn:Hb.
    + pose proof Hb as Hb'.
      apply List.find_some in Hb as [H1 H2]. destruct (Hin e H1) as [H3 H4].
      exists e. repeat split; auto. intros H. rewrite (Hnone brightness H) in Hb'.
      discriminate.
    + destruct (List.find colour (first :: rest)) as [e|] eqn:Hc.
      * apply List.find_some in Hc as [H1 H2]. destruct (Hin e H1) as [H3 H4].
        exists e. repeat split; auto. intros H.
        destruct (Hex brightness H) as [x Hx]. congruence.
      * destruct (Hin first (or_introl eq_refl)) as [H3 H4].
        exists first. repeat split; auto.
        -- intros H. destruct (Hex brightness H) as [x Hx]. congruence.
        -- intros _ H. destruct (Hex colour H) as [x Hx]. congruence.
Qed.

Lemma suggested_primary_is_member_witness :
  exists e, In e sample_group
            /\ suggestPrimaryEntity sample_group = Some (entityId e)
            /\ brightness e = true.
Proof.
  destruct (suggested_primary_is_member sample_group ltac:(discriminate))
    as (e & H1 & H2 & _ & H3 & _).
  exists e. split; [exact H1|]. split; [exact H2|]. apply H3. reflexivity.
Defined.

End PrimaryFacts.

(** ** The heartbeat interval *)

Module HeartbeatFacts.

Module Hub := HAWebSocketClient.
Module Cloud := CloudClient.
Import HelmBridge Spec Further.

Local Open Scope list_scope.

Lemma beats_app os1 : forall live os2,
  beats live (os1 ++ os2) = beats live os1 ≫= fun l => beats l os2.
Proof.
  induction os1 as [|o os1 IH]; intros live os2; [reflexivity|].
  destruct o as [e|e| | | |]; cbn [app beats]; try apply IH.
  destruct e; try apply IH. destruct live; [reflexivity|apply IH].
Qed.

Lemma beats_beatless os : forall live,
  Forall beatless os -> beats live os = Some live.
Proof.
  induction os as [|o os IH]; intros live H; [reflexivity|].
  apply Forall_cons in H as [[H1 H2] H]. specialize (IH live H).
  destruct o as [e|e| | | |]; cbn [beats]; try exact IH.
  destruct e; try exact IH; [now destruct H1|now destruct H2].
Qed.

Lemma reaction_beatless tk o : reaction tk o -> beatless o.
Proof.
  intros [(es & H)|(c & ->)]; [destruct H|]; split; discriminate.
Qed.

Lemma with_hub_beatless tk r b : Forall beatless (snd (with_hub tk r b)).
Proof.
  apply List.Forall_forall. intros o Ho. apply (reaction_beatless tk).
  left. eexists. eapply BridgeFacts.with_hub_from, Ho.
Qed.

Lemma send_beatless s f : Forall beatless (map CloudDo (Cloud.send s f)).
Proof.
  destruct (BridgeFacts.cloud_send_cases s f) as [-> | ->]; repeat constructor;
    discriminate.
Qed.

(** The orchestrator's reactions leave the heartbeat alone. *)
Lemma on_cloud_effects_beats tk es : forall b live,
  beats live (snd (on_cloud_effects tk es b)) = beats live (map CloudDo es).
Proof.
  induction es as [|e es IH]; intros b live; [reflexivity|].
  cbn [on_cloud_effects map].
  assert (H1 : Forall beatless (snd (on_cloud_effect tk e b))).
  { apply List.Forall_forall. intros o Ho.
    apply (reaction_beatless tk), (BridgeFacts.on_cloud_effect_reaction tk e b o Ho). }
  destruct (on_cloud_effect tk e b) as [b1 o1].
  specialize (IH b1). destruct (on_cloud_effects tk es b1) as [b2 o2].
  cbn [fst snd] in *.
  change (CloudDo e :: o1 ++ o2) with ([CloudDo e] ++ o1 ++ o2).
  change (CloudDo e :: map CloudDo es) with ([CloudDo e] ++ map CloudDo es).
  rewrite !beats_app. destruct (beats live [CloudDo e]) as [l|]; [|reflexivity].
  unfold mbind, option_bind. rewrite beats_app, (beats_beatless o1 l H1).
  apply IH.
Qed.

Lemma with_cloud_beats tk r b0 :
  keeps_beat (cloudClient b0) r ->
  beats (Cloud.heartbeatTimer (cloudClient b0)) (snd (with_cloud tk r b0))
  = Some (Cloud.heartbeatTimer (cloudClient (fst (with_cloud tk r b0)))).
Proof.
  intros H. unfold with_cloud. rewrite on_cloud_effects_beats.
  destruct (BridgeFacts.on_cloud_effects_frame tk (snd r) (set_cloud (fst r) b0))
    as [-> _].
  exact H.
Qed.

Lemma connect_keeps_beat s cs : keeps_beat s (Cloud.connect s cs).
Proof. unfold keeps_beat, Cloud.connect. now destruct (negb _). Qed.

Lemma on_open_keeps_beat s cs : keeps_beat s (Cloud.on_open s cs).
Proof.
  unfold keeps_beat, Cloud.on_open, Cloud.sendAuth. cbn [fst snd map].
  change (beats (Cloud.heartbeatTimer s)
            (CloudDo (Cloud.Emit Cloud.connected) :: ?l))
    with (beats (Cloud.heartbeatTimer s) l).
  destruct (CredentialStore.get cs); [|reflexivity].
  now rewrite beats_beatless by apply send_beatless.
Qed.

Lemma on_close_keeps_beat s : keeps_beat s (Cloud.on_close s).
Proof.
  unfold keeps_beat, Cloud.on_close, Cloud.stopHeartbeat, Cloud.scheduleReconnect.
  destruct s as [bn pr w au te rt hb ra sr le hv ec rc]. cbn.
  destruct hb, sr; cbn; try reflexivity;
    destruct (Z.leb _ _), rt; reflexivity.
Qed.

Lemma disconnect_keeps_beat s : keeps_beat s (Cloud.disconnect s).
Proof.
  unfold keeps_beat, Cloud.disconnect, Cloud.stopHeartbeat.
  destruct s as [bn pr w au te rt hb ra sr le hv ec rc]. cbn.
  destruct rt, hb, w; reflexivity.
Qed.

Lemma handleMessage_keeps_beat s cs m now d :
  keeps_beat s (fst (fst (Cloud.handleMessage s cs m now d)),
                snd (Cloud.handleMessage s cs m now d)).
Proof.
  unfold keeps_beat. destruct m as [ok tenant err|c|reason| |reason|ty];
    cbn [Cloud.handleMessage fst snd].
  - unfold Cloud.handleAuthResult, Cloud.startHeartbeat, Cloud.stopHeartbeat.
    destruct s as [bn pr w au te rt hb ra sr le hv ec rc]. destruct ok.
    + cbn. destruct hb; reflexivity.
    + destruct (Cloud.is_revocation _); [|reflexivity].
      destruct (CredentialStore.clear d cs); reflexivity.
  - unfold Cloud.handleCommand, Cloud.sendCommandAck. rewrite map_app, beats_app.
    destruct (Cloud.requiresAck c); [|reflexivity].
    now rewrite beats_beatless by apply send_beatless.
  - reflexivity.
  - unfold Cloud.sendHeartbeat. destruct (negb _); [reflexivity|].
    now rewrite beats_beatless by apply send_beatless.
  - pose proof (disconnect_keeps_beat (Cloud.set_shouldReconnect false s)) as H.
    destruct (Cloud.disconnect _) as [s2 e2].
    destruct (match reason with Some _ => _ | None => _ end); [|exact H].
    destruct (CredentialStore.clear d cs); [exact H|reflexivity].
  - reflexivity.
Qed.

Lemma connect_heartbeatTimer s cs :
  Cloud.heartbeatTimer (fst (Cloud.connect s cs)) = Cloud.heartbeatTimer s.
Proof. unfold Cloud.connect. now destruct (negb _). Qed.

Lemma resumes_beats tk ev b :
  resumes ev = true ->
  Forall beatless (snd (step tk ev b))
  /\ Cloud.heartbeatTimer (cloudClient (fst (step tk ev b)))
     = Cloud.heartbeatTimer (cloudClient b).
Proof.
  intros Hres. split.
  - apply List.Forall_forall. intros o Ho.
    destruct (BridgeFacts.resumes_out tk ev b o Hres Ho)
      as [->|[->|(at_ & v & data & ->)]]; split; discriminate.
  - destruct ev; try discriminate Hres.
    + rewrite BridgeFacts.step_poll. cbn [fst].
      destruct (BridgeFacts.poll_frame tk attempts0 resp b)
        as (_ & _ & _ & _ & _ & _ & _ & [-> | [-> _]]);
        [apply connect_heartbeatTimer|reflexivity].
    + reflexivity.
    + cbn [step].
      now destruct (BridgeFacts.performFullSync_frame tk r b)
        as (_ & _ & _ & _ & _ & v & n & l & ->).
    + now destruct l.
    + reflexivity.
Qed.

Lemma flush_beats tk b :
  Forall beatless (snd (fst (flushStateChanges tk b)))
  /\ Cloud.heartbeatTimer (cloudClient (fst (fst (flushStateChanges tk b))))
     = Cloud.heartbeatTimer (cloudClient b).
Proof.
  split.
  - apply List.Forall_forall. intros o Ho.
    apply BridgeFacts.flush_out in Ho as [->|(evs & _ & ->)]; split; discriminate.
  - destruct (BridgeFacts.flush_frame tk b) as (_ & _ & [->|(v & n & l & ->)]);
      reflexivity.
Qed.

Lemma stop_beats tk b :
  beats (Cloud.heartbeatTimer (cloudClient b)) (snd (stop tk b))
  = Some (Cloud.heartbeatTimer (cloudClient (fst (stop tk b)))).
Proof.
  unfold stop.
  assert (Hrest : forall b1 o1,
    Forall beatless o1 ->
    Cloud.heartbeatTimer (cloudClient b1) = Cloud.heartbeatTimer (cloudClient b) ->
    let r := (let '(b2, o2) :=
                with_cloud tk (Cloud.disconnect (cloudClient b1)) b1 in
              let '(b3, o3) := with_hub tk (Hub.disconnect (wsClient b2)) b2 in
              (b3, o1 ++ o2 ++ o3)) in
    beats (Cloud.heartbeatTimer (cloudClient b)) (snd r)
    = Some (Cloud.heartbeatTimer (cloudClient (fst r)))).
  { intros b1 o1 H1 E.
    pose proof (with_cloud_beats tk (Cloud.disconnect (cloudClient b1)) b1
                  (disconnect_keeps_beat _)) as H2.
    destruct (with_cloud tk _ b1) as [b2 o2].
    pose proof (with_hub_beatless tk (Hub.disconnect (wsClient b2)) b2) as H3.
    destruct (BridgeFacts.with_hub_frame tk (Hub.disconnect (wsClient b2)) b2)
      as (_ & E3 & _).
    destruct (with_hub tk _ b2) as [b3 o3]. cbn [fst snd] in *.
    rewrite beats_app, (beats_beatless o1 _ H1). unfold mbind, option_bind.
    rewrite beats_app, <- E, H2. unfold mbind, option_bind.
    now rewrite (beats_beatless o3 _ H3), E3. }
  destruct (batchTimer b).
  - destruct (flush_beats tk b) as [H1 E].
    destruct (flushStateChanges tk b) as [[b1 o1] ok]. cbn [fst snd] in *.
    assert (H1' : Forall beatless (ClearBatchTimer :: o1)).
    { constructor; [split; discriminate|exact H1]. }
    destruct ok; [apply (Hrest b1 _ H1' E)|].
    cbn [fst snd]. now rewrite (beats_beatless _ _ H1'), E.
  - apply (Hrest b []); [constructor|reflexivity].
Qed.

Lemma step_beats tk ev b :
  beats (Cloud.heartbeatTimer (cloudClient b)) (snd (step tk ev b))
  = Some (Cloud.heartbeatTimer (cloudClient (fst (step tk ev b)))).
Proof.
  assert (Hh : forall r b',
    beats (Cloud.heartbeatTimer (cloudClient b')) (snd (with_hub tk r b'))
    = Some (Cloud.heartbeatTimer (cloudClient (fst (with_hub tk r b'))))).
  { intros r b'. rewrite (beats_beatless _ _ (with_hub_beatless tk r b')).
    now destruct (BridgeFacts.with_hub_frame tk r b') as (_ & -> & _). }
  destruct (resumes ev) eqn:Hres.
  { destruct (resumes_beats tk ev b Hres) as [H1 E].
    now rewrite (beats_beatless _ _ H1), E. }
  destruct ev; try discriminate Hres; cbn [step]; try apply Hh.
  - destruct (rpcTimers b !! n) as [[id k]|]; [|reflexivity].
    apply (Hh _ (set_rpcTimers (delete n (rpcTimers b)) b)).
  - apply with_cloud_beats, connect_keeps_beat.
  - apply with_cloud_beats, on_open_keeps_beat.
  - apply with_cloud_beats, on_close_keeps_beat.
  - pose proof (handleMessage_keeps_beat (cloudClient b) (credentialStore b) m (now tk)
                  (disk tk)) as H.
    destruct (Cloud.handleMessage _ _ m _ _) as [[c cs] es]. cbn [fst snd] in H.
    apply (with_cloud_beats tk (c, es) (set_store cs b) H).
  - apply with_cloud_beats, connect_keeps_beat.
  - cbn [fst snd]. unfold Cloud.sendHeartbeat. destruct (negb _); [reflexivity|].
    now rewrite beats_beatless by apply send_beatless.
  - destruct (flush_beats tk b) as [H1 E].
    destruct (flushStateChanges tk b) as [[b1 o1] ok]. cbn [fst snd] in *.
    now rewrite (beats_beatless _ _ H1), E.
  - apply stop_beats.
Qed.

(** X20.  The cloud client never runs two heartbeat intervals at once:
    over any sequence of inputs, [setInterval] is called for the
    heartbeat only when no heartbeat interval is live, and the field
    [heartbeatTimer] tells at every moment whether one is. *)
Theorem heartbeat_interval_single (evs : list (tick * event)) (b : t) :
  beats (Cloud.heartbeatTimer (cloudClient b)) (snd (run evs b))
  = Some (Cloud.heartbeatTimer (cloudClient (fst (run evs b)))).
Proof.
  revert b. induction evs as [|[tk ev] evs IH]; intros b; [reflexivity|].
  cbn [run]. pose proof (step_beats tk ev b) as H1.
  destruct (step tk ev b) as [b1 o1]. specialize (IH b1).
  destruct (run evs b1) as [b2 o2]. cbn [fst snd] in *.
  rewrite beats_app, H1. exact IH.
Qed.

End HeartbeatFacts.

(** ** Before the cloud accepts the credential *)

Module AuthFacts.

Module Hub := HAWebSocketClient.
Module Cloud := CloudClient.
Import HelmBridge Spec Further.

Local Open Scope list_scope.

#[local] Arguments Cloud.is_revocation : simpl never.
#[local] Arguments String.eqb : simpl never.
#[local] Arguments JS.truthy : simpl never.
#[local] Arguments JS.or_default : simpl never.
#[local] Arguments JS.includes : simpl never.
#[local] Arguments Z.leb : simpl never.
#[local] Arguments Z.min : simpl never.
#[local] Arguments Z.pow : simpl never.
#[local] Arguments Z.add : simpl never.
#[local] Arguments Z.mul : simpl never.

Lemma reaction_no_report tk o : reaction tk o -> reports_state o = false.
Proof.
  intros [(es & H)|(c & ->)]; [destruct H|]; reflexivity.
Qed.

(** What the cloud client does of its own accord on a session that is
    not authenticated: nothing that reports on the hub, and it stays
    unauthenticated unless the cloud accepts the credential. *)
Lemma cloud_effects_no_report tk ev b e :
  Cloud.authenticated (cloudClient b) = false ->
  accepts ev = false ->
  In e (cloud_effects_of tk ev b) -> reports_state (CloudDo e) = false.
Proof.
  intros Ha Hev H.
  destruct ev; cbn [cloud_effects_of] in H; try (destruct H; fail);
    try (BridgeFacts.inner_cloud H; subst; reflexivity);
    try destruct m as [[] ? ?| | | | |]; try discriminate Hev;
    destruct (cloudClient b) as [? ? ? au ? ? ? ? ? ? ? ? ?]; cbn in Ha; subst au;
    destruct (credentialStore b) as [? ? [[? ? ? ? ?]|]];
    BridgeFacts.cloud_unfold H; BridgeFacts.cases_in H;
    repeat (destruct H as [<-|H]; [reflexivity|]); destruct H.
Qed.

Lemma with_cloud_no_report tk ev r b0 b :
  Cloud.authenticated (cloudClient b) = false ->
  accepts ev = false ->
  snd r = cloud_effects_of tk ev b ->
  Forall (fun o => reports_state o = false) (snd (with_cloud tk r b0)).
Proof.
  intros Ha Hev Hr. apply List.Forall_forall. intros o Ho.
  apply BridgeFacts.with_cloud_out in Ho as [(e & He & ->)|Ho].
  - rewrite Hr in He. now apply (cloud_effects_no_report tk ev b).
  - now apply (reaction_no_report tk).
Qed.

Lemma with_hub_no_report tk r b :
  Forall (fun o => reports_state o = false) (snd (with_hub tk r b)).
Proof.
  apply List.Forall_forall. intros o Ho. apply (reaction_no_report tk).
  left. eexists. eapply BridgeFacts.with_hub_from, Ho.
Qed.

Lemma flush_unauthenticated tk b :
  Cloud.authenticated (cloudClient b) = false ->
  flushStateChanges tk b = (set_queue [] false b, [], true).
Proof.
  intros Ha. unfold flushStateChanges. destruct (stateChangeQueue b); [reflexivity|].
  cbn [cloudClient set_queue]. unfold Cloud.isConnected. rewrite Ha.
  now destruct (Cloud.ws _) as [[]|].
Qed.

Lemma handleMessage_unauthenticated s cs m now d :
  Cloud.authenticated s = false ->
  accepts (CloudMessage m) = false ->
  Cloud.authenticated (fst (fst (Cloud.handleMessage s cs m now d))) = false.
Proof.
  intros Ha Hev. destruct m as [[] tenant err|c|reason| |reason|ty];
    try discriminate Hev; cbn [Cloud.handleMessage fst]; try exact Ha.
  - unfold Cloud.handleAuthResult. destruct (Cloud.is_revocation _); [|exact Ha].
    now destruct (CredentialStore.clear d cs).
  - unfold Cloud.disconnect, Cloud.stopHeartbeat. cbn.
    destruct (match reason with Some _ => _ | None => _ end);
      [destruct (CredentialStore.clear d cs)|];
      cbn; try exact Ha; now destruct (Cloud.heartbeatTimer s).
Qed.

Lemma step_unauthenticated tk ev b :
  Cloud.authenticated (cloudClient b) = false ->
  accepts ev = false ->
  Cloud.authenticated (cloudClient (fst (step tk ev b))) = false
  /\ Forall (fun o => reports_state o = false) (snd (step tk ev b)).
Proof.
  intros Ha Hev.
  assert (Hh : forall r b', cloudClient b' = cloudClient b ->
    Cloud.authenticated (cloudClient (fst (with_hub tk r b'))) = false
    /\ Forall (fun o => reports_state o = false) (snd (with_hub tk r b'))).
  { intros r b' E. split; [|apply with_hub_no_report].
    destruct (BridgeFacts.with_hub_frame tk r b') as (_ & -> & _). now rewrite E. }
  assert (Hc : forall r b0,
    snd r = cloud_effects_of tk ev b ->
    Cloud.authenticated (fst r) = false ->
    Cloud.authenticated (cloudClient (fst (with_cloud tk r b0))) = false
    /\ Forall (fun o => reports_state o = false) (snd (with_cloud tk r b0))).
  { intros r b0 Hr Hf. split; [|now apply (with_cloud_no_report tk ev r b0 b)].
    now destruct (BridgeFacts.with_cloud_frame tk r b0) as [-> _]. }
  destruct (resumes ev) eqn:Hres.
  { split.
    - destruct ev; try discriminate Hres.
      + rewrite BridgeFacts.step_poll. cbn [fst].
        destruct (BridgeFacts.poll_frame tk attempts0 resp b)
          as (_ & _ & _ & _ & _ & _ & _ & [-> | [-> _]]); [|exact Ha].
        unfold Cloud.connect. now destruct (negb _).
      + exact Ha.
      + cbn [step].
        now destruct (BridgeFacts.performFullSync_frame tk r b)
          as (_ & _ & _ & _ & _ & v & n & l & ->).
      + now destruct l.
      + exact Ha.
    - apply List.Forall_forall. intros o Ho.
      destruct (BridgeFacts.resumes_out tk ev b o Hres Ho)
        as [->|[->|(at_ & v & data & ->)]]; reflexivity. }
  destruct ev; try discriminate Hres; cbn [step]; try (apply Hh; reflexivity).
  - destruct (rpcTimers b !! n) as [[id k]|]; [|split; [exact Ha|constructor]].
    apply Hh. reflexivity.
  - apply Hc; [reflexivity|]. unfold Cloud.connect. now destruct (negb _).
  - apply Hc; [reflexivity|]. exact Ha.
  - apply Hc; [reflexivity|]. unfold Cloud.on_close, Cloud.stopHeartbeat.
    destruct (cloudClient b) as [? ? ? ? ? ? hb ? sr ? ? ? ?]. cbn.
    destruct hb, sr; cbn; try reflexivity;
      unfold Cloud.scheduleReconnect; cbn; now destruct (Z.leb _ _).
  - pose proof (handleMessage_unauthenticated (cloudClient b) (credentialStore b) m
                  (now tk) (disk tk) Ha Hev) as H1.
    pose proof (eq_refl : snd (Cloud.handleMessage (cloudClient b) (credentialStore b)
                                 m (now tk) (disk tk))
                          = cloud_effects_of tk (CloudMessage m) b) as H2.
    destruct (Cloud.handleMessage _ _ m _ _) as [[c cs] es]. cbn [fst snd] in *.
    now apply (Hc (c, es) (set_store cs b)).
  - apply Hc; [reflexivity|]. unfold Cloud.connect. now destruct (negb _).
  - split; [exact Ha|]. cbn [snd]. unfold Cloud.sendHeartbeat. rewrite Ha. constructor.
  - rewrite (flush_unauthenticated tk b Ha). split; [exact Ha|constructor].
  - unfold stop. rewrite (flush_unauthenticated tk b Ha).
    assert (Hrest : forall b1 o1,
      cloudClient b1 = cloudClient b ->
      Forall (fun o => reports_state o = false) o1 ->
      let r := (let '(b2, o2) :=
                  with_cloud tk (Cloud.disconnect (cloudClient b1)) b1 in
                let '(b3, o3) := with_hub tk (Hub.disconnect (wsClient b2)) b2 in
                (b3, o1 ++ o2 ++ o3)) in
      Cloud.authenticated (cloudClient (fst r)) = false
      /\ Forall (fun o => reports_state o = false) (snd r)).
    { intros b1 o1 E H1.
      destruct (Hc (Cloud.disconnect (cloudClient b1)) b1) as [H2 H3].
      { now rewrite E. }
      { unfold Cloud.disconnect, Cloud.stopHeartbeat. cbn.
        now destruct (Cloud.heartbeatTimer _). }
      destruct (with_cloud tk _ b1) as [b2 o2]. cbn [fst snd] in *.
      pose proof (with_hub_no_report tk (Hub.disconnect (wsClient b2)) b2) as H4.
      destruct (BridgeFacts.with_hub_frame tk (Hub.disconnect (wsClient b2)) b2)
        as (_ & E3 & _).
      destruct (with_hub tk _ b2) as [b3 o3]. cbn [fst snd] in *.
      split; [now rewrite E3|]. repeat (apply List.Forall_app; split); assumption. }
    destruct (batchTimer b).
    + apply (Hrest (set_queue [] false b) [ClearBatchTimer]); [reflexivity|].
      now repeat constructor.
    + apply (Hrest b []); [reflexivity|constructor].
Qed.

(** A full sync, by contrast, is written to a socket that is open and not
    yet authenticated, when the cloud asks for it there. *)
Lemma full_sync_before_auth :
  Cloud.authenticated (cloudClient cloud_connected) = false
  /\ exists v,
       In (CloudDo (Cloud.WsSend
                      (Cloud.full_sync (now tk0) v
                         {| FullSync.areas := []; FullSync.devices := [];
                            FullSync.entities := []; FullSync.services := [] |})))
          (snd (run [(tk0, CloudMessage (Cloud.request_full_sync None));
                     (tk0, FullSyncCollected no_answers)] cloud_connected)).
Proof.
  split; [reflexivity|]. eexists. vm_compute. do 6 right. left. reflexivity.
Qed.

(** X21.  No heartbeat and no batch of state changes before the cloud
    accepts the credential: on a cloud session that is not authenticated,
    and as long as no successful [auth_result] arrives, the bridge writes
    neither a [heartbeat] nor a [state_batch] frame to the cloud, whatever
    else happens, and the session stays unauthenticated.  (Other frames
    are not held back: acknowledgements and results of commands and a
    full sync are written to any open socket.) *)
Theorem no_heartbeat_or_batch_before_auth (evs : list (tick * event)) (b : t) :
  Cloud.authenticated (cloudClient b) = false ->
  Forall (fun te => accepts (snd te) = false) evs ->
  Forall (fun o => reports_state o = false) (snd (run evs b))
  /\ Cloud.authenticated (cloudClient (fst (run evs b))) = false.
Proof.
  revert b. induction evs as [|[tk ev] evs IH]; intros b Ha Hev.
  { split; [constructor|exact Ha]. }
  apply Forall_cons in Hev as [Hev1 Hev]. cbn [snd] in Hev1. cbn [run].
  destruct (step_unauthenticated tk ev b Ha Hev1) as [H1 H2].
  destruct (step tk ev b) as [b1 o1]. cbn [fst snd] in *.
  destruct (IH b1 H1 Hev) as [H3 H4].
  destruct (run evs b1) as [b2 o2]. cbn [fst snd] in *.
  split; [apply List.Forall_app; split; assumption|exact H4].
Qed.

Lemma no_heartbeat_or_batch_before_auth_witness :
  Forall (fun o => reports_state o = false)
    (snd (run [(tk0, HubMessage (Hub.event (Some kitchen_on)));
               (tk0, CloudMessage Cloud.request_heartbeat);
               (tk0, HeartbeatTimer); (tk0, BatchTimer)] cloud_connected)).
Proof.
  refine (proj1 (no_heartbeat_or_batch_before_auth
            [(tk0, HubMessage (Hub.event (Some kitchen_on)));
             (tk0, CloudMessage Cloud.request_heartbeat);
             (tk0, HeartbeatTimer); (tk0, BatchTimer)] cloud_connected eq_refl _)).
  repeat constructor.
Defined.

End AuthFacts.

(** ** The cloud server *)

Module ServerFacts.

Module Cloud := CloudClient.
Import Further.
Local Open Scope list_scope.

Lemma map_get_none (k : string) (m : list (string * nat)) :
  ~ In k (keys m) -> Server.map_get k m = None.
Proof.
  induction m as [|[k' v] m IH]; intros H; [reflexivity|]. cbn in *.
  destruct (String.eqb_spec k' k) as [->|Hne]; [exfalso; auto|].
  apply IH. auto.
Qed.

Lemma map_get_in (k : string) (c : nat) (m : list (string * nat)) :
  Server.map_get k m = Some c -> In (k, c) m.
Proof.
  induction m as [|[k' v] m IH]; intros H; [discriminate|]. cbn in *.
  destruct (String.eqb_spec k' k) as [->|Hne]; [left; congruence|right; auto].
Qed.

Lemma in_map_get (k : string) (c : nat) (m : list (string * nat)) :
  List.NoDup (keys m) -> In (k, c) m -> Server.map_get k m = Some c.
Proof.
  induction m as [|[k' v] m IH]; intros Hn H; [destruct H|]. cbn in *.
  apply List.NoDup_cons_iff in Hn as [Hk Hn].
  destruct H as [H|H].
  - injection H as -> ->. now rewrite String.eqb_refl.
  - destruct (String.eqb_spec k' k) as [->|Hne]; [|auto].
    exfalso. apply Hk. change (In (fst (k, c)) (map fst m)). now apply in_map.
Qed.

Lemma in_map_delete (k : string) (p : string * nat) (m : list (string * nat)) :
  In p (Server.map_delete k m) -> In p m.
Proof.
  induction m as [|[k' v] m IH]; intros H; [exact H|]. cbn in *.
  destruct (String.eqb k' k); [now right|].
  destruct H as [H|H]; [now left|right; auto].
Qed.

Lemma keys_delete (k x : string) (m : list (string * nat)) :
  In x (keys (Server.map_delete k m)) -> In x (keys m).
Proof.
  unfold keys. intros H. apply in_map_iff in H as (p & <- & H).
  apply in_map. now apply in_map_delete in H.
Qed.

Lemma nodup_delete (k : string) (m : list (string * nat)) :
  List.NoDup (keys m) -> List.NoDup (keys (Server.map_delete k m)).
Proof.
  induction m as [|[k' v] m IH]; intros Hn; [exact Hn|]. cbn in *.
  apply List.NoDup_cons_iff in Hn as [Hk Hn].
  destruct (String.eqb k' k); [exact Hn|]. cbn.
  apply List.NoDup_cons_iff. split; [|auto].
  intros H. apply Hk. now apply keys_delete in H.
Qed.

Lemma map_get_delete (k : string) (m : list (string * nat)) :
  List.NoDup (keys m) -> Server.map_get k (Server.map_delete k m) = None.
Proof.
  intros Hn. apply map_get_none. revert Hn.
  induction m as [|[k' v] m IH]; intros Hn; [intros []|]. cbn in *.
  apply List.NoDup_cons_iff in Hn as [Hk Hn].
  destruct (String.eqb_spec k' k) as [->|Hne]; [exact Hk|].
  cbn. intros [H|H]; [contradiction|]. now apply IH.
Qed.

Lemma in_set (k : string) (c : nat) (p : string * nat) (m : list (string * nat)) :
  In p (Server.map_set k c m) -> p = (k, c) \/ In p m.
Proof.
  induction m as [|[k' v] m IH]; cbn.
  - intros [H|[]]. now left.
  - destruct (String.eqb k' k); cbn.
    + intros [H|H]; [now left|right; now right].
    + intros [H|H]; [right; now left|].
      destruct (IH H); [now left|right; now right].
Qed.

Lemma keys_set (k x : string) (c : nat) (m : list (string * nat)) :
  In x (keys (Server.map_set k c m)) -> x = k \/ In x (keys m).
Proof.
  unfold keys. intros H. apply in_map_iff in H as (p & <- & H).
  apply in_set in H as [->|H]; [now left|right; now apply in_map].
Qed.

Lemma nodup_set (k : string) (c : nat) (m : list (string * nat)) :
  List.NoDup (keys m) -> List.NoDup (keys (Server.map_set k c m)).
Proof.
  induction m as [|[k' v] m IH]; intros Hn; cbn.
  - repeat constructor. intros [].
  - cbn in Hn. apply List.NoDup_cons_iff in Hn as [Hk Hn].
    destruct (String.eqb_spec k' k) as [->|Hne]; cbn.
    + apply List.NoDup_cons_iff. now split.
    + apply List.NoDup_cons_iff. split; [|auto].
      intros H. apply keys_set in H as [H|H]; [congruence|contradiction].
Qed.



(** *** The invariant of the server *)

Lemma sound_mono (V V' : list string) (s : Server.t) :
  (forall u, In u V -> In u V') -> sound V s -> sound V' s.
Proof.
  intros HV [H1 H2 H3]. split; [exact H1|exact H2|].
  intros c o Hc. destruct (H3 c o Hc) as [H|(Ha & u & Hu & Hin)]; [now left|].
  right. split; [exact Ha|]. exists u. auto.
Qed.

Lemma sound_init : sound [] Server.init.
Proof.
  split; cbn.
  - constructor.
  - intros b c [].
  - intros c o H. discriminate.
Qed.

Lemma accepted_set_socket (s : Server.t) (c c' : nat) (o o1 : Server.ConnectedBridge) :
  Server.sockets s !! c = Some o ->
  (Server.authenticated o = true -> Server.authenticated o1 = true) ->
  accepted s c' -> accepted (Server.set_socket c o1 s) c'.
Proof.
  intros Hc Ha (o' & Ho' & Ha'). unfold accepted. cbn.
  destruct (Nat.eq_dec c c') as [<-|Hne].
  - exists o1. split.
    + apply list_lookup_insert_eq. now apply lookup_lt_Some in Hc.
    + apply Ha. congruence.
  - exists o'. split; [|exact Ha']. now rewrite list_lookup_insert_ne.
Qed.

Lemma sound_set_socket (V : list string) (s : Server.t) (c : nat)
    (o o1 : Server.ConnectedBridge) :
  sound V s ->
  Server.sockets s !! c = Some o ->
  Server.authenticated o1 = true ->
  (exists u, Server.tenantId o1 = Some u /\ In u V) ->
  sound V (Server.set_socket c o1 s).
Proof.
  intros [H1 H2 H3] Hc Ha Hu. split.
  - exact H1.
  - intros b c' Hin. apply (accepted_set_socket s c c' o o1 Hc); [auto|].
    exact (H2 b c' Hin).
  - intros c' o'. cbn. intros H.
    apply list_lookup_insert_Some in H as [(-> & <- & _)|(_ & H)].
    + right. now split.
    + exact (H3 c' o' H).
Qed.

Lemma sound_set_bridges (V : list string) (s : Server.t) (m : list (string * nat)) :
  sound V s ->
  List.NoDup (keys m) ->
  (forall p, In p m -> accepted s (snd p)) ->
  sound V (Server.set_bridges m s).
Proof.
  intros [H1 H2 H3] Hn Hm. split.
  - exact Hn.
  - intros b c Hin. exact (Hm (b, c) Hin).
  - exact H3.
Qed.

Lemma sound_delete (V : list string) (s : Server.t) (k : string) :
  sound V s ->
  sound V (Server.set_bridges (Server.map_delete k (Server.connectedBridges s)) s).
Proof.
  intros Hs. apply sound_set_bridges; [exact Hs|apply nodup_delete, Hs|].
  intros [b c] Hin. apply in_map_delete in Hin. exact (sound_registered V s Hs b c Hin).
Qed.

Lemma sound_set_logs (V : list string) (s : Server.t)
    (l : gmap (option string) Server.StoredBridgeLogs) :
  sound V s -> sound V (Server.set_logs l s).
Proof. intros [H1 H2 H3]. now split. Qed.

(** The user of an accepted socket is one of [V]. *)
Lemma user_of_accepted (V : list string) (s : Server.t) (c : nat)
    (o : Server.ConnectedBridge) :
  sound V s -> Server.sockets s !! c = Some o ->
  Server.authenticated o = true \/ Server.bridgeId o <> None ->
  In (Server.user_of o) V /\ Server.authenticated o = true.
Proof.
  intros Hs Hc Ha.
  destruct (sound_sockets V s Hs c o Hc) as [(H1 & H2 & _)|(H1 & u & Hu & Hin)].
  - destruct Ha; congruence.
  - split; [|exact H1]. unfold Server.user_of. now rewrite Hu.
Qed.

(** *** The stale check as a filter *)

Lemma set_bridges_same (s : Server.t) :
  Server.set_bridges (Server.connectedBridges s) s = s.
Proof. now destruct s. Qed.

Lemma check_entries_eq (H : Z) (tk : Server.tick) (entries : list (string * nat))
    (s : Server.t) :
  Server.check_entries tk H entries s
  = (Server.set_bridges
       (fold_left (fun m p => Server.map_delete (fst p) m)
          (List.filter (stale H tk s) entries) (Server.connectedBridges s)) s,
     map closes_stale (List.filter (stale H tk s) entries)).
Proof.
  revert s. induction entries as [|[b c] r IH]; intros s.
  { cbn. now rewrite set_bridges_same. }
  cbn [Server.check_entries List.filter].
  assert (Es : stale H tk s (b, c)
               = match Server.sockets s !! c with
                 | Some o => Z.ltb (H * 3) (Server.now tk - Server.lastHeartbeat o)
                 | None => false
                 end) by reflexivity.
  destruct (Server.sockets s !! c) as [o|]; [|rewrite Es; apply IH].
  destruct (Z.ltb _ _); rewrite Es; [|apply IH].
  rewrite IH. reflexivity.
Qed.

Lemma delete_as_filter (k : string) (m : list (string * nat)) :
  List.NoDup (keys m) ->
  Server.map_delete k m = List.filter (fun p => negb (String.eqb (fst p) k)) m.
Proof.
  induction m as [|[k' v] m IH]; intros Hn; [reflexivity|]. cbn in *.
  apply List.NoDup_cons_iff in Hn as [Hk Hn].
  destruct (String.eqb_spec k' k) as [->|Hne]; cbn.
  - symmetry. apply List.forallb_filter_id. apply List.forallb_forall.
    intros [k1 v1] Hin. cbn. destruct (String.eqb_spec k1 k) as [->|]; [|reflexivity].
    exfalso. apply Hk. change (In (fst (k, v1)) (map fst m)). now apply in_map.
  - f_equal. now apply IH.
Qed.

Lemma nodup_filter (f : string * nat -> bool) (m : list (string * nat)) :
  List.NoDup (keys m) -> List.NoDup (keys (List.filter f m)).
Proof.
  induction m as [|p m IH]; intros Hn; [exact Hn|]. cbn in *.
  apply List.NoDup_cons_iff in Hn as [Hk Hn].
  destruct (f p); [|auto]. cbn. apply List.NoDup_cons_iff. split; [|auto].
  intros H. apply Hk. unfold keys in H. apply in_map_iff in H as (q & <- & H).
  apply in_map. now apply List.filter_In in H as [H _].
Qed.

Lemma deletes_as_filter (l m : list (string * nat)) :
  List.NoDup (keys m) ->
  fold_left (fun m p => Server.map_delete (fst p) m) l m
  = List.filter (fun p => negb (existsb (fun q => String.eqb (fst p) (fst q)) l)) m.
Proof.
  revert m. induction l as [|q l IH]; intros m Hn.
  { cbn. symmetry. apply List.forallb_filter_id. now apply List.forallb_forall. }
  cbn [fold_left]. rewrite IH by now apply nodup_delete.
  rewrite delete_as_filter by exact Hn. clear.
  induction m as [|p m IHm]; [reflexivity|]. cbn.
  destruct (String.eqb (fst p) (fst q)); cbn; [exact IHm|].
  destruct (existsb _ l); cbn; [exact IHm|now f_equal].
Qed.

Lemma stale_check_filter (H : Z) (tk : Server.tick) (s : Server.t) :
  List.NoDup (keys (Server.connectedBridges s)) ->
  Server.checkStaleConnections tk H s
  = (Server.set_bridges
       (List.filter (fun p => negb (stale H tk s p)) (Server.connectedBridges s)) s,
     map closes_stale (List.filter (stale H tk s) (Server.connectedBridges s))).
Proof.
  intros Hn. unfold Server.checkStaleConnections. rewrite check_entries_eq.
  f_equal. f_equal. rewrite deletes_as_filter by exact Hn.
  apply List.filter_ext_in. intros p Hp. f_equal.
  destruct (stale H tk s p) eqn:Es.
  - apply existsb_exists. exists p. split; [|apply String.eqb_refl].
    apply List.filter_In. now split.
  - destruct (existsb _ _) eqn:Ee; [|reflexivity].
    apply existsb_exists in Ee as (q & Hq & Heq).
    apply List.filter_In in Hq as [Hq Hs].
    apply String.eqb_eq in Heq.
    assert (p = q) as ->; [|congruence].
    destruct p as [k v], q as [k' v']. cbn in Heq. subst k'.
    pose proof (in_map_get k v _ Hn Hp) as E1.
    pose proof (in_map_get k v' _ Hn Hq) as E2. congruence.
Qed.


(** *** One input *)

Ltac none_validated :=
  match goal with
  | |- context [validated ?l] => change (validated l) with (@nil string)
  end;
  rewrite app_nil_r.

Lemma handleAuth_sound (V : list string) (tk : Server.tick) (c : nat)
    (bridge credential : string) (o : Server.ConnectedBridge) (s : Server.t) :
  sound V s -> Server.sockets s !! c = Some o ->
  let r := Server.handleAuth tk c bridge credential o s in
  let V' := V ++ match Server.validateCredential tk bridge credential with
                 | Some cred => [Server.userId cred]
                 | None => []
                 end in
  sound V' (fst r)
  /\ (forall c', accepted s c' -> accepted (fst r) c')
  /\ Forall (files_under V') (snd r)
  /\ Forall (serves_accepted (fst r)) (snd r).
Proof.
  intros Hs Hc. unfold Server.handleAuth.
  destruct (Server.validateCredential tk bridge credential) as [cred|]; cbn zeta.
  - cbn [fst snd].
    set (o1 := {| Server.bridgeId := Some bridge;
                  Server.tenantId := Some (Server.userId cred);
                  Server.authenticated := true;
                  Server.lastHeartbeat := Server.now tk;
                  Server.reconnectCount := Server.reconnectCount o |}).
    assert (Hin : In (Server.userId cred) (V ++ [Server.userId cred]))
      by (apply in_or_app; right; now left).
    assert (Hs1 : sound (V ++ [Server.userId cred]) (Server.set_socket c o1 s)).
    { apply (sound_set_socket _ s c o o1);
        [eapply sound_mono; [|exact Hs]; intros; apply in_or_app; now left
        |exact Hc|reflexivity|].
      exists (Server.userId cred). now split. }
    assert (Hacc : accepted (Server.set_socket c o1 s) c).
    { exists o1. split; [|reflexivity]. cbn.
      apply list_lookup_insert_eq. now apply lookup_lt_Some in Hc. }
    refine (conj _ (conj _ (conj _ _))).
    + split.
      * exact (nodup_set bridge c _ (sound_keys _ _ Hs)).
      * intros b c' Hin'. cbn in Hin'. apply in_set in Hin' as [E|Hin'].
        -- injection E as -> ->. exact Hacc.
        -- exact (sound_registered _ _ Hs1 b c' Hin').
      * exact (sound_sockets _ _ Hs1).
    + intros c' Ha. now apply (accepted_set_socket s c c' o o1 Hc).
    + repeat constructor; cbn; exact Hin.
    + repeat constructor; cbn; exact Hacc.
  - cbn [fst snd]. rewrite app_nil_r.
    refine (conj Hs (conj _ (conj _ _))); [auto| |]; repeat constructor.
Qed.

Lemma handleMessage_sound (V : list string) (tk : Server.tick) (c : nat)
    (m : Server.inbound) (o : Server.ConnectedBridge) (s : Server.t) :
  sound V s -> Server.sockets s !! c = Some o ->
  let r := Server.handleMessage tk c m o s in
  let V' := V ++ validated [(tk, Server.Message c m)] in
  sound V' (fst r)
  /\ (forall c', accepted s c' -> accepted (fst r) c')
  /\ Forall (files_under V') (snd r)
  /\ Forall (serves_accepted (fst r)) (snd r).
Proof.
  intros Hs Hc.
  assert (Hsame : forall es : list Server.effect,
            validated [(tk, Server.Message c m)] = [] ->
            Forall (files_under V) es -> Forall (serves_accepted s) es ->
            sound (V ++ validated [(tk, Server.Message c m)]) s
            /\ (forall c', accepted s c' -> accepted s c')
            /\ Forall (files_under (V ++ validated [(tk, Server.Message c m)])) es
            /\ Forall (serves_accepted s) es).
  { intros es -> H1 H2. rewrite app_nil_r. now refine (conj _ (conj _ (conj _ _))). }
  assert (Huser : Server.authenticated o = true -> In (Server.user_of o) V).
  { intros Ha. now apply (user_of_accepted V s c o Hs Hc); left. }
  destruct m as [f|l d|ty|]; cbn [Server.handleMessage].
  - destruct f as [bridge credential pv|t hv le ec rc|cmd ra|cmd st ca hr er
                  |bid bat events ov|data].
    + assert (E : validated [(tk, Server.Message c
                      (Server.From (Cloud.authenticate bridge credential pv)))]
                  = match Server.validateCredential tk bridge credential with
                    | Some cred => [Server.userId cred]
                    | None => []
                    end).
      { unfold validated. cbn.
        now destruct (Server.validateCredential tk bridge credential). }
      rewrite E. now apply handleAuth_sound.
    + destruct (Server.authenticated o) eqn:Ea; cbn [negb].
      * unfold Server.handleHeartbeat. cbn [fst snd].
        none_validated.
        destruct (sound_sockets _ _ Hs c o Hc) as [(H1 & _)|(_ & u & Hu & Hin)];
          [congruence|].
        refine (conj _ (conj _ (conj _ _))).
        -- apply (sound_set_socket V s c o); [exact Hs|exact Hc|exact Ea|].
           exists u. now split.
        -- intros c' Ha. now apply (accepted_set_socket s c c' o _ Hc).
        -- destruct (Server.truthy _); repeat constructor. cbn. now apply Huser.
        -- destruct (Server.truthy _); repeat constructor.
      * apply Hsame; [reflexivity| |]; repeat constructor.
    + destruct (Server.authenticated o) eqn:Ea; cbn [negb];
        (apply Hsame; [reflexivity| |]); repeat constructor.
    + destruct (Server.authenticated o) eqn:Ea; cbn [negb];
        (apply Hsame; [reflexivity| |]); unfold Server.handleCommandResult;
        try destruct (Server.truthy _); repeat constructor; cbn; auto.
    + destruct (Server.authenticated o) eqn:Ea; cbn [negb];
        (apply Hsame; [reflexivity| |]); repeat constructor; cbn; auto.
    + destruct (Server.authenticated o) eqn:Ea; cbn [negb];
        (apply Hsame; [reflexivity| |]); repeat constructor; cbn; auto.
  - destruct (Server.authenticated o); cbn [negb fst snd].
    + none_validated.
      refine (conj _ (conj _ (conj _ _))); [|auto|constructor|constructor].
      now apply sound_set_logs.
    + apply Hsame; [reflexivity| |]; constructor.
  - apply Hsame; [reflexivity| |]; constructor.
  - apply Hsame; [reflexivity| |]; repeat constructor.
Qed.


Lemma first_entry_some (p : Server.ConnectedBridge -> bool)
    (entries : list (string * nat)) (s : Server.t) (b : string) (c : nat) :
  Server.first_entry p entries s = Some (b, c) ->
  In (b, c) entries
  /\ exists o, Server.sockets s !! c = Some o /\ p o = true.
Proof.
  induction entries as [|[b' c'] r IH]; intros H; [discriminate|]. cbn in H.
  destruct (Server.sockets s !! c') as [o|] eqn:Ec.
  - destruct (p o) eqn:Ep.
    + injection H as -> ->. split; [now left|]. now exists o.
    + destruct (IH H) as [H1 H2]. split; [now right|exact H2].
  - destruct (IH H) as [H1 H2]. split; [now right|exact H2].
Qed.

Lemma registered_accepted (V : list string) (s : Server.t) (b : string) (c : nat)
    (o : Server.ConnectedBridge) :
  sound V s -> Server.registered b s = Some (c, o) ->
  In (b, c) (Server.connectedBridges s) /\ accepted s c.
Proof.
  intros Hs H. unfold Server.registered in H.
  destruct (Server.map_get b _) as [c'|] eqn:Eg; [|discriminate].
  destruct (Server.sockets s !! c') as [o'|]; [|discriminate].
  injection H as -> ->. apply map_get_in in Eg.
  split; [exact Eg|exact (sound_registered _ _ Hs b c Eg)].
Qed.

Lemma sendDisconnect_served (V : list string) (s : Server.t) (b reason : string) :
  sound V s ->
  Forall (files_under V) (snd (Server.sendDisconnect b reason s))
  /\ Forall (serves_accepted s) (snd (Server.sendDisconnect b reason s)).
Proof.
  intros Hs. unfold Server.sendDisconnect.
  destruct (Server.registered b s) as [[c o]|] eqn:Er; cbn [snd].
  - destruct (registered_accepted V s b c o Hs Er) as [_ Ha].
    split; repeat constructor. exact Ha.
  - split; constructor.
Qed.

Lemma step_sound (H : Z) (V : list string) (tk : Server.tick) (ev : Server.event)
    (s : Server.t) :
  sound V s ->
  let r := Server.step H tk ev s in
  let V' := V ++ validated [(tk, ev)] in
  sound V' (fst r)
  /\ (forall c', accepted s c' -> accepted (fst r) c')
  /\ Forall (files_under V') (snd r)
  /\ Forall (serves_accepted (fst r)) (snd r).
Proof.
  intros Hs.
  assert (Hsame : forall es : list Server.effect,
            validated [(tk, ev)] = [] ->
            Forall (files_under V) es -> Forall (serves_accepted s) es ->
            sound (V ++ validated [(tk, ev)]) s
            /\ (forall c', accepted s c' -> accepted s c')
            /\ Forall (files_under (V ++ validated [(tk, ev)])) es
            /\ Forall (serves_accepted s) es).
  { intros es -> H1 H2. rewrite app_nil_r. now refine (conj _ (conj _ (conj _ _))). }
  destruct ev as [| |c m|c|c| |b c reason|b cmd user|b reason|user reason
                 |user n|user|]; cbn [Server.step].
  - none_validated. cbn [Server.setup fst snd].
    refine (conj _ (conj _ (conj _ _))); [|auto|repeat constructor..].
    destruct Hs as [H1 H2 H3]. now split.
  - none_validated. cbn [Server.on_connection fst snd].
    assert (Hg : forall c', accepted s c' ->
                 accepted {| Server.wss := Server.wss s;
                             Server.sockets := Server.sockets s ++
                               [{| Server.bridgeId := None; Server.tenantId := None;
                                   Server.authenticated := false;
                                   Server.lastHeartbeat := Server.now tk;
                                   Server.reconnectCount := 0 |}];
                             Server.connectedBridges := Server.connectedBridges s;
                             Server.heartbeatCheckInterval :=
                               Server.heartbeatCheckInterval s;
                             Server.bridgeLogStore := Server.bridgeLogStore s |} c').
    { intros c' (o & Ho & Ha). exists o. split; [|exact Ha]. cbn.
      now apply lookup_app_l_Some. }
    refine (conj _ (conj Hg (conj _ _))); [|repeat constructor..].
    split; cbn.
    + apply Hs.
    + intros b c Hin. apply Hg. exact (sound_registered _ _ Hs b c Hin).
    + intros c o Ho. apply lookup_snoc_Some in Ho as [(_ & Ho)|(_ & <-)].
      * exact (sound_sockets _ _ Hs c o Ho).
      * left. now repeat split.
  - destruct (Server.sockets s !! c) as [o|] eqn:Ec.
    + now apply handleMessage_sound.
    + cbn [fst snd]. refine (conj _ (conj _ (conj _ _))); [|auto|constructor..].
      eapply sound_mono; [|exact Hs]. intros u Hu. apply in_or_app. now left.
  - destruct (Server.sockets s !! c) as [o|] eqn:Ec; [|apply Hsame; [reflexivity|constructor..]].
    none_validated. unfold Server.on_close.
    destruct (Server.truthy (Server.bridgeId o)) eqn:Eb; cbn [fst snd].
    + assert (Hb : Server.bridgeId o <> None)
        by (destruct (Server.bridgeId o); [discriminate|discriminate Eb]).
      destruct (user_of_accepted V s c o Hs Ec (or_intror Hb)) as [Hu _].
      refine (conj _ (conj _ (conj _ _))).
      * destruct (Server.bridgeId o) as [b|]; [now apply sound_delete|].
        now rewrite set_bridges_same.
      * auto.
      * destruct (Server.truthy (Server.tenantId o)); repeat constructor; exact Hu.
      * destruct (Server.truthy (Server.tenantId o)); repeat constructor.
    + refine (conj Hs (conj _ (conj _ _))); [auto|repeat constructor..].
  - destruct (Server.sockets s !! c) as [o|] eqn:Ec; (apply Hsame; [reflexivity| |]);
      unfold Server.on_auth_timeout; try destruct (negb _); repeat constructor.
  - none_validated.
    rewrite (stale_check_filter H tk s (sound_keys _ _ Hs)). cbn [fst snd].
    refine (conj _ (conj _ (conj _ _))).
    + apply sound_set_bridges; [exact Hs|apply nodup_filter, Hs|].
      intros [b c] Hin. apply List.filter_In in Hin as [Hin _].
      exact (sound_registered _ _ Hs b c Hin).
    + auto.
    + apply List.Forall_forall. intros e He. apply in_map_iff in He as (p & <- & _).
      exact I.
    + apply List.Forall_forall. intros e He. apply in_map_iff in He as (p & <- & _).
      exact I.
  - none_validated. unfold Server.on_close_timer. cbn [fst snd].
    refine (conj _ (conj _ (conj _ _))); [now apply sound_delete|auto|repeat constructor..].
  - apply Hsame; [reflexivity| |]; unfold Server.sendCommand;
      (destruct (Server.registered b s) as [[c o]|] eqn:Er; [|constructor]);
      (destruct (Server.authenticated o) eqn:Ea; [|constructor]); cbn [snd].
    + constructor; [exact I|].
      destruct user as [u|]; [|destruct (Server.truthy _); [destruct (Server.tenantId o)|]];
        try constructor; try (destruct (Server.nonzero _)); repeat constructor.
    + constructor.
      * exact (proj2 (registered_accepted V s b c o Hs Er)).
      * destruct user as [u|]; [|destruct (Server.truthy _); [destruct (Server.tenantId o)|]];
          try constructor; try (destruct (Server.nonzero _)); repeat constructor.
  - apply Hsame; [reflexivity|..]; now apply (sendDisconnect_served V).
  - apply Hsame; [reflexivity|..]; unfold Server.disconnectBridgeByUserId;
      (destruct (Server.first_entry _ _ s) as [[b c]|]; [|constructor]); cbn [snd];
      now apply (sendDisconnect_served V).
  - apply Hsame; [reflexivity|..]; unfold Server.requestBridgeLogs;
      (destruct (Server.first_entry _ _ s) as [[b c]|] eqn:Ef; [|constructor]); cbn [snd];
      repeat constructor.
    apply first_entry_some in Ef as (Hin & _).
    exact (sound_registered _ _ Hs b c Hin).
  - none_validated. cbn [fst snd].
    refine (conj _ (conj _ (conj _ _))); [now apply sound_set_logs|auto|constructor..].
  - none_validated. unfold Server.shutdown. cbn [fst snd].
    refine (conj _ (conj _ (conj _ _))).
    + apply sound_set_bridges; [exact Hs|constructor|intros p []].
    + auto.
    + apply List.Forall_forall. intros e He.
      apply in_app_or in He as [He|He]; [|apply in_app_or in He as [He|He]].
      * destruct (Server.heartbeatCheckInterval s); [|destruct He].
        destruct He as [<-|[]]. exact I.
      * apply in_map_iff in He as (p & <- & _). exact I.
      * destruct (Server.wss s); [|destruct He]. destruct He as [<-|[]]. exact I.
    + apply List.Forall_forall. intros e He.
      apply in_app_or in He as [He|He]; [|apply in_app_or in He as [He|He]].
      * destruct (Server.heartbeatCheckInterval s); [|destruct He].
        destruct He as [<-|[]]. exact I.
      * apply in_map_iff in He as (p & <- & _). exact I.
      * destruct (Server.wss s); [|destruct He]. destruct He as [<-|[]]. exact I.
Qed.



(** *** Runs *)

Lemma files_under_mono (V V' : list string) (e : Server.effect) :
  (forall u, In u V -> In u V') -> files_under V e -> files_under V' e.
Proof.
  intros HV. destruct e as [| | | | | | | | | |op]; try exact id. cbn.
  destruct (data_user op); [apply HV|exact id].
Qed.

Lemma serves_accepted_mono (s s' : Server.t) (e : Server.effect) :
  (forall c, accepted s c -> accepted s' c) ->
  serves_accepted s e -> serves_accepted s' e.
Proof.
  intros Hg. unfold serves_accepted. destruct (served e); [apply Hg|exact id].
Qed.

Lemma validated_cons (x : Server.tick * Server.event)
    (evs : list (Server.tick * Server.event)) :
  validated (x :: evs) = validated [x] ++ validated evs.
Proof. unfold validated. cbn. now destruct (validated_by x). Qed.

Lemma run_sound (H : Z) (evs : list (Server.tick * Server.event))
    (V : list string) (s : Server.t) :
  sound V s ->
  sound (V ++ validated evs) (fst (Server.run H evs s))
  /\ (forall c, accepted s c -> accepted (fst (Server.run H evs s)) c)
  /\ Forall (files_under (V ++ validated evs)) (snd (Server.run H evs s))
  /\ Forall (serves_accepted (fst (Server.run H evs s))) (snd (Server.run H evs s)).
Proof.
  revert V s. induction evs as [|[tk ev] evs IH]; intros V s Hs.
  { cbn. rewrite app_nil_r. refine (conj Hs (conj _ (conj _ _))); [auto|constructor..]. }
  cbn [Server.run]. rewrite validated_cons, app_assoc.
  destruct (step_sound H V tk ev s Hs) as (H1 & H2 & H3 & H4).
  destruct (Server.step H tk ev s) as [s1 e1]. cbn [fst snd] in *.
  destruct (IH _ s1 H1) as (H5 & H6 & H7 & H8).
  destruct (Server.run H evs s1) as [s2 e2]. cbn [fst snd] in *.
  refine (conj H5 (conj _ (conj _ _))).
  - auto.
  - apply List.Forall_app. split; [|exact H7].
    eapply List.Forall_impl; [|exact H3]. intros e.
    apply files_under_mono. intros u Hu. apply in_or_app. now left.
  - apply List.Forall_app. split; [|exact H8].
    eapply List.Forall_impl; [|exact H4]. intros e.
    now apply serves_accepted_mono.
Qed.

Lemma reached_sound (H : Z) (evs : list (Server.tick * Server.event)) :
  sound (validated evs) (reached H evs).
Proof. exact (proj1 (run_sound H evs [] Server.init sound_init)). Qed.

Lemma owner_snoc (c : nat) (hist : list (Server.tick * Server.event))
    (te : Server.tick * Server.event) :
  owner c (hist ++ [te])
  = match owner_by c te with Some u => Some u | None => owner c hist end.
Proof. unfold owner. now rewrite fold_left_app. Qed.

Lemma owned_keep (hist : list (Server.tick * Server.event)) (te : Server.tick * Server.event)
    (s s' : Server.t) :
  (forall c, owner_by c te = None) ->
  (forall c o, Server.sockets s' !! c = Some o ->
     Server.tenantId o = None
     \/ exists o', Server.sockets s !! c = Some o'
                   /\ Server.tenantId o' = Server.tenantId o) ->
  owned hist s -> owned (hist ++ [te]) s'.
Proof.
  intros Hn Hs Ho c o u Hc Hu. rewrite owner_snoc, Hn.
  destruct (Hs c o Hc) as [E|(o' & Hc' & E)]; [congruence|].
  apply (Ho c o' u Hc'). congruence.
Qed.

Lemma owned_same (hist : list (Server.tick * Server.event)) (te : Server.tick * Server.event)
    (s s' : Server.t) :
  (forall c, owner_by c te = None) ->
  Server.sockets s' = Server.sockets s ->
  owned hist s -> owned (hist ++ [te]) s'.
Proof.
  intros Hn E. apply owned_keep; [exact Hn|]. intros c o Hc. right. exists o.
  split; [now rewrite <- E|reflexivity].
Qed.

Lemma check_entries_sockets (tk : Server.tick) (H : Z) (entries : list (string * nat)) :
  forall s, Server.sockets (fst (Server.check_entries tk H entries s)) = Server.sockets s.
Proof.
  induction entries as [|[b c] r IH]; intros s; cbn [Server.check_entries]; [reflexivity|].
  destruct (Server.sockets s !! c) as [o|]; [|apply IH].
  destruct (Z.ltb _ _); [|apply IH].
  specialize (IH (Server.set_bridges (Server.map_delete b (Server.connectedBridges s)) s)).
  destruct (Server.check_entries tk H r _) as [s1 e1]. exact IH.
Qed.

(** One input: the tenant of every socket stays its owner. *)
Lemma step_owned (H : Z) (hist : list (Server.tick * Server.event)) (tk : Server.tick)
    (ev : Server.event) (s : Server.t) :
  owned hist s -> owned (hist ++ [(tk, ev)]) (fst (Server.step H tk ev s)).
Proof.
  intros Ho.
  destruct ev as [| |c m|c|c| |b c reason|b cmd user|b reason|user reason
                 |user n|user|]; cbn [Server.step];
    try (apply (owned_same hist _ s); [reflexivity|reflexivity|exact Ho]).
  - apply (owned_keep hist _ s); [reflexivity| |exact Ho].
    intros c o Hc. cbn in Hc. apply lookup_app_Some in Hc as [Hc|[_ Hc]].
    + right. now exists o.
    + left. destruct (c - length (Server.sockets s))%nat; [|discriminate Hc].
      now injection Hc as <-.
  - destruct (Server.sockets s !! c) as [o|] eqn:Hc;
      [|intros c' o' u Hc' Hu; rewrite owner_snoc;
        destruct (owner_by c' (tk, Server.Message c m)) eqn:E;
        [|now apply (Ho c' o' u)];
        unfold owner_by in E; cbn [snd fst] in E;
        destruct m as [[bridge credential pv| | | | |]| | |]; try discriminate E;
        destruct (Nat.eqb_spec c c') as [->|Hne]; [|discriminate E];
        cbn [fst] in Hc'; congruence].
    assert (Hplain : forall s', Server.sockets s' = Server.sockets s ->
              (forall c', owner_by c' (tk, Server.Message c m) = None) ->
              owned (hist ++ [(tk, Server.Message c m)]) s').
    { intros s' E Hn. now apply (owned_same hist _ s). }
    destruct m as [f|l d|ty|]; cbn [Server.handleMessage];
      try (apply Hplain; reflexivity).
    + destruct f as [bridge credential pv|at_ v le ec rc|cmd at_|cmd st at_ res err
                    |bid at_ evs' fl|at_ v data]; cbn [Server.handleMessage].
      * unfold Server.handleAuth.
        destruct (Server.validateCredential tk bridge credential) as [cred|] eqn:Hv.
        -- intros c' o' u Hc' Hu. rewrite owner_snoc. unfold owner_by. cbn [snd fst].
           cbn [fst Server.sockets Server.set_bridges Server.set_socket] in Hc'.
           destruct (Nat.eqb_spec c c') as [->|Hne].
           ++ rewrite Hv. cbn [option_map].
              rewrite list_lookup_insert_eq in Hc' by now apply lookup_lt_Some in Hc.
              injection Hc' as <-. cbn in Hu. congruence.
           ++ rewrite list_lookup_insert_ne in Hc' by exact Hne.
              now apply (Ho c' o' u).
        -- intros c' o' u Hc' Hu. rewrite owner_snoc. unfold owner_by. cbn [snd fst].
           rewrite Hv. cbn [option_map]. destruct (Nat.eqb c c'); now apply (Ho c' o' u).
      * destruct (negb (Server.authenticated o)); [now apply Hplain|].
        apply (owned_keep hist _ s); [reflexivity| |exact Ho].
        intros c' o' Hc'. right.
        cbn [Server.handleHeartbeat fst Server.sockets Server.set_socket] in Hc'.
        destruct (Nat.eq_dec c c') as [<-|Hne].
        -- rewrite list_lookup_insert_eq in Hc' by now apply lookup_lt_Some in Hc.
           injection Hc' as <-. now exists o.
        -- rewrite list_lookup_insert_ne in Hc' by exact Hne. now exists o'.
      * destruct (negb (Server.authenticated o)); now apply Hplain.
      * destruct (negb (Server.authenticated o)); now apply Hplain.
      * destruct (negb (Server.authenticated o)); now apply Hplain.
      * destruct (negb (Server.authenticated o)); now apply Hplain.
    + destruct (negb (Server.authenticated o)); now apply Hplain.
  - apply (owned_same hist _ s); [reflexivity| |exact Ho].
    destruct (Server.sockets s !! c) as [o|]; [|reflexivity].
    unfold Server.on_close. now destruct (Server.truthy _).
  - apply (owned_same hist _ s); [reflexivity| |exact Ho].
    now destruct (Server.sockets s !! c).
  - apply (owned_same hist _ s); [reflexivity| |exact Ho].
    apply check_entries_sockets.
Qed.

Lemma run_owned (H : Z) (evs : list (Server.tick * Server.event)) :
  forall hist s, owned hist s -> owned (hist ++ evs) (fst (Server.run H evs s)).
Proof.
  induction evs as [|[tk ev] evs IH]; intros hist s Ho.
  { now rewrite app_nil_r. }
  cbn [Server.run]. pose proof (step_owned H hist tk ev s Ho) as H1.
  destruct (Server.step H tk ev s) as [s1 e1]. cbn [fst] in H1.
  specialize (IH _ s1 H1). destruct (Server.run H evs s1) as [s2 e2].
  now rewrite <- app_assoc in IH.
Qed.

Lemma reached_owned (H : Z) (evs : list (Server.tick * Server.event)) :
  owned evs (reached H evs).
Proof.
  apply (run_owned H evs [] Server.init). intros c o u Hc. discriminate Hc.
Qed.

(** X22.  Tenant isolation, socket by socket: in any state the server
    reaches from its start, a storage call that files data (bridge status,
    heartbeat, full sync, entity states, audit entries of the socket) is
    made only in reaction to a message or to the close of a socket, and it
    files under the user whose credential the storage validated last on an
    [authenticate] message of that same socket. *)
Theorem data_filed_under_socket_owner (H : Z)
    (evs : list (Server.tick * Server.event)) (tk : Server.tick) (ev : Server.event) :
  Forall (filed_by_owner (evs ++ [(tk, ev)]) ev)
    (snd (Server.step H tk ev (reached H evs))).
Proof.
  pose proof (reached_owned H evs) as Ho.
  pose proof (sound_sockets _ _ (reached_sound H evs)) as Hs.
  set (s := reached H evs) in *. clearbody s.
  assert (Hu : forall c o, Server.sockets s !! c = Some o ->
            Server.authenticated o = true \/ Server.truthy (Server.bridgeId o) = true ->
            forall m, (forall c', owner_by c' (tk, m) = None) ->
            exists c', Some c = Some c'
                       /\ owner c' (evs ++ [(tk, m)]) = Some (Server.user_of o)).
  { intros c o Hc Ha m Hn. exists c. split; [reflexivity|]. rewrite owner_snoc, Hn.
    destruct (Hs c o Hc) as [(H1 & H2 & _)|(_ & u & H3 & _)].
    - destruct Ha as [Ha|Ha]; [congruence|]. rewrite H2 in Ha. discriminate Ha.
    - unfold Server.user_of. rewrite H3. now apply (Ho c o u). }
  destruct ev as [| |c m|c|c| |b c reason|b cmd user|b reason|user reason
                 |user n|user|]; cbn [Server.step].
  - repeat constructor.
  - repeat constructor.
  - destruct (Server.sockets s !! c) as [o|] eqn:Hc; [|constructor].
    destruct m as [f|l d|ty|]; cbn [Server.handleMessage];
      try (repeat constructor; fail).
    + destruct f as [bridge credential pv|at_ v le ec rc|cmd at_|cmd st at_ res err
                    |bid at_ evs' fl|at_ v data]; cbn [Server.handleMessage].
      * unfold Server.handleAuth.
        destruct (Server.validateCredential tk bridge credential) as [cred|] eqn:Hv;
          [|repeat constructor].
        assert (Hw : exists c', Some c = Some c'
                     /\ owner c' (evs ++ [(tk, Server.Message c
                          (Server.From (Cloud.authenticate bridge credential pv)))])
                        = Some (Server.userId cred)).
        { exists c. split; [reflexivity|]. rewrite owner_snoc. unfold owner_by.
          cbn [snd fst]. now rewrite Nat.eqb_refl, Hv. }
        cbn [snd app]. repeat constructor; exact Hw.
      * destruct (Server.authenticated o) eqn:Ha; cbn [negb]; [|repeat constructor].
        cbn [Server.handleHeartbeat snd].
        destruct (Server.truthy _); repeat constructor.
        apply (Hu c o Hc (or_introl Ha)). reflexivity.
      * destruct (Server.authenticated o); repeat constructor.
      * destruct (Server.authenticated o) eqn:Ha; cbn [negb]; [|repeat constructor].
        cbn [snd]. unfold Server.handleCommandResult.
        destruct (Server.truthy _); repeat constructor.
        apply (Hu c o Hc (or_introl Ha)). reflexivity.
      * destruct (Server.authenticated o) eqn:Ha; cbn [negb]; [|repeat constructor].
        cbn [snd]. unfold Server.handleStateBatch. repeat constructor.
        apply (Hu c o Hc (or_introl Ha)). reflexivity.
      * destruct (Server.authenticated o) eqn:Ha; cbn [negb]; [|repeat constructor].
        cbn [snd]. unfold Server.handleFullSync.
        repeat constructor; cbn [filed_by_owner data_user]; try exact I;
          try (apply (Hu c o Hc (or_introl Ha)); reflexivity).
    + destruct (negb (Server.authenticated o)); constructor.
  - destruct (Server.sockets s !! c) as [o|] eqn:Hc; [|constructor].
    unfold Server.on_close. destruct (Server.truthy (Server.bridgeId o)) eqn:Hb;
      [|repeat constructor].
    cbn [snd]. destruct (Server.truthy (Server.tenantId o)); repeat constructor;
      apply (Hu c o Hc (or_intror Hb)); reflexivity.
  - destruct (Server.sockets s !! c) as [o|]; [|constructor].
    cbn [snd]. unfold Server.on_auth_timeout.
    destruct (negb _); repeat constructor.
  - unfold Server.checkStaleConnections.
    generalize (Server.connectedBridges s). intros l. revert s Ho Hs Hu.
    induction l as [|[b c] r IH]; intros s Ho Hs Hu; [constructor|].
    cbn [Server.check_entries].
    destruct (Server.sockets s !! c) as [o|]; [|now apply IH].
    destruct (Z.ltb _ _); [|now apply IH].
    specialize (IH (Server.set_bridges (Server.map_delete b (Server.connectedBridges s)) s)
                  Ho Hs Hu).
    destruct (Server.check_entries tk H r _) as [s1 e1]. cbn [snd] in *.
    constructor; [exact I|exact IH].
  - repeat constructor.
  - cbn [snd]. unfold Server.sendCommand.
    destruct (Server.registered b s) as [[c o]|]; [|constructor].
    destruct (Server.authenticated o); [|constructor]. cbn [snd].
    constructor; [exact I|].
    destruct (match user with Some u => Some u | None => _ end) as [u|]; [|constructor].
    destruct (Server.nonzero u); repeat constructor.
  - cbn [snd]. unfold Server.sendDisconnect.
    destruct (Server.registered b s) as [[c o]|]; repeat constructor.
  - cbn [snd]. unfold Server.disconnectBridgeByUserId.
    destruct (Server.first_entry _ _ _) as [[b c]|]; [|constructor].
    cbn [snd]. unfold Server.sendDisconnect.
    destruct (Server.registered b s) as [[c' o]|]; repeat constructor.
  - cbn [snd]. unfold Server.requestBridgeLogs.
    destruct (Server.first_entry _ _ _) as [[b c]|]; repeat constructor.
  - constructor.
  - cbn [Server.shutdown snd].
    repeat (apply List.Forall_app; split).
    + destruct (Server.heartbeatCheckInterval s); repeat constructor.
    + apply List.Forall_forall. intros e He. apply in_map_iff in He as (p & <- & _).
      exact I.
    + destruct (Server.wss s); repeat constructor.
Qed.

(** Two users, each with a bridge on its own socket: what a socket
    delivers is filed under its own user. *)
Lemma two_tenants_apart :
  snd (Server.step 60000 (accept_named 30)
         (Server.Message 0%nat (Server.From (Cloud.heartbeat "t" "2026.1" None 7 0)))
         (reached 60000 two_tenants))
  = [Server.Storage (Server.updateBridgeHeartbeat "41" "2026.1" 7)]
  /\ snd (Server.step 60000 (accept_named 30)
            (Server.Message 1%nat (Server.From (Cloud.heartbeat "t" "2026.1" None 9 0)))
            (reached 60000 two_tenants))
     = [Server.Storage (Server.updateBridgeHeartbeat "42" "2026.1" 9)].
Proof. split; reflexivity. Qed.

(** X23.  Over any run of the server from its start, every command, full
    sync request, log request and disconnect order is written to a socket
    on which a credential was validated: registrations never point at an
    unauthenticated socket. *)
Theorem served_sockets_are_authenticated (H : Z)
    (evs : list (Server.tick * Server.event)) :
  Forall (serves_accepted (reached H evs)) (snd (Server.run H evs Server.init)).
Proof. exact (proj2 (proj2 (proj2 (run_sound H evs [] Server.init sound_init)))). Qed.

(** X24.  When a socket closes, the bridge id it authenticated with is
    unregistered whichever socket holds the registration at that time:
    afterwards the bridge counts as not connected and commands for it are
    refused, also when the bridge had authenticated again on a newer
    socket that is still open. *)
Theorem close_unregisters_bridge (H : Z) (evs : list (Server.tick * Server.event))
    (tk : Server.tick) (c : nat) (o : Server.ConnectedBridge) (b : string) :
  Server.sockets (reached H evs) !! c = Some o ->
  Server.bridgeId o = Some b ->
  JS.truthy b = true ->
  let s' := fst (Server.step H tk (Server.Closed c) (reached H evs)) in
  Server.isBridgeConnected b s' = false
  /\ ~ In b (Server.getConnectedBridges s')
  /\ forall cmd user, Server.sendCommand b cmd user s' = (false, []).
Proof.
  intros Hc Hb Ht s'.
  assert (Es : s' = Server.set_bridges
                      (Server.map_delete b (Server.connectedBridges (reached H evs)))
                      (reached H evs)).
  { subst s'. cbn [Server.step]. rewrite Hc. unfold Server.on_close, Server.truthy.
    now rewrite Hb, Ht. }
  clearbody s'. subst s'.
  pose proof (sound_keys _ _ (reached_sound H evs)) as Hn.
  pose proof (map_get_delete b _ Hn) as Hg.
  assert (Hr : Server.registered b
                 (Server.set_bridges
                    (Server.map_delete b (Server.connectedBridges (reached H evs)))
                    (reached H evs)) = None).
  { unfold Server.registered. cbn. now rewrite Hg. }
  refine (conj _ (conj _ _)).
  - unfold Server.isBridgeConnected. now rewrite Hr.
  - unfold Server.getConnectedBridges. cbn. intros Hin.
    apply in_map_iff in Hin as ([b' c'] & E & Hin). cbn in E. subst b'.
    apply (in_map_get b c' _ (nodup_delete b _ Hn)) in Hin. congruence.
  - intros cmd user. unfold Server.sendCommand. now rewrite Hr.
Qed.

Lemma close_unregisters_bridge_witness :
  Server.registered "helm-bridge-1" (reached 60000 reconnected)
  = Some (1%nat, {| Server.bridgeId := Some "helm-bridge-1";
                    Server.tenantId := Some "42";
                    Server.authenticated := true;
                    Server.lastHeartbeat := 30;
                    Server.reconnectCount := 0 |})
  /\ Server.isBridgeConnected "helm-bridge-1"
       (fst (Server.step 60000 (accept_all 40) (Server.Closed 0%nat)
               (reached 60000 reconnected))) = false.
Proof.
  split; [reflexivity|].
  exact (proj1 (close_unregisters_bridge 60000 reconnected (accept_all 40) 0%nat
                  {| Server.bridgeId := Some "helm-bridge-1";
                     Server.tenantId := Some "42";
                     Server.authenticated := true;
                     Server.lastHeartbeat := 10;
                     Server.reconnectCount := 0 |}
                  "helm-bridge-1" eq_refl eq_refl eq_refl)).
Defined.

(** X25.  The stale check closes, with code 4003 and in the order of
    registration, exactly the registered sockets whose last heartbeat is
    more than three heartbeat intervals old, and removes exactly their
    registrations; sockets and the other registrations are untouched. *)
Theorem stale_check_closes_exactly_stale (H : Z)
    (evs : list (Server.tick * Server.event)) (tk : Server.tick) :
  Server.step H tk Server.HeartbeatCheck (reached H evs)
  = (Server.set_bridges
       (List.filter (fun p => negb (stale H tk (reached H evs) p))
          (Server.connectedBridges (reached H evs)))
       (reached H evs),
     map closes_stale
       (List.filter (stale H tk (reached H evs))
          (Server.connectedBridges (reached H evs)))).
Proof.
  cbn [Server.step]. apply stale_check_filter.
  exact (sound_keys _ _ (reached_sound H evs)).
Qed.

(** *** The log store *)

Lemma cap_length (l : list Server.DiagnosticLogEntry) :
  (length (Server.cap l) <= Server.MAX_STORED_LOGS)%nat
  /\ (length (Server.cap l) <= length l)%nat.
Proof.
  unfold Server.cap. destruct (Nat.ltb_spec Server.MAX_STORED_LOGS (length l)).
  - rewrite length_drop. lia.
  - lia.
Qed.

Lemma handleBridgeLogs_capped (tk : Server.tick) (l : list Server.DiagnosticLogEntry)
    (d : option json) (o : Server.ConnectedBridge) (s : Server.t) :
  capped s -> capped (Server.handleBridgeLogs tk l d o s).
Proof.
  intros Hs k st. unfold Server.handleBridgeLogs. cbn.
  intros Hk. apply lookup_insert_Some in Hk as [[_ <-]|[_ Hk]]; [|exact (Hs k st Hk)].
  cbn. destruct (cap_length
                   (Server.logs
                      match Server.bridgeLogStore s !! Server.tenantId o with
                      | Some st0 => st0
                      | None => {| Server.logs := []; Server.lastDiagnostics := None;
                                   Server.lastReceivedAt := Server.now tk;
                                   Server.totalReceived := 0 |}
                      end ++ l)) as [H1 H2].
  split; [exact H1|]. rewrite length_app in H2.
  destruct (Server.bridgeLogStore s !! Server.tenantId o) as [st0|] eqn:E.
  - destruct (Hs _ st0 E) as [_ H3]. lia.
  - cbn in *. lia.
Qed.

Lemma step_capped (H : Z) (tk : Server.tick) (ev : Server.event) (s : Server.t) :
  capped s -> capped (fst (Server.step H tk ev s)).
Proof.
  intros Hs.
  assert (Hl : forall s', Server.bridgeLogStore s' = Server.bridgeLogStore s -> capped s').
  { intros s' E k st. rewrite E. apply Hs. }
  destruct ev as [| |c m|c|c| |b c reason|b cmd user|b reason|user reason
                 |user n|user|]; cbn [Server.step]; try (now apply Hl).
  - destruct (Server.sockets s !! c) as [o|]; [|exact Hs].
    destruct m as [f|l d|ty|]; cbn [Server.handleMessage]; [| |exact Hs..].
    + destruct f as [bridge credential pv| | | | |];
        [|destruct (negb (Server.authenticated o)); try exact Hs; now apply Hl..].
      unfold Server.handleAuth. destruct (Server.validateCredential _ _ _);
        [now apply Hl|exact Hs].
    + destruct (negb (Server.authenticated o)); [exact Hs|].
      now apply handleBridgeLogs_capped.
  - destruct (Server.sockets s !! c) as [o|]; [|exact Hs].
    unfold Server.on_close. destruct (Server.truthy _); [now apply Hl|exact Hs].
  - destruct (Server.sockets s !! c) as [o|]; exact Hs.
  - unfold Server.checkStaleConnections. rewrite check_entries_eq. now apply Hl.
  - intros k st. cbn. intros Hk. apply lookup_delete_Some in Hk as [_ Hk].
    exact (Hs k st Hk).
Qed.

(** X26.  Over any run of the server from its start, the log list stored
    for a tenant never holds more than 1000 entries and never more than
    the count of entries received that is kept beside it. *)
Theorem stored_logs_capped (H : Z) (evs : list (Server.tick * Server.event)) :
  capped (reached H evs).
Proof.
  unfold reached.
  assert (Hg : forall s, capped s -> capped (fst (Server.run H evs s))).
  { induction evs as [|[tk ev] evs IH]; intros s Hs; [exact Hs|].
    cbn [Server.run]. pose proof (step_capped H tk ev s Hs) as H1.
    destruct (Server.step H tk ev s) as [s1 e1]. cbn [fst] in H1.
    pose proof (IH s1 H1) as H2.
    now destruct (Server.run H evs s1) as [s2 e2]. }
  apply Hg. intros k st Hk. cbn in Hk. now rewrite lookup_empty in Hk.
Qed.

End ServerFacts.

(** ** Bridge and server together *)

Module WireFacts.

Module Hub := HAWebSocketClient.
Module Cloud := CloudClient.
Import HelmBridge Spec Further.
Local Open Scope list_scope.

(** What the bridge writes when its cloud socket opens. *)
Lemma hello_frames (tk : tick) (b : t) (cr : CredentialStore.StoredCredentials) :
  CredentialStore.get (credentialStore b) = Some cr ->
  wire (snd (step tk CloudOpen b))
  = [Server.From (Cloud.authenticate (Cloud.bridgeName (cloudClient b))
                    (CredentialStore.bridgeCredential cr)
                    (Cloud.protocol (cloudClient b)))]
  /\ cloudClient (fst (step tk CloudOpen b))
     = Cloud.set_attempts 0 (Cloud.reconnectCount (cloudClient b))
         (Cloud.set_ws (Some Cloud.OPEN) (cloudClient b))
  /\ credentialStore (fst (step tk CloudOpen b)) = credentialStore b.
Proof.
  intros Hg. cbn [step].
  destruct (BridgeFacts.with_cloud_frame tk
              (Cloud.on_open (cloudClient b) (credentialStore b)) b) as [H1 H2].
  split; [|split; [exact H1|exact H2]].
  unfold with_cloud, Cloud.on_open, Cloud.sendAuth. rewrite Hg. reflexivity.
Qed.


(** X27.  A bridge whose credential the storage does not validate is
    unpaired by the handshake: the server answers the bridge's
    [authenticate] frame with the failure "Invalid or revoked credential"
    and closes the socket with code 4002 without changing its own state;
    the bridge, reading that answer, erases its credential, provided the
    credential file can be removed, and from then on neither opens nor
    schedules a cloud connection, as long as no run of the pairing poll
    stores a credential. *)
Theorem rejected_credential_ends_pairing (H : Z) (stk : Server.tick) (c : nat)
    (o : Server.ConnectedBridge) (s : Server.t) (tk : tick) (b : t)
    (cr : CredentialStore.StoredCredentials) (later : list (tick * event)) :
  Server.sockets s !! c = Some o ->
  CredentialStore.get (credentialStore b) = Some cr ->
  Server.validateCredential stk (Cloud.bridgeName (cloudClient b))
    (CredentialStore.bridgeCredential cr) = None ->
  disk tk = true ->
  never_paired later ->
  let r := handshake H stk c s tk b in
  fst r = (s, [Server.Send c (Cloud.auth_result false None
                                (Some "Invalid or revoked credential"));
               Server.Close c 4002 "Authentication failed"])
  /\ revoked (fst (snd r))
  /\ CredentialStore.file (credentialStore (fst (snd r))) = None
  /\ CredentialStore.get (credentialStore (fst (snd r))) = None
  /\ Forall (fun x => ~ cloud_reconnects x) (snd (run later (fst (snd r)))).
Proof.
  intros Hc Hg Hv Hrm Hnp r.
  destruct (hello_frames tk b cr Hg) as (Hw & Hcl & Hst).
  assert (Ha : fst r = (s, [Server.Send c (Cloud.auth_result false None
                                             (Some "Invalid or revoked credential"));
                            Server.Close c 4002 "Authentication failed"])).
  { unfold r, handshake, uplink. cbn [fst snd]. rewrite Hw.
    cbn [arrive map Server.run Server.step]. rewrite Hc.
    cbn [Server.handleMessage]. unfold Server.handleAuth. rewrite Hv. reflexivity. }
  assert (Hb : snd r
               = step tk (CloudMessage (Cloud.auth_result false None
                                          (Some "Invalid or revoked credential")))
                   (fst (step tk CloudOpen b))).
  { pose proof Ha as Ha'. unfold r, handshake in Ha' |- *.
    cbn [fst snd] in Ha' |- *. cbv zeta in Ha' |- *. cbn [fst snd] in Ha' |- *.
    rewrite Ha'. unfold downlink. cbn [snd].
    assert (E : replies c [Server.Send c (Cloud.auth_result false None
                                            (Some "Invalid or revoked credential"));
                           Server.Close c 4002 "Authentication failed"]
                = [Cloud.auth_result false None (Some "Invalid or revoked credential")]).
    { unfold replies. cbn. now rewrite Nat.eqb_refl. }
    rewrite E. cbn [deliver map run].
    destruct (step tk _ (fst (step tk CloudOpen b))) as [b2 o2]. cbn.
    now rewrite app_nil_r. }
  split; [exact Ha|]. rewrite Hb. clearbody r. clear Ha Hb r.
  set (b1 := fst (step tk CloudOpen b)) in *. clearbody b1.
  assert (Hr : cloudClient (fst (step tk (CloudMessage
                 (Cloud.auth_result false None (Some "Invalid or revoked credential"))) b1))
               = Cloud.set_shouldReconnect false (cloudClient b1)
               /\ credentialStore (fst (step tk (CloudMessage
                    (Cloud.auth_result false None (Some "Invalid or revoked credential"))) b1))
                  = erased (credentialStore b1)).
  { cbn [step Cloud.handleMessage]. unfold Cloud.handleAuthResult.
    change (Cloud.is_revocation
              (JS.or_default (Some "Invalid or revoked credential") "Unknown error"))
      with true. cbv iota. rewrite (RevocationFacts.clear_done _ _ (or_introl Hrm)).
    match goal with
    | |- context [with_cloud tk ?r0 ?b0] =>
        destruct (BridgeFacts.with_cloud_frame tk r0 b0) as [-> ->]
    end. split; reflexivity. }
  destruct Hr as [Hr1 Hr2].
  assert (Hrev : revoked (fst (step tk (CloudMessage
                   (Cloud.auth_result false None (Some "Invalid or revoked credential"))) b1))).
  { split; [now rewrite Hr1|now rewrite Hr2]. }
  refine (conj Hrev (conj _ (conj _ _))).
  - now rewrite Hr2.
  - now rewrite Hr2.
  - now apply RevocationFacts.run_revoked.
Qed.

Lemma rejected_credential_ends_pairing_witness :
  revoked (fst (snd (handshake 60000 (reject_all 5) 0 one_socket tk0 paired0))).
Proof.
  exact (proj1 (proj2 (rejected_credential_ends_pairing 60000 (reject_all 5) 0
                         {| Server.bridgeId := None; Server.tenantId := None;
                            Server.authenticated := false; Server.lastHeartbeat := 0;
                            Server.reconnectCount := 0 |}
                         one_socket tk0 paired0
                         {| CredentialStore.bridgeId := Some "helm-bridge-abcd1234";
                            CredentialStore.bridgeCredential := "bc_deadbeef";
                            CredentialStore.tenantId := Some "42";
                            CredentialStore.pairedAt := None;
                            CredentialStore.cloudUrl := None |}
                         [] eq_refl eq_refl eq_refl eq_refl
                         (List.Forall_nil _)))).
Defined.





(** *** State changes *)

Lemma mapBatch_latest (tk : tick) (l : list HAStateChangedEvent) :
  match mapBatch tk l with
  | Some es =>
      complete l = true
      /\ map (fun e => (Cloud.entityId e, Cloud.newState e)) es = omap latest l
      /\ length es = length l
  | None => complete l = false
  end.
Proof.
  induction l as [|e l IH]; cbn [mapBatch]; [now cbn|].
  unfold toProtocol, complete, latest. cbn -[mapBatch].
  destruct (new_state e) as [n|]; [|reflexivity]. cbn -[mapBatch].
  destruct (mapBatch tk l) as [es|].
  - destruct IH as (H1 & H2 & H3). cbn. repeat split.
    + exact H1.
    + now rewrite H2.
    + now rewrite H3.
  - exact IH.
Qed.

(** X29.  What the storage gets of the hub's state changes: the changes
    that arrive between two flushes, from an empty buffer, are filed by the
    server at the flush as one list of entity id and new state, in the
    order of arrival and under the tenant of the socket, provided that the
    cloud session is up and no change removes its entity; otherwise the
    server receives and files nothing of them.  The server's own state
    does not change. *)
Theorem state_changes_reach_storage (H : Z) (stk : Server.tick) (c : nat)
    (o : Server.ConnectedBridge) (s : Server.t) (tk : tick) (b : t)
    (evs : list (tick * event)) :
  Server.sockets s !! c = Some o ->
  Server.authenticated o = true ->
  stateChangeQueue b = [] ->
  no_flush evs ->
  uplink H stk c (snd (step tk BatchTimer (fst (run evs b)))) s
  = (s, if Cloud.isConnected (cloudClient (fst (run evs b)))
           && complete (state_changes evs) && some_change (state_changes evs)
        then [Server.Storage
                (Server.updateEntityStates (Server.user_of o)
                   (omap latest (state_changes evs)))]
        else []).
Proof.
  intros Hc Ha Hempty Hnf.
  assert (Hq : stateChangeQueue (fst (run evs b)) = state_changes evs).
  { now rewrite BatchFacts.run_queue, Hempty. }
  set (b1 := fst (run evs b)) in *. clearbody b1.
  cbn [step]. unfold flushStateChanges. rewrite Hq.
  destruct (state_changes evs) as [|e q] eqn:Hsc.
  { cbn [fst snd some_change]. rewrite andb_false_r. reflexivity. }
  cbn [cloudClient set_queue some_change]. rewrite andb_true_r.
  destruct (Cloud.isConnected (cloudClient b1)) eqn:Hcn; [|reflexivity].
  cbn [andb]. pose proof (mapBatch_latest tk (e :: q)) as Hm.
  destruct (mapBatch tk (e :: q)) as [es|]; [|now rewrite Hm].
  destruct Hm as (H1 & H2 & H3). rewrite H1. cbn [fst snd].
  destruct es as [|x xs]; [discriminate H3|].
  rewrite (BatchFacts.sendStateBatch_connected _ _ _ _ _ Hcn).
  unfold uplink.
  change (wire (map CloudDo [Cloud.WsSend (Cloud.state_batch (uuid tk) (now tk) (x :: xs) false)]))
    with [Server.From (Cloud.state_batch (uuid tk) (now tk) (x :: xs) false)].
  cbn [arrive map Server.run Server.step]. rewrite Hc.
  cbn [Server.handleMessage]. rewrite Ha. cbn [negb].
  unfold Server.handleStateBatch. now rewrite H2.
Qed.

Lemma state_changes_reach_storage_witness :
  snd (uplink 60000 (accept_all 50) 0
         (snd (step tk0 BatchTimer
                 (fst (run [(tk0, HubMessage (Hub.event (Some kitchen_on)));
                            (tk0, HubMessage (Hub.event (Some hall_on)))] both_up))))
         in_session)
  = [Server.Storage
       (Server.updateEntityStates "42"
          [("light.kitchen",
            {| Cloud.s_state := "on"; Cloud.s_attributes := "{brightness:255}";
               Cloud.lastChanged := "2026-01-19T10:00:00.000Z";
               Cloud.lastUpdated := "2026-01-19T10:00:00.000Z" |});
           ("light.hall",
            {| Cloud.s_state := "on"; Cloud.s_attributes := "{}";
               Cloud.lastChanged := "2026-01-19T10:00:00.100Z";
               Cloud.lastUpdated := "2026-01-19T10:00:00.100Z" |})])].
Proof.
  refine (f_equal snd
            (state_changes_reach_storage 60000 (accept_all 50) 0
               {| Server.bridgeId := Some "helm-bridge-abcd1234";
                  Server.tenantId := Some "42"; Server.authenticated := true;
                  Server.lastHeartbeat := 10; Server.reconnectCount := 0 |}
               in_session tk0 both_up
               [(tk0, HubMessage (Hub.event (Some kitchen_on)));
                (tk0, HubMessage (Hub.event (Some hall_on)))]
               eq_refl eq_refl eq_refl _)).
  repeat constructor.
Defined.


(** *** Disconnecting from the cloud's side *)

(** X30.  When a user who has a registered bridge disconnects or resets it
    (reasons [user_disconnected] and [user_reset], the two the routes
    use), the server writes the order to the socket of the user's first
    registration and arms a one-second timer; the bridge, reading the
    order, drops its socket and erases its credential, provided the
    credential file can be removed, and never again opens or schedules a
    cloud connection, as long as no run of the pairing poll stores a
    credential; and when the timer fires the server closes the socket with
    code 4000 and the bridge id is no longer registered. *)
Theorem user_disconnect_unpairs_bridge (H : Z) (evs : list (Server.tick * Server.event))
    (stk : Server.tick) (user reason bridge : string) (c : nat) (tk : tick) (b : t)
    (later : list (tick * event)) :
  Server.first_entry (Server.of_tenant user)
    (Server.connectedBridges (reached H evs)) (reached H evs) = Some (bridge, c) ->
  reason = "user_disconnected" \/ reason = "user_reset" ->
  disk tk = true ->
  never_paired later ->
  let order := Server.step H stk (Server.DisconnectBridgeByUserId user reason)
                 (reached H evs) in
  let timer := Server.step H stk (Server.CloseTimer bridge c reason) (reached H evs) in
  order = (reached H evs,
           [Server.Send c (Cloud.disconnect_request (Some reason));
            Server.SetCloseTimer bridge c reason 1000])
  /\ Cloud.ws (cloudClient (fst (downlink tk c (snd order) b))) = None
  /\ revoked (fst (downlink tk c (snd order) b))
  /\ CredentialStore.file (credentialStore (fst (downlink tk c (snd order) b))) = None
  /\ CredentialStore.get (credentialStore (fst (downlink tk c (snd order) b))) = None
  /\ Forall (fun x => ~ cloud_reconnects x)
       (snd (run later (fst (downlink tk c (snd order) b))))
  /\ snd timer = [Server.Close c 4000 reason]
  /\ Server.isBridgeConnected bridge (fst timer) = false.
Proof.
  intros Hf Hreason Hrm Hnp order timer.
  pose proof (sound_keys _ _ (ServerFacts.reached_sound H evs)) as Hn.
  destruct (ServerFacts.first_entry_some _ _ _ _ _ Hf) as (Hin & o & Ho & _).
  assert (Hord : order = (reached H evs,
                          [Server.Send c (Cloud.disconnect_request (Some reason));
                           Server.SetCloseTimer bridge c reason 1000])).
  { unfold order. cbn [Server.step]. unfold Server.disconnectBridgeByUserId.
    rewrite Hf. unfold Server.sendDisconnect, Server.registered.
    rewrite (ServerFacts.in_map_get bridge c _ Hn Hin), Ho. reflexivity. }
  rewrite Hord. clearbody order. clear Hord order. cbn [snd].
  assert (Hd : downlink tk c
                 [Server.Send c (Cloud.disconnect_request (Some reason));
                  Server.SetCloseTimer bridge c reason 1000] b
               = (fst (step tk (CloudMessage (Cloud.disconnect_request (Some reason))) b),
                  snd (step tk (CloudMessage (Cloud.disconnect_request (Some reason))) b))).
  { unfold downlink.
    assert (E : replies c [Server.Send c (Cloud.disconnect_request (Some reason));
                           Server.SetCloseTimer bridge c reason 1000]
                = [Cloud.disconnect_request (Some reason)]).
    { unfold replies. cbn. now rewrite Nat.eqb_refl. }
    rewrite E. cbn [deliver map run].
    destruct (step tk _ b) as [b2 o2]. cbn. now rewrite app_nil_r. }
  rewrite Hd. cbn [fst].
  set (b1 := fst (step tk (CloudMessage (Cloud.disconnect_request (Some reason))) b)).
  assert (Hb : cloudClient b1
               = fst (Cloud.disconnect (Cloud.set_shouldReconnect false (cloudClient b)))
               /\ credentialStore b1 = erased (credentialStore b)).
  { unfold b1. cbn [step Cloud.handleMessage].
    destruct (Cloud.disconnect (Cloud.set_shouldReconnect false (cloudClient b)))
      as [s2 e2] eqn:Hdis.
    assert (E : (String.eqb reason "user_disconnected" || String.eqb reason "user_reset")
                = true) by (destruct Hreason as [-> | ->]; reflexivity).
    rewrite E, (RevocationFacts.clear_done _ _ (or_introl Hrm)).
    match goal with
    | |- context [with_cloud tk ?r0 ?b0] =>
        destruct (BridgeFacts.with_cloud_frame tk r0 b0) as [-> ->]
    end.
    split; reflexivity. }
  destruct Hb as [Hb1 Hb2]. clearbody b1.
  assert (Hrev : revoked b1).
  { split.
    - rewrite Hb1. apply RevocationFacts.disconnect_revoked.
    - now rewrite Hb2. }
  refine (conj eq_refl (conj _ (conj Hrev (conj _ (conj _ (conj _ (conj eq_refl _))))))).
  - rewrite Hb1. unfold Cloud.disconnect, Cloud.stopHeartbeat.
    destruct (cloudClient b) as [bn pr w au te rt hb ra sr le hv ec rc]. cbn.
    now destruct hb.
  - now rewrite Hb2.
  - now rewrite Hb2.
  - now apply RevocationFacts.run_revoked.
  - unfold timer. cbn [Server.step Server.on_close_timer fst].
    unfold Server.isBridgeConnected, Server.registered. cbn.
    now rewrite (ServerFacts.map_get_delete bridge _ Hn).
Qed.

Lemma user_disconnect_unpairs_bridge_witness :
  revoked (fst (downlink tk0 0
                  (snd (Server.step 60000 (accept_all 90)
                          (Server.DisconnectBridgeByUserId "42" "user_reset")
                          in_session))
                  both_up)).
Proof.
  exact (proj1 (proj2 (proj2
           (user_disconnect_unpairs_bridge 60000
              [(accept_all 0, Server.Connection);
               (accept_all 10, Server.Message 0%nat (auth_frame "helm-bridge-abcd1234"))]
              (accept_all 90) "42" "user_reset" "helm-bridge-abcd1234" 0 tk0 both_up []
              eq_refl (or_intror eq_refl) eq_refl (List.Forall_nil _))))).
Defined.

End WireFacts.
